(* ===== verification/_CoqProject ===== *)
-Q . S2P
Prelude.v
Hashing.v
MerkleSpec.v
ChangeLog.v
MerkleRoll.v
MerkleRollSpec.v
MerkleRollLemmas.v
MerkleRollWrite.v
MerkleRollTotal.v
MerkleRollAppend.v
MerkleRollInit.v
MerkleRollTheorems.v
MerkleRollTrace.v
MerkleRollTyped.v
MerkleRollLimits.v
MerkleRollWitnesses.v
Accumulator.v
AccumulatorLemmas.v
AccumulatorTheorems.v
AccumulatorProperties.v
EllipticAccumulator.v
Solana.v
Gummyroll.v
GummyrollCanopy.v
GummyrollTheorems.v
GummyrollSound.v
GummyrollLimits.v
LeafSchema.v
MerkleWallet.v
MerkleWalletTheorems.v
Database.v
Text.v
Json.v
ChangeLogStore.v
ChangeLogStoreTheorems.v
IndexedTree.v
ProofApi.v
ProofApiTheorems.v
ProofApiProperties.v
AssetApi.v
Backfiller.v
BackfillerTheorems.v
Messenger.v
NftApi.v
ProgramLogs.v
ProgramLogsTheorems.v
Plerkle.v
FlatBuffers.v
TransactionTable.v
ReplicaTables.v
Pipeline.v
PlerkleTheorems.v
PipelineTheorems.v
TablesTheorems.v
PipelineWitnesses.v
Bubblegum.v
AssetStore.v
BubblegumLedger.v
BubblegumTheorems.v
BubblegumProperties.v
BubblegumWitnesses.v
AssetStoreTheorems.v
AssetLedger.v
AssetMetadata.v
AssetApiTheorems.v
IndexerWitnesses.v
EndToEnd.v
Gumball.v
GumballTheorems.v
GumballSale.v
GumballConfig.v
GumballProperties.v
GumballWitnesses.v
SugarShack.v
SugarTheorems.v
SugarWitnesses.v
ReferenceTree.v
ReferenceTreeTheorems.v
ReferenceTreeClimb.v
ReferenceTreeProperties.v
