(* ===== verification/Prelude.v ===== *)
(** * Candyland: a verification development

    Candyland keeps NFTs as leaves of Merkle trees on Solana and serves them from an
    index off the chain.  This library models the programs, the indexer and the
    tools around them, and proves what they promise to each other.

    ** The program and its parts

    - [lib/concurrent-merkle-tree]: a Merkle tree of which only the roots, a buffer of
      the last changes and one path are kept.  A writer brings a proof that may be
      stale; the buffer brings it up to date.
    - [contracts/programs/gummyroll] (with [candy-wrapper], which only logs): an account
      that holds such a tree, its authority and a canopy of upper nodes, so that
      submitted proofs may be shorter.
    - [contracts/programs/bubblegum]: compressed NFTs.  A leaf is the hash of an owner, a
      delegate, a nonce and the hashes of metadata and creators; minting, transferring,
      burning, redeeming into vouchers and decompressing replace leaves of the tree
      through calls of gummyroll, and log events.
    - [contracts/programs/gumball-machine]: a sale of compressed NFTs, drawn at random
      from configured lines; [contracts/programs/sugar-shack]: a marketplace that holds
      the delegate of what it lists.
    - [plerkle]: a plugin of the validator that selects accounts, slots, transactions and
      blocks, serializes them ([plerkle_serialization]) and sends them on streams
      ([messenger]).
    - [nft_ingester]: reads the streams, cuts the logs of a transaction per instruction,
      and stores change logs and assets in the database ([digital_asset_types]); a
      background loop downloads metadata, a backfiller tidies its queue.
    - [nft_api], [das_api]: answer requests for proofs and assets from the database.
    - [lib/merkle-tree-reference]: the whole tree in memory, as clients and tests keep it.
    - [archive]: the prototypes of the concurrent tree, of a wallet of compressed NFTs and
      of an accumulator on an elliptic curve.

    The parts meet in three places.  Gummyroll calls the tree, and bubblegum, gumball
    and sugar shack call the one below them, as functions on the account that they
    share.  The indexer meets the programs in the events that they log.  The APIs meet
    clients in the proofs they serve, which go back into the programs.

    ** How the code is modelled

    A fallible function returns an [outcome]: a value, an error of the code's own type,
    a panic, or - only where the model needs fuel - [OutOfFuel].  A method with [&mut
    self] or an instruction is a [method], a function from the state to an outcome and
    the state it leaves, also when it fails.  Unsigned integers are [N] below their
    width; [+], [-], [*], [<<] and [>>] go through [wadd] .. [wshr], which panic or wrap
    as [BuildProfile] says, so every theorem holds in both builds.  Signed columns of
    the database are [Z] with their wrap-around.

    ** Files

    Shared: [Prelude] (this file), [Text] ([std::str]), [Json] ([serde_json::Value]),
    [Solana] (accounts, program errors, signers).

    The tree.  [Hashing] ([utils.rs], [Node]), [ChangeLog] ([state.rs]), [MerkleRoll]
    ([merkle_roll.rs], an operation per function).  [MerkleSpec] is the abstract tree, a
    finite map from indices to leaves with its roots and proofs; [MerkleRollSpec] relates
    a tree in memory to a history of abstract trees.  [MerkleRollLemmas], [..Write],
    [..Append], [..Init], [..Total] prove the pieces; [MerkleRollTheorems] that every
    operation refines its step of the abstract tree, or fails as specified, and always
    returns; [MerkleRollTrace] the same for whole histories; [MerkleRollLimits] what
    happens at the bounds (a full tree, a buffer that wrapped); [MerkleRollTyped] that
    every call keeps the state a value of its Rust types and that the ring holds the
    roots of the last writes, whatever was written.

    The tree program.  [Gummyroll] ([lib.rs], [state/mod.rs], [utils.rs], [error.rs]),
    [GummyrollCanopy] (the canopy is the top of the newest tree), [GummyrollTheorems]
    (each instruction refines the abstract write, under its authority and with shortened
    proofs), [GummyrollSound], [GummyrollLimits].

    Compressed NFTs.  [LeafSchema] ([state/leaf_schema.rs], [metaplex_adapter.rs]),
    [Bubblegum] ([lib.rs], [utils.rs]).  [BubblegumLedger] is the abstract ledger, leaves
    and vouchers with one step per event; [BubblegumTheorems] and [BubblegumProperties]
    prove that the program simulates it, that an NFT exists once and is decompressed
    once.

    Sale and market.  [Gumball] with [GumballTheorems], [GumballSale], [GumballConfig],
    [GumballProperties]: the invariant of the machine, that every configured item is
    drawn once, what a sale charges and mints.  [SugarShack] with [SugarTheorems]: the
    price that was listed is the price that is paid, and how it is split.

    The indexer.  [Database]: the tables of [digital_asset_types/src/dao] and statements
    that may fail, in transactions or not.  [ProgramLogs]: [nft_ingester/src/utils],
    [events], [parsers/mod.rs] and the two stream handlers of [main.rs].
    [ChangeLogStore] ([parsers/gummyroll.rs]) and [IndexedTree]: from the events of a
    history, in any order and with repetitions, the tables represent the newest tree.
    [AssetStore] ([parsers/bubblegum.rs], [tasks/mod.rs], [adapter]), with
    [AssetStoreTheorems] and [AssetLedger]: the rows of the assets follow the ledger of
    the program; [AssetMetadata]: every asset keeps its own row of metadata, and the
    background loop fills it.  [Backfiller] and [BackfillerTheorems].

    The APIs.  [ProofApi] ([nft_api/src/main.rs], [dapi/change_logs.rs]) with
    [ProofApiTheorems], and [ProofApiProperties], which closes the circle: a served
    proof is accepted by the program.  [NftApi] (the handlers and the router of
    [nft_api/src/main.rs]): from the text of a request to the response, and the
    requests that get none.  [AssetApi] ([dapi/asset.rs], [rpc/asset.rs],
    [das_api]) with [AssetApiTheorems]: an asset of the ledger is answered with its
    owner.  [EndToEnd] composes all of this: the program runs from a new tree, the
    ingester follows it over failures and background tasks, and both APIs answer for
    the NFTs and the leaves of the tree that the program holds at the end.

    The validator side.  [Messenger] ([messenger/src]), [Plerkle] ([plerkle/src], its
    selectors and serializer), [Pipeline] (the loops of the ingester on top), with
    [PlerkleTheorems] and [PipelineTheorems]: what the validator reports and the plugin
    selects is what the ingester reads.  A [recorder] over any messenger sees what the
    plugin sends; [RedisLaws] and [RedisUp] state what streams and consumer groups of a
    server that stays up give.  These use flatbuffers through an interface,
    [FlatbuffersSpec]; [FlatBuffers] is what the library offers, [TransactionTable] and
    [ReplicaTables] are the generated code ([plerkle_serialization/src]), and
    [TablesTheorems] proves that they implement the interface.

    The reference tree.  [ReferenceTree] is a heap of shared cells; [ReferenceTreeTheorems],
    [ReferenceTreeClimb] and [ReferenceTreeProperties] prove that it holds the abstract
    tree and that a client that keeps it has its writes accepted.

    The prototypes.  [Accumulator] ([archive/merkle-accumulator/src/main.rs]) with
    [AccumulatorLemmas], [AccumulatorTheorems] and [AccumulatorProperties]: the abstract
    trees of [MerkleRollSpec] specify it too, so it agrees with the library that
    succeeded it, except where the last leaf is overwritten.  [MerkleWallet]
    ([archive/merkle_wallet/src/lib.rs]) with [MerkleWalletTheorems]: compressing writes
    one leaf of the abstract tree, and a wallet accepts one NFT.  [EllipticAccumulator]
    ([archive/ecc-accumulator/src/main.rs]) refines a list of values with marks; a
    removal needs no membership.

    Files that end in [Witnesses] (and the last part of some others) instantiate the
    parameters and apply the theorems to concrete runs.

    ** Fuel

    Loops of the source that are not structural run with fuel, and theorems prove
    that what they are given is enough: [fast_forward_loop] one more than the size of
    the buffer, [canopy_loop] 33 for a path in 32 bits, [required_nodes_loop] 64 for a
    halving index, the queue of the reference tree twice the leaves and one, the climbs of
    that tree its number of cells and one; in the prototype, 65 for the loop over its
    ring of 64, and [CALL_DEPTH] 4 for the methods that call each other, of which at most
    four are active; in the accumulator on a curve, one more than the size of its ring.

    ** Parameters

    Code that is not in the repository is a class that the definitions take, with its
    documented laws as hypotheses of the theorems that need them: [Keccak];
    [EventCodec], [EventDecoder], [BubblegumCodec], [MintArguments] (Borsh and Anchor);
    [Pda]; [TokenPrograms], [WalletPrograms], [Payments], [SystemProgram],
    [InstructionsSysvar]; [SafeMath]; [Base58]; [LogSyntax] (regular expressions,
    base64); [FlatBuffersLibrary] with [FlatBuffersLaws]; [Redis] with [RedisLaws] and [RedisUp], [JsonParser],
    [PluginEnv]; [Faults] (which statements the database fails) and [RowOrder];
    [HttpClient]; [JsonPath], [Urls], [JsonBodies], [HashOrder]; [EdwardsCurve].  Collisions of Keccak are not assumed away: the
    theorems that need injectivity take the failure of [find_collision], a computable
    search over the nodes at hand, or state the collision as the other alternative.

    ** Not modelled

    Command-line tools, SDKs and the user interface (TypeScript); migrations and SQL
    scripts; tests; Docker files; the [main] functions that read the environment, open
    sockets and spawn threads (their loops and handlers are modelled); the
    transport of HTTP and the methods of JSON-RPC; metrics and printed lines; the methods of [das_api] that are
    [todo!()]; the derive boilerplate of the database layer; the wrappers that give
    accounts of other programs an Anchor type ([metaplex_anchor.rs],
    [spl_token_2022_anchor.rs]); the run-time borrow flags of [RefCell]. *)

From stdpp Require Export base tactics numbers list gmap strings vector.
From Stdlib Require Export Init.Byte.
From Stdlib Require Strings.Byte.
From Stdlib Require Export Lia.

#[global] Set Default Goal Selector "!".

(** ** Outcomes of a call

    A Rust function of the repository returns a value ([Ok]), returns an error
    of its own error type ([Err]), or panics ([Panic]: a failed [assert!], an
    index out of range, an [unwrap] of [None], an arithmetic overflow in a
    checked build).  A [loop] that the model runs with fuel ends in
    [OutOfFuel] when the fuel is spent; the development proves that the fuel it
    gives is enough. *)
Inductive outcome (E A : Type) : Type :=
  | Ok (a : A)
  | Err (e : E)
  | Panic
  | OutOfFuel.

Arguments Ok {E A} a.
Arguments Err {E A} e.
Arguments Panic {E A}.
Arguments OutOfFuel {E A}.

#[export] Instance outcome_ret E : MRet (outcome E) := λ A a, Ok a.

#[export] Instance outcome_bind E : MBind (outcome E) := λ A B f m,
  match m with
  | Ok a => f a
  | Err e => Err e
  | Panic => Panic
  | OutOfFuel => OutOfFuel
  end.

#[export] Instance outcome_fmap E : FMap (outcome E) := λ A B f m,
  match m with
  | Ok a => Ok (f a)
  | Err e => Err e
  | Panic => Panic
  | OutOfFuel => OutOfFuel
  end.

#[export] Instance outcome_eq_dec {E A} `{EqDecision E} `{EqDecision A} :
  EqDecision (outcome E A).
Proof. solve_decision. Defined.

(** [Result::map_err]. *)
Definition map_err {E F A} (f : E → F) (m : outcome E A) : outcome F A :=
  match m with
  | Ok a => Ok a
  | Err e => Err (f e)
  | Panic => Panic
  | OutOfFuel => OutOfFuel
  end.

(** [assert!(b)]. *)
Definition rust_assert {E} (b : bool) : outcome E unit := if b then Ok tt else Panic.

(** [Option::unwrap]. *)
Definition unwrap {E A} (o : option A) : outcome E A :=
  match o with Some a => Ok a | None => Panic end.

Definition is_ok {E A} (m : outcome E A) : bool := if m is Ok _ then true else false.

(** [Option::ok_or]. *)
Definition ok_or {E A} (o : option A) (e : E) : outcome E A :=
  match o with Some a => Ok a | None => Err e end.

(** Indexing [l[i]] and assigning [l[i] = x]; both panic out of range. *)
Definition index {E A} (l : list A) (i : N) : outcome E A :=
  if decide (i < N.of_nat (length l))%N then unwrap (l !! N.to_nat i) else Panic.

Definition index_set {E A} (l : list A) (i : N) (x : A) : outcome E (list A) :=
  if decide (i < N.of_nat (length l))%N then Ok (<[N.to_nat i := x]> l) else Panic.

(** [slice::split_at]. *)
Definition split_at {E A} (l : list A) (n : N) : outcome E (list A * list A) :=
  if decide (n ≤ N.of_nat (length l))%N then Ok (take (N.to_nat n) l, drop (N.to_nat n) l) else Panic.

(** The slice [l[a..b]]. *)
Definition slice {E A} (l : list A) (a b : N) : outcome E (list A) :=
  if decide (a ≤ b ≤ N.of_nat (length l))%N
  then Ok (take (N.to_nat (b - a)) (drop (N.to_nat a) l)) else Panic.

(** A [for] loop over a list whose body may fail. *)
Fixpoint foldM {E S A} (f : S → A → outcome E S) (s : S) (l : list A) : outcome E S :=
  match l with
  | [] => Ok s
  | a :: l => s' ← f s a; foldM f s' l
  end.

(** ** Methods with [&mut self]

    A method of a mutable object is a function from the object to an outcome
    and the object it leaves behind, also when it fails: a caller that
    recovers from an error sees the mutations made before it. *)
Definition method (S E A : Type) : Type := S → outcome E A * S.

#[export] Instance method_ret S E : MRet (method S E) := λ A a s, (Ok a, s).

#[export] Instance method_bind S E : MBind (method S E) := λ A B f m s,
  match m s with
  | (Ok a, s') => f a s'
  | (Err e, s') => (Err e, s')
  | (Panic, s') => (Panic, s')
  | (OutOfFuel, s') => (OutOfFuel, s')
  end.

Definition lift {S E A} (o : outcome E A) : method S E A := λ s, (o, s).

(** Recovering from an error, with the mutations made before it. *)
Definition or_else {S E A} (m : method S E A) (handler : E → method S E A) : method S E A := λ s,
  match m s with
  | (Err e, s') => handler e s'
  | r => r
  end.

(** The [Result] of a call as a value, and its [unwrap]. *)
Definition attempt {S E F A} (m : method S E A) : method S F (E + A) := λ s,
  match m s with
  | (Ok a, s') => (Ok (inr a), s')
  | (Err e, s') => (Ok (inl e), s')
  | (Panic, s') => (Panic, s')
  | (OutOfFuel, s') => (OutOfFuel, s')
  end.

Definition expect {S E F A} (m : method S E A) : method S F A :=
  r ← attempt m; lift (match r with inr a => Ok a | inl _ => Panic end).

(** A [for] loop over a list, whose body is a method. *)
Fixpoint for_each {S E A} (f : A → method S E unit) (l : list A) : method S E unit :=
  match l with
  | [] => mret tt
  | a :: l => f a;; for_each f l
  end.

(** A sequence of calls, with what each of them returned. *)
Fixpoint run_all {S E O A} (f : O → method S E A) (os : list O) : method S E (list A) :=
  match os with
  | [] => mret []
  | o :: os => r ← f o; rs ← run_all f os; mret (r :: rs)
  end.

Definition get {S E} : method S E S := λ s, (Ok s, s).
Definition gets {S E A} (f : S → A) : method S E A := λ s, (Ok (f s), s).
Definition modify {S E} (f : S → S) : method S E unit := λ s, (Ok tt, f s).

(** ** Machine integers

    An unsigned [w]-bit integer is an [N] below [2^w].  Rust's [+], [-], [*],
    [<<] and [>>] panic on overflow when the crate is built with overflow
    checks and wrap around when it is not; the development keeps both builds:
    [overflow_checks] is a parameter of every definition that uses one of
    them. *)
Class BuildProfile := overflow_checks : bool.

Abbreviation wrap w n := (n `mod` 2 ^ w)%N.

Section words.
Context `{BuildProfile} {E : Type}.
Local Open Scope N_scope.

Definition on_overflow {A} (wrapped : A) : outcome E A :=
  if overflow_checks then Panic else Ok wrapped.

Definition wadd (w a b : N) : outcome E N :=
  if decide (a + b < 2 ^ w) then Ok (a + b) else on_overflow (wrap w (a + b)).

Definition wsub (w a b : N) : outcome E N :=
  if decide (b ≤ a) then Ok (a - b) else on_overflow (wrap w (2 ^ w + a - b)).

Definition wmul (w a b : N) : outcome E N :=
  if decide (a * b < 2 ^ w) then Ok (a * b) else on_overflow (wrap w (a * b)).

Definition wshl (w a s : N) : outcome E N :=
  if decide (s < w) then Ok (wrap w (N.shiftl a s))
  else on_overflow (wrap w (N.shiftl a (s `mod` w))).

Definition wshr (w a s : N) : outcome E N :=
  if decide (s < w) then Ok (N.shiftr a s) else on_overflow (N.shiftr a (s `mod` w)).
End words.

(** The operations that wrap or saturate in every build. *)
Definition wrapping_sub (w a b : N) : N := ((2 ^ w + a - b) `mod` 2 ^ w)%N.
Definition saturating_add (w a b : N) : N := (N.min (a + b) (2 ^ w - 1))%N.

(** [leading_zeros] and [trailing_zeros]. *)
Definition leading_zeros (w a : N) : N := (w - N.size a)%N.

Fixpoint pos_trailing_zeros (p : positive) : N :=
  match p with xO p => N.succ (pos_trailing_zeros p) | _ => 0%N end.

Definition trailing_zeros (w a : N) : N :=
  match a with N0 => w | Npos p => pos_trailing_zeros p end.

#[global] Arguments wadd {_ _} w a b : simpl never.
#[global] Arguments wsub {_ _} w a b : simpl never.
#[global] Arguments wmul {_ _} w a b : simpl never.
#[global] Arguments wshl {_ _} w a s : simpl never.
#[global] Arguments wshr {_ _} w a s : simpl never.
#[global] Arguments wrapping_sub w a b : simpl never.
#[global] Arguments saturating_add w a b : simpl never.
#[global] Arguments leading_zeros w a : simpl never.
#[global] Arguments trailing_zeros w a : simpl never.
#[global] Arguments N.add : simpl never.
#[global] Arguments N.sub : simpl never.
#[global] Arguments N.mul : simpl never.
#[global] Arguments N.pow : simpl never.
#[global] Arguments N.shiftr : simpl never.
#[global] Arguments N.shiftl : simpl never.
#[global] Arguments N.land : simpl never.
#[global] Arguments N.lxor : simpl never.
#[global] Arguments N.of_nat : simpl never.
#[global] Arguments N.to_nat : simpl never.
#[global] Arguments N.testbit : simpl never.
#[global] Arguments N.modulo : simpl never.
#[global] Arguments N.div : simpl never.
#[global] Arguments N.eqb : simpl never.

(** ** Bytes *)
Abbreviation byte := Byte.byte.
Abbreviation bytes := (list Byte.byte).

#[export] Instance byte_eq_dec : EqDecision byte := Strings.Byte.byte_eq_dec.

#[export] Instance byte_countable : Countable byte :=
  inj_countable Strings.Byte.to_N Strings.Byte.of_N Strings.Byte.of_to_N.

Definition byte_of_N (n : N) : byte := default x00 (Strings.Byte.of_N (n `mod` 256)%N).

(** [to_le_bytes] of an integer of [n] bytes, and [from_le_bytes]. *)
Fixpoint to_le_bytes (n : nat) (a : N) : bytes :=
  match n with
  | O => []
  | S n => byte_of_N a :: to_le_bytes n (N.shiftr a 8)
  end.

Fixpoint from_le_bytes (l : bytes) : N :=
  match l with
  | [] => 0
  | b :: l => (Strings.Byte.to_N b + 256 * from_le_bytes l)%N
  end.

(** A 32-byte array, the type of hashes and of public keys. *)
Abbreviation bytes32 := (vec Byte.byte 32).

(** A transparent instance: [gmap]s keyed by arrays evaluate. *)
Definition list_to_array (n : nat) (l : bytes) : option (vec Byte.byte n) :=
  match decide (length l = n) with
  | left Hl => Some (eq_rect _ (vec Byte.byte) (list_to_vec l) _ Hl)
  | right _ => None
  end.

Lemma list_to_array_to_list {n} (v : vec Byte.byte n) : list_to_array n (vec_to_list v) = Some v.
Proof.
  unfold list_to_array. destruct (decide _) as [Hl|Hl].
  - f_equal. apply vec_to_list_inj2.
    transitivity (vec_to_list (list_to_vec (vec_to_list v))); [|apply vec_to_list_to_vec].
    generalize (list_to_vec (vec_to_list v)). destruct Hl. done.
  - destruct Hl. apply length_vec_to_list.
Qed.

#[export] Instance array_countable n : Countable (vec Byte.byte n) :=
  inj_countable (@vec_to_list _ n) (list_to_array n) list_to_array_to_list.

(** ** Lemmas on outcomes *)
Section outcome_lemmas.
Context {E A B : Type}.
Implicit Types (m : outcome E A) (f : A → outcome E B).

Lemma bind_Ok_inv m f b : m ≫= f = Ok b → ∃ a, m = Ok a ∧ f a = Ok b.
Proof. destruct m; simpl; intros; simplify_eq; eauto. Qed.

Lemma bind_Err_inv m f e :
  m ≫= f = Err e → m = Err e ∨ ∃ a, m = Ok a ∧ f a = Err e.
Proof. destruct m; simpl; intros; simplify_eq; eauto. Qed.

Lemma unwrap_Ok_inv (o : option A) a : unwrap (E:=E) o = Ok a → o = Some a.
Proof. destruct o; simpl; congruence. Qed.

Lemma rust_assert_inv (b : bool) u : rust_assert (E:=E) b = Ok u → b = true.
Proof. by destruct b. Qed.

Lemma index_lookup (l : list A) i a :
  l !! N.to_nat i = Some a → index (E:=E) l i = Ok a.
Proof.
  unfold index. intros Hl. rewrite Hl, decide_True; [done|].
  apply lookup_lt_Some in Hl. lia.
Qed.

Lemma index_Ok_inv (l : list A) i a :
  index (E:=E) l i = Ok a → l !! N.to_nat i = Some a.
Proof. unfold index. case_decide; [|done]. apply unwrap_Ok_inv. Qed.

Lemma index_ge (l : list A) i : (N.of_nat (length l) ≤ i)%N → index (E:=E) l i = Panic.
Proof. intros. unfold index. by rewrite decide_False by lia. Qed.

Lemma index_set_lt (l : list A) i a :
  N.to_nat i < length l → index_set (E:=E) l i a = Ok (<[N.to_nat i := a]> l).
Proof. intros. unfold index_set. by rewrite decide_True by lia. Qed.

Lemma index_set_Ok_inv (l : list A) i a l' :
  index_set (E:=E) l i a = Ok l' →
  N.to_nat i < length l ∧ l' = <[N.to_nat i := a]> l.
Proof. unfold index_set. case_decide; [|done]. intros [= <-]. split; [lia|done]. Qed.

Lemma split_at_app (l1 l2 : list A) n :
  N.to_nat n = length l1 → split_at (E:=E) (l1 ++ l2) n = Ok (l1, l2).
Proof.
  intros Hn. unfold split_at. rewrite decide_True, Hn by (rewrite length_app; lia).
  by rewrite take_app_length, drop_app_length.
Qed.

Lemma split_at_Ok_inv (l l1 l2 : list A) n :
  split_at (E:=E) l n = Ok (l1, l2) → l = l1 ++ l2 ∧ length l1 = N.to_nat n.
Proof.
  unfold split_at. case_decide; [|done]. intros [= <- <-].
  rewrite take_drop, length_take. split; [done|lia].
Qed.
End outcome_lemmas.

Lemma foldM_app {E S A} (f : S → A → outcome E S) l1 l2 s :
  foldM f s (l1 ++ l2) = s' ← foldM f s l1; foldM f s' l2.
Proof.
  revert s. induction l1 as [|a l1 IH]; intros s; simpl; [done|].
  destruct (f s a); simpl; auto.
Qed.

Lemma foldM_snoc {E A B} (f : list B → A → outcome E (list B)) (g : A → B) (l : list A) acc :
  (∀ acc x, x ∈ l → f acc x = Ok (acc ++ [g x])) → foldM f acc l = Ok (acc ++ (g <$> l)).
Proof.
  revert acc. induction l as [|x l IH]; intros acc Hf; simpl; [by rewrite app_nil_r|].
  rewrite Hf by left. simpl. rewrite IH by (intros; apply Hf; by right).
  by rewrite <-app_assoc.
Qed.

(** ** Lemmas on lists *)
Lemma filter_all {A} (P : A → Prop) `{∀ x, Decision (P x)} (l : list A) :
  (∀ x, x ∈ l → P x) → filter P l = l.
Proof.
  induction l as [|x l IH]; intros HP; [done|]. rewrite filter_cons_True by (apply HP; left).
  f_equal. apply IH. intros y Hy. apply HP. by right.
Qed.

Lemma filter_singleton_eq {A} (P : A → Prop) `{∀ x, Decision (P x)} (l : list A) x :
  NoDup l → x ∈ l → P x → (∀ y, y ∈ l → P y → y = x) → filter P l = [x].
Proof.
  intros Hnd Hx HP Hu. apply Permutation_singleton_r, NoDup_Permutation;
    [by apply NoDup_filter|apply NoDup_singleton|]. intros y.
  rewrite list_elem_of_singleton, list_elem_of_filter. naive_solver.
Qed.

Lemma list_filter_iff' {A} (P Q : A → Prop) `{∀ x, Decision (P x), ∀ x, Decision (Q x)} (l : list A) :
  (∀ x, x ∈ l → P x ↔ Q x) → filter P l = filter Q l.
Proof.
  induction l as [|x l IH]; intros Heq; [done|]. rewrite !filter_cons.
  rewrite IH by (intros y Hy; apply Heq; by right).
  pose proof (Heq x ltac:(by left)). repeat case_decide; tauto.
Qed.

Lemma length_omap_seq {A} (f : nat → option A) k n : length (omap f (seq k n)) ≤ n.
Proof.
  revert k. induction n as [|n IH]; intros k; [done|]. cbn [seq omap list_omap].
  specialize (IH (S k)). destruct (f k); simpl; lia.
Qed.

(** A filter that drops nothing. *)
Lemma omap_seq_full {A} (f : nat → option A) k n (g : nat → A) :
  length (omap f (seq k n)) = n → omap f (seq k n) = (λ i, default (g i) (f i)) <$> seq k n.
Proof.
  revert k. induction n as [|n IH]; intros k Hlen; [done|]. cbn [seq omap list_omap fmap list_fmap] in *.
  destruct (f k) as [x|]; simpl in *.
  - f_equal. apply IH. by injection Hlen.
  - pose proof (length_omap_seq f (S k) n). unfold omap in *. lia.
Qed.

(** Splits a hypothesis [e1 ≫= ... = Ok a] into the successful calls it is made of. *)
Ltac inv_ok :=
  repeat match goal with
  | H : Ok _ = Ok _ |- _ => injection H as H; try subst
  | H : mret _ = Ok _ |- _ => unfold mret, outcome_ret in H
  | H : Err _ = Ok _ |- _ => discriminate H
  | H : Panic = Ok _ |- _ => discriminate H
  | H : OutOfFuel = Ok _ |- _ => discriminate H
  | H : mbind _ _ = Ok _ |- _ =>
      let a := fresh "a" in let Ha := fresh "Hok" in
      apply bind_Ok_inv in H as (a & Ha & H); simpl in H
  | H : unwrap _ = Ok _ |- _ => apply unwrap_Ok_inv in H
  | H : rust_assert _ = Ok _ |- _ => apply rust_assert_inv in H
  end.

(** ** Lemmas on machine integers *)
Section word_lemmas.
Context `{BuildProfile} {E : Type}.
Local Open Scope N_scope.

Lemma wadd_ok w a b : a + b < 2 ^ w → wadd (E:=E) w a b = Ok (a + b).
Proof. intros. unfold wadd. by rewrite decide_True. Qed.

Lemma wsub_ok w a b : b ≤ a → wsub (E:=E) w a b = Ok (a - b).
Proof. intros. unfold wsub. by rewrite decide_True. Qed.

Lemma wmul_ok w a b : a * b < 2 ^ w → wmul (E:=E) w a b = Ok (a * b).
Proof. intros. unfold wmul. by rewrite decide_True. Qed.

Lemma wshl_ok w a s :
  s < w → N.shiftl a s < 2 ^ w → wshl (E:=E) w a s = Ok (N.shiftl a s).
Proof. intros. unfold wshl. by rewrite decide_True, N.mod_small. Qed.

Lemma wshr_ok w a s : s < w → wshr (E:=E) w a s = Ok (N.shiftr a s).
Proof. intros. unfold wshr. by rewrite decide_True. Qed.
End word_lemmas.

Section bit_lemmas.
Local Open Scope N_scope.

Lemma wrapping_sub_le w a b : b ≤ a → a < 2 ^ w → wrapping_sub w a b = a - b.
Proof.
  intros. unfold wrapping_sub.
  replace (2 ^ w + a - b) with (a - b + 1 * 2 ^ w) by lia.
  rewrite N.Div0.mod_add. apply N.mod_small. lia.
Qed.

Lemma saturating_add_small w a b : a + b < 2 ^ w → saturating_add w a b = a + b.
Proof. unfold saturating_add. lia. Qed.

Lemma land_mask a k : N.land a (2 ^ k - 1) = a `mod` 2 ^ k.
Proof. rewrite <-N.land_ones, N.ones_equiv. f_equal. lia. Qed.

Lemma shiftr_lt a n m : a < 2 ^ (n + m) → N.shiftr a n < 2 ^ m.
Proof.
  intros. rewrite N.shiftr_div_pow2. apply N.Div0.div_lt_upper_bound.
  by rewrite <-N.pow_add_r.
Qed.

Lemma shiftr_eq_0 a n : a < 2 ^ n → N.shiftr a n = 0.
Proof. intros. rewrite N.shiftr_div_pow2. by apply N.div_small. Qed.

Lemma land_1_testbit a n : (N.land (N.shiftr a n) 1 =? 0) = negb (N.testbit a n).
Proof.
  change 1 with (N.ones 1). rewrite N.land_ones, N.pow_1_r, <-N.bit0_mod.
  rewrite N.shiftr_spec by lia. rewrite N.add_0_l. by destruct (N.testbit a n).
Qed.

Lemma land_1_testbit_1 a n : (N.land (N.shiftr a n) 1 =? 1) = N.testbit a n.
Proof.
  change 1 with (N.ones 1). rewrite N.land_ones, N.pow_1_r, <-N.bit0_mod.
  rewrite N.shiftr_spec by lia. rewrite N.add_0_l. by destruct (N.testbit a n).
Qed.

Lemma shiftr_1_log2 x n : N.shiftr x n = 1 ↔ x ≠ 0 ∧ N.log2 x = n.
Proof.
  split.
  - intros Hx. assert (x ≠ 0) by (intros ->; by rewrite N.shiftr_0_l in Hx).
    split; [done|].
    assert (N.log2 (N.shiftr x n) = 0) as Hl by by rewrite Hx.
    rewrite N.log2_shiftr in Hl.
    destruct (N.lt_ge_cases (N.log2 x) n) as [Hlt|]; [|lia].
    by rewrite (N.shiftr_eq_0 x n Hlt) in Hx.
  - intros [Hx Hn].
    assert (N.shiftr x n ≠ 0).
    { intros Hz. apply N.shiftr_eq_0_iff in Hz. lia. }
    assert (N.log2 (N.shiftr x n) = 0) by (rewrite N.log2_shiftr; lia).
    assert (N.shiftr x n < 2) by (apply (N.log2_lt_pow2 _ 1); lia). lia.
Qed.

Lemma log2_lt_pow2' x n : 0 < x → x < 2 ^ n → N.log2 x < n.
Proof. intros. by apply N.log2_lt_pow2. Qed.

Lemma lxor_lt a b n : a < 2 ^ n → b < 2 ^ n → N.lxor a b < 2 ^ n.
Proof.
  intros Ha Hb. destruct (N.eq_dec (N.lxor a b) 0) as [->|Hn]; [lia|].
  assert (N.shiftr (N.lxor a b) n = 0) as Hz.
  { by rewrite N.shiftr_lxor, !shiftr_eq_0. }
  apply N.shiftr_eq_0_iff in Hz as [?|[? ?]]; [done|].
  by apply N.log2_lt_pow2; [lia|].
Qed.

Lemma lxor_neq_0 a b : a ≠ b → N.lxor a b ≠ 0.
Proof. intros Hne ?%N.lxor_eq. done. Qed.

Lemma size_log2 a : a ≠ 0 → N.size a = N.log2 a + 1.
Proof. intros. rewrite N.size_log2 by done. lia. Qed.
End bit_lemmas.

(** ** Lemmas on bytes *)
Lemma to_N_byte_of_N n : Strings.Byte.to_N (byte_of_N n) = (n `mod` 256)%N.
Proof.
  unfold byte_of_N. destruct (Strings.Byte.of_N (n `mod` 256)%N) eqn:Hb; simpl.
  - by apply Strings.Byte.to_of_N_iff.
  - apply Strings.Byte.of_N_None_iff in Hb.
    pose proof (N.mod_lt n 256 ltac:(done)). lia.
Qed.

Lemma length_to_le_bytes n a : length (to_le_bytes n a) = n.
Proof. revert a. induction n; simpl; auto. Qed.

Lemma from_to_le_bytes n a :
  (a < 2 ^ (8 * N.of_nat n))%N → from_le_bytes (to_le_bytes n a) = a.
Proof.
  revert a. induction n as [|n IH]; intros a Ha; simpl; [simpl in Ha; lia|].
  rewrite to_N_byte_of_N, IH.
  - rewrite N.shiftr_div_pow2. change (2 ^ 8)%N with 256%N.
    pose proof (N.div_mod a 256). lia.
  - apply shiftr_lt. by replace (8 + 8 * N.of_nat n)%N with (8 * N.of_nat (S n))%N by lia.
Qed.

Lemma to_le_bytes_inj n a b :
  (a < 2 ^ (8 * N.of_nat n))%N → (b < 2 ^ (8 * N.of_nat n))%N →
  to_le_bytes n a = to_le_bytes n b → a = b.
Proof.
  intros Ha Hb Heq. rewrite <-(from_to_le_bytes n a), <-(from_to_le_bytes n b) by done.
  by rewrite Heq.
Qed.

(** Splitting a concatenation of fields of known length. *)
Lemma bytes32_app_inj (a b : bytes32) (l k : bytes) :
  vec_to_list a ++ l = vec_to_list b ++ k → a = b ∧ l = k.
Proof.
  intros Heq. apply app_inj_1 in Heq as [?%vec_to_list_inj2 ?]; [done|].
  by rewrite !length_vec_to_list.
Qed.

(** ** Stepping through a computation

    [ok_step] runs the first call of the computation on the left of the goal's
    equation: machine arithmetic whose bounds [lia] proves, or indexing.  *)
Ltac head_call t :=
  lazymatch t with
  | mbind _ ?m => head_call m
  | fmap _ ?m => head_call m
  | _ => t
  end.

Ltac ok_step_with tac :=
  match goal with
  | |- context [@eq _ ?lhs] =>
      let h := head_call lhs in
      lazymatch h with
      | wadd ?w ?a ?b => rewrite (wadd_ok w a b) by tac
      | wsub ?w ?a ?b => rewrite (wsub_ok w a b) by tac
      | wmul ?w ?a ?b => rewrite (wmul_ok w a b) by tac
      | wshl ?w ?a ?b => rewrite (wshl_ok w a b) by tac
      | wshr ?w ?a ?b => rewrite (wshr_ok w a b) by tac
      | index_set ?l ?i ?x => rewrite (index_set_lt l i x) by tac
      end
  end; simpl.

Ltac ok_step := ok_step_with ltac:(lia).

(** ** Running a method

    [run_method] unfolds the plumbing of a method, so that the calls it lifts
    can be rewritten. *)
Ltac run_method :=
  unfold mbind, method_bind, mret, method_ret, lift, get, modify;
  cbn beta iota.

Lemma lift_Ok_inv {S E A} (o : outcome E A) (s s' : S) x : lift o s = (Ok x, s') → o = Ok x ∧ s' = s.
Proof. by intros [= -> ->]. Qed.

Lemma method_bind_Ok_inv {S E A C} (f : A → method S E C) (m : method S E A) s y s' :
  (m ≫= f) s = (Ok y, s') → ∃ x s1, m s = (Ok x, s1) ∧ f x s1 = (Ok y, s').
Proof. unfold mbind, method_bind. destruct (m s) as [[x|e| |] s1]; try done. eauto. Qed.

Lemma run_all_cons {S E O A} (f : O → method S E A) o os s s1 s2 x xs :
  f o s = (Ok x, s1) → run_all f os s1 = (Ok xs, s2) → run_all f (o :: os) s = (Ok (x :: xs), s2).
Proof. intros Ho Hos. simpl. unfold mbind, method_bind. rewrite Ho. by rewrite Hos. Qed.

Lemma get_Ok_inv {S E} (s : S) x s' : get (E:=E) s = (Ok x, s') → x = s ∧ s' = s.
Proof. by intros [= -> ->]. Qed.

Lemma modify_Ok_inv {S E} (f : S → S) s x s' :
  modify (E:=E) f s = (Ok x, s') → s' = f s.
Proof. by intros [= _ <-]. Qed.

(** Splits a hypothesis that a method succeeded into the calls it is made of, and
    the guards it passed. *)
Ltac inv_method :=
  repeat (match goal with
  | H : mbind _ _ _ = (Ok _, _) |- _ =>
      let x := fresh "x" in let s := fresh "s" in let Hm := fresh "Hm" in
      apply method_bind_Ok_inv in H as (x & s & Hm & H)
  | H : mbind _ _ = Ok _ |- _ =>
      let x := fresh "x" in let Hm := fresh "Hm" in apply bind_Ok_inv in H as (x & Hm & H)
  | H : lift _ _ = (Ok _, _) |- _ => apply lift_Ok_inv in H as [H ?]
  | H : Err _ = Ok _ |- _ => discriminate H
  | H : mret _ _ = (Ok _, _) |- _ => injection H as H
  | H : get _ = (Ok _, _) |- _ => apply get_Ok_inv in H as [? ?]
  | H : modify _ _ = (Ok _, _) |- _ => apply modify_Ok_inv in H
  | H : rust_assert _ = Ok _ |- _ => apply rust_assert_inv in H
  | H : bool_decide _ = true |- _ => apply bool_decide_eq_true in H
  | H : _ && _ = true |- _ => apply andb_true_iff in H as [? ?]
  | H : (let '(_, _) := ?p in _) _ = (Ok _, _) |- _ => destruct p
  end; subst; cbv zeta in * ).

(** Boolean comparisons in the hypotheses, as propositions. *)
Ltac inv_bool :=
  repeat match goal with
  | H : (_ =? _)%N = true |- _ => apply N.eqb_eq in H
  | H : (_ <=? _)%N = true |- _ => apply N.leb_le in H
  | H : (_ <? _)%N = true |- _ => apply N.ltb_lt in H
  | H : (_ <? _)%Z = true |- _ => apply Z.ltb_lt in H
  | H : (_ =? _)%nat = true |- _ => apply Nat.eqb_eq in H
  | H : (_ =? _)%N = false |- _ => apply N.eqb_neq in H
  | H : bool_decide _ = true |- _ => apply bool_decide_eq_true in H
  end.

(** Machine arithmetic that succeeded, and whose bounds [lia] proves. *)
Ltac inv_arith :=
  repeat match goal with
  | H : wmul ?w ?a ?b = Ok _ |- _ => rewrite (wmul_ok w a b) in H by lia; injection H as <-
  | H : wadd ?w ?a ?b = Ok _ |- _ => rewrite (wadd_ok w a b) in H by lia; injection H as <-
  | H : wsub ?w ?a ?b = Ok _ |- _ => rewrite (wsub_ok w a b) in H by lia; injection H as <-
  end.
