(* ===== verification/Hashing.v ===== *)
(** * Hashing: [lib/concurrent-merkle-tree/src/utils.rs] and the node type of [state.rs]

    Nodes, the hash of a parent, the hashes of empty subtrees, the root
    recomputed from a proof, and [fill_in_proof].  [solana_program::keccak::hashv]
    is a parameter ([Keccak]); a concrete, executable instance for the witnesses
    is [toy_hashv]. *)

From S2P Require Import Prelude.

(** [solana_program::keccak::hashv]: the hash of a list of byte slices. *)
Class Keccak := hashv : list bytes → bytes32.

(** [type Node = [u8; 32]] and [const EMPTY: Node = [0_u8; 32]]; the array's
    [Default] is [EMPTY] as well. *)
Abbreviation Node := (vec Byte.byte 32).
Definition EMPTY : Node := vreplicate 32 x00.

Section defs.
Context `{Keccak} `{BuildProfile} {E : Type}.

(** [hash_to_parent]: the new value of [node]. *)
Definition hash_to_parent (node sibling : Node) (is_left : bool) : Node :=
  if is_left then hashv [vec_to_list node; vec_to_list sibling]
  else hashv [vec_to_list sibling; vec_to_list node].

(** [empty_node], that is [empty_node_cached::<0>] on an empty cache. *)
Fixpoint empty_node (level : nat) : Node :=
  match level with
  | O => EMPTY
  | S target =>
      let lower_empty := empty_node target in
      hashv [vec_to_list lower_empty; vec_to_list lower_empty]
  end.

(** [empty_node_cached]; the cache is only read. *)
Definition empty_node_cached (level : nat) (cache : list Node) : Node :=
  match level with
  | O => EMPTY
  | S target =>
      let lower_empty :=
        match cache !! target with
        | Some c => if decide (c = EMPTY) then empty_node target else c
        | None => empty_node target
        end in
      hashv [vec_to_list lower_empty; vec_to_list lower_empty]
  end.

(** [recompute]: the loop over [proof.iter().enumerate()], from [depth] on. *)
Fixpoint recompute_from (depth : nat) (current_node : Node) (proof : list Node) (index : N) :
    outcome E Node :=
  match proof with
  | [] => Ok current_node
  | sibling :: proof =>
      sh ← wshr 32 index (N.of_nat depth);
      recompute_from (S depth) (hash_to_parent current_node sibling (N.land sh 1 =? 0)%N) proof index
  end.

Definition recompute (leaf : Node) (proof : list Node) (index : N) : outcome E Node :=
  recompute_from 0 leaf proof index.

(** [fill_in_proof]: copies the given proof and completes it with empty nodes. *)
Definition fill_in_proof (MAX_DEPTH : nat) (proof_vec full_proof : list Node) :
    outcome E (list Node) :=
  let len := length proof_vec in
  full_proof ←
    (if decide (0 < len) then
       '(_, rest) ← split_at full_proof (N.of_nat len);
       Ok (proof_vec ++ rest)
     else Ok full_proof);
  foldM (λ full_proof i, index_set full_proof (N.of_nat i) (empty_node i))
    full_proof (seq len (MAX_DEPTH - len)).
End defs.

(** A concrete hash for the witnesses: the bytes read as digits in base
    257, modulo [2^61]. *)
Fixpoint vec_of_bytes (n : nat) (l : bytes) : vec Byte.byte n :=
  match n with
  | O => [#]
  | S n => default x00 (head l) ::: vec_of_bytes n (tail l)
  end.

Definition toy_hashv (vals : list bytes) : bytes32 :=
  vec_of_bytes 32 (to_le_bytes 32
    (foldl (λ acc b, N.land (257 * acc + Strings.Byte.to_N b + 1) 2305843009213693951)%N 7%N (concat vals))).

(** The node whose first bytes hold a number: distinct leaves for the witnesses. *)
Definition toy_node (n : N) : Node := vec_of_bytes 32 (to_le_bytes 32 n).

(** ** Lemmas *)
Section lemmas.
Context `{Keccak} `{BuildProfile} {E : Type}.

(** The root of a proof, without the panics of [recompute]. *)
Fixpoint hash_path (depth : nat) (node : Node) (proof : list Node) (index : N) : Node :=
  match proof with
  | [] => node
  | sibling :: proof =>
      hash_path (S depth) (hash_to_parent node sibling (negb (N.testbit index (N.of_nat depth))))
        proof index
  end.

Lemma recompute_from_ok depth node proof index :
  depth + length proof ≤ 32 →
  recompute_from (E:=E) depth node proof index = Ok (hash_path depth node proof index).
Proof.
  revert depth node. induction proof as [|s proof IH]; intros depth node Hlen; simpl in *; [done|].
  rewrite wshr_ok by lia. simpl. rewrite land_1_testbit. apply IH. lia.
Qed.

Lemma recompute_ok leaf proof index :
  length proof ≤ 32 → recompute (E:=E) leaf proof index = Ok (hash_path 0 leaf proof index).
Proof. intros. by apply recompute_from_ok. Qed.

Lemma hash_path_app depth node p1 p2 index :
  hash_path depth node (p1 ++ p2) index =
  hash_path (depth + length p1) (hash_path depth node p1 index) p2 index.
Proof.
  revert depth node. induction p1 as [|s p1 IH]; intros depth node; simpl.
  - by rewrite Nat.add_0_r.
  - rewrite IH. by replace (S depth + length p1) with (depth + S (length p1)) by lia.
Qed.

(** Only the bits of the index below the length of the proof are read. *)
Lemma hash_path_index depth node proof i j :
  (∀ k, depth ≤ k < depth + length proof → N.testbit i (N.of_nat k) = N.testbit j (N.of_nat k)) →
  hash_path depth node proof i = hash_path depth node proof j.
Proof.
  revert depth node. induction proof as [|s proof IH]; intros depth node Hbits; simpl in *; [done|].
  rewrite Hbits by lia. apply IH. intros k Hk. apply Hbits. lia.
Qed.

(** A cache whose entries are unset or right does not change the result. *)
Lemma empty_node_cached_spec level cache :
  (∀ i c, cache !! i = Some c → c = EMPTY ∨ c = empty_node i) →
  empty_node_cached level cache = empty_node level.
Proof.
  intros Hc. destruct level as [|target]; simpl; [done|].
  destruct (cache !! target) as [c|] eqn:Hl; [|done].
  case_decide; [done|]. by destruct (Hc _ _ Hl) as [?| ->].
Qed.

Lemma empty_node_cached_replicate level n :
  empty_node_cached level (replicate n EMPTY) = empty_node level.
Proof.
  apply empty_node_cached_spec. intros i c Hl. left. by apply lookup_replicate in Hl as [-> _].
Qed.

Lemma fill_loop_ok (l0 : list Node) base k :
  base + k ≤ length l0 →
  foldM (E:=E) (λ full i, index_set full (N.of_nat i) (empty_node i)) l0 (seq base k) =
  Ok (take base l0 ++ (empty_node <$> seq base k) ++ drop (base + k) l0).
Proof.
  induction k as [|k IH]; intros Hlen.
  - simpl. by rewrite Nat.add_0_r, take_drop.
  - rewrite seq_S, foldM_app, IH, fmap_app by lia. simpl.
    rewrite index_set_lt by (rewrite !length_app, length_take, length_fmap, length_seq, length_drop; lia).
    simpl. f_equal. rewrite Nat2N.id.
    destruct (lookup_lt_is_Some_2 l0 (base + k)) as [x Hx]; [lia|].
    rewrite (drop_S l0 x) by done.
    rewrite !app_assoc, insert_app_r_alt by (rewrite length_app, length_take, length_fmap, length_seq; lia).
    rewrite length_app, length_take, length_fmap, length_seq.
    replace (base + k - (base `min` length l0 + k)) with 0 by lia. simpl.
    rewrite <-!app_assoc. simpl. do 4 f_equal. lia.
Qed.

Lemma fill_in_proof_ok d proof_vec :
  length proof_vec ≤ d →
  fill_in_proof (E:=E) d proof_vec (replicate d EMPTY) =
  Ok (proof_vec ++ (empty_node <$> seq (length proof_vec) (d - length proof_vec))).
Proof.
  intros Hlen. unfold fill_in_proof.
  assert ((if decide (0 < length proof_vec) then
       '(_, rest) ← split_at (replicate d EMPTY) (N.of_nat (length proof_vec));
       Ok (E:=E) (proof_vec ++ rest)
     else Ok (replicate d EMPTY)) = Ok (proof_vec ++ drop (length proof_vec) (replicate d EMPTY))) as ->.
  { case_decide.
    - unfold split_at. rewrite decide_True by (rewrite length_replicate; lia).
      simpl. by rewrite Nat2N.id.
    - destruct proof_vec; simpl in *; [done|lia]. }
  simpl. rewrite fill_loop_ok by (rewrite length_app, length_drop, length_replicate; lia).
  rewrite take_app_length, drop_ge by (rewrite length_app, length_drop, length_replicate; lia).
  by rewrite app_nil_r.
Qed.

Lemma fill_in_proof_too_long d proof_vec full :
  length full = d → d < length proof_vec → fill_in_proof (E:=E) d proof_vec full = Panic.
Proof.
  intros Hd Hlen. unfold fill_in_proof. rewrite decide_True by lia.
  unfold split_at. by rewrite decide_False by lia.
Qed.
End lemmas.
