(* ===== verification/MerkleSpec.v ===== *)
(** * The abstract Merkle tree

    What a tree of depth [d] means, independently of the change-log machinery:
    the leaves are a finite map from indices to nodes (an absent leaf is
    [EMPTY]); [tnode T l i] is the [i]-th node of level [l] (level 0 holds the
    leaves), [troot], [tproof] and [tpath] are the root, the proof of a leaf and
    the nodes on the path of a leaf.  The lemmas say how they change when a leaf
    is written, and what a proof that recomputes the root says about the tree. *)

From S2P Require Import Prelude Hashing.

Abbreviation tree := (gmap N Node).

Abbreviation ix i l := (N.shiftr i (N.of_nat l)).

Section defs.
Context `{Keccak}.
Implicit Types (T : tree) (d l : nat) (i : N).

Definition leaf_at T i : Node := default EMPTY (T !! i).

Fixpoint tnode T l i : Node :=
  match l with
  | O => leaf_at T i
  | S l => hashv [vec_to_list (tnode T l (2 * i)%N); vec_to_list (tnode T l (2 * i + 1)%N)]
  end.

Definition troot T d : Node := tnode T d 0.

(** The index, at level [l], of the sibling of the ancestor of leaf [i]. *)
Definition sibling_ix i l : N := N.lxor (ix i l) 1.

Definition tproof T d i : list Node := (λ l, tnode T l (sibling_ix i l)) <$> seq 0 d.

Definition tpath T d i : list Node := (λ l, tnode T l (ix i l)) <$> seq 0 d.

(** The level at which the paths of two leaves meet: the proof of the one holds
    a node of the path of the other at this level, and only there. *)
Definition critbit i j : nat := N.to_nat (N.log2 (N.lxor i j)).

(** A genuine collision of the hash: different concatenated inputs, one output. *)
Definition is_collision (p : list bytes * list bytes) : Prop :=
  concat p.1 ≠ concat p.2 ∧ hashv p.1 = hashv p.2.

(** The search that turns a proof of a wrong leaf into a collision: it walks the
    path and compares what is hashed with what the tree holds. *)
Fixpoint find_collision T (depth : nat) (node : Node) (proof : list Node) (i : N) :
    option (list bytes * list bytes) :=
  match proof with
  | [] => None
  | s :: proof =>
      let left := negb (N.testbit i (N.of_nat depth)) in
      let mine := if left then [vec_to_list node; vec_to_list s]
                  else [vec_to_list s; vec_to_list node] in
      let theirs := [vec_to_list (tnode T depth (2 * ix i (S depth))%N);
                     vec_to_list (tnode T depth (2 * ix i (S depth) + 1)%N)] in
      if decide (concat mine ≠ concat theirs ∧ hashv mine = hashv theirs)
      then Some (mine, theirs)
      else find_collision T (S depth) (hash_to_parent node s left) proof i
  end.
End defs.

(** ** Indices *)
Section indices.
Local Open Scope N_scope.

Lemma ix_S i l : ix i (S l) = N.shiftr (ix i l) 1.
Proof. rewrite N.shiftr_shiftr. f_equal. lia. Qed.

Lemma ix_0 i : ix i 0 = i.
Proof. apply N.shiftr_0_r. Qed.

Lemma ix_ix i l k : ix (ix i l) k = ix i (l + k)%nat.
Proof. rewrite N.shiftr_shiftr. f_equal. lia. Qed.

Lemma ix_lt i l d : (l ≤ d)%nat → i < 2 ^ N.of_nat d → ix i l < 2 ^ N.of_nat (d - l).
Proof.
  intros. apply shiftr_lt. by replace (N.of_nat l + N.of_nat (d - l)) with (N.of_nat d) by lia.
Qed.

Lemma ix_eq_0 i d : i < 2 ^ N.of_nat d → ix i d = 0.
Proof. apply shiftr_eq_0. Qed.

(** The ancestor of [i] at level [l] is a left or a right child. *)
Lemma ix_children i l :
  ix i l = (if N.testbit i (N.of_nat l) then 2 * ix i (S l) + 1 else 2 * ix i (S l)) ∧
  sibling_ix i l = (if N.testbit i (N.of_nat l) then 2 * ix i (S l) else 2 * ix i (S l) + 1).
Proof.
  unfold sibling_ix. rewrite ix_S.
  replace (N.testbit i (N.of_nat l)) with (N.testbit (ix i l) 0)
    by (rewrite N.shiftr_spec by lia; f_equal; lia).
  generalize (ix i l). intros [|[p|p|]]; by simpl.
Qed.

Lemma double_ix i l k : 2 * k = ix i l ∨ 2 * k + 1 = ix i l → k = ix i (S l).
Proof.
  rewrite ix_S, <-N.div2_spec, N.div2_div. generalize (ix i l). intros n [<-|<-].
  - by rewrite N.mul_comm, N.div_mul.
  - rewrite N.add_comm, N.mul_comm, N.div_add by done. by change (1 / 2) with 0.
Qed.

Lemma sibling_ix_neq i l : sibling_ix i l ≠ ix i l.
Proof. destruct (ix_children i l) as [-> ->]. destruct (N.testbit _ _); lia. Qed.

Lemma sibling_ix_critbit i j l :
  sibling_ix i l = ix j l ↔ i ≠ j ∧ l = critbit i j.
Proof.
  unfold sibling_ix, critbit.
  assert (N.lxor (ix i l) 1 = ix j l ↔ ix (N.lxor i j) l = 1) as ->.
  { rewrite N.shiftr_lxor. split; intros Heq.
    - by rewrite <-Heq, <-N.lxor_assoc, N.lxor_nilpotent, N.lxor_0_l.
    - by rewrite <-Heq, <-N.lxor_assoc, N.lxor_nilpotent, N.lxor_0_l. }
  rewrite shiftr_1_log2. split.
  - intros [Hne Hl]. split; [|lia]. intros ->. by rewrite N.lxor_nilpotent in Hne.
  - intros [Hne ->]. split; [by apply lxor_neq_0|lia].
Qed.

Lemma critbit_lt i j d :
  i ≠ j → i < 2 ^ N.of_nat d → j < 2 ^ N.of_nat d → (critbit i j < d)%nat.
Proof.
  intros Hne Hi Hj. unfold critbit.
  pose proof (lxor_neq_0 _ _ Hne). pose proof (lxor_lt _ _ _ Hi Hj).
  assert (N.log2 (N.lxor i j) < N.of_nat d) by (apply log2_lt_pow2'; lia). lia.
Qed.

Lemma critbit_sym i j : critbit i j = critbit j i.
Proof. unfold critbit. by rewrite N.lxor_comm. Qed.
End indices.

(** ** Nodes of the tree *)
Section tree_lemmas.
Context `{Keccak}.
Implicit Types (T : tree) (d l : nat) (i j : N).

Lemma leaf_at_insert T i v : leaf_at (<[i:=v]> T) i = v.
Proof. unfold leaf_at. by rewrite lookup_insert_eq. Qed.

Lemma leaf_at_insert_ne T i j v : i ≠ j → leaf_at (<[i:=v]> T) j = leaf_at T j.
Proof. intros. unfold leaf_at. by rewrite lookup_insert_ne. Qed.

(** Nodes depend on the leaves below them only. *)
Lemma tnode_ext T1 T2 l k :
  (∀ i, ix i l = k → leaf_at T1 i = leaf_at T2 i) → tnode T1 l k = tnode T2 l k.
Proof.
  revert k. induction l as [|l IH]; intros k Hext; simpl.
  - apply Hext, ix_0.
  - rewrite (IH (2 * k)%N), (IH (2 * k + 1)%N); [done|..];
      intros i Hi; apply Hext; symmetry; apply double_ix; eauto.
Qed.

Lemma tnode_insert_ne T i v l k :
  k ≠ ix i l → tnode (<[i:=v]> T) l k = tnode T l k.
Proof.
  intros Hne. apply tnode_ext. intros j Hj. apply leaf_at_insert_ne. by intros <-.
Qed.

Lemma leaf_at_empty i : leaf_at ∅ i = EMPTY.
Proof. done. Qed.

Lemma tnode_empty T l k :
  (∀ i, ix i l = k → leaf_at T i = EMPTY) → tnode T l k = empty_node l.
Proof.
  intros HE. rewrite (tnode_ext T ∅) by (intros i Hi; by rewrite HE).
  clear HE. revert k. induction l as [|l IH]; intros k; simpl; [done|]. by rewrite !IH.
Qed.

Lemma length_tproof T d i : length (tproof T d i) = d.
Proof. unfold tproof. by rewrite length_fmap, length_seq. Qed.

Lemma length_tpath T d i : length (tpath T d i) = d.
Proof. unfold tpath. by rewrite length_fmap, length_seq. Qed.

Lemma lookup_tproof T d i l :
  l < d → tproof T d i !! l = Some (tnode T l (sibling_ix i l)).
Proof. intros. unfold tproof. by rewrite list_lookup_fmap, lookup_seq_lt. Qed.

Lemma lookup_tpath T d i l : l < d → tpath T d i !! l = Some (tnode T l (ix i l)).
Proof. intros. unfold tpath. by rewrite list_lookup_fmap, lookup_seq_lt. Qed.

Lemma lookup_tproof_ge T d i l : d ≤ l → tproof T d i !! l = None.
Proof. intros. apply lookup_ge_None. by rewrite length_tproof. Qed.

(** One step up the path. *)
Lemma hash_to_parent_tnode T i l :
  hash_to_parent (tnode T l (ix i l)) (tnode T l (sibling_ix i l))
    (negb (N.testbit i (N.of_nat l))) = tnode T (S l) (ix i (S l)).
Proof.
  destruct (ix_children i l) as [-> ->]. unfold hash_to_parent.
  by destruct (N.testbit i (N.of_nat l)).
Qed.

Lemma hash_path_tnode T i k n :
  hash_path k (tnode T k (ix i k)) ((λ l, tnode T l (sibling_ix i l)) <$> seq k n) i =
  tnode T (k + n) (ix i (k + n)).
Proof.
  revert k. induction n as [|n IH]; intros k; cbn [seq fmap list_fmap hash_path].
  - by rewrite Nat.add_0_r.
  - rewrite hash_to_parent_tnode, IH. by replace (S k + n) with (k + S n) by lia.
Qed.

(** A leaf with its proof recomputes the root. *)
Lemma hash_path_tproof T d i :
  (i < 2 ^ N.of_nat d)%N → hash_path 0 (leaf_at T i) (tproof T d i) i = troot T d.
Proof.
  intros Hi. pose proof (hash_path_tnode T i 0 d) as Hp.
  rewrite ix_0 in Hp. simpl in Hp. unfold troot. rewrite <-(ix_eq_0 i d) by done. exact Hp.
Qed.

(** ** Writing a leaf *)
Lemma tproof_insert_self T d i v : tproof (<[i:=v]> T) d i = tproof T d i.
Proof.
  apply list_fmap_ext. intros k l Hl. apply tnode_insert_ne, sibling_ix_neq.
Qed.

(** The proof of another leaf changes at the critical bit only, where it takes
    the node of the path of the written leaf. *)
Lemma tproof_insert_ne T d i j v :
  i ≠ j →
  tproof (<[j:=v]> T) d i =
  <[critbit i j := tnode (<[j:=v]> T) (critbit i j) (ix j (critbit i j))]> (tproof T d i).
Proof.
  intros Hne. apply list_eq. intros l.
  destruct (decide (l < d)) as [Hl|Hl]; last first.
  { rewrite !(proj2 (lookup_ge_None _ _)); [done|..];
      rewrite ?length_insert, length_tproof; lia. }
  rewrite lookup_tproof by done.
  destruct (decide (l = critbit i j)) as [->|Hc].
  - rewrite list_lookup_insert_eq by (by rewrite length_tproof).
    do 2 f_equal. by apply sibling_ix_critbit.
  - rewrite list_lookup_insert_ne by done. rewrite lookup_tproof by done.
    f_equal. apply tnode_insert_ne. intros Hs. apply sibling_ix_critbit in Hs as [_ ?]. done.
Qed.

(** The path of the written leaf, recomputed from its new value and its proof. *)
Lemma tpath_hash_path T d i l :
  l ≤ d → tnode T l (ix i l) = hash_path 0 (leaf_at T i) (take l (tproof T d i)) i.
Proof.
  intros Hl. pose proof (hash_path_tnode T i 0 l) as Hp. rewrite ix_0 in Hp. simpl in Hp.
  rewrite <-Hp. f_equal. unfold tproof. rewrite <-fmap_take, take_seq. do 2 f_equal. lia.
Qed.

(** ** What a verified proof says *)
Lemma concat_pair_inj (a b a' b' : Node) :
  concat [vec_to_list a; vec_to_list b] = concat [vec_to_list a'; vec_to_list b'] → a = a' ∧ b = b'.
Proof.
  simpl. intros [-> Hb]%bytes32_app_inj. by apply bytes32_app_inj in Hb as [-> _].
Qed.

Lemma find_collision_sound T depth node proof i p :
  find_collision T depth node proof i = Some p → is_collision p.
Proof.
  revert depth node. induction proof as [|s proof IH]; intros depth node; simpl; [done|].
  case_decide as Hd; [|apply IH]. by intros [= <-].
Qed.

Lemma verified_path T depth node proof i :
  hash_path depth node proof i =
    tnode T (depth + length proof) (ix i (depth + length proof)) →
  find_collision T depth node proof i = None →
  node = tnode T depth (ix i depth) ∧
  proof = (λ l, tnode T l (sibling_ix i l)) <$> seq depth (length proof).
Proof.
  revert depth node. induction proof as [|s proof IH]; intros depth node; simpl.
  { rewrite Nat.add_0_r. intros Hn _. done. }
  replace (depth + S (length proof)) with (S depth + length proof) by lia.
  intros Hpath. case_decide as Hd; [done|]. intros Hnone.
  destruct (IH _ _ Hpath Hnone) as [Hnode Hproof]. clear IH Hpath Hnone.
  destruct (ix_children i depth) as [Hix Hsib].
  assert (node = tnode T depth (ix i depth) ∧ s = tnode T depth (sibling_ix i depth)) as [-> ->];
    [|split; [done|]; simpl; f_equal; exact Hproof].
  rewrite Hix, Hsib. unfold hash_to_parent in Hnode. simpl in Hnode.
  destruct (N.testbit i (N.of_nat depth)); simpl in *.
  - destruct (decide (concat [vec_to_list s; vec_to_list node] =
      concat [vec_to_list (tnode T depth (2 * ix i (S depth))%N);
              vec_to_list (tnode T depth (2 * ix i (S depth) + 1)%N)])) as [Heq|Hne].
    + by apply concat_pair_inj in Heq as [-> ->].
    + by destruct Hd.
  - destruct (decide (concat [vec_to_list node; vec_to_list s] =
      concat [vec_to_list (tnode T depth (2 * ix i (S depth))%N);
              vec_to_list (tnode T depth (2 * ix i (S depth) + 1)%N)])) as [Heq|Hne].
    + by apply concat_pair_inj in Heq as [-> ->].
    + by destruct Hd.
Qed.

(** The proof of a leaf is no collision of its own tree. *)
Lemma find_collision_path T i k n :
  find_collision T k (tnode T k (ix i k)) ((λ l, tnode T l (sibling_ix i l)) <$> seq k n) i = None.
Proof.
  revert k. induction n as [|n IH]; intros k; [done|]. cbn [seq fmap list_fmap find_collision].
  rewrite hash_to_parent_tnode. destruct (ix_children i k) as [Hix Hsib].
  rewrite decide_False; [apply IH|]. intros [Hne _]. apply Hne. rewrite Hix, Hsib.
  by destruct (N.testbit i (N.of_nat k)).
Qed.

Lemma find_collision_tproof T d i : find_collision T 0 (leaf_at T i) (tproof T d i) i = None.
Proof. pose proof (find_collision_path T i 0 d) as Hnone. by rewrite ix_0 in Hnone. Qed.

(** A proof that recomputes the root is the proof of the leaf, unless it yields a
    collision of the hash. *)
Lemma verified_proof T d node proof i :
  length proof = d → (i < 2 ^ N.of_nat d)%N →
  hash_path 0 node proof i = troot T d →
  find_collision T 0 node proof i = None →
  node = leaf_at T i ∧ proof = tproof T d i.
Proof.
  intros Hlen Hi Hpath Hnone. destruct (verified_path T 0 node proof i) as [Hn Hp]; [|done|].
  - rewrite Hpath. unfold troot. simpl. by rewrite Hlen, ix_eq_0.
  - rewrite ix_0 in Hn. rewrite Hp, Hlen. done.
Qed.
End tree_lemmas.
