(* ===== verification/ChangeLog.v ===== *)
(** * Change logs: [lib/concurrent-merkle-tree/src/state.rs]

    A change log records one write: the new root, the nodes of the path of the
    written leaf (without the root) and its index.  [update_proof_or_leaf]
    fast-forwards the proof of another leaf through the write.  The const
    generic [MAX_DEPTH] is an argument; the [_padding] fields, which no code
    reads, are left out. *)

From S2P Require Import Prelude Hashing MerkleSpec.

Record ChangeLog := mk_ChangeLog {
  root : Node;
  path : list Node;
  cl_index : N;
}.

Record Path := mk_Path {
  proof : list Node;
  leaf : Node;
  rm_index : N;
}.

Section defs.
Context (MAX_DEPTH : nat) `{Keccak} `{BuildProfile} {E : Type}.

(** [ChangeLog::default], [ChangeLog::new] and [Path::default]. *)
Definition ChangeLog_default : ChangeLog := mk_ChangeLog EMPTY (replicate MAX_DEPTH EMPTY) 0.

Definition ChangeLog_new (root : Node) (path : list Node) (index : N) : ChangeLog :=
  mk_ChangeLog root path index.

Definition Path_default : Path := mk_Path (replicate MAX_DEPTH EMPTY) EMPTY 0.

Definition get_leaf (self : ChangeLog) : outcome E Node := index (path self) 0.

(** The loop of [replace_and_recompute_path], from position [i] on. *)
Fixpoint replace_path_loop (i : nat) (path : list Node) (node : Node) (proof : list Node) (index : N) :
    outcome E (list Node * Node) :=
  match proof with
  | [] => Ok (path, node)
  | sibling :: proof =>
      path ← index_set path (N.of_nat i) node;
      sh ← wshr 32 index (N.of_nat i);
      replace_path_loop (S i) path (hash_to_parent node sibling (N.land sh 1 =? 0)%N) proof index
  end.

(** [replace_and_recompute_path]: the new root and the updated change log. *)
Definition replace_and_recompute_path (self : ChangeLog) (index : N) (node : Node)
    (proof : list Node) : outcome E (Node * ChangeLog) :=
  '(path, node) ← replace_path_loop 0 (path self) node proof index;
  Ok (node, mk_ChangeLog node path index).

(** [update_proof_or_leaf]: the proof and the leaf after the write. *)
Definition update_proof_or_leaf (self : ChangeLog) (leaf_index : N) (proof : list Node)
    (leaf : Node) : outcome E (list Node * Node) :=
  padding ← wsub 64 32 (N.of_nat MAX_DEPTH);
  if decide (leaf_index ≠ cl_index self) then
    shifted ← wshl 32 (N.lxor leaf_index (cl_index self)) padding;
    let common_path_len := leading_zeros 32 shifted in
    top ← wsub 64 (N.of_nat MAX_DEPTH) 1;
    critbit_index ← wsub 64 top common_path_len;
    node ← index (path self) critbit_index;
    proof ← index_set proof critbit_index node;
    Ok (proof, leaf)
  else
    leaf ← get_leaf self;
    Ok (proof, leaf).
End defs.

(** ** Lemmas *)
Section lemmas.
Context `{Keccak} `{BuildProfile} {E : Type}.

Lemma replace_path_loop_ok i path node proof index :
  length path = i + length proof → i + length proof ≤ 32 →
  replace_path_loop (E:=E) i path node proof index =
  Ok (take i path ++ ((λ k, hash_path i node (take k proof) index) <$> seq 0 (length proof)),
      hash_path i node proof index).
Proof.
  revert i path node. induction proof as [|s proof IH]; intros i path node Hlen H32; simpl in *.
  { rewrite take_ge, app_nil_r by lia. done. }
  rewrite index_set_lt by lia. simpl. rewrite wshr_ok by lia. simpl.
  rewrite land_1_testbit, Nat2N.id, IH by (rewrite ?length_insert; lia).
  do 2 f_equal. rewrite (take_S_r _ i node) by (rewrite list_lookup_insert_eq; [done|lia]).
  rewrite take_insert_ge by lia. rewrite <-app_assoc. f_equal. simpl. f_equal.
  rewrite <-(fmap_S_seq 0), <-list_fmap_compose. done.
Qed.

(** Given the proof of the leaf in the tree, the path and the root recorded are
    those of the tree with the leaf written. *)
Lemma replace_and_recompute_path_tree T d i v cl :
  d ≤ 32 → (i < 2 ^ N.of_nat d)%N → length (path cl) = d →
  replace_and_recompute_path (E:=E) cl i v (tproof T d i) =
  Ok (troot (<[i:=v]> T) d, mk_ChangeLog (troot (<[i:=v]> T) d) (tpath (<[i:=v]> T) d i) i).
Proof.
  intros Hd Hi Hlen. unfold replace_and_recompute_path.
  rewrite replace_path_loop_ok by (rewrite length_tproof; lia). simpl.
  rewrite <-(tproof_insert_self T d i v), length_tproof.
  assert (hash_path 0 v (tproof (<[i:=v]> T) d i) i = troot (<[i:=v]> T) d) as Hroot.
  { rewrite <-(hash_path_tproof _ d i), leaf_at_insert by done. done. }
  rewrite Hroot. do 3 f_equal. unfold tpath. apply list_fmap_ext.
  intros k l [-> Hk]%lookup_seq. rewrite (tpath_hash_path _ d) by lia. by rewrite leaf_at_insert.
Qed.

(** The bit arithmetic of [update_proof_or_leaf] computes the critical bit. *)
Lemma critbit_arith i j d :
  0 < d ≤ 31 → i ≠ j → (i < 2 ^ N.of_nat d)%N → (j < 2 ^ N.of_nat d)%N →
  ∃ shifted,
    wshl (E:=E) 32 (N.lxor i j) (32 - N.of_nat d) = Ok shifted ∧
    (N.of_nat d - 1 - leading_zeros 32 shifted)%N = N.of_nat (critbit i j) ∧
    (leading_zeros 32 shifted ≤ N.of_nat d - 1)%N.
Proof.
  intros Hd Hne Hi Hj. pose proof (lxor_neq_0 _ _ Hne) as Hx0.
  pose proof (lxor_lt _ _ _ Hi Hj) as Hx. pose proof (critbit_lt _ _ _ Hne Hi Hj) as Hc.
  unfold critbit in *. set (x := N.lxor i j) in *.
  assert (N.shiftl x (32 - N.of_nat d) < 2 ^ 32)%N as Hlt.
  { rewrite N.shiftl_mul_pow2.
    replace 32%N with (N.of_nat d + (32 - N.of_nat d))%N at 2 by lia.
    rewrite N.pow_add_r. apply N.mul_lt_mono_pos_r; [|done].
    apply N.neq_0_lt_0, N.pow_nonzero. done. }
  exists (N.shiftl x (32 - N.of_nat d)). rewrite wshl_ok by lia. split; [done|].
  assert (N.shiftl x (32 - N.of_nat d) ≠ 0)%N as Hs0 by (rewrite N.shiftl_eq_0_iff; done).
  unfold leading_zeros. rewrite (size_log2 _ Hs0), N.log2_shiftl by done. lia.
Qed.

(** Fast-forwarding through a recorded write: at the critical bit the proof takes
    its node in the new tree; the leaf itself changes when it is the one written. *)
Lemma update_proof_or_leaf_path T d i j v r p lf :
  0 < d ≤ 31 → (i < 2 ^ N.of_nat d)%N → (j < 2 ^ N.of_nat d)%N → length p = d →
  update_proof_or_leaf (E:=E) d (mk_ChangeLog r (tpath (<[j:=v]> T) d j) j) i p lf =
  Ok (if decide (i = j) then (p, v)
      else (<[critbit i j := tnode (<[j:=v]> T) (critbit i j) (sibling_ix i (critbit i j))]> p, lf)).
Proof.
  intros Hd Hi Hj Hp. unfold update_proof_or_leaf. ok_step.
  destruct (decide (i = j)) as [->|Hne]; cbn [cl_index path] in *.
  - rewrite decide_False by auto. unfold get_leaf. simpl. rewrite (index_lookup _ _ v); [done|].
    simpl. rewrite lookup_tpath by lia. by rewrite ix_0; simpl; rewrite leaf_at_insert.
  - rewrite decide_True by done.
    destruct (critbit_arith i j d) as (shifted & -> & Hcrit & Hle); [done..|]. simpl.
    do 2 ok_step. rewrite Hcrit.
    pose proof (critbit_lt _ _ _ Hne Hi Hj).
    rewrite (index_lookup _ _ (tnode (<[j:=v]> T) (critbit i j) (ix j (critbit i j))))
      by (rewrite Nat2N.id; by apply lookup_tpath).
    simpl. ok_step. rewrite Nat2N.id. do 3 f_equal. f_equal. symmetry. by apply sibling_ix_critbit.
Qed.

(** Fast-forwarding a valid proof through a recorded write gives the valid proof
    and the leaf after the write. *)
Lemma update_proof_or_leaf_tree T d i j v r :
  0 < d ≤ 31 → (i < 2 ^ N.of_nat d)%N → (j < 2 ^ N.of_nat d)%N →
  update_proof_or_leaf (E:=E) d (mk_ChangeLog r (tpath (<[j:=v]> T) d j) j) i
    (tproof T d i) (leaf_at T i) =
  Ok (tproof (<[j:=v]> T) d i, leaf_at (<[j:=v]> T) i).
Proof.
  intros Hd Hi Hj. rewrite update_proof_or_leaf_path by (first [done|by rewrite length_tproof]).
  case_decide as Hne.
  - subst i. by rewrite tproof_insert_self, leaf_at_insert.
  - rewrite leaf_at_insert_ne by done. rewrite tproof_insert_ne by done.
    do 3 f_equal. f_equal. by apply sibling_ix_critbit.
Qed.

Lemma update_proof_or_leaf_length d cl i p l p' l' :
  update_proof_or_leaf (E:=E) d cl i p l = Ok (p', l') → length p' = length p.
Proof.
  unfold update_proof_or_leaf. intros Hu. inv_ok. case_decide; inv_ok.
  - match goal with H : index_set _ _ _ = _ |- _ => apply index_set_Ok_inv in H as [_ ->] end.
    by rewrite length_insert.
  - done.
Qed.
End lemmas.
