(* ===== verification/MerkleRoll.v ===== *)
(** * The concurrent Merkle tree: [lib/concurrent-merkle-tree/src/merkle_roll.rs]

    [MerkleRoll] keeps the last [MAX_BUFFER_SIZE] change logs in a ring and the
    proof of the rightmost leaf; its methods write a leaf given a proof that may
    be stale, append a leaf without a proof, and check proofs.  Each method of
    the source is one definition; the const generics are section variables. *)

From S2P Require Import Prelude Hashing MerkleSpec ChangeLog.

(** [enum CMTError] of [error.rs]. *)
Inductive CMTError :=
  | LeafIndexOutOfBounds
  | InvalidProof
  | CannotAppendEmptyNode
  | TreeFull
  | TreeAlreadyInitialized
  | InvalidNodeByteLength
  | RootNotFound
  | LeafContentsModified.

#[export] Instance CMTError_eq_dec : EqDecision CMTError.
Proof. solve_decision. Defined.

Record MerkleRoll := mk_MerkleRoll {
  sequence_number : N;
  active_index : N;
  buffer_size : N;
  change_logs : list ChangeLog;
  rightmost_proof : Path;
}.

Abbreviation cmt := (outcome CMTError).
Abbreviation cmt_method := (method MerkleRoll CMTError).

Definition set_change_logs (cls : list ChangeLog) (s : MerkleRoll) : MerkleRoll :=
  mk_MerkleRoll (sequence_number s) (active_index s) (buffer_size s) cls (rightmost_proof s).

Definition set_rightmost_proof (p : Path) (s : MerkleRoll) : MerkleRoll :=
  mk_MerkleRoll (sequence_number s) (active_index s) (buffer_size s) (change_logs s) p.

(** The assignment [self.change_logs[i] = cl]. *)
Definition put_change_log (i : N) (cl : ChangeLog) : cmt_method unit :=
  self ← get;
  cls ← lift (index_set (change_logs self) i cl);
  modify (set_change_logs cls).

Section defs.
Context (MAX_DEPTH : nat) (MAX_BUFFER_SIZE : N) `{Keccak} `{BuildProfile}.

Definition check_bounds : cmt unit :=
  rust_assert (bool_decide (MAX_DEPTH < 31));;
  m ← wsub 64 MAX_BUFFER_SIZE 1;
  rust_assert (N.land MAX_BUFFER_SIZE m =? 0)%N.

(** [MerkleRoll::new]. *)
Definition new : MerkleRoll :=
  mk_MerkleRoll 0 0 0 (replicate (N.to_nat MAX_BUFFER_SIZE) (ChangeLog_default MAX_DEPTH))
    (Path_default MAX_DEPTH).

Definition initialize : cmt_method Node :=
  lift check_bounds;;
  let empty_node_cache := replicate MAX_DEPTH EMPTY in
  let rightmost_proof :=
    mk_Path (imap (λ i _, empty_node_cached i empty_node_cache) (proof (Path_default MAX_DEPTH)))
      (leaf (Path_default MAX_DEPTH)) (rm_index (Path_default MAX_DEPTH)) in
  let path := imap (λ i _, empty_node_cached i empty_node_cache) (replicate MAX_DEPTH EMPTY) in
  self ← get;
  cl ← lift (index (change_logs self) 0);
  put_change_log 0 (mk_ChangeLog (empty_node MAX_DEPTH) path (cl_index cl));;
  modify (λ self, mk_MerkleRoll 0 0 1 (change_logs self) rightmost_proof);;
  self ← get;
  cl ← lift (index (change_logs self) 0);
  mret (root cl).

Definition initialize_with_root (root rightmost_leaf : Node) (proof_vec : list Node) (index : N) :
    cmt_method Node :=
  lift check_bounds;;
  lift (rust_assert (bool_decide (length proof_vec = MAX_DEPTH)));;
  let proof := proof_vec in
  index1 ← lift (wadd 32 index 1);
  let rightmost_proof := mk_Path proof rightmost_leaf index1 in
  self ← get;
  cl ← lift (Prelude.index (change_logs self) 0);
  put_change_log 0 (mk_ChangeLog root (path cl) (cl_index cl));;
  modify (λ self, mk_MerkleRoll 1 0 1 (change_logs self) rightmost_proof);;
  root' ← lift (recompute rightmost_leaf proof index);
  lift (rust_assert (bool_decide (root = root')));;
  mret root.

Definition get_change_log (self : MerkleRoll) : cmt ChangeLog :=
  index (change_logs self) (active_index self).

Definition mask : cmt N := wsub 64 MAX_BUFFER_SIZE 1.

(** The loop of [find_root_in_changelog] over the indices [range]. *)
Fixpoint find_root_loop (self : MerkleRoll) (current_root : Node) (mask : N) (range : list N) :
    cmt (option N) :=
  match range with
  | [] => Ok None
  | i :: range =>
      let j := N.land (wrapping_sub 64 (active_index self) i) mask in
      cl ← index (change_logs self) j;
      if decide (root cl = current_root) then Ok (Some j)
      else find_root_loop self current_root mask range
  end.

Definition find_root_in_changelog (self : MerkleRoll) (current_root : Node) : cmt (option N) :=
  mask ← mask;
  find_root_loop self current_root mask (N.of_nat <$> seq 0 (N.to_nat (buffer_size self))).

(** The [loop] of [fast_forward_proof]. *)
Fixpoint fast_forward_loop (fuel : nat) (self : MerkleRoll) (mask leaf_index : N)
    (use_full_buffer : bool) (changelog_buffer_index : N) (proof : list Node) (updated_leaf : Node) :
    cmt (list Node * Node) :=
  match fuel with
  | O => OutOfFuel
  | S fuel =>
      if negb use_full_buffer && (changelog_buffer_index =? active_index self)%N
      then Ok (proof, updated_leaf)
      else
        next ← wadd 64 changelog_buffer_index 1;
        let changelog_buffer_index := N.land next mask in
        cl ← index (change_logs self) changelog_buffer_index;
        '(proof, updated_leaf) ← update_proof_or_leaf MAX_DEPTH cl leaf_index proof updated_leaf;
        if use_full_buffer && (changelog_buffer_index =? active_index self)%N
        then Ok (proof, updated_leaf)
        else fast_forward_loop fuel self mask leaf_index use_full_buffer changelog_buffer_index
               proof updated_leaf
  end.

(** [fast_forward_proof]: whether the leaf is unchanged, the leaf, the proof. *)
Definition fast_forward_proof (self : MerkleRoll) (leaf : Node) (proof : list Node) (leaf_index : N)
    (changelog_buffer_index : N) (use_full_buffer : bool) : cmt (bool * Node * list Node) :=
  mask ← mask;
  '(proof, updated_leaf) ←
    fast_forward_loop (S (N.to_nat MAX_BUFFER_SIZE)) self mask leaf_index use_full_buffer
      changelog_buffer_index proof leaf;
  Ok (bool_decide (updated_leaf = leaf), updated_leaf, proof).

(** [check_valid_leaf]: the verdict and the fast-forwarded proof. *)
Definition check_valid_leaf (self : MerkleRoll) (current_root leaf : Node) (proof : list Node)
    (leaf_index : N) (allow_inferred_proof : bool) : cmt (bool * list Node) :=
  mask ← mask;
  found ← find_root_in_changelog self current_root;
  '(changelog_index, use_full_buffer) ←
    match found with
    | Some matching_changelog_index => Ok (matching_changelog_index, false)
    | None =>
        if allow_inferred_proof then
          b ← wsub 64 (buffer_size self) 1;
          Ok (N.land (wrapping_sub 64 (active_index self) b) mask, true)
        else Err RootNotFound
    end;
  '(proof_leaf_unchanged, updatable_leaf_node, proof) ←
    fast_forward_proof self leaf proof leaf_index changelog_index use_full_buffer;
  if negb proof_leaf_unchanged then Err LeafContentsModified
  else
    recomputed ← recompute updatable_leaf_node proof leaf_index;
    cl ← get_change_log self;
    Ok (bool_decide (recomputed = root cl), proof).

Definition prove_leaf (current_root leaf : Node) (proof_vec : list Node) (leaf_index : N) :
    cmt_method Node :=
  lift check_bounds;;
  self ← get;
  if (rm_index (rightmost_proof self) <? leaf_index)%N then lift (Err LeafIndexOutOfBounds)
  else
    proof ← lift (fill_in_proof MAX_DEPTH proof_vec (replicate MAX_DEPTH EMPTY));
    '(valid_root, _) ← lift (check_valid_leaf self current_root leaf proof leaf_index true);
    if negb valid_root then lift (Err InvalidProof) else mret EMPTY.

(** [update_internal_counters]. *)
Definition update_internal_counters : cmt_method unit :=
  mask ← lift mask;
  self ← get;
  active ← lift (wadd 64 (active_index self) 1);
  size ← lift (if (buffer_size self <? MAX_BUFFER_SIZE)%N
               then wadd 64 (buffer_size self) 1 else Ok (buffer_size self));
  modify (λ self, mk_MerkleRoll (saturating_add 64 (sequence_number self) 1)
                    (N.land active mask) size (change_logs self) (rightmost_proof self)).

(** The update of the rightmost path in [update_buffers_from_proof]. *)
Definition update_rightmost_path (change_log : ChangeLog) (proof : list Node) (index : N) :
    cmt_method unit :=
  self ← get;
  let rmp := rightmost_proof self in
  capacity ← lift (wshl 32 1 (N.of_nat MAX_DEPTH));
  if (rm_index rmp <? capacity)%N then
    if (index <? rm_index rmp)%N then
      last ← lift (wsub 32 (rm_index rmp) 1);
      '(rmp_proof, rmp_leaf) ←
        lift (update_proof_or_leaf MAX_DEPTH change_log last (ChangeLog.proof rmp) (leaf rmp));
      modify (set_rightmost_proof (mk_Path rmp_proof rmp_leaf (rm_index rmp)))
    else
      lift (rust_assert (index =? rm_index rmp)%N);;
      index1 ← lift (wadd 32 index 1);
      leaf ← lift (get_leaf change_log);
      modify (set_rightmost_proof (mk_Path proof leaf index1))
  else mret tt.

Definition update_buffers_from_proof (start : Node) (proof : list Node) (index : N) :
    cmt_method Node :=
  self ← get;
  cl ← lift (Prelude.index (change_logs self) (active_index self));
  '(root, cl) ← lift (replace_and_recompute_path cl index start proof);
  put_change_log (active_index self) cl;;
  update_rightmost_path cl proof index;;
  mret root.

Definition try_apply_proof (current_root leaf new_leaf : Node) (proof : list Node)
    (leaf_index : N) (allow_inferred_proof : bool) : cmt_method Node :=
  self ← get;
  '(valid_root, proof) ←
    lift (check_valid_leaf self current_root leaf proof leaf_index allow_inferred_proof);
  if negb valid_root then lift (Err InvalidProof)
  else
    update_internal_counters;;
    update_buffers_from_proof new_leaf proof leaf_index.

Definition initialize_tree_from_append (leaf : Node) (proof : list Node) : cmt_method Node :=
  old_root ← lift (recompute EMPTY proof 0);
  if decide (old_root = empty_node MAX_DEPTH)
  then try_apply_proof old_root EMPTY leaf proof 0 false
  else lift (Err TreeAlreadyInitialized).

(** The state of the loop of [append]: [change_list], [node],
    [intersection_node] and [rightmost_proof.proof]. *)
Record append_state := mk_append_state {
  ap_change_list : list Node;
  ap_node : Node;
  ap_intersection_node : Node;
  ap_proof : list Node;
}.

Definition append_step (rm_ix : N) (intersection : nat) (empty_node_cache : list Node)
    (s : append_state) (i : nat) : cmt append_state :=
  let '(mk_append_state change_list node intersection_node rmp_proof) := s in
  change_list ← index_set change_list (N.of_nat i) node;
  if decide (i < intersection) then
    let sibling := empty_node_cached i empty_node_cache in
    p ← index rmp_proof (N.of_nat i);
    last ← wsub 32 rm_ix 1;
    sh ← wshr 32 last (N.of_nat i);
    let intersection_node := hash_to_parent intersection_node p (N.land sh 1 =? 0)%N in
    let node := hash_to_parent node sibling true in
    rmp_proof ← index_set rmp_proof (N.of_nat i) sibling;
    Ok (mk_append_state change_list node intersection_node rmp_proof)
  else if decide (i = intersection) then
    let node := hash_to_parent node intersection_node false in
    rmp_proof ← index_set rmp_proof (N.of_nat intersection) intersection_node;
    Ok (mk_append_state change_list node intersection_node rmp_proof)
  else
    p ← index rmp_proof (N.of_nat i);
    last ← wsub 32 rm_ix 1;
    sh ← wshr 32 last (N.of_nat i);
    let node := hash_to_parent node p (N.land sh 1 =? 0)%N in
    Ok (mk_append_state change_list node intersection_node rmp_proof).

Definition append (node : Node) : cmt_method Node :=
  lift check_bounds;;
  self ← get;
  let rmp := rightmost_proof self in
  if decide (node = EMPTY) then lift (Err CannotAppendEmptyNode) else
  capacity ← lift (wshl 32 1 (N.of_nat MAX_DEPTH));
  if (capacity <=? rm_index rmp)%N then lift (Err TreeFull)
  else if (rm_index rmp =? 0)%N then initialize_tree_from_append node (proof rmp)
  else
    let intersection := N.to_nat (trailing_zeros 32 (rm_index rmp)) in
    let empty_node_cache := replicate MAX_DEPTH EMPTY in
    s ← lift (foldM (append_step (rm_index rmp) intersection empty_node_cache)
                (mk_append_state (replicate MAX_DEPTH EMPTY) node (leaf rmp) (proof rmp))
                (seq 0 MAX_DEPTH));
    modify (set_rightmost_proof (mk_Path (ap_proof s) (leaf rmp) (rm_index rmp)));;
    update_internal_counters;;
    self ← get;
    put_change_log (active_index self) (ChangeLog_new (ap_node s) (ap_change_list s) (rm_index rmp));;
    index1 ← lift (wadd 32 (rm_index rmp) 1);
    modify (set_rightmost_proof (mk_Path (ap_proof s) node index1));;
    mret (ap_node s).

Definition fill_empty_or_append (current_root leaf : Node) (proof_vec : list Node) (index : N) :
    cmt_method Node :=
  lift check_bounds;;
  proof ← lift (fill_in_proof MAX_DEPTH proof_vec (replicate MAX_DEPTH EMPTY));
  or_else (try_apply_proof current_root EMPTY leaf proof index false) (λ error,
    match error with
    | LeafContentsModified => append leaf
    | _ => lift (Err error)
    end).

Definition set_leaf (current_root previous_leaf new_leaf : Node) (proof_vec : list Node)
    (index : N) : cmt_method Node :=
  lift check_bounds;;
  self ← get;
  if (rm_index (rightmost_proof self) <? index)%N then lift (Err LeafIndexOutOfBounds)
  else
    proof ← lift (fill_in_proof MAX_DEPTH proof_vec (replicate MAX_DEPTH EMPTY));
    try_apply_proof current_root previous_leaf new_leaf proof index true.
End defs.
