(* ===== verification/MerkleRollSpec.v ===== *)
(** * What the concurrent Merkle tree promises

    The abstract state of a [MerkleRoll] is the list of the trees it has been
    through, newest first, each with the index of the leaf whose write produced
    it; [Rep s a] says that the record [s] implements the abstract state [a].
    The lemmas show how the ring of change logs finds a root, fast-forwards a
    proof and records a write. *)

From S2P Require Import Prelude Hashing MerkleSpec ChangeLog MerkleRoll.

Record aroll := mk_aroll {
  a_hist : list (tree * N);
  a_count : N;
  a_seq : N;
}.

Definition a_tree (a : aroll) : tree := default ∅ (fst <$> head (a_hist a)).

Section spec.
Context (d : nat) (B : N) `{Keccak}.

(** The write of leaf [i]: the ring keeps at most [B] trees. *)
Definition a_write (a : aroll) (i : N) (v : Node) : aroll :=
  mk_aroll (take (N.to_nat B) ((<[i:=v]> (a_tree a), i) :: a_hist a))
    (N.max (a_count a) (i + 1)) (saturating_add 64 (a_seq a) 1).

(** The sizes the program is instantiated with: a depth below 31 and a power of
    two for the buffer. *)
Definition sizes_ok : Prop := 0 < d ≤ 30 ∧ ∃ k, (k ≤ 32)%N ∧ B = (2 ^ k)%N.

(** The slot of the ring that holds the tree of [m] writes ago. *)
Definition slot (s : MerkleRoll) (m : nat) : N := ((active_index s + B - N.of_nat m) `mod` B)%N.

Record well_formed (s : MerkleRoll) : Prop := mk_well_formed {
  wf_change_logs : length (change_logs s) = N.to_nat B;
  wf_paths : Forall (λ cl, length (path cl) = d ∧ (cl_index cl < 2 ^ N.of_nat d)%N) (change_logs s);
  wf_rmp : length (proof (rightmost_proof s)) = d;
  wf_rm_index : (rm_index (rightmost_proof s) ≤ 2 ^ N.of_nat d)%N;
  wf_active : (active_index s < B)%N;
  wf_size : (1 ≤ buffer_size s ≤ B)%N;
}.

(** The change log [cl] records the write of leaf [i] that turned [T'] into [T]. *)
Definition records (cl : ChangeLog) (T T' : tree) (i : N) : Prop :=
  (i < 2 ^ N.of_nat d)%N ∧ (∃ v, T = <[i:=v]> T') ∧ cl = mk_ChangeLog (troot T d) (tpath T d i) i.

(** The rightmost path is the proof of the last leaf of the tree. *)
Definition rightmost_ok (p : Path) (T : tree) : Prop :=
  (∀ i, (rm_index p ≤ i)%N → leaf_at T i = EMPTY) ∧
  ((rm_index p < 2 ^ N.of_nat d)%N →
    leaf p = leaf_at T (rm_index p - 1) ∧ proof p = tproof T d (rm_index p - 1)).

Record Rep (s : MerkleRoll) (a : aroll) : Prop := mk_Rep {
  rep_wf : well_formed s;
  rep_length : length (a_hist a) = N.to_nat (buffer_size s);
  rep_root : ∀ m T i, a_hist a !! m = Some (T, i) →
    ∃ cl, change_logs s !! N.to_nat (slot s m) = Some cl ∧ root cl = troot T d;
  rep_step : ∀ m T i T' i', a_hist a !! m = Some (T, i) → a_hist a !! S m = Some (T', i') →
    ∃ cl, change_logs s !! N.to_nat (slot s m) = Some cl ∧ records cl T T' i;
  rep_count : rm_index (rightmost_proof s) = a_count a;
  rep_rmp : rightmost_ok (rightmost_proof s) (a_tree a);
  rep_seq : sequence_number s = a_seq a;
}.

(** A proof whose nodes are each taken from [T0] or from [T]: what a client's
    proof becomes when its top is replaced by nodes cached from the newest tree. *)
Definition mixed (T0 T : tree) (i : N) (p : list Node) : Prop :=
  length p = d ∧ ∀ k, k < d → p !! k = Some (tnode T0 k (sibling_ix i k)) ∨
                              p !! k = Some (tnode T k (sibling_ix i k)).

(** The newest tree of the history with a given root. *)
Definition find_root (a : aroll) (r : Node) : option (nat * (tree * N)) :=
  list_find (λ p : tree * N, troot p.1 d = r) (a_hist a).
End spec.

(** ** The ring *)
Section ring.
Context (d : nat) (B : N) `{Keccak} `{BuildProfile} (Hsizes : sizes_ok d B).
Implicit Types (s : MerkleRoll).
Local Open Scope N_scope.

Lemma B_bounds : 1 ≤ B ≤ 2 ^ 32.
Proof.
  destruct Hsizes as [_ (k & Hk & ->)]. split.
  - pose proof (N.pow_nonzero 2 k). lia.
  - by apply N.pow_le_mono_r.
Qed.

Lemma mask_ok : mask B = Ok (B - 1).
Proof. unfold mask. pose proof B_bounds. by rewrite wsub_ok by lia. Qed.

Lemma land_B a : N.land a (B - 1) = a `mod` B.
Proof. destruct Hsizes as [_ (k & _ & ->)]. apply land_mask. Qed.

Lemma check_bounds_ok : check_bounds d B = Ok tt.
Proof.
  unfold check_bounds. destruct Hsizes as [Hd (k & Hk & HB)].
  rewrite bool_decide_true by lia. simpl. pose proof B_bounds. ok_step.
  rewrite land_B, N.Div0.mod_same. done.
Qed.

Lemma slot_lt s m : slot B s m < B.
Proof. apply N.mod_lt. pose proof B_bounds. lia. Qed.

Lemma slot_0 s : active_index s < B → slot B s 0 = active_index s.
Proof.
  intros Ha. unfold slot. replace (active_index s + B - N.of_nat 0) with (active_index s + 1 * B) by lia.
  rewrite N.Div0.mod_add. by apply N.mod_small.
Qed.

(** [slot] without the modulo. *)
Lemma slot_cases s m :
  active_index s < B → N.of_nat m < B →
  slot B s m = if decide (N.of_nat m ≤ active_index s) then active_index s - N.of_nat m
               else active_index s + B - N.of_nat m.
Proof.
  intros Ha Hm. unfold slot. case_decide.
  - replace (active_index s + B - N.of_nat m) with (active_index s - N.of_nat m + 1 * B) by lia.
    rewrite N.Div0.mod_add. apply N.mod_small. lia.
  - apply N.mod_small. lia.
Qed.

Lemma slot_inj s m m' :
  active_index s < B → N.of_nat m < B → N.of_nat m' < B → slot B s m = slot B s m' → m = m'.
Proof. intros Ha Hm Hm'. rewrite !slot_cases by done. repeat case_decide; lia. Qed.

(** Going forward one slot. *)
Lemma slot_next s m :
  active_index s < B → N.of_nat (S m) ≤ B →
  N.land (slot B s (S m) + 1) (B - 1) = slot B s m.
Proof.
  intros Ha Hm. rewrite land_B. unfold slot. rewrite N.Div0.add_mod_idemp_l. f_equal. lia.
Qed.

(** [wrapping_sub] and the mask compute the slot. *)
Lemma slot_wrapping s m :
  active_index s < B → N.of_nat m ≤ B →
  N.land (wrapping_sub 64 (active_index s) (N.of_nat m)) (B - 1) = slot B s m.
Proof.
  intros Ha Hm. rewrite land_B. unfold wrapping_sub, slot. destruct Hsizes as [_ (k & Hk & HB)].
  assert (2 ^ 64 = 2 ^ (64 - k) * B) as Hpow.
  { rewrite HB, <-N.pow_add_r. f_equal. lia. }
  rewrite Hpow at 2. rewrite N.mul_comm, N.Div0.mod_mul_r, N.mul_comm, N.Div0.mod_add.
  rewrite N.Div0.mod_mod. pose proof B_bounds.
  replace (2 ^ 64 + active_index s - N.of_nat m)
    with (active_index s + B - N.of_nat m + (2 ^ (64 - k) - 1) * B) by nia.
  by rewrite N.Div0.mod_add.
Qed.
End ring.

(** ** Mixed proofs *)
Section mixed_proofs.
Context (d : nat) `{Keccak} `{BuildProfile} {E : Type}.

Lemma mixed_tproof T0 T i : mixed d T0 T i (tproof T0 d i).
Proof. split; [apply length_tproof|]. intros k Hk. left. by apply lookup_tproof. Qed.

Lemma mixed_refl T i p : mixed d T T i p → p = tproof T d i.
Proof.
  intros [Hlen Hp]. apply list_eq. intros k. destruct (decide (k < d)) as [Hk|Hk].
  - rewrite lookup_tproof by done. by destruct (Hp k Hk).
  - by rewrite !(proj2 (lookup_ge_None _ _)) by (rewrite ?length_tproof; lia).
Qed.

(** A write moves a mixed proof and the leaf forward. *)
Lemma mixed_step T0 T i j v r p :
  0 < d ≤ 31 → (i < 2 ^ N.of_nat d)%N → (j < 2 ^ N.of_nat d)%N → mixed d T0 T i p →
  ∃ p', update_proof_or_leaf (E:=E) d (mk_ChangeLog r (tpath (<[j:=v]> T0) d j) j) i p
      (leaf_at T0 i) = Ok (p', leaf_at (<[j:=v]> T0) i) ∧ mixed d (<[j:=v]> T0) T i p'.
Proof.
  intros Hd Hi Hj [Hlen Hp]. rewrite update_proof_or_leaf_path by done. case_decide as Hij.
  - subst j. rewrite leaf_at_insert. eexists. split; [done|]. split; [done|]. intros k Hk.
    rewrite tnode_insert_ne by apply sibling_ix_neq. by apply Hp.
  - rewrite leaf_at_insert_ne by done. eexists. split; [done|].
    split; [by rewrite length_insert|]. intros k Hk. destruct (decide (k = critbit i j)) as [->|Hc].
    + left. by rewrite list_lookup_insert_eq by lia.
    + rewrite list_lookup_insert_ne by done. rewrite (tnode_insert_ne T0); [by apply Hp|].
      intros Hs. by apply sibling_ix_critbit in Hs as [_ ?].
Qed.
End mixed_proofs.
