(* ===== verification/MerkleRollLemmas.v ===== *)
(** * Lemmas on the concurrent Merkle tree

    How the methods of [MerkleRoll] act on a state that represents an abstract
    one: finding a root, fast-forwarding a proof, recording a write. *)

From S2P Require Import Prelude Hashing MerkleSpec ChangeLog MerkleRoll MerkleRollSpec.

(** ** Fast-forwarding *)
Section fast_forward.
Context (d : nat) (B : N) `{Keccak} `{BuildProfile} (Hsizes : sizes_ok d B).
Context (s : MerkleRoll) (i : N) (P : nat → list Node → Node → Prop).

(** The fast-forward loop visits the slots of the last [m] writes, from the
    oldest to the newest, and stops: an invariant that every write preserves
    holds at the end.  [P m p l] speaks of a proof brought to [m] writes ago. *)
Lemma fast_forward_loop_ok full m fuel p l :
  (∀ m p l, N.of_nat (S m) ≤ B → P (S m) p l → ∃ cl p' l',
    change_logs s !! N.to_nat (slot B s m) = Some cl ∧
    update_proof_or_leaf (E:=CMTError) d cl i p l = Ok (p', l') ∧ P m p' l')%N →
  (active_index s < B)%N →
  (if full : bool then 0 < m ∧ (N.of_nat m ≤ B)%N else (N.of_nat m < B)%N) → m < fuel → P m p l →
  ∃ p' l', fast_forward_loop d fuel s (B - 1) i full (slot B s m) p l = Ok (p', l') ∧ P 0 p' l'.
Proof.
  intros Hstep Ha. revert fuel p l. pose proof (B_bounds _ _ Hsizes) as HB.
  induction m as [|m IH]; intros fuel p l Hm Hfuel HP; (destruct fuel as [|fuel]; [lia|]); simpl.
  { destruct full; [lia|]. rewrite slot_0, N.eqb_refl by done. simpl. eauto. }
  assert (negb full && (slot B s (S m) =? active_index s)%N = false) as ->.
  { destruct full; [done|]. simpl. apply N.eqb_neq. rewrite <-(slot_0 B s Ha).
    intros ?%(slot_inj B); [done|done|lia|lia]. }
  pose proof (slot_lt d B Hsizes s (S m)). ok_step.
  assert (N.of_nat (S m) ≤ B)%N as HSm by (destruct full; lia).
  rewrite (slot_next d B Hsizes) by done.
  destruct (Hstep m p l HSm HP) as (cl & p' & l' & Hcl & Hup & HP').
  rewrite (index_lookup _ _ _ Hcl). simpl. rewrite Hup. simpl.
  destruct full; simpl.
  - destruct (decide (m = 0)) as [->|Hm0].
    + rewrite slot_0, N.eqb_refl by done. simpl. eauto.
    + assert ((slot B s m =? active_index s)%N = false) as ->; [|apply IH; [lia|lia|done]].
      apply N.eqb_neq. rewrite <-(slot_0 B s Ha).
      intros ?%(slot_inj B); [done|done|lia|lia].
  - apply IH; [lia|lia|done].
Qed.
End fast_forward.

(** ** Reading a state *)
Section reading.
Context (d : nat) (B : N) `{Keccak} `{BuildProfile} (Hsizes : sizes_ok d B).
Implicit Types (s : MerkleRoll) (a : aroll) (i : N).

(** A change log of a well-formed state never panics. *)
Lemma update_proof_or_leaf_total cl i p l :
  length (path cl) = d → (cl_index cl < 2 ^ N.of_nat d)%N → (i < 2 ^ N.of_nat d)%N → length p = d →
  ∃ p' l', update_proof_or_leaf (E:=CMTError) d cl i p l = Ok (p', l') ∧ length p' = d.
Proof.
  intros Hpath Hcl Hi Hp. destruct Hsizes as [Hd _]. unfold update_proof_or_leaf. ok_step.
  case_decide as Hne.
  - destruct (critbit_arith (E:=CMTError) i (cl_index cl) d) as (sh & -> & Hcrit & Hle); [lia|done..|].
    simpl. do 2 ok_step. rewrite Hcrit. pose proof (critbit_lt _ _ _ Hne Hi Hcl).
    destruct (lookup_lt_is_Some_2 (path cl) (critbit i (cl_index cl))) as [x Hx]; [lia|].
    rewrite (index_lookup _ _ x) by by rewrite Nat2N.id.
    simpl. ok_step. eexists _, _. split; [done|]. by rewrite length_insert.
  - unfold get_leaf. destruct (lookup_lt_is_Some_2 (path cl) 0) as [x Hx]; [lia|].
    rewrite (index_lookup _ _ x) by done. simpl. eauto.
Qed.

Lemma wf_change_log s m :
  well_formed d B s → ∃ cl, change_logs s !! N.to_nat (slot B s m) = Some cl ∧
    length (path cl) = d ∧ (cl_index cl < 2 ^ N.of_nat d)%N.
Proof.
  intros Hwf. pose proof (slot_lt d B Hsizes s m).
  destruct (lookup_lt_is_Some_2 (change_logs s) (N.to_nat (slot B s m))) as [cl Hcl].
  { rewrite (wf_change_logs _ _ _ Hwf). lia. }
  exists cl. split; [done|]. by apply (proj1 (Forall_lookup _ _) (wf_paths _ _ _ Hwf) _ _ Hcl).
Qed.

(** Fast-forwarding terminates without a panic, from any slot. *)
Lemma fast_forward_total s i (full : bool) m p l :
  well_formed d B s → (i < 2 ^ N.of_nat d)%N → length p = d →
  (if full then 0 < m ∧ (N.of_nat m ≤ B)%N else (N.of_nat m < B)%N) →
  ∃ p' l', fast_forward_proof d B s l p i (slot B s m) full = Ok (bool_decide (l' = l), l', p') ∧
    length p' = d.
Proof.
  intros Hwf Hi Hp Hm. unfold fast_forward_proof. rewrite (mask_ok d B Hsizes). cbn [mbind outcome_bind].
  destruct (fast_forward_loop_ok d B Hsizes s i (λ _ p _, length p = d) full m
    (S (N.to_nat B)) p l) as (p' & l' & -> & Hp'); [|apply Hwf|done|destruct full; lia|done|].
  - intros m' p' l' _ Hp'. destruct (wf_change_log s m' Hwf) as (cl & Hcl & ? & ?).
    destruct (update_proof_or_leaf_total cl i p' l') as (p'' & l'' & ? & ?); [done..|].
    by exists cl, p'', l''.
  - simpl. eauto.
Qed.

(** From the tree of [m] writes ago, with a proof of it, to the newest tree. *)
Lemma fast_forward_tree s a i (full : bool) m T0 i0 p :
  Rep d B s a → (i < 2 ^ N.of_nat d)%N → a_hist a !! m = Some (T0, i0) → (full = true → 0 < m) →
  mixed d T0 (a_tree a) i p →
  fast_forward_proof d B s (leaf_at T0 i) p i (slot B s m) full =
  Ok (bool_decide (leaf_at (a_tree a) i = leaf_at T0 i), leaf_at (a_tree a) i, tproof (a_tree a) d i).
Proof.
  intros HR Hi Hm Hfull Hp. unfold fast_forward_proof. rewrite (mask_ok d B Hsizes). cbn [mbind outcome_bind].
  assert (m < N.to_nat (buffer_size s)) as Hml.
  { rewrite <-(rep_length _ _ _ _ HR). by apply lookup_lt_Some in Hm. }
  pose proof (wf_size _ _ _ (rep_wf _ _ _ _ HR)) as Hsize.
  destruct (fast_forward_loop_ok d B Hsizes s i
    (λ m p l, ∃ T i0, a_hist a !! m = Some (T, i0) ∧ mixed d T (a_tree a) i p ∧ l = leaf_at T i) full m
    (S (N.to_nat B)) p (leaf_at T0 i)) as (p' & l' & -> & Hp').
  - intros m' q l _ (T & j & HT & Hq & ->).
    destruct (a_hist a !! m') as [[T' j']|] eqn:HT'; last first.
    { apply lookup_ge_None in HT'. apply lookup_lt_Some in HT. lia. }
    destruct (rep_step _ _ _ _ HR _ _ _ _ _ HT' HT) as (cl & Hcl & Hj & [v ->] & ->).
    destruct Hsizes as [Hd _].
    destruct (mixed_step (E:=CMTError) d T (a_tree a) i j' v (troot (<[j':=v]> T) d) q) as (q' & Hup & Hq');
      [lia|done..|].
    eexists _, _, _. split; [exact Hcl|]. split; [exact Hup|]. by eexists _, _.
  - apply (rep_wf _ _ _ _ HR).
  - destruct full; [split; [by apply Hfull|lia]|lia].
  - lia.
  - by eexists _, _.
  - destruct Hp' as (T & j & HT & Hq & ->). assert (T = a_tree a) as ->.
    { unfold a_tree. destruct (a_hist a) as [|x h]; [done|]. by injection HT as ->. }
    by apply mixed_refl in Hq as ->.
Qed.

Lemma find_root_loop_ok s a r m n :
  Rep d B s a → m + n = length (a_hist a) →
  find_root_loop s r (B - 1) (N.of_nat <$> seq m n) =
  Ok ((λ p, slot B s (m + p.1)) <$> list_find (λ p : tree * N, troot p.1 d = r) (drop m (a_hist a))).
Proof.
  intros HR. revert m. induction n as [|n IH]; intros m Hlen; simpl.
  { by rewrite drop_ge by lia. }
  pose proof (rep_length _ _ _ _ HR). pose proof (wf_size _ _ _ (rep_wf _ _ _ _ HR)).
  rewrite (slot_wrapping d B Hsizes) by (first [apply (rep_wf _ _ _ _ HR)|lia]).
  destruct (lookup_lt_is_Some_2 (a_hist a) m) as [[T i] HT]; [lia|].
  destruct (rep_root _ _ _ _ HR _ _ _ HT) as (cl & Hcl & Hroot).
  rewrite (index_lookup _ _ _ Hcl). simpl. rewrite (drop_S _ _ _ HT). simpl. rewrite Hroot.
  case_decide; simpl; [by rewrite Nat.add_0_r|].
  rewrite IH by lia. rewrite <-!option_fmap_compose. f_equal.
  apply option_fmap_ext. intros [k x]. simpl. f_equal. lia.
Qed.

Lemma find_root_in_changelog_ok s a r :
  Rep d B s a → find_root_in_changelog B s r = Ok ((λ p, slot B s p.1) <$> find_root d a r).
Proof.
  intros HR. unfold find_root_in_changelog. rewrite (mask_ok d B Hsizes). simpl.
  rewrite (find_root_loop_ok _ a) by (first [done|by rewrite (rep_length _ _ _ _ HR)]).
  by rewrite drop_0.
Qed.

Lemma find_root_Some a r m T i :
  find_root d a r = Some (m, (T, i)) → a_hist a !! m = Some (T, i) ∧ troot T d = r.
Proof. unfold find_root. intros (? & ? & _)%list_find_Some. done. Qed.

(** The newest tree. *)
Lemma a_hist_0 s a : Rep d B s a → ∃ i, a_hist a !! 0 = Some (a_tree a, i).
Proof.
  intros HR. pose proof (rep_length _ _ _ _ HR). pose proof (wf_size _ _ _ (rep_wf _ _ _ _ HR)).
  unfold a_tree. destruct (a_hist a) as [|[T i] h]; simpl in *; [lia|]. eauto.
Qed.

Lemma get_change_log_ok s a :
  Rep d B s a → ∃ cl, get_change_log s = Ok cl ∧ root cl = troot (a_tree a) d.
Proof.
  intros HR. destruct (a_hist_0 s a HR) as [i Hi].
  destruct (rep_root _ _ _ _ HR _ _ _ Hi) as (cl & Hcl & Hroot).
  rewrite (slot_0 B) in Hcl by apply (rep_wf _ _ _ _ HR).
  exists cl. split; [|done]. by apply index_lookup.
Qed.
End reading.

(** ** Checking a proof *)
Section checking.
Context (d : nat) (B : N) `{Keccak} `{BuildProfile} (Hsizes : sizes_ok d B).
Implicit Types (s : MerkleRoll) (a : aroll) (i : N).

Lemma find_root_loop_total s r range :
  well_formed d B s → (∀ k, k ∈ range → (k < B)%N) →
  ∃ o, find_root_loop s r (B - 1) range = Ok o ∧
    ∀ j, o = Some j → ∃ m, (N.of_nat m < B)%N ∧ j = slot B s m.
Proof.
  intros Hwf. induction range as [|k range IH]; intros Hrange; simpl; [by exists None|].
  assert (k < B)%N as Hk by (apply Hrange; left).
  rewrite <-(N2Nat.id k), (slot_wrapping d B Hsizes) by (first [apply Hwf|lia]).
  destruct (wf_change_log d B Hsizes s (N.to_nat k) Hwf) as (cl & Hcl & _).
  rewrite (index_lookup _ _ _ Hcl). simpl. case_decide.
  - eexists. split; [done|]. intros j [= <-]. exists (N.to_nat k). split; [lia|done].
  - apply IH. intros k' Hk'. apply Hrange. by right.
Qed.

Lemma find_root_total s r :
  well_formed d B s → ∃ o, find_root_in_changelog B s r = Ok o ∧
    ∀ j, o = Some j → ∃ m, (N.of_nat m < B)%N ∧ j = slot B s m.
Proof.
  intros Hwf. unfold find_root_in_changelog. rewrite (mask_ok d B Hsizes). simpl.
  apply find_root_loop_total; [done|].
  intros k (n & -> & Hn%elem_of_seq)%list_elem_of_fmap. pose proof (wf_size _ _ _ Hwf). lia.
Qed.

(** The start of the replay of the whole buffer. *)
Lemma full_buffer_start s :
  well_formed d B s →
  wsub (E:=CMTError) 64 (buffer_size s) 1 = Ok (buffer_size s - 1)%N ∧
  ∃ m, (0 < m ∧ (N.of_nat m ≤ B)%N) ∧
    N.land (wrapping_sub 64 (active_index s) (buffer_size s - 1)) (B - 1) = slot B s m ∧
    (1 < buffer_size s → N.of_nat m = buffer_size s - 1)%N.
Proof.
  intros Hwf. pose proof (wf_size _ _ _ Hwf). pose proof (B_bounds _ _ Hsizes).
  split; [by rewrite wsub_ok by lia|].
  rewrite <-(N2Nat.id (buffer_size s - 1)), (slot_wrapping d B Hsizes) by (first [apply Hwf|lia]).
  destruct (decide (buffer_size s = 1)%N) as [Hb|Hb].
  - exists (N.to_nat B). split; [lia|]. split; [|lia]. rewrite Hb. unfold slot.
    rewrite !N2Nat.id, N.sub_diag, N.sub_0_r.
    replace (active_index s + B - B)%N with (active_index s) by lia.
    replace (active_index s + B)%N with (active_index s + 1 * B)%N by lia.
    by rewrite N.Div0.mod_add.
  - exists (N.to_nat (buffer_size s - 1)). split; [lia|]. split; [done|lia].
Qed.

(** [check_valid_leaf] on a well-formed state: a verdict or one of two errors,
    never a panic, never out of fuel. *)
Lemma check_valid_leaf_total s r lf p i allow :
  well_formed d B s → (i < 2 ^ N.of_nat d)%N → length p = d →
  match check_valid_leaf d B s r lf p i allow with
  | Ok (valid, p') => length p' = d ∧ ∃ cl, get_change_log s = Ok cl ∧
      valid = bool_decide (hash_path 0 lf p' i = root cl)
  | Err e => (e = RootNotFound ∧ allow = false) ∨ e = LeafContentsModified
  | _ => False
  end.
Proof.
  intros Hwf Hi Hp. unfold check_valid_leaf. rewrite (mask_ok d B Hsizes). cbn [mbind outcome_bind].
  destruct (find_root_total s r Hwf) as (o & -> & Ho). cbn [mbind outcome_bind].
  assert (∀ m full, (if full : bool then 0 < m ∧ (N.of_nat m ≤ B)%N else (N.of_nat m < B)%N) →
    match ('(proof_leaf_unchanged, updatable_leaf_node, proof) ←
             fast_forward_proof d B s lf p i (slot B s m) full;
           if negb proof_leaf_unchanged then Err LeafContentsModified
           else
             recomputed ← recompute updatable_leaf_node proof i;
             cl ← get_change_log s;
             Ok (bool_decide (recomputed = root cl), proof)) with
    | Ok (valid, p') => length p' = d ∧ ∃ cl, get_change_log s = Ok cl ∧
        valid = bool_decide (hash_path 0 lf p' i = root cl)
    | Err e => (e = RootNotFound ∧ allow = false) ∨ e = LeafContentsModified
    | _ => False
    end) as Hff.
  { intros m full Hm.
    destruct (fast_forward_total d B Hsizes s i full m p lf) as (p' & l' & -> & Hp'); [done..|].
    simpl. case_bool_decide as Hl; simpl; [|by right]. subst l'.
    destruct Hsizes as [Hd _]. rewrite recompute_ok by lia. simpl.
    destruct (wf_change_log d B Hsizes s 0 Hwf) as (cl & Hcl & _).
    rewrite (slot_0 B) in Hcl by apply Hwf. unfold get_change_log.
    rewrite (index_lookup _ _ _ Hcl). simpl. split; [done|]. by exists cl. }
  destruct o as [j|]; simpl.
  - destruct (Ho j) as (m & Hm & ->); [done|]. by apply (Hff m false).
  - destruct allow; [|by left].
    destruct (full_buffer_start s Hwf) as (Hsub & m & Hm & Hslot & _).
    rewrite Hsub. simpl. rewrite Hslot. by apply (Hff m true).
Qed.

(** A proof of the tree whose root is given, with nodes of the newest tree, or, when the root is not found, of
    the oldest tree of the buffer, is brought to the newest tree; the leaf must
    not have been written since. *)
Lemma check_valid_leaf_replay s a r i allow m T0 i0 p :
  Rep d B s a → (i < 2 ^ N.of_nat d)%N → a_hist a !! m = Some (T0, i0) → mixed d T0 (a_tree a) i p →
  (find_root d a r = Some (m, (T0, i0)) ∨
   find_root d a r = None ∧ allow = true ∧ 0 < m ∧ S m = length (a_hist a)) →
  check_valid_leaf d B s r (leaf_at T0 i) p i allow =
  if decide (leaf_at (a_tree a) i = leaf_at T0 i) then Ok (true, tproof (a_tree a) d i)
  else Err LeafContentsModified.
Proof.
  intros HR Hi Hm Hp Hfind. unfold check_valid_leaf. rewrite (mask_ok d B Hsizes). cbn [mbind outcome_bind].
  rewrite (find_root_in_changelog_ok d B Hsizes s a) by done. cbn [mbind outcome_bind].
  assert (∀ full, (full = true → 0 < m) →
    ('(proof_leaf_unchanged, updatable_leaf_node, proof) ←
       fast_forward_proof d B s (leaf_at T0 i) p i (slot B s m) full;
     if negb proof_leaf_unchanged then Err LeafContentsModified
     else
       recomputed ← recompute updatable_leaf_node proof i;
       cl ← get_change_log s;
       Ok (bool_decide (recomputed = root cl), proof)) =
    if decide (leaf_at (a_tree a) i = leaf_at T0 i) then Ok (true, tproof (a_tree a) d i)
    else Err LeafContentsModified) as Hff.
  { intros full Hfull. rewrite (fast_forward_tree d B Hsizes s a i full m T0 i0 p) by done.
    cbn [mbind outcome_bind]. case_bool_decide as Hl; rewrite ?decide_True, ?decide_False by done;
      simpl; [|done].
    destruct Hsizes as [Hd _]. rewrite recompute_ok by (rewrite length_tproof; lia). simpl.
    destruct (get_change_log_ok d B s a HR) as (cl & -> & Hcl). simpl.
    by rewrite Hcl, hash_path_tproof, bool_decide_true. }
  destruct Hfind as [->|(-> & -> & Hm0 & Hlen)]; cbn [fmap option_fmap option_map mbind outcome_bind fst].
  - by apply (Hff false).
  - pose proof (rep_length _ _ _ _ HR) as Hsize.
    destruct (full_buffer_start s (rep_wf _ _ _ _ HR)) as (Hsub & m' & Hm' & Hslot & Heq).
    rewrite Hsub. cbn [mbind outcome_bind]. rewrite Hslot.
    replace m' with m by lia. by apply (Hff true).
Qed.

(** An accepted proof is the proof of the leaf in the newest tree, or yields a
    collision of the hash. *)
Lemma check_valid_leaf_sound s a r lf p i allow p' :
  Rep d B s a → (i < 2 ^ N.of_nat d)%N → length p = d →
  check_valid_leaf d B s r lf p i allow = Ok (true, p') →
  find_collision (a_tree a) 0 lf p' i = None →
  lf = leaf_at (a_tree a) i ∧ p' = tproof (a_tree a) d i.
Proof.
  intros HR Hi Hp Hcheck Hnone.
  pose proof (check_valid_leaf_total s r lf p i allow (rep_wf _ _ _ _ HR) Hi Hp) as Htot.
  rewrite Hcheck in Htot. destruct Htot as (Hp' & cl & Hcl & Hroot).
  destruct (get_change_log_ok d B s a HR) as (cl' & Hcl' & Hroot').
  rewrite Hcl in Hcl'. injection Hcl' as <-.
  symmetry in Hroot. apply bool_decide_eq_true in Hroot. rewrite Hroot' in Hroot.
  by apply (verified_proof _ d).
Qed.
End checking.
