(* ===== verification/MerkleRollWrite.v ===== *)
(** * Writing to the concurrent Merkle tree

    Recording a write in the ring preserves [Rep], for a write through a proof
    and for the append without a proof. *)

From S2P Require Import Prelude Hashing MerkleSpec ChangeLog MerkleRoll MerkleRollSpec.
From S2P Require Import MerkleRollLemmas.

(** ** Recording a write *)
Section pushing.
Context (d : nat) (B : N) `{Keccak} `{BuildProfile} (Hsizes : sizes_ok d B).
Implicit Types (s : MerkleRoll) (a : aroll) (T : tree) (i : N).

(** The state after a write: the next slot holds the change log. *)
Definition pushed s (cl : ChangeLog) (rmp : Path) : MerkleRoll :=
  let active := ((active_index s + 1) `mod` B)%N in
  mk_MerkleRoll (saturating_add 64 (sequence_number s) 1) active
    (N.min (buffer_size s + 1) B)%N (<[N.to_nat active := cl]> (change_logs s)) rmp.

Definition log_of T i : ChangeLog := mk_ChangeLog (troot T d) (tpath T d i) i.

Lemma slot_pushed_S s cl rmp m :
  (N.of_nat (S m) ≤ B)%N → slot B (pushed s cl rmp) (S m) = slot B s m.
Proof.
  intros Hm. unfold slot, pushed. cbn [active_index].
  rewrite <-N.add_sub_assoc by lia.
  rewrite N.Div0.add_mod_idemp_l. f_equal. lia.
Qed.

Lemma active_pushed s cl rmp : (active_index (pushed s cl rmp) < B)%N.
Proof. apply N.mod_lt. pose proof (B_bounds _ _ Hsizes). lia. Qed.

Lemma change_logs_pushed_0 s cl rmp :
  well_formed d B s →
  change_logs (pushed s cl rmp) !! N.to_nat (slot B (pushed s cl rmp) 0) = Some cl.
Proof.
  intros Hwf. pose proof (active_pushed s cl rmp) as Ha. rewrite (slot_0 B) by done.
  apply list_lookup_insert_eq. rewrite (wf_change_logs _ _ _ Hwf). unfold pushed in Ha.
  cbn [active_index] in Ha. lia.
Qed.

Lemma change_logs_pushed_S s cl rmp m :
  (N.of_nat (S m) < B)%N →
  change_logs (pushed s cl rmp) !! N.to_nat (slot B (pushed s cl rmp) (S m)) =
  change_logs s !! N.to_nat (slot B s m).
Proof.
  intros Hm. rewrite slot_pushed_S by lia. unfold pushed. cbn [change_logs].
  apply list_lookup_insert_ne. intros Heq.
  pose proof (active_pushed s cl rmp) as Ha.
  assert (slot B (pushed s cl rmp) 0 = slot B (pushed s cl rmp) (S m)) as Hslot.
  { rewrite slot_pushed_S by lia. rewrite (slot_0 B) by done. unfold pushed at 1. cbn [active_index]. lia. }
  apply (slot_inj B) in Hslot; [done|done|lia|lia].
Qed.

Lemma a_hist_write a i v m :
  (N.of_nat m < B)%N →
  a_hist (a_write B a i v) !! m =
  match m return option (tree * N) with O => Some (<[i:=v]> (a_tree a), i) | S m => a_hist a !! m end.
Proof. intros Hm. unfold a_write. cbn [a_hist]. rewrite lookup_take_lt by lia. by destruct m. Qed.

Lemma a_tree_write a i v : a_tree (a_write B a i v) = <[i:=v]> (a_tree a).
Proof.
  unfold a_write, a_tree. cbn [a_hist]. pose proof (B_bounds _ _ Hsizes).
  by destruct (N.to_nat B) eqn:HB; [lia|].
Qed.

Lemma well_formed_pushed s i T rmp :
  well_formed d B s → (i < 2 ^ N.of_nat d)%N → length (proof rmp) = d →
  (rm_index rmp ≤ 2 ^ N.of_nat d)%N → well_formed d B (pushed s (log_of T i) rmp).
Proof.
  intros Hwf Hi Hp Hr. pose proof (B_bounds _ _ Hsizes). pose proof (wf_size _ _ _ Hwf).
  split; unfold pushed; cbn [change_logs active_index buffer_size rightmost_proof]; try done.
  - by rewrite length_insert, (wf_change_logs _ _ _ Hwf).
  - apply Forall_insert; [apply Hwf|]. simpl. by rewrite length_tpath.
  - apply N.mod_lt. lia.
  - lia.
Qed.

(** The write of leaf [i] refines [a_write]. *)
Lemma Rep_pushed s a i v rmp :
  let T := <[i:=v]> (a_tree a) in
  Rep d B s a → (i < 2 ^ N.of_nat d)%N → length (proof rmp) = d →
  rm_index rmp = N.max (a_count a) (i + 1)%N → rightmost_ok d rmp T →
  Rep d B (pushed s (log_of T i) rmp) (a_write B a i v).
Proof.
  intros T HR Hi Hp Hr Hrmp. pose proof (rep_wf _ _ _ _ HR) as Hwf.
  pose proof (wf_size _ _ _ Hwf). pose proof (rep_length _ _ _ _ HR) as Hlen.
  assert (∀ m x, a_hist (a_write B a i v) !! m = Some x → (N.of_nat m < B)%N) as Hbound.
  { intros m x Hm%lookup_lt_Some. unfold a_write in Hm. cbn [a_hist] in Hm.
    rewrite length_take in Hm. lia. }
  split.
  - apply well_formed_pushed; [done..|]. rewrite Hr, <-(rep_count _ _ _ _ HR).
    pose proof (wf_rm_index _ _ _ Hwf). lia.
  - unfold a_write, pushed. cbn [a_hist buffer_size]. rewrite length_take. simpl. lia.
  - intros m T' i' Hm. pose proof (Hbound _ _ Hm) as HmB. rewrite a_hist_write in Hm by done.
    destruct m as [|m]; simplify_eq.
    + exists (log_of T i'). split; [by apply change_logs_pushed_0|done].
    + rewrite change_logs_pushed_S by lia. by apply (rep_root _ _ _ _ HR) in Hm.
  - intros m T1 i1 T2 i2 Hm HSm. pose proof (Hbound _ _ Hm) as HmB.
    pose proof (Hbound _ _ HSm) as HSmB. rewrite a_hist_write in Hm, HSm by done.
    destruct m as [|m]; simplify_eq.
    + exists (log_of T i1). split; [by apply change_logs_pushed_0|].
      split; [done|]. split; [|done]. exists v. unfold T, a_tree.
      destruct (a_hist a) as [|x h]; [done|]. by injection HSm as ->.
    + rewrite change_logs_pushed_S by lia. by eapply (rep_step _ _ _ _ HR).
  - done.
  - by rewrite a_tree_write.
  - unfold pushed, a_write. cbn [sequence_number a_seq]. by rewrite (rep_seq _ _ _ _ HR).
Qed.

(** [update_internal_counters] and the write of the change log make [pushed]. *)
Lemma update_internal_counters_ok s :
  well_formed d B s →
  update_internal_counters B s =
  (Ok tt, mk_MerkleRoll (saturating_add 64 (sequence_number s) 1) ((active_index s + 1) `mod` B)%N
            (N.min (buffer_size s + 1) B)%N (change_logs s) (rightmost_proof s)).
Proof.
  intros Hwf. pose proof (B_bounds _ _ Hsizes). pose proof (wf_active _ _ _ Hwf).
  pose proof (wf_size _ _ _ Hwf).
  unfold update_internal_counters, lift, get, modify, mbind, method_bind.
  rewrite (mask_ok d B Hsizes). cbn beta iota. rewrite wadd_ok by lia.
  rewrite (land_B d B Hsizes). destruct (buffer_size s <? B)%N eqn:Hb.
  - apply N.ltb_lt in Hb. rewrite wadd_ok by lia. by replace (N.min _ _) with (buffer_size s + 1)%N by lia.
  - apply N.ltb_ge in Hb. by replace (N.min _ _) with (buffer_size s) by lia.
Qed.

Lemma put_change_log_ok s i cl :
  (i < B)%N → length (change_logs s) = N.to_nat B →
  put_change_log i cl s = (Ok tt, set_change_logs (<[N.to_nat i := cl]> (change_logs s)) s).
Proof.
  intros Hi Hlen. unfold put_change_log, get, lift, modify, mbind, method_bind.
  by rewrite index_set_lt by lia.
Qed.
End pushing.

(** ** Writing through a proof *)
Section writing.
Context (d : nat) (B : N) `{Keccak} `{BuildProfile} (Hsizes : sizes_ok d B).
Implicit Types (s : MerkleRoll) (a : aroll) (T : tree) (i : N).

Lemma shiftl_1_pow n : N.shiftl 1 (N.of_nat n) = (2 ^ N.of_nat n)%N.
Proof. rewrite N.shiftl_mul_pow2. lia. Qed.

Lemma pow_d_bounds : (2 ≤ 2 ^ N.of_nat d ∧ 2 ^ N.of_nat d * 4 ≤ 2 ^ 32)%N.
Proof.
  destruct Hsizes as [Hd _]. split.
  - apply (N.pow_le_mono_r 2 1); lia.
  - change 4%N with (2 ^ 2)%N. rewrite <-N.pow_add_r. apply N.pow_le_mono_r; lia.
Qed.

(** The number of leaves, as the code computes it. *)
Lemma capacity_ok : wshl (E:=CMTError) 32 1 (N.of_nat d) = Ok (2 ^ N.of_nat d)%N.
Proof.
  destruct Hsizes as [Hd _]. pose proof pow_d_bounds.
  rewrite wshl_ok, shiftl_1_pow; [done|lia|rewrite shiftl_1_pow; lia].
Qed.

Lemma update_rightmost_path_ok s T i v :
  rightmost_ok d (rightmost_proof s) T → length (proof (rightmost_proof s)) = d →
  (rm_index (rightmost_proof s) ≤ 2 ^ N.of_nat d)%N → (i < 2 ^ N.of_nat d)%N →
  (i ≤ rm_index (rightmost_proof s))%N →
  ∃ rmp, update_rightmost_path d (log_of d (<[i:=v]> T) i) (tproof T d i) i s =
      (Ok tt, set_rightmost_proof rmp s) ∧
    length (proof rmp) = d ∧ rm_index rmp = N.max (rm_index (rightmost_proof s)) (i + 1) ∧
    rightmost_ok d rmp (<[i:=v]> T).
Proof.
  intros [Hempty Hlast] Hlen Hcap Hi Hle. pose proof pow_d_bounds. destruct Hsizes as [Hd _].
  unfold update_rightmost_path. run_method. rewrite capacity_ok.
  assert (∀ j, (N.max (rm_index (rightmost_proof s)) (i + 1) ≤ j)%N → leaf_at (<[i:=v]> T) j = EMPTY)
    as Hempty'.
  { intros j Hj. rewrite leaf_at_insert_ne by lia. apply Hempty. lia. }
  destruct (_ <? 2 ^ _)%N eqn:Hfull; last first.
  { apply N.ltb_ge in Hfull. exists (rightmost_proof s). split; [by destruct s|].
    split; [done|]. split; [lia|]. split; [|lia]. intros j Hj. apply Hempty'. lia. }
  apply N.ltb_lt in Hfull. destruct (Hlast Hfull) as [Hleaf Hproof].
  destruct (i <? _)%N eqn:Hlt.
  - apply N.ltb_lt in Hlt. rewrite wsub_ok by lia. rewrite Hleaf, Hproof.
    unfold log_of. rewrite update_proof_or_leaf_tree by lia. cbn beta iota.
    eexists (mk_Path _ _ _). split; [done|]. cbn [proof rm_index].
    rewrite length_tproof. split; [done|]. split; [lia|]. split; [|done].
    intros j Hj. apply Hempty'. cbn [rm_index] in Hj. lia.
  - apply N.ltb_ge in Hlt. assert (i = rm_index (rightmost_proof s)) as Heq by lia.
    rewrite <-Heq, N.eqb_refl. cbn [rust_assert]. rewrite wadd_ok by lia. unfold get_leaf.
    rewrite (index_lookup _ _ v).
    2: { unfold log_of. cbn [path]. rewrite lookup_tpath by lia. rewrite ix_0. simpl.
         by rewrite leaf_at_insert. }
    eexists (mk_Path _ _ _). split; [done|]. cbn [proof rm_index].
    rewrite length_tproof. split; [done|]. split; [lia|]. split; cbn [rm_index leaf proof].
    + intros j Hj. apply Hempty'. lia.
    + intros _. replace (i + 1 - 1)%N with i by lia. by rewrite leaf_at_insert, tproof_insert_self.
Qed.

(** The write of a leaf whose proof is the one of the newest tree. *)
Lemma write_ok s a i v :
  Rep d B s a → (i < 2 ^ N.of_nat d)%N → (i ≤ a_count a)%N →
  ∃ s', (update_internal_counters B;;
         update_buffers_from_proof d v (tproof (a_tree a) d i) i) s =
      (Ok (troot (<[i:=v]> (a_tree a)) d), s') ∧ Rep d B s' (a_write B a i v).
Proof.
  intros HR Hi Hcount. pose proof (rep_wf _ _ _ _ HR) as Hwf.
  pose proof (B_bounds _ _ Hsizes) as HB.
  assert (((active_index s + 1) `mod` B)%N < B)%N as Hact by (apply N.mod_lt; lia).
  destruct (lookup_lt_is_Some_2 (change_logs s) (N.to_nat ((active_index s + 1) `mod` B)%N))
    as [cl Hcl]; [rewrite (wf_change_logs _ _ _ Hwf); lia|].
  run_method. rewrite (update_internal_counters_ok d B Hsizes) by done.
  unfold update_buffers_from_proof. run_method. cbn [active_index change_logs].
  rewrite (index_lookup _ _ _ Hcl).
  rewrite replace_and_recompute_path_tree;
    [|destruct Hsizes; lia|done|by apply (proj1 (Forall_lookup _ _) (wf_paths _ _ _ Hwf) _ _ Hcl)].
  cbn beta iota. rewrite (put_change_log_ok B); [|done|apply Hwf]. cbn beta iota.
  destruct (update_rightmost_path_ok
    (set_change_logs (<[N.to_nat ((active_index s + 1) `mod` B)%N := log_of d (<[i:=v]> (a_tree a)) i]>
       (change_logs s))
       (mk_MerkleRoll (saturating_add 64 (sequence_number s) 1) ((active_index s + 1) `mod` B)%N
            (N.min (buffer_size s + 1) B)%N (change_logs s) (rightmost_proof s))) (a_tree a) i v)
    as (rmp & Hrmp & Hlen & Hix & Hok).
  - apply (rep_rmp _ _ _ _ HR).
  - apply Hwf.
  - apply Hwf.
  - done.
  - cbn [rightmost_proof set_change_logs]. by rewrite (rep_count _ _ _ _ HR).
  - unfold log_of in Hrmp. cbn [change_logs]. rewrite Hrmp. eexists. split; [done|].
    cbn [rightmost_proof set_change_logs] in Hix. rewrite (rep_count _ _ _ _ HR) in Hix.
    by apply (Rep_pushed d B Hsizes s a i v rmp).
Qed.
End writing.
