(* ===== verification/MerkleRollTotal.v ===== *)
(** * Totality of the concurrent Merkle tree

    On a well-formed state every method returns a value or an error of
    [CMTError]: it never panics, in either build, and the fuel of the
    fast-forward loop is never spent.  A method that succeeds leaves a
    well-formed state, a method that fails leaves the state as it was. *)

From S2P Require Import Prelude Hashing MerkleSpec ChangeLog MerkleRoll MerkleRollSpec.
From S2P Require Import MerkleRollLemmas MerkleRollWrite.

(** What a call of a method promises: [Q] of the value and the new state, or an
    error among [es] with the state unchanged. *)
Definition total_with {S E A} (r : outcome E A * S) (s : S) (Q : A → S → Prop) (es : list E) : Prop :=
  match r with
  | (Ok x, s') => Q x s'
  | (Err e, s') => e ∈ es ∧ s' = s
  | _ => False
  end.

Section total.
Context (d : nat) (B : N) `{Keccak} `{BuildProfile} (Hsizes : sizes_ok d B).
Implicit Types (s : MerkleRoll) (i : N).

Lemma replace_and_recompute_path_total cl i v p :
  length (path cl) = d → length p = d →
  ∃ r cl', replace_and_recompute_path (E:=CMTError) cl i v p = Ok (r, cl') ∧
    length (path cl') = d ∧ cl_index cl' = i.
Proof.
  intros Hpath Hp. destruct Hsizes as [Hd _]. unfold replace_and_recompute_path.
  rewrite replace_path_loop_ok by lia. cbn [mbind outcome_bind]. eexists _, _. split; [done|].
  cbn [path cl_index]. by rewrite take_0, app_nil_l, length_fmap, length_seq.
Qed.

Lemma update_rightmost_path_total s cl p i :
  length (proof (rightmost_proof s)) = d → (rm_index (rightmost_proof s) ≤ 2 ^ N.of_nat d)%N →
  length p = d → length (path cl) = d → cl_index cl = i → (i < 2 ^ N.of_nat d)%N →
  (i ≤ rm_index (rightmost_proof s))%N →
  ∃ rmp, update_rightmost_path d cl p i s = (Ok tt, set_rightmost_proof rmp s) ∧
    length (proof rmp) = d ∧ (rm_index rmp ≤ 2 ^ N.of_nat d)%N.
Proof.
  intros Hlen Hcap Hp Hcl Hix Hi Hle. pose proof (pow_d_bounds d B Hsizes).
  unfold update_rightmost_path. run_method. rewrite (capacity_ok d B Hsizes).
  destruct (_ <? 2 ^ _)%N eqn:Hfull; last first.
  { exists (rightmost_proof s). by destruct s. }
  apply N.ltb_lt in Hfull. destruct (i <? _)%N eqn:Hlt.
  - apply N.ltb_lt in Hlt. rewrite wsub_ok by lia.
    destruct (update_proof_or_leaf_total d B Hsizes cl (rm_index (rightmost_proof s) - 1)
      (proof (rightmost_proof s)) (leaf (rightmost_proof s))) as (p' & l' & -> & Hp'); [done|lia..|done|].
    eexists (mk_Path _ _ _). by split; [done|].
  - apply N.ltb_ge in Hlt. replace (i =? _)%N with true by (symmetry; apply N.eqb_eq; lia).
    cbn [rust_assert]. rewrite wadd_ok by lia. unfold get_leaf.
    destruct (lookup_lt_is_Some_2 (path cl) 0) as [x Hx]; [destruct Hsizes; lia|].
    rewrite (index_lookup _ _ x) by done.
    eexists (mk_Path _ _ _). split; [done|]. cbn [proof rm_index]. split; [done|lia].
Qed.

Lemma write_total s v p i :
  well_formed d B s → (i < 2 ^ N.of_nat d)%N → (i ≤ rm_index (rightmost_proof s))%N → length p = d →
  ∃ r s', (update_internal_counters B;; update_buffers_from_proof d v p i) s = (Ok r, s') ∧
    well_formed d B s'.
Proof.
  intros Hwf Hi Hle Hp. pose proof (B_bounds _ _ Hsizes).
  pose proof (wf_size _ _ _ Hwf). pose proof (wf_change_logs _ _ _ Hwf) as Hlen.
  assert (((active_index s + 1) `mod` B)%N < B)%N as Hact by (apply N.mod_lt; lia).
  destruct (lookup_lt_is_Some_2 (change_logs s) (N.to_nat ((active_index s + 1) `mod` B)%N))
    as [cl Hcl]; [lia|].
  destruct (proj1 (Forall_lookup _ _) (wf_paths _ _ _ Hwf) _ _ Hcl) as [Hpath Hix].
  run_method. rewrite (update_internal_counters_ok d B Hsizes) by done.
  unfold update_buffers_from_proof. run_method. cbn [active_index change_logs].
  rewrite (index_lookup _ _ _ Hcl).
  destruct (replace_and_recompute_path_total cl i v p Hpath Hp) as (r & cl' & -> & Hpath' & Hix').
  cbn beta iota. rewrite (put_change_log_ok B) by done. cbn beta iota.
  edestruct update_rightmost_path_total as (rmp & -> & Hrmp & Hrmi); [..|];
    [| | |exact Hpath'|done|done| |]; [apply Hwf|apply Hwf|done|done|].
  cbn beta iota. eexists _, _. split; [done|].
  split; unfold set_rightmost_proof, set_change_logs; simpl; try done.
  - by rewrite length_insert.
  - apply Forall_insert; [apply Hwf|]. by rewrite Hix'.
  - lia.
Qed.

Lemma try_apply_total s r lf v p i allow :
  well_formed d B s → (i < 2 ^ N.of_nat d)%N → (i ≤ rm_index (rightmost_proof s))%N → length p = d →
  total_with (try_apply_proof d B r lf v p i allow s) s (λ _ s', well_formed d B s')
    ([InvalidProof; LeafContentsModified] ++ if allow then [] else [RootNotFound]).
Proof.
  intros Hwf Hi Hle Hp. unfold try_apply_proof. run_method.
  pose proof (check_valid_leaf_total d B Hsizes s r lf p i allow Hwf Hi Hp) as Hcheck.
  destruct (check_valid_leaf d B s r lf p i allow) as [[[] p']|e| |] eqn:Heq; try done; simpl.
  - destruct Hcheck as [Hp' _].
    destruct (write_total s v p' i Hwf Hi Hle Hp') as (r' & s' & Hrun & Hwf').
    unfold mbind, method_bind in Hrun. by rewrite Hrun.
  - split; [left|done].
  - split; [|done]. destruct Hcheck as [[-> ->]| ->]; [right; right; left|right; left].
Qed.
End total.
