(* ===== verification/MerkleRollAppend.v ===== *)
(** * Appending without a proof

    The loop of [append] walks the path of the next free leaf.  Below the
    intersection (the number of trailing zeros of the index) the siblings are
    empty; at the intersection the sibling is the subtree of the last leaf,
    hashed on the way; above it the two paths share their siblings. *)

From S2P Require Import Prelude Hashing MerkleSpec ChangeLog MerkleRoll MerkleRollSpec.
From S2P Require Import MerkleRollLemmas MerkleRollWrite.

(** ** Trailing zeros *)
Section trailing.
Local Open Scope N_scope.

Lemma pos_trailing_zeros_spec p : ∃ q, N.pos p = (2 * q + 1) * 2 ^ pos_trailing_zeros p.
Proof.
  induction p as [p _|p [q Hq]|]; simpl.
  - exists (N.pos p). rewrite N.pow_0_r. lia.
  - exists q. rewrite N.pow_succ_r'. lia.
  - by exists 0.
Qed.

Context (R : N) (t : nat) (HR : R ≠ 0) (Ht : trailing_zeros 32 R = N.of_nat t).

Lemma trailing_zeros_spec : ∃ q, R = (2 * q + 1) * 2 ^ N.of_nat t.
Proof. destruct R as [|p]; [done|]. rewrite <-Ht. apply pos_trailing_zeros_spec. Qed.

Lemma trailing_ix_eq : ∃ q, ix R t = 2 * q + 1 ∧ ix (R - 1) t = 2 * q.
Proof.
  destruct trailing_zeros_spec as [q Hq]. exists q.
  pose proof (N.pow_nonzero 2 (N.of_nat t) ltac:(done)). rewrite !N.shiftr_div_pow2. split.
  - rewrite Hq. by apply N.div_mul.
  - symmetry. apply N.div_unique with (2 ^ N.of_nat t - 1); lia.
Qed.

Lemma trailing_sibling : sibling_ix R t = ix (R - 1) t.
Proof.
  destruct trailing_ix_eq as (q & Hq & ->). unfold sibling_ix. rewrite Hq.
  by destruct q.
Qed.

Lemma trailing_testbit : N.testbit R (N.of_nat t) = true.
Proof.
  destruct trailing_ix_eq as (q & Hq & _).
  rewrite <-(N.add_0_l (N.of_nat t)), <-N.shiftr_spec by lia. rewrite Hq.
  by rewrite N.testbit_odd_0.
Qed.

Lemma trailing_ix_above l : (t < l)%nat → ix (R - 1) l = ix R l.
Proof.
  intros Hl. destruct trailing_ix_eq as (q & HR' & HR1).
  assert (∀ a, ix a l = N.shiftr (N.div (ix a t) 2) (N.of_nat (l - S t))) as Hix.
  { intros a. change 2 with (2 ^ 1). rewrite <-N.shiftr_div_pow2, !N.shiftr_shiftr.
    f_equal. lia. }
  rewrite !Hix, HR', HR1. f_equal. rewrite N.mul_comm, N.div_mul by done.
  rewrite N.div_add_l by done. change (1 / 2) with 0. lia.
Qed.

Lemma trailing_testbit_above l :
  (t < l)%nat → N.testbit (R - 1) (N.of_nat l) = N.testbit R (N.of_nat l).
Proof.
  intros Hl. rewrite <-(N.add_0_l (N.of_nat l)), <-!N.shiftr_spec by lia.
  by rewrite trailing_ix_above.
Qed.

Lemma trailing_testbit_below l : (l < t)%nat → N.testbit R (N.of_nat l) = false.
Proof.
  intros Hl. destruct trailing_zeros_spec as [q ->]. apply N.mul_pow2_bits_low. lia.
Qed.

Lemma trailing_lt d : R < 2 ^ N.of_nat d → (t < d)%nat.
Proof.
  intros Hd. destruct trailing_zeros_spec as [q Hq].
  destruct (decide (t < d)%nat); [done|].
  assert (2 ^ N.of_nat d ≤ 2 ^ N.of_nat t) by (apply N.pow_le_mono_r; lia). nia.
Qed.
End trailing.

(** ** Lists that a loop rewrites from the left *)
Section upto.
Context {A : Type}.
Implicit Types (f g : nat → A) (k n : nat).

Definition upto k f g n : list A := (λ j, if decide (j < k) then f j else g j) <$> seq 0 n.

Lemma length_upto k f g n : length (upto k f g n) = n.
Proof. unfold upto. by rewrite length_fmap, length_seq. Qed.

Lemma lookup_upto k f g n j :
  j < n → upto k f g n !! j = Some (if decide (j < k) then f j else g j).
Proof. intros. unfold upto. by rewrite list_lookup_fmap, lookup_seq_lt. Qed.

Lemma upto_0 f g n : upto 0 f g n = g <$> seq 0 n.
Proof. apply list_fmap_ext. intros. by rewrite decide_False by lia. Qed.

Lemma upto_all f g n : upto n f g n = f <$> seq 0 n.
Proof.
  apply list_fmap_ext. intros i x [-> ?]%lookup_seq. by rewrite decide_True by lia.
Qed.

Lemma insert_upto k f g n : k < n → <[k := f k]> (upto k f g n) = upto (S k) f g n.
Proof.
  intros Hk. apply list_eq. intros j. destruct (decide (j < n)) as [Hj|Hj]; last first.
  { by rewrite !(proj2 (lookup_ge_None _ _)) by (rewrite ?length_insert, length_upto; lia). }
  rewrite (lookup_upto (S k)) by done. destruct (decide (j = k)) as [->|Hne].
  - rewrite list_lookup_insert_eq by (by rewrite length_upto). by rewrite decide_True by lia.
  - rewrite list_lookup_insert_ne, lookup_upto by done.
    by destruct (decide (j < k)), (decide (j < S k)); try lia.
Qed.

Lemma upto_S k f g n : f k = g k → upto k f g n = upto (S k) f g n.
Proof.
  intros Heq. apply list_fmap_ext. intros i j _. destruct (decide (j = k)) as [->|Hne].
  - by rewrite decide_False, decide_True by lia.
  - by destruct (decide (j < k)), (decide (j < S k)); try lia.
Qed.
End upto.

(** ** The loop *)
Section loop.
Context (d : nat) (B : N) `{Keccak} `{BuildProfile} (Hsizes : sizes_ok d B).
Context (T : tree) (R : N) (t : nat) (v : Node).
Context (HR0 : R ≠ 0%N) (HR : (R < 2 ^ N.of_nat d)%N) (Ht : trailing_zeros 32 R = N.of_nat t).
Context (Hempty : ∀ i, (R ≤ i)%N → leaf_at T i = EMPTY).

Let T' := <[R:=v]> T.

(** The state of the loop before iteration [k]. *)
Definition loop_state (k : nat) : append_state :=
  mk_append_state (upto k (λ j, tnode T' j (ix R j)) (λ _, EMPTY) d)
    (tnode T' k (ix R k))
    (tnode T (min k t) (ix (R - 1) (min k t)))
    (upto k (λ j, tnode T' j (sibling_ix R j)) (λ j, tnode T j (sibling_ix (R - 1) j)) d).

(** The siblings of the new leaf: empty below the intersection, the subtree of
    the last leaf at the intersection, the siblings of the last leaf above. *)
Lemma sibling_below j : j < t → tnode T' j (sibling_ix R j) = empty_node j.
Proof.
  intros Hj. unfold T'. rewrite tnode_insert_ne by apply sibling_ix_neq.
  apply tnode_empty. intros i Hi. apply Hempty.
  pose proof (trailing_testbit_below R t HR0 Ht j Hj) as Hbit.
  destruct (ix_children R j) as [Hix Hsib]. rewrite Hbit in Hix, Hsib.
  destruct (N.le_gt_cases R i) as [|Hlt]; [done|].
  assert (ix i j ≤ ix R j)%N; [|lia].
  rewrite !N.shiftr_div_pow2. apply N.Div0.div_le_mono. lia.
Qed.

Lemma sibling_at : tnode T' t (sibling_ix R t) = tnode T t (ix (R - 1) t).
Proof.
  unfold T'. rewrite tnode_insert_ne by apply sibling_ix_neq.
  by rewrite (trailing_sibling R t).
Qed.

Lemma sibling_above j :
  t < j → tnode T' j (sibling_ix R j) = tnode T j (sibling_ix (R - 1) j).
Proof.
  intros Hj. unfold T'. rewrite tnode_insert_ne by apply sibling_ix_neq.
  unfold sibling_ix. by rewrite (trailing_ix_above R t).
Qed.

(** One step up the path of the new leaf. *)
Lemma path_step j :
  hash_to_parent (tnode T' j (ix R j)) (tnode T' j (sibling_ix R j))
    (negb (N.testbit R (N.of_nat j))) = tnode T' (S j) (ix R (S j)).
Proof. apply hash_to_parent_tnode. Qed.

Lemma append_step_ok k :
  k < d →
  append_step R (N.to_nat (trailing_zeros 32 R)) (replicate d EMPTY) (loop_state k) k =
  Ok (loop_state (S k)).
Proof.
  intros Hk. destruct Hsizes as [Hd _]. rewrite Ht, Nat2N.id.
  unfold loop_state, append_step.
  replace (S k `min` t) with (if decide (k < t) then S k else t) by (case_decide; lia).
  ok_step_with ltac:(rewrite length_upto; lia). rewrite Nat2N.id, (insert_upto k (λ j, tnode T' j (ix R j))) by done.
  pose proof (path_step k) as Hpath.
  destruct (decide (k < t)) as [Hkt|Hkt]; [|destruct (decide (k = t)) as [->|Hne]].
  - rewrite (index_lookup _ _ (tnode T k (sibling_ix (R - 1) k)))
      by (rewrite Nat2N.id, lookup_upto, decide_False by lia; done).
    simpl. do 2 ok_step. ok_step_with ltac:(rewrite length_upto; lia).
    rewrite land_1_testbit, Nat2N.id, empty_node_cached_replicate.
    rewrite <-(sibling_below k) by done.
    rewrite (insert_upto k (λ j, tnode T' j (sibling_ix R j))) by done.
    rewrite (trailing_testbit_below R t HR0 Ht k Hkt) in Hpath.
    rewrite Nat.min_l by lia. rewrite hash_to_parent_tnode.
    do 2 f_equal. exact Hpath.
  - ok_step_with ltac:(rewrite length_upto; lia).
    rewrite Nat2N.id, Nat.min_id.
    rewrite <-sibling_at, (insert_upto t (λ j, tnode T' j (sibling_ix R j))) by done.
    rewrite (trailing_testbit R t HR0 Ht) in Hpath. do 2 f_equal. exact Hpath.
  - rewrite (index_lookup _ _ (tnode T k (sibling_ix (R - 1) k)))
      by (rewrite Nat2N.id, lookup_upto, decide_False by lia; done).
    simpl. do 2 ok_step.
    rewrite land_1_testbit, (trailing_testbit_above R t HR0 Ht) by lia.
    rewrite <-sibling_above by lia. rewrite Nat.min_r by lia.
    rewrite (upto_S k (λ j, tnode T' j (sibling_ix R j))) by (apply sibling_above; lia).
    do 2 f_equal. exact Hpath.
Qed.

Lemma append_loop_ok k n :
  k + n = d →
  foldM (E:=CMTError) (append_step R (N.to_nat (trailing_zeros 32 R)) (replicate d EMPTY))
    (loop_state k) (seq k n) = Ok (loop_state d).
Proof.
  revert k. induction n as [|n IH]; intros k Hkn; cbn [seq foldM].
  - by replace k with d by lia.
  - rewrite append_step_ok by lia. cbn [mbind outcome_bind]. apply IH. lia.
Qed.

Lemma loop_state_0 :
  loop_state 0 = mk_append_state (replicate d EMPTY) v (leaf_at T (R - 1)) (tproof T d (R - 1)).
Proof.
  unfold loop_state. rewrite !upto_0, !ix_0. simpl. unfold T'. rewrite leaf_at_insert.
  f_equal. apply list_eq. intros i. destruct (decide (i < d)).
  - by rewrite list_lookup_fmap, lookup_seq_lt, lookup_replicate_2.
  - by rewrite !(proj2 (lookup_ge_None _ _)) by (rewrite ?length_fmap, ?length_seq, ?length_replicate; lia).
Qed.

Lemma loop_state_end :
  ap_change_list (loop_state d) = tpath T' d R ∧ ap_node (loop_state d) = troot T' d ∧
  ap_proof (loop_state d) = tproof T' d R.
Proof.
  unfold loop_state. cbn [ap_change_list ap_node ap_proof]. rewrite !upto_all.
  by rewrite (ix_eq_0 R d).
Qed.
End loop.

(** ** Whole writes *)
Section whole.
Context (d : nat) (B : N) `{Keccak} `{BuildProfile} (Hsizes : sizes_ok d B).
Implicit Types (s : MerkleRoll) (a : aroll) (i : N).

(** [try_apply_proof] with a proof of a tree of the buffer. *)
Lemma try_apply_replay s a r i v allow m T0 i0 p :
  Rep d B s a → (i < 2 ^ N.of_nat d)%N → (i ≤ a_count a)%N → a_hist a !! m = Some (T0, i0) →
  mixed d T0 (a_tree a) i p →
  (find_root d a r = Some (m, (T0, i0)) ∨
   find_root d a r = None ∧ allow = true ∧ 0 < m ∧ S m = length (a_hist a)) →
  if decide (leaf_at (a_tree a) i = leaf_at T0 i)
  then ∃ s', try_apply_proof d B r (leaf_at T0 i) v p i allow s =
         (Ok (troot (<[i:=v]> (a_tree a)) d), s') ∧ Rep d B s' (a_write B a i v)
  else try_apply_proof d B r (leaf_at T0 i) v p i allow s = (Err LeafContentsModified, s).
Proof.
  intros HR Hi Hcount Hm Hp Hfind. unfold try_apply_proof.
  pose proof (check_valid_leaf_replay d B Hsizes s a r i allow m T0 i0 p HR Hi Hm Hp Hfind) as Hcheck.
  case_decide; run_method; rewrite Hcheck; [|done]. cbn beta iota.
  destruct (write_ok d B Hsizes s a i v HR Hi Hcount) as (s' & Hs' & HR').
  by exists s'.
Qed.

(** [try_apply_proof] that succeeds wrote a leaf of the newest tree. *)
Lemma try_apply_sound s a r lf v p i allow r' s' :
  Rep d B s a → (i < 2 ^ N.of_nat d)%N → (i ≤ a_count a)%N → length p = d →
  try_apply_proof d B r lf v p i allow s = (Ok r', s') →
  ∃ p', check_valid_leaf d B s r lf p i allow = Ok (true, p') ∧
    (find_collision (a_tree a) 0 lf p' i = None →
     lf = leaf_at (a_tree a) i ∧ r' = troot (<[i:=v]> (a_tree a)) d ∧ Rep d B s' (a_write B a i v)).
Proof.
  intros HR Hi Hcount Hp. unfold try_apply_proof. run_method.
  destruct (check_valid_leaf d B s r lf p i allow) as [[valid p']|e| |] eqn:Hcheck; try done.
  cbn beta iota. destruct valid; [|done]. cbn [negb]. intros Hrun.
  exists p'. split; [done|]. intros Hnone.
  destruct (check_valid_leaf_sound d B Hsizes s a r lf p i allow p' HR Hi Hp Hcheck Hnone) as [-> ->].
  split; [done|].
  destruct (write_ok d B Hsizes s a i v HR Hi Hcount) as (s'' & Hs'' & HR').
  unfold mbind, method_bind in Hs''. rewrite Hs'' in Hrun. by injection Hrun as <- <-.
Qed.

Lemma find_root_head a T i : a_hist a !! 0 = Some (T, i) → find_root d a (troot T d) = Some (0, (T, i)).
Proof.
  unfold find_root. destruct (a_hist a) as [|x h]; [done|]. intros [= ->]. simpl.
  by rewrite decide_True by done.
Qed.

(** [append]: the next free leaf is written. *)
Lemma append_ok s a v :
  Rep d B s a → v ≠ EMPTY → (a_count a < 2 ^ N.of_nat d)%N →
  ∃ s', append d B v s = (Ok (troot (<[a_count a:=v]> (a_tree a)) d), s') ∧
    Rep d B s' (a_write B a (a_count a) v).
Proof.
  intros HR Hv Hcount. pose proof (rep_wf _ _ _ _ HR) as Hwf.
  pose proof (rep_count _ _ _ _ HR) as Hrm. pose proof (pow_d_bounds d B Hsizes).
  pose proof (B_bounds _ _ Hsizes) as HB.
  destruct (rep_rmp _ _ _ _ HR) as [Hempty Hlast]. rewrite Hrm in Hempty, Hlast.
  destruct (Hlast Hcount) as [Hleaf Hproof].
  unfold append. run_method. rewrite (check_bounds_ok d B Hsizes). cbn beta iota.
  rewrite decide_False by done. cbn beta iota. rewrite (capacity_ok d B Hsizes). cbn beta iota.
  rewrite Hrm. destruct (_ <=? a_count a)%N eqn:Hle; [apply N.leb_le in Hle; lia|].
  destruct (a_count a =? 0)%N eqn:Hz.
  - apply N.eqb_eq in Hz. rewrite Hz in *. rewrite N.sub_0_l in Hproof, Hleaf.
    destruct (a_hist_0 d B s a HR) as [i0 Hhead].
    unfold initialize_tree_from_append. run_method. rewrite Hproof.
    destruct Hsizes as [Hd _]. rewrite recompute_ok by (rewrite length_tproof; lia). cbn beta iota.
    assert (hash_path 0 EMPTY (tproof (a_tree a) d 0) 0 = troot (a_tree a) d) as ->
      by (rewrite <-(Hempty 0%N) by lia; apply hash_path_tproof; lia).
    rewrite decide_True by (apply tnode_empty; intros i _; apply Hempty; lia).
    rewrite <-(Hempty 0%N) by lia.
    pose proof (try_apply_replay s a (troot (a_tree a) d) 0 v false 0 (a_tree a) i0
      (tproof (a_tree a) d 0) HR) as Htry.
    rewrite decide_True in Htry by done. apply Htry; [lia|lia|done|apply mixed_tproof|left]. by apply find_root_head.
  - apply N.eqb_neq in Hz.
    assert (∃ t, trailing_zeros 32 (a_count a) = N.of_nat t) as [t Ht]
      by (eexists; symmetry; apply N2Nat.id).
    rewrite Hleaf, Hproof.
    rewrite <-(loop_state_0 d (a_tree a) (a_count a) t v) by done.
    rewrite (append_loop_ok d B Hsizes (a_tree a) (a_count a) t v Hz Hcount Ht Hempty 0 d) by done.
    destruct (loop_state_end d (a_tree a) (a_count a) t v Hcount) as (Hcl & Hnode & Hpr).
    rewrite Hcl, Hnode, Hpr.
    rewrite (update_internal_counters_ok d B Hsizes).
    2: { split; try apply Hwf; simpl; [by rewrite length_tproof|lia]. }
    cbn beta iota. rewrite (put_change_log_ok B); [|by apply N.mod_lt; lia|apply Hwf]. cbn beta iota.
    rewrite wadd_ok by lia. eexists. split; [done|].
    apply (Rep_pushed d B Hsizes s a (a_count a) v (mk_Path _ v _)); try done.
    + simpl. by rewrite length_tproof.
    + simpl. lia.
    + split; cbn [rm_index leaf proof].
      * intros i Hi. rewrite leaf_at_insert_ne by lia. apply Hempty. lia.
      * intros _. replace (a_count a + 1 - 1)%N with (a_count a) by lia. by rewrite leaf_at_insert.
Qed.
End whole.
