(* ===== verification/MerkleRollInit.v ===== *)
(** * Initialising the concurrent Merkle tree

    Both initialisers establish [Rep]: of the empty tree, or of a tree built
    elsewhere of which only the root and the proof of the last leaf are given.
    The file also fixes the executable instance on which the witnesses of the
    theorems on the tree run: depth 3, buffer of 8, [toy_hashv]. *)

From S2P Require Import Prelude Hashing MerkleSpec ChangeLog MerkleRoll MerkleRollSpec.
From S2P Require Import MerkleRollLemmas MerkleRollWrite MerkleRollAppend.

(** The abstract state of a tree whose only known version is [T]. *)
Definition a_start (T : tree) (i count seq : N) : aroll := mk_aroll [(T, i)] count seq.

Section initialise.
Context (d : nat) (B : N) `{Keccak} `{BuildProfile} (Hsizes : sizes_ok d B).
Implicit Types (s : MerkleRoll) (i : N).

(** The state before initialisation: the account's bytes are zeroed. *)
Definition blank s : Prop :=
  length (change_logs s) = N.to_nat B ∧
  Forall (λ cl, length (path cl) = d ∧ (cl_index cl < 2 ^ N.of_nat d)%N) (change_logs s).

Lemma new_blank : blank (new d B).
Proof.
  split; simpl; [by rewrite length_replicate|]. apply Forall_replicate. simpl.
  rewrite length_replicate. split; [done|]. pose proof (N.pow_nonzero 2 (N.of_nat d)). lia.
Qed.

Lemma imap_empty_nodes (cache : list Node) n :
  cache = replicate n EMPTY → imap (λ k _, empty_node_cached k cache) (replicate d EMPTY) = tproof ∅ d 0.
Proof.
  intros ->. apply list_eq. intros j. rewrite list_lookup_imap. destruct (decide (j < d)).
  - rewrite lookup_replicate_2, lookup_tproof by done. simpl.
    rewrite empty_node_cached_replicate. f_equal. symmetry. by apply tnode_empty.
  - rewrite (proj2 (lookup_ge_None (replicate d EMPTY) j)) by (rewrite length_replicate; lia).
    by rewrite lookup_tproof_ge by lia.
Qed.

(** A state with one known tree. *)
Lemma Rep_start s cl T i rmp count seq :
  blank s → root cl = troot T d → length (path cl) = d → (cl_index cl < 2 ^ N.of_nat d)%N →
  length (proof rmp) = d → rm_index rmp = count → (count ≤ 2 ^ N.of_nat d)%N →
  rightmost_ok d rmp T →
  Rep d B (mk_MerkleRoll seq 0 1 (<[0:=cl]> (change_logs s)) rmp) (a_start T i count seq).
Proof.
  intros [Hlen Hpaths] Hroot Hpath Hix Hp Hcount Hcap Hrmp. pose proof (B_bounds _ _ Hsizes).
  split; try done.
  - split; simpl; try done.
    + by rewrite length_insert.
    + by apply Forall_insert.
    + by rewrite Hcount.
    + lia.
    + lia.
  - intros [|m] T' i' Hm; [|done]. injection Hm as <- <-. exists cl. split; [|done].
    rewrite (slot_0 B) by (simpl; lia). simpl. apply list_lookup_insert_eq. lia.
Qed.

Lemma initialize_log s cl :
  blank s → change_logs s !! 0 = Some cl →
  ∃ s', initialize d B s = (Ok (empty_node d), s') ∧ Rep d B s' (a_start ∅ 0 0 0) ∧
    get_change_log s' = Ok (mk_ChangeLog (empty_node d) (tproof ∅ d 0) (cl_index cl)).
Proof.
  intros Hblank Hcl. destruct Hblank as [Hlen Hpaths]. pose proof (B_bounds _ _ Hsizes).
  destruct (proj1 (Forall_lookup _ _) Hpaths _ _ Hcl) as [Hpath Hix].
  unfold initialize. run_method. rewrite (check_bounds_ok d B Hsizes). cbn beta iota.
  rewrite (index_lookup _ 0 _ Hcl). cbn beta iota. rewrite (put_change_log_ok B) by (first [done|lia]).
  cbn beta iota. unfold set_change_logs. cbn [change_logs Path_default proof leaf rm_index].
  rewrite (index_lookup _ 0 (mk_ChangeLog (empty_node d)
    (imap (λ k _, empty_node_cached k (replicate d EMPTY)) (replicate d EMPTY)) (cl_index cl))).
  2: { apply list_lookup_insert_eq. change (N.to_nat 0) with 0. lia. }
  eexists. split; [done|]. rewrite !(imap_empty_nodes _ d) by done.
  split; [|by apply index_lookup, list_lookup_insert_eq; rewrite Hlen; lia].
  apply Rep_start; cbn [root path cl_index proof rm_index leaf]; try done.
  - symmetry. by apply tnode_empty.
  - by rewrite length_tproof.
  - by rewrite length_tproof.
  - lia.
Qed.

Lemma initialize_ok s :
  blank s → ∃ s', initialize d B s = (Ok (empty_node d), s') ∧ Rep d B s' (a_start ∅ 0 0 0).
Proof.
  intros Hblank. pose proof (B_bounds _ _ Hsizes).
  destruct (lookup_lt_is_Some_2 (change_logs s) 0) as [cl Hcl]; [destruct Hblank; lia|].
  destruct (initialize_log s cl Hblank Hcl) as (s' & Hrun & HR & _). by exists s'.
Qed.

Lemma initialize_with_root_ok s r lf pv i :
  blank s → length pv = d → (i < 2 ^ N.of_nat d)%N →
  ∃ s', initialize_with_root d B r lf pv i s =
      (if decide (r = hash_path 0 lf pv i) then Ok r else Panic, s') ∧
    ∀ T, r = troot T d → pv = tproof T d i → lf = leaf_at T i →
      (∀ j, (i < j)%N → leaf_at T j = EMPTY) → Rep d B s' (a_start T i (i + 1) 1).
Proof.
  intros Hblank Hp Hi. destruct Hblank as [Hlen Hpaths]. pose proof (B_bounds _ _ Hsizes).
  pose proof (pow_d_bounds d B Hsizes).
  destruct (lookup_lt_is_Some_2 (change_logs s) 0) as [cl Hcl]; [lia|].
  destruct (proj1 (Forall_lookup _ _) Hpaths _ _ Hcl) as [Hpath Hix].
  unfold initialize_with_root. run_method. rewrite (check_bounds_ok d B Hsizes). cbn beta iota.
  rewrite bool_decide_true by done. cbn [rust_assert]. rewrite wadd_ok by lia.
  rewrite (index_lookup _ 0 _ Hcl). cbn beta iota. rewrite (put_change_log_ok B) by (first [done|lia]).
  cbn beta iota. destruct Hsizes as [Hd _]. rewrite recompute_ok by lia. cbn beta iota.
  unfold set_change_logs. cbn [change_logs].
  eexists. split; [by case_decide; [rewrite bool_decide_true|rewrite bool_decide_false]|].
  intros T -> -> -> Hlast.
  apply Rep_start; cbn [root path cl_index proof rm_index leaf]; try done; [lia|].
  split; cbn [root path cl_index proof rm_index leaf].
  - intros j Hj. apply Hlast. lia.
  - intros _. by replace (i + 1 - 1)%N with i by lia.
Qed.
End initialise.

(** ** The instance of the witnesses *)
Module Toy.
#[export] Instance toy_keccak : Keccak := toy_hashv.
#[export] Instance release : BuildProfile := false.

Lemma sizes : sizes_ok 3 8.
Proof. split; [lia|]. by exists 3%N. Qed.

(** The state after initialisation and [n] appends of distinct leaves. *)
Fixpoint state (n : nat) : MerkleRoll :=
  match n with
  | O => (initialize 3 8 (new 3 8)).2
  | S n => (append 3 8 (toy_node (N.of_nat (S n))) (state n)).2
  end.

Fixpoint astate (n : nat) : aroll :=
  match n with
  | O => a_start ∅ 0 0 0
  | S n => a_write 8 (astate n) (a_count (astate n)) (toy_node (N.of_nat (S n)))
  end.

Lemma a_count_astate n : a_count (astate n) = N.of_nat n.
Proof. induction n as [|n IH]; simpl; [done|]. rewrite IH. lia. Qed.

Lemma toy_node_neq n : n ≤ 8 → n ≠ 0 → toy_node (N.of_nat n) ≠ EMPTY.
Proof. do 9 (destruct n as [|n]; [done|]). lia. Qed.

Lemma state_Rep n : n ≤ 8 → Rep 3 8 (state n) (astate n).
Proof.
  induction n as [|n IH]; intros Hn; cbn [state astate].
  - destruct (initialize_ok 3 8 sizes (new 3 8) (new_blank 3 8)) as (s' & -> & HR). exact HR.
  - destruct (append_ok 3 8 sizes (state n) (astate n) (toy_node (N.of_nat (S n)))) as (s' & -> & HR).
    + apply IH. lia.
    + by apply toy_node_neq.
    + rewrite a_count_astate. change (2 ^ N.of_nat 3)%N with 8%N. lia.
    + exact HR.
Qed.
End Toy.
