(* ===== verification/MerkleRollTheorems.v ===== *)
(** * The theorems on the concurrent Merkle tree

    The methods of [MerkleRoll] refine writes to an abstract tree: an accepted
    write is a write of a leaf whose previous value was proved, a stale proof is
    accepted while its root is in the buffer, an append writes the next leaf. *)

From S2P Require Import Prelude Hashing MerkleSpec ChangeLog MerkleRoll MerkleRollSpec.
From S2P Require Import MerkleRollLemmas MerkleRollWrite MerkleRollTotal MerkleRollAppend.
From S2P Require Import MerkleRollInit.

(** The client may leave out the top of a proof that consists of empty nodes. *)
Definition truncated_proof `{Keccak} (d : nat) (proof_vec full : list Node) : Prop :=
  length proof_vec ≤ d ∧
  full = proof_vec ++ (empty_node <$> seq (length proof_vec) (d - length proof_vec)).

(** The proof that [set_leaf] verifies: the given one, filled in and brought to
    the newest tree. *)
Definition forwarded_proof `{Keccak, BuildProfile} (d : nat) (B : N) (s : MerkleRoll)
    (r lf : Node) (pv : list Node) (i : N) (allow : bool) : list Node :=
  match (p ← fill_in_proof d pv (replicate d EMPTY); check_valid_leaf d B s r lf p i allow) with
  | Ok (_, p) => p
  | _ => []
  end.

Section theorems.
Context (d : nat) (B : N) `{Keccak} `{BuildProfile} (Hsizes : sizes_ok d B).
Implicit Types (s : MerkleRoll) (a : aroll) (T : tree) (i : N).

Lemma fill_truncated pv p :
  truncated_proof d pv p → fill_in_proof (E:=CMTError) d pv (replicate d EMPTY) = Ok p.
Proof. intros [Hlen ->]. by apply fill_in_proof_ok. Qed.

Lemma fill_length pv :
  length pv ≤ d → ∃ p, fill_in_proof (E:=CMTError) d pv (replicate d EMPTY) = Ok p ∧ length p = d.
Proof.
  intros Hlen. rewrite fill_in_proof_ok by done. eexists. split; [done|].
  rewrite length_app, length_fmap, length_seq. lia.
Qed.

Lemma mixed_same_proof T0 T1 T i p :
  tproof T1 d i = tproof T0 d i → mixed d T0 T i p → mixed d T1 T i p.
Proof.
  intros Heq [Hlen Hp]. split; [done|]. intros k Hk.
  assert (tnode T1 k (sibling_ix i k) = tnode T0 k (sibling_ix i k)) as ->; [|by apply Hp].
  assert (tproof T1 d i !! k = tproof T0 d i !! k) as Hlook by by rewrite Heq.
  rewrite !lookup_tproof in Hlook by done. by injection Hlook.
Qed.

(** Without a collision, a root of the buffer finds a tree with the same leaf and
    the same proof. *)
Lemma find_root_stale a i m T0 i0 :
  (i < 2 ^ N.of_nat d)%N → a_hist a !! m = Some (T0, i0) →
  (∀ m' T1 i1, a_hist a !! m' = Some (T1, i1) →
     find_collision T1 0 (leaf_at T0 i) (tproof T0 d i) i = None) →
  ∃ m1 T1 i1, find_root d a (troot T0 d) = Some (m1, (T1, i1)) ∧ a_hist a !! m1 = Some (T1, i1) ∧
    leaf_at T1 i = leaf_at T0 i ∧ tproof T1 d i = tproof T0 d i.
Proof.
  intros Hi Hm Hnone.
  destruct (find_root d a (troot T0 d)) as [[m1 [T1 i1]]|] eqn:Hfind; last first.
  { unfold find_root in Hfind. apply list_find_None in Hfind.
    by eapply Forall_lookup_1 in Hfind; [|exact Hm]. }
  pose proof (find_root_Some d a _ _ _ _ Hfind) as [Hm1 Hroot].
  destruct (verified_proof T1 d (leaf_at T0 i) (tproof T0 d i) i) as [Hl Hp].
  - apply length_tproof.
  - done.
  - rewrite hash_path_tproof by done. by rewrite Hroot.
  - by eapply Hnone.
  - by exists m1, T1, i1.
Qed.

Lemma set_leaf_replay s a i v pv p m T0 i0 :
  Rep d B s a → (i < 2 ^ N.of_nat d)%N → (i ≤ a_count a)%N →
  a_hist a !! m = Some (T0, i0) → truncated_proof d pv p → mixed d T0 (a_tree a) i p →
  (∀ m' T1 i1, a_hist a !! m' = Some (T1, i1) →
     find_collision T1 0 (leaf_at T0 i) (tproof T0 d i) i = None) →
  if decide (leaf_at (a_tree a) i = leaf_at T0 i)
  then ∃ s', set_leaf d B (troot T0 d) (leaf_at T0 i) v pv i s =
         (Ok (troot (<[i:=v]> (a_tree a)) d), s') ∧ Rep d B s' (a_write B a i v)
  else set_leaf d B (troot T0 d) (leaf_at T0 i) v pv i s = (Err LeafContentsModified, s).
Proof.
  intros HR Hi Hcount Hm Hpv Hmix Hnone.
  destruct (find_root_stale a i m T0 i0 Hi Hm Hnone) as (m1 & T1 & i1 & Hfind & Hm1 & Hl & Hp).
  unfold set_leaf. run_method. rewrite (check_bounds_ok d B Hsizes). cbn beta iota.
  rewrite (rep_count _ _ _ _ HR), (proj2 (N.ltb_ge _ _) Hcount).
  rewrite (fill_truncated _ _ Hpv). cbn beta iota. rewrite <-Hl.
  apply (try_apply_replay d B Hsizes s a _ i v true m1 T1 i1 p HR Hi Hcount Hm1);
    [|by left]. by apply (mixed_same_proof T0).
Qed.

(** [append] on every branch. *)
Lemma append_cases s a v :
  Rep d B s a →
  append d B v s =
  if decide (v = EMPTY) then (Err CannotAppendEmptyNode, s)
  else if decide (a_count a = 2 ^ N.of_nat d)%N then (Err TreeFull, s) else append d B v s.
Proof.
  intros HR. pose proof (wf_rm_index _ _ _ (rep_wf _ _ _ _ HR)) as Hcap.
  rewrite (rep_count _ _ _ _ HR) in Hcap. repeat case_decide; [| |done];
    unfold append; run_method; rewrite (check_bounds_ok d B Hsizes); cbn beta iota.
  - by rewrite decide_True.
  - rewrite decide_False by done. rewrite (capacity_ok d B Hsizes). cbn beta iota.
    rewrite (rep_count _ _ _ _ HR). by rewrite (proj2 (N.leb_le _ _)) by lia.
Qed.

Lemma append_not_empty s a v :
  Rep d B s a → v ≠ EMPTY →
  if decide (a_count a = 2 ^ N.of_nat d)%N then append d B v s = (Err TreeFull, s)
  else ∃ s', append d B v s = (Ok (troot (<[a_count a:=v]> (a_tree a)) d), s') ∧
         Rep d B s' (a_write B a (a_count a) v).
Proof.
  intros HR Hv. pose proof (wf_rm_index _ _ _ (rep_wf _ _ _ _ HR)) as Hcap.
  rewrite (rep_count _ _ _ _ HR) in Hcap. case_decide as Hfull.
  - rewrite (append_cases s a) by done. rewrite decide_False by done. by rewrite decide_True.
  - apply (append_ok d B Hsizes); [done|done|lia].
Qed.

(** C1: [set_leaf] accepts a stale proof.  A proof of leaf [i] taken from any
    tree [T0] whose root is still in the ring is accepted, whatever other leaves
    were written since, also when some of its nodes were refreshed from the
    newest tree: the result is the root of the newest tree with leaf [i]
    replaced, and the new state represents that tree.  When leaf [i] itself was
    changed since, the call fails with [LeafContentsModified] and the state is
    unchanged.  The side condition says that the proof is no collision of the
    hash for a tree of the ring. *)
Theorem set_leaf_stale_proof s a i v pv p m T0 i0 :
  Rep d B s a → (i < 2 ^ N.of_nat d)%N → (i ≤ a_count a)%N →
  a_hist a !! m = Some (T0, i0) → truncated_proof d pv p → mixed d T0 (a_tree a) i p →
  (∀ m' T1 i1, a_hist a !! m' = Some (T1, i1) →
     find_collision T1 0 (leaf_at T0 i) (tproof T0 d i) i = None) →
  if decide (leaf_at (a_tree a) i = leaf_at T0 i)
  then ∃ s', set_leaf d B (troot T0 d) (leaf_at T0 i) v pv i s =
         (Ok (troot (<[i:=v]> (a_tree a)) d), s') ∧ Rep d B s' (a_write B a i v)
  else set_leaf d B (troot T0 d) (leaf_at T0 i) v pv i s = (Err LeafContentsModified, s).
Proof. apply set_leaf_replay. Qed.

Lemma set_leaf_Ok s a r prev new pv i r' s' :
  Rep d B s a → (i < 2 ^ N.of_nat d)%N →
  set_leaf d B r prev new pv i s = (Ok r', s') →
  find_collision (a_tree a) 0 prev (forwarded_proof d B s r prev pv i true) i = None →
  leaf_at (a_tree a) i = prev ∧ r' = troot (<[i:=new]> (a_tree a)) d ∧ Rep d B s' (a_write B a i new).
Proof.
  intros HR Hi Hrun Hfc. unfold forwarded_proof in Hfc. unfold set_leaf in Hrun. revert Hrun. run_method.
  rewrite (check_bounds_ok d B Hsizes). cbn beta iota. rewrite (rep_count _ _ _ _ HR).
  destruct (a_count a <? i)%N eqn:Hle; [done|]. apply N.ltb_ge in Hle.
  destruct (decide (length pv ≤ d)) as [Hlen|Hlen].
  - destruct (fill_length pv Hlen) as (p & Hfill & Hp). rewrite Hfill in *. cbn beta iota. intros Hrun.
    destruct (try_apply_sound d B Hsizes s a r prev new p i true r' s' HR Hi Hle Hp Hrun)
      as (p' & Hcheck & Hsound).
    simpl in Hfc. rewrite Hcheck in Hfc. by destruct (Hsound Hfc) as (-> & -> & ?).
  - rewrite (fill_in_proof_too_long d) by (first [by rewrite length_replicate|lia]). done.
Qed.

(** C2: [set_leaf] is sound.  Whatever proof the caller gives, when the call
    succeeds the leaf held [prev] in the newest tree and the call wrote [new]
    there, unless the proof that was verified contains a collision of the hash,
    which [find_collision] exhibits. *)
Theorem set_leaf_sound s a r prev new pv i r' s' :
  Rep d B s a → (i < 2 ^ N.of_nat d)%N →
  set_leaf d B r prev new pv i s = (Ok r', s') →
  match find_collision (a_tree a) 0 prev (forwarded_proof d B s r prev pv i true) i with
  | Some c => is_collision c
  | None => leaf_at (a_tree a) i = prev ∧ r' = troot (<[i:=new]> (a_tree a)) d ∧
      Rep d B s' (a_write B a i new)
  end.
Proof.
  intros HR Hi Hrun. destruct (find_collision _ _ _ _ _) as [c|] eqn:Hfc.
  - by eapply find_collision_sound.
  - by eapply set_leaf_Ok.
Qed.
(** C13: [append] on every branch.  The empty leaf and a full tree are refused with
    the state unchanged; otherwise the next free leaf is written, the root
    returned is that of the tree with this leaf, and the ring and the rightmost
    proof represent it: the loop that never sees the tree computes its path.  (The
    comment on [append] in the source, that it always succeeds, overlooks the two
    refusals.) *)
Theorem append_refines s a v :
  Rep d B s a →
  if decide (v = EMPTY) then append d B v s = (Err CannotAppendEmptyNode, s)
  else if decide (a_count a = 2 ^ N.of_nat d)%N then append d B v s = (Err TreeFull, s)
  else ∃ s', append d B v s = (Ok (troot (<[a_count a:=v]> (a_tree a)) d), s') ∧
         Rep d B s' (a_write B a (a_count a) v).
Proof.
  intros HR. case_decide as Hv.
  - rewrite (append_cases s a) by done. by rewrite decide_True.
  - by apply append_not_empty.
Qed.

(** [initialize] on a blank account establishes the representation of the
    empty tree, and returns its root. *)
Theorem initialize_refines s :
  blank d B s → ∃ s', initialize d B s = (Ok (troot ∅ d), s') ∧ Rep d B s' (a_start ∅ 0 0 0).
Proof.
  intros Hblank. destruct (initialize_ok d B Hsizes s Hblank) as (s' & Hrun & HR).
  exists s'. split; [|done]. rewrite Hrun. do 2 f_equal. symmetry. by apply tnode_empty.
Qed.

(** [initialize_with_root] panics unless the leaf and the proof recompute the
    root that is claimed; when they do and are those of the last leaf of a tree,
    the new state represents this tree. *)
Theorem initialize_with_root_refines s r lf pv i :
  blank d B s → length pv = d → (i < 2 ^ N.of_nat d)%N →
  ∃ s', initialize_with_root d B r lf pv i s =
      (if decide (r = hash_path 0 lf pv i) then Ok r else Panic, s') ∧
    ∀ T, r = troot T d → pv = tproof T d i → lf = leaf_at T i →
      (∀ j, (i < j)%N → leaf_at T j = EMPTY) → Rep d B s' (a_start T i (i + 1) 1).
Proof. apply (initialize_with_root_ok d B Hsizes). Qed.

(** C31: [set_leaf] on a well-formed state neither panics nor runs out of the
    fuel of the fast-forward loop, in a checked or an unchecked build, for any
    root and leaf, an index below [2^d] and a proof of at most [d] nodes: it succeeds
    with a well-formed state, or fails with one of three errors and leaves the state
    unchanged.  (The index [2^d] passes the bound check of a full tree and spoils the
    state: [set_leaf_full_tree_aliases] of [MerkleRollLimits].  A longer proof
    panics.) *)
Theorem set_leaf_total s r prev new pv i :
  well_formed d B s → (i < 2 ^ N.of_nat d)%N → length pv ≤ d →
  total_with (set_leaf d B r prev new pv i s) s (λ _ s', well_formed d B s')
    [LeafIndexOutOfBounds; InvalidProof; LeafContentsModified].
Proof.
  intros Hwf Hi Hlen. unfold set_leaf. run_method. rewrite (check_bounds_ok d B Hsizes).
  cbn beta iota. destruct (_ <? i)%N eqn:Hle; [by split; [left|]|]. apply N.ltb_ge in Hle.
  destruct (fill_length pv Hlen) as (p & -> & Hp). cbn beta iota.
  pose proof (try_apply_total d B Hsizes s r prev new p i true Hwf Hi Hle Hp) as Htot.
  destruct (try_apply_proof _ _ _ _ _ _ _ _ _) as [[x|e| |] s'']; try done.
  destruct Htot as [He ->]. split; [by right|done].
Qed.

(** [prove_leaf] only reads, and is complete and sound: it fails or leaves
    the state as it was; the proof of a leaf in a tree of the ring is accepted
    when the leaf is unchanged since; and a proof that is accepted shows the
    value of the leaf in the newest tree, unless it exhibits a collision. *)
Theorem prove_leaf_correct s a r lf pv i :
  Rep d B s a → (i < 2 ^ N.of_nat d)%N → (i ≤ a_count a)%N → length pv ≤ d →
  total_with (prove_leaf d B r lf pv i s) s
    (λ _ s', s' = s ∧ match find_collision (a_tree a) 0 lf (forwarded_proof d B s r lf pv i true) i with
                      | Some c => is_collision c
                      | None => leaf_at (a_tree a) i = lf
                      end)
    [InvalidProof; LeafContentsModified] ∧
  (∀ m T0 i0, find_root d a r = Some (m, (T0, i0)) → truncated_proof d pv (tproof T0 d i) →
     lf = leaf_at T0 i →
     prove_leaf d B r lf pv i s =
       (if decide (leaf_at (a_tree a) i = lf) then Ok EMPTY else Err LeafContentsModified, s)).
Proof.
  intros HR Hi Hcount Hlen. destruct (fill_length pv Hlen) as (p & Hfill & Hp).
  unfold prove_leaf, forwarded_proof. run_method. rewrite (check_bounds_ok d B Hsizes).
  cbn beta iota. rewrite (rep_count _ _ _ _ HR), (proj2 (N.ltb_ge _ _) Hcount), !Hfill.
  cbn beta iota. split.
  - pose proof (check_valid_leaf_total d B Hsizes s r lf p i true (rep_wf _ _ _ _ HR) Hi Hp) as Htot.
    cbn [mbind outcome_bind].
    destruct (check_valid_leaf d B s r lf p i true) as [[[] p']|e| |] eqn:Hcheck; try done; simpl.
    + split; [done|]. destruct (find_collision _ _ _ _ _) eqn:Hfc; [by eapply find_collision_sound|].
      by destruct (check_valid_leaf_sound d B Hsizes s a r lf p i true p' HR Hi Hp Hcheck Hfc) as [-> _].
    + split; [left|done].
    + split; [|done]. destruct Htot as [[_ ?]| ->]; [done|right; left].
  - intros m T0 i0 Hfind Hpv ->. rewrite (fill_truncated _ _ Hpv) in Hfill. injection Hfill as <-.
    pose proof (find_root_Some d a _ _ _ _ Hfind) as [Hm _].
    rewrite (check_valid_leaf_replay d B Hsizes s a r i true m T0 i0 (tproof T0 d i) HR Hi Hm)
      by (first [apply mixed_tproof|by left]).
    by case_decide.
Qed.

(** [fill_empty_or_append] with the proof that leaf [i] was empty in a tree
    of the ring: when it is still empty it is written there, when it was filled
    since, the leaf is appended instead; no update is lost to the race. *)
Theorem fill_empty_or_append_refines s a v pv i m T0 i0 :
  Rep d B s a → (i < 2 ^ N.of_nat d)%N → (i ≤ a_count a)%N → v ≠ EMPTY →
  a_hist a !! m = Some (T0, i0) → truncated_proof d pv (tproof T0 d i) → leaf_at T0 i = EMPTY →
  (∀ m' T1 i1, a_hist a !! m' = Some (T1, i1) → find_collision T1 0 EMPTY (tproof T0 d i) i = None) →
  let j := if decide (leaf_at (a_tree a) i = EMPTY) then i else a_count a in
  if decide (j = 2 ^ N.of_nat d)%N
  then fill_empty_or_append d B (troot T0 d) v pv i s = (Err TreeFull, s)
  else ∃ s', fill_empty_or_append d B (troot T0 d) v pv i s =
         (Ok (troot (<[j:=v]> (a_tree a)) d), s') ∧ Rep d B s' (a_write B a j v).
Proof.
  intros HR Hi Hcount Hv Hm Hpv Hempty Hnone j. rewrite <-Hempty in Hnone.
  destruct (find_root_stale a i m T0 i0 Hi Hm Hnone) as (m1 & T1 & i1 & Hfind & Hm1 & Hl & Hp).
  unfold fill_empty_or_append, or_else. run_method. rewrite (check_bounds_ok d B Hsizes).
  cbn beta iota. rewrite (fill_truncated _ _ Hpv). cbn beta iota.
  pose proof (try_apply_replay d B Hsizes s a _ i v false m1 T1 i1 (tproof T1 d i) HR Hi Hcount
    Hm1 (mixed_tproof d T1 _ i) (or_introl Hfind)) as Htry. rewrite Hl, Hp, Hempty in Htry. subst j.
  destruct (decide (leaf_at (a_tree a) i = EMPTY)) as [He|He].
  - rewrite decide_False by lia. destruct Htry as (s' & -> & HR'). by exists s'.
  - rewrite Htry. by apply append_not_empty.
Qed.
End theorems.
