(* ===== verification/MerkleRollTrace.v ===== *)
(** * Histories of the concurrent Merkle tree

    The operations that write, as data; the abstract steps they may take; and
    the simulation of any history of calls by writes to the abstract tree.  A
    call that does not succeed aborts the transaction, which reverts the account. *)

From S2P Require Import Prelude Hashing MerkleSpec ChangeLog MerkleRoll MerkleRollSpec.
From S2P Require Import MerkleRollLemmas MerkleRollWrite MerkleRollTotal MerkleRollAppend.
From S2P Require Import MerkleRollInit MerkleRollTheorems.

Inductive op :=
  | SetLeaf (r prev new : Node) (pv : list Node) (i : N)
  | Append (v : Node)
  | FillEmptyOrAppend (r v : Node) (pv : list Node) (i : N).

Section trace.
Context (d : nat) (B : N) `{Keccak} `{BuildProfile}.

Definition run_op (o : op) : cmt_method Node :=
  match o with
  | SetLeaf r prev new pv i => set_leaf d B r prev new pv i
  | Append v => append d B v
  | FillEmptyOrAppend r v pv i => fill_empty_or_append d B r v pv i
  end.

(** A transaction: the account changes when the call succeeds only. *)
Definition exec (s : MerkleRoll) (o : op) : MerkleRoll :=
  match run_op o s with
  | (Ok _, s') => s'
  | _ => s
  end.

(** What a successful operation may do to the abstract tree. *)
Inductive a_step (a : aroll) : op → aroll → Prop :=
  | step_set_leaf r prev new pv i :
      leaf_at (a_tree a) i = prev → a_step a (SetLeaf r prev new pv i) (a_write B a i new)
  | step_append v :
      v ≠ EMPTY → (a_count a < 2 ^ N.of_nat d)%N → a_step a (Append v) (a_write B a (a_count a) v)
  | step_fill r v pv i :
      leaf_at (a_tree a) i = EMPTY → a_step a (FillEmptyOrAppend r v pv i) (a_write B a i v)
  | step_fill_append r v pv i :
      v ≠ EMPTY → (a_count a < 2 ^ N.of_nat d)%N →
      a_step a (FillEmptyOrAppend r v pv i) (a_write B a (a_count a) v).

(** The index is that of a leaf, and the verified proof holds no collision. *)
Definition genuine (s : MerkleRoll) (a : aroll) (o : op) : Prop :=
  match o with
  | SetLeaf r prev new pv i => (i < 2 ^ N.of_nat d)%N ∧
      find_collision (a_tree a) 0 prev (forwarded_proof d B s r prev pv i true) i = None
  | Append v => True
  | FillEmptyOrAppend r v pv i => (i < 2 ^ N.of_nat d)%N ∧
      find_collision (a_tree a) 0 EMPTY (forwarded_proof d B s r EMPTY pv i false) i = None
  end.

(** The write that a successful operation is: the leaf and its value. *)
Definition target (s : MerkleRoll) (a : aroll) (o : op) : N * Node :=
  match o with
  | SetLeaf r prev new pv i => (i, new)
  | Append v => (a_count a, v)
  | FillEmptyOrAppend r v pv i =>
      match (p ← fill_in_proof d pv (replicate d EMPTY); check_valid_leaf d B s r EMPTY p i false) with
      | Ok _ => (i, v)
      | _ => (a_count a, v)
      end
  end.

Definition a_exec (s : MerkleRoll) (a : aroll) (o : op) : aroll :=
  match run_op o s with
  | (Ok _, _) => a_write B a (target s a o).1 (target s a o).2
  | _ => a
  end.

(** A history of transactions, in the program and in the abstract tree. *)
Fixpoint exec_all (s : MerkleRoll) (os : list op) : MerkleRoll :=
  match os with [] => s | o :: os => exec_all (exec s o) os end.

Fixpoint a_exec_all (s : MerkleRoll) (a : aroll) (os : list op) : aroll :=
  match os with [] => a | o :: os => a_exec_all (exec s o) (a_exec s a o) os end.

Fixpoint all_genuine (s : MerkleRoll) (a : aroll) (os : list op) : Prop :=
  match os with
  | [] => True
  | o :: os => genuine s a o ∧ all_genuine (exec s o) (a_exec s a o) os
  end.

(** The abstract steps of a history; an operation may fail and change nothing. *)
Inductive a_history : aroll → list op → aroll → Prop :=
  | a_history_nil a : a_history a [] a
  | a_history_skip a o os a' : a_history a os a' → a_history a (o :: os) a'
  | a_history_step a o os a1 a' : a_step a o a1 → a_history a1 os a' → a_history a (o :: os) a'.
End trace.

Section simulation.
Context (d : nat) (B : N) `{Keccak} `{BuildProfile} (Hsizes : sizes_ok d B).
Implicit Types (s : MerkleRoll) (a : aroll) (i : N).

(** Past the next free leaf, a write trips the assertion on the rightmost path. *)
Lemma write_out_of_range s a i v p :
  Rep d B s a → (i < 2 ^ N.of_nat d)%N → (a_count a < i)%N → length p = d →
  ∃ s', (update_internal_counters B;; update_buffers_from_proof d v p i) s = (Panic, s').
Proof.
  intros HR Hi Hgt Hp. pose proof (rep_wf _ _ _ _ HR) as Hwf. pose proof (B_bounds _ _ Hsizes).
  pose proof (wf_change_logs _ _ _ Hwf) as Hlen.
  assert (((active_index s + 1) `mod` B)%N < B)%N as Hact by (apply N.mod_lt; lia).
  destruct (lookup_lt_is_Some_2 (change_logs s) (N.to_nat ((active_index s + 1) `mod` B)%N))
    as [cl Hcl]; [lia|].
  destruct (proj1 (Forall_lookup _ _) (wf_paths _ _ _ Hwf) _ _ Hcl) as [Hpath Hix].
  run_method. rewrite (update_internal_counters_ok d B Hsizes) by done.
  unfold update_buffers_from_proof. run_method. cbn [active_index change_logs].
  rewrite (index_lookup _ _ _ Hcl).
  destruct (replace_and_recompute_path_total d B Hsizes cl i v p Hpath Hp) as (r & cl' & -> & _ & _).
  cbn beta iota. rewrite (put_change_log_ok B) by done. cbn beta iota.
  unfold update_rightmost_path. run_method. rewrite (capacity_ok d B Hsizes). cbn beta iota.
  unfold set_change_logs. cbn [rightmost_proof]. rewrite (rep_count _ _ _ _ HR).
  rewrite (proj2 (N.ltb_lt _ _)) by lia. rewrite (proj2 (N.ltb_ge _ _)) by lia.
  rewrite (proj2 (N.eqb_neq _ _)) by lia. cbn [rust_assert]. eauto.
Qed.

(** A result of [try_apply_proof] that is no panic. *)
Lemma try_apply_inv s a r lf v p i allow o s' :
  Rep d B s a → (i < 2 ^ N.of_nat d)%N → length p = d →
  try_apply_proof d B r lf v p i allow s = (o, s') →
  match o with
  | Ok r' => (i ≤ a_count a)%N
  | Err _ => s' = s
  | _ => True
  end.
Proof.
  intros HR Hi Hp Hrun. destruct (decide (i ≤ a_count a)%N) as [Hle|Hgt].
  - rewrite <-(rep_count _ _ _ _ HR) in Hle.
    pose proof (try_apply_total d B Hsizes s r lf v p i allow (rep_wf _ _ _ _ HR) Hi Hle Hp) as Htot.
    rewrite Hrun in Htot. rewrite (rep_count _ _ _ _ HR) in Hle. by destruct o as [x|e| |], Htot.
  - unfold try_apply_proof in Hrun. revert Hrun. run_method.
    pose proof (check_valid_leaf_total d B Hsizes s r lf p i allow (rep_wf _ _ _ _ HR) Hi Hp) as Hcheck.
    destruct (check_valid_leaf d B s r lf p i allow) as [[[] p']|e| |]; simpl;
      [|by intros [= <- <-]..].
    destruct Hcheck as [Hp' _].
    destruct (write_out_of_range s a i v p' HR Hi ltac:(lia) Hp') as (s'' & Hpanic).
    unfold mbind, method_bind in Hpanic. rewrite Hpanic. by intros [= <- <-].
Qed.

Lemma fill_cases s a r v pv i r' s' :
  Rep d B s a → genuine d B s a (FillEmptyOrAppend r v pv i) →
  fill_empty_or_append d B r v pv i s = (Ok r', s') →
  (leaf_at (a_tree a) i = EMPTY ∧ target d B s a (FillEmptyOrAppend r v pv i) = (i, v) ∧
    r' = troot (<[i:=v]> (a_tree a)) d ∧ Rep d B s' (a_write B a i v)) ∨
  (target d B s a (FillEmptyOrAppend r v pv i) = (a_count a, v) ∧ append d B v s = (Ok r', s')).
Proof.
  intros HR [Hi Hfc]. unfold fill_empty_or_append, or_else, forwarded_proof, target in *. run_method.
  rewrite (check_bounds_ok d B Hsizes). cbn beta iota.
  destruct (decide (length pv ≤ d)) as [Hlen|Hlen].
  2: { by rewrite (fill_in_proof_too_long d) by (first [by rewrite length_replicate|lia]). }
  destruct (fill_length d pv Hlen) as (p & Hfill & Hp). rewrite Hfill in *. cbn beta iota.
  cbn [mbind outcome_bind] in *.
  destruct (try_apply_proof d B r EMPTY v p i false s) as [o s1] eqn:Hrun.
  pose proof (try_apply_inv s a r EMPTY v p i false o s1 HR Hi Hp Hrun) as Hinv.
  destruct o as [x|e| |]; try done.
  - intros [= <- <-]. left.
    destruct (try_apply_sound d B Hsizes s a r EMPTY v p i false x s1 HR Hi Hinv Hp Hrun)
      as (p' & Hcheck & Hsound).
    rewrite Hcheck in *. by destruct (Hsound Hfc) as (-> & -> & ?).
  - subst s1. destruct e; try done. intros Happ. right. split; [|done].
    destruct (check_valid_leaf d B s r EMPTY p i false) as [[valid p']|e| |] eqn:Hcheck; try done.
    revert Hrun. unfold try_apply_proof. run_method. rewrite Hcheck. destruct valid; [|done].
    cbn [negb]. pose proof (check_valid_leaf_total d B Hsizes s r EMPTY p i false (rep_wf _ _ _ _ HR) Hi Hp)
      as Htot. rewrite Hcheck in Htot. destruct Htot as [Hp' _]. intros Hrun.
    destruct (decide (i ≤ a_count a)%N) as [Hle|Hgt].
    + rewrite <-(rep_count _ _ _ _ HR) in Hle.
      destruct (write_total d B Hsizes s v p' i (rep_wf _ _ _ _ HR) Hi Hle Hp') as (? & ? & Hw & _).
      unfold mbind, method_bind in Hw. by rewrite Hw in Hrun.
    + destruct (write_out_of_range s a i v p' HR Hi ltac:(lia) Hp') as (? & Hw).
      unfold mbind, method_bind in Hw. by rewrite Hw in Hrun.
Qed.

Lemma append_Ok s a v r' s' :
  Rep d B s a → append d B v s = (Ok r', s') →
  v ≠ EMPTY ∧ (a_count a < 2 ^ N.of_nat d)%N ∧ r' = troot (<[a_count a:=v]> (a_tree a)) d ∧
  Rep d B s' (a_write B a (a_count a) v).
Proof.
  intros HR Hrun. rewrite (append_cases d B Hsizes s a v HR) in Hrun.
  case_decide as Hv; [done|]. pose proof (append_not_empty d B Hsizes s a v HR Hv) as Happ.
  pose proof (wf_rm_index _ _ _ (rep_wf _ _ _ _ HR)) as Hcap. rewrite (rep_count _ _ _ _ HR) in Hcap.
  case_decide; [done|]. destruct Happ as (s'' & Happ & HR'). rewrite Happ in Hrun.
  injection Hrun as <- <-. split; [done|]. split; [lia|done].
Qed.

Lemma op_step s a o r' s' :
  Rep d B s a → genuine d B s a o → run_op d B o s = (Ok r', s') →
  let a' := a_write B a (target d B s a o).1 (target d B s a o).2 in
  a_step d B a o a' ∧ Rep d B s' a' ∧ r' = troot (a_tree a') d.
Proof.
  intros HR Hgen Hrun a'. subst a'. rewrite (a_tree_write d B Hsizes).
  destruct o as [r prev new pv i|v|r v pv i]; cbn [run_op] in Hrun.
  - destruct Hgen as [Hi Hfc].
    destruct (set_leaf_Ok d B Hsizes s a r prev new pv i r' s' HR Hi Hrun Hfc) as (<- & -> & HR').
    split; [by constructor|done].
  - destruct (append_Ok s a v r' s' HR Hrun) as (Hv & Hcount & -> & HR').
    split; [by constructor|done].
  - destruct (fill_cases s a r v pv i r' s' HR Hgen Hrun) as [(He & -> & -> & HR')|[-> Happ]].
    + split; [by constructor|done].
    + destruct (append_Ok s a v r' s' HR Happ) as (Hv & Hcount & -> & HR').
      split; [by constructor|done].
Qed.

(** C16: a history of transactions is simulated by writes to the abstract tree.
    From a state that represents a tree, after any sequence of [set_leaf],
    [append] and [fill_empty_or_append], succeeding or not, whose indices are those of
    leaves, below [2^d], and whose proofs meet no collision of the hash ([all_genuine]),
    the account represents the tree that results from the successful ones, each
    of which was a legal step of the tree: a leaf replaced after its previous
    value was proved, or a nonempty leaf appended. *)
Theorem history_simulation s a os :
  Rep d B s a → all_genuine d B s a os →
  Rep d B (exec_all d B s os) (a_exec_all d B s a os) ∧ a_history d B a os (a_exec_all d B s a os).
Proof.
  revert s a. induction os as [|o os IH]; intros s a HR Hgen; simpl; [by split; [|constructor]|].
  destruct Hgen as [Hg Hgen]. revert Hgen. unfold exec, a_exec.
  destruct (run_op d B o s) as [[r'|e| |] s'] eqn:Hrun; intros Hgen.
  2-4: destruct (IH _ _ HR Hgen); split; [done|by constructor].
  destruct (op_step s a o r' s' HR Hg Hrun) as (Hstep & HR' & _).
  destruct (IH _ _ HR' Hgen). split; [done|by eapply a_history_step].
Qed.

(** Each call that succeeds returns the root of the tree it leads to, and
    this root is the one that the active change log publishes. *)
Theorem op_returns_root s a o r' s' :
  Rep d B s a → genuine d B s a o → run_op d B o s = (Ok r', s') →
  r' = troot (a_tree (a_exec d B s a o)) d ∧ ∃ cl, get_change_log s' = Ok cl ∧ root cl = r'.
Proof.
  intros HR Hgen Hrun. unfold a_exec. rewrite Hrun.
  destruct (op_step s a o r' s' HR Hgen Hrun) as (_ & HR' & Hr'). split; [done|].
  rewrite Hr'. by apply (get_change_log_ok d B).
Qed.
End simulation.
