(* ===== verification/MerkleRollTyped.v ===== *)
(** * The ring of the last roots

    [typed] says that a model state is a value of [MerkleRoll<MAX_DEPTH,
    MAX_BUFFER_SIZE>]: the arrays have the lengths of their types and the integers
    fit their widths; every method keeps it.  On any such state the ring of change
    logs holds the roots of the last successful writes, whatever the arguments of
    the calls were: no assumption on what roots, leaves and proofs mean is needed. *)

From S2P Require Import Prelude Hashing MerkleSpec ChangeLog MerkleRoll MerkleRollSpec.
From S2P Require Import MerkleRollLemmas MerkleRollWrite MerkleRollTotal MerkleRollAppend.

(** The public methods that change the tree, and their arguments. *)
Inductive roll_call :=
  | CallInitialize
  | CallInitializeWithRoot (root rightmost_leaf : Node) (proof_vec : list Node) (index : N)
  | CallProveLeaf (current_root leaf : Node) (proof_vec : list Node) (leaf_index : N)
  | CallAppend (node : Node)
  | CallFillEmptyOrAppend (current_root leaf : Node) (proof_vec : list Node) (index : N)
  | CallSetLeaf (current_root previous_leaf new_leaf : Node) (proof_vec : list Node) (index : N).

Section typed.
Context (d : nat) (B : N) `{Keccak} `{BuildProfile}.
Implicit Types (s : MerkleRoll) (cl : ChangeLog) (p : Path).

(** An unsigned integer of [w] bits. *)
Definition fits (w n : N) : Prop := (n < 2 ^ w)%N.

Record log_typed cl : Prop := mk_log_typed {
  log_path : length (path cl) = d;
  log_index : fits 32 (cl_index cl);
}.

Record path_typed p : Prop := mk_path_typed {
  path_proof : length (proof p) = d;
  path_index : fits 32 (rm_index p);
}.

Record typed s : Prop := mk_typed {
  typed_seq : fits 64 (sequence_number s);
  typed_active : fits 64 (active_index s);
  typed_size : fits 64 (buffer_size s);
  typed_length : length (change_logs s) = N.to_nat B;
  typed_logs : Forall log_typed (change_logs s);
  typed_rmp : path_typed (rightmost_proof s);
}.

Definition run_call (c : roll_call) : cmt_method Node :=
  match c with
  | CallInitialize => initialize d B
  | CallInitializeWithRoot r lf pv i => initialize_with_root d B r lf pv i
  | CallProveLeaf r lf pv i => prove_leaf d B r lf pv i
  | CallAppend v => append d B v
  | CallFillEmptyOrAppend r lf pv i => fill_empty_or_append d B r lf pv i
  | CallSetLeaf r prev new pv i => set_leaf d B r prev new pv i
  end.

(** The index of a call is a [u32]. *)
Definition call_typed (c : roll_call) : Prop :=
  match c with
  | CallInitializeWithRoot _ _ _ i | CallProveLeaf _ _ _ i
  | CallFillEmptyOrAppend _ _ _ i | CallSetLeaf _ _ _ _ i => fits 32 i
  | _ => True
  end.

(** ** Methods that keep the type *)

(** The method keeps [typed], and [Q] holds of what it returns. *)
Definition keeps_typed {A} (m : cmt_method A) (Q : A → Prop) : Prop :=
  ∀ s, typed s → typed (m s).2 ∧ ∀ x, (m s).1 = Ok x → Q x.

Lemma typed_bind {A C} (m : cmt_method A) (f : A → cmt_method C) Q R :
  keeps_typed m Q → (∀ x, Q x → keeps_typed (f x) R) → keeps_typed (m ≫= f) R.
Proof.
  intros Hm Hf s Hs. destruct (Hm s Hs) as [Hs1 HQ]. unfold mbind, method_bind.
  destruct (m s) as [[x|e| |] s1]; try done. by apply Hf; [apply HQ|].
Qed.

Lemma typed_ret {A} (x : A) (Q : A → Prop) : Q x → keeps_typed (mret x) Q.
Proof. intros HQ s Hs. split; [done|]. by intros y [= <-]. Qed.

Lemma typed_get : keeps_typed get typed.
Proof. intros s Hs. split; [done|]. by intros y [= <-]. Qed.

Lemma typed_lift {A} (o : cmt A) (Q : A → Prop) : (∀ x, o = Ok x → Q x) → keeps_typed (lift o) Q.
Proof. intros HQ s Hs. by split. Qed.

Lemma typed_any {A} (o : cmt A) : keeps_typed (lift o) (λ _, True).
Proof. by apply typed_lift. Qed.

Lemma typed_modify (f : MerkleRoll → MerkleRoll) :
  (∀ s, typed s → typed (f s)) → keeps_typed (modify f) (λ _, True).
Proof. intros Hf s Hs. split; [by apply Hf|done]. Qed.

Lemma typed_weaken {A} (m : cmt_method A) (Q R : A → Prop) :
  keeps_typed m Q → (∀ x, Q x → R x) → keeps_typed m R.
Proof. intros Hm HR s Hs. destruct (Hm s Hs) as [? HQ]. split; [done|]. eauto. Qed.

Lemma typed_or_else {A} (m : cmt_method A) (h : CMTError → cmt_method A) Q :
  keeps_typed m Q → (∀ e, keeps_typed (h e) Q) → keeps_typed (or_else m h) Q.
Proof.
  intros Hm Hh s Hs. destruct (Hm s Hs) as [Hs1 HQ]. unfold or_else.
  destruct (m s) as [[x|e| |] s1]; [done| |done..]. by apply Hh.
Qed.

(** ** Arithmetic stays in its width, in either build *)
Lemma wrap_fits w n : fits w (wrap w n).
Proof. apply N.mod_lt. by apply N.pow_nonzero. Qed.

Lemma wadd_fits {E} w a b x : wadd (E:=E) w a b = Ok x → fits w x.
Proof.
  unfold wadd, on_overflow. case_decide; [by intros [= <-]|].
  destruct overflow_checks; [done|]. intros [= <-]. apply wrap_fits.
Qed.

Lemma saturating_add_fits w a b : fits w (saturating_add w a b).
Proof. unfold saturating_add, fits. pose proof (N.pow_nonzero 2 w). lia. Qed.

Lemma land_fits w a b : fits w a → fits w (N.land a b).
Proof.
  unfold fits. intros Ha. destruct (decide (N.land a b = 0)%N) as [->|Hne].
  - by apply N.neq_0_lt_0, N.pow_nonzero.
  - apply N.log2_lt_pow2; [lia|]. pose proof (N.log2_land a b).
    assert (a ≠ 0)%N by (intros ->; by rewrite N.land_0_l in Hne).
    assert (N.log2 a < w)%N by (apply N.log2_lt_pow2; lia). lia.
Qed.

(** ** Lengths *)
Lemma foldM_keeps {S A} (f : S → A → cmt S) (P : S → Prop) l x y :
  (∀ x a y, P x → f x a = Ok y → P y) → P x → foldM f x l = Ok y → P y.
Proof.
  intros Hf. revert x. induction l as [|a l IH]; intros x Hx; simpl; [by intros [= <-]|].
  intros Hrun. inv_ok. eauto.
Qed.

Lemma index_set_length {A} (l l' : list A) i x :
  index_set (E:=CMTError) l i x = Ok l' → length l' = length l.
Proof. intros [_ ->]%index_set_Ok_inv. apply length_insert. Qed.

Lemma replace_path_loop_length k pth v prf i pth' r :
  replace_path_loop (E:=CMTError) k pth v prf i = Ok (pth', r) → length pth' = length pth.
Proof.
  revert k pth v. induction prf as [|x prf IH]; intros k pth v Hrun; simpl in Hrun; [by inv_ok|].
  inv_ok. erewrite IH by done. by eapply index_set_length.
Qed.

Lemma fill_in_proof_length pv prf :
  fill_in_proof (E:=CMTError) d pv (replicate d EMPTY) = Ok prf → length prf = d.
Proof.
  destruct (decide (length pv ≤ d)) as [Hle|Hgt].
  - rewrite fill_in_proof_ok by done. intros [= <-].
    rewrite length_app, length_fmap, length_seq. lia.
  - by rewrite (fill_in_proof_too_long d) by (first [by rewrite length_replicate|lia]).
Qed.

Lemma fast_forward_loop_length fuel s m i full j prf lf prf' lf' :
  fast_forward_loop d fuel s m i full j prf lf = Ok (prf', lf') → length prf' = length prf.
Proof.
  revert j prf lf. induction fuel as [|fuel IH]; intros j prf lf Hrun; simpl in Hrun; [done|].
  destruct (negb full && _); [by inv_ok|]. inv_ok.
  match goal with Hup : update_proof_or_leaf _ _ _ _ _ = Ok ?new |- _ =>
    destruct new as [p l]; apply update_proof_or_leaf_length in Hup as <- end.
  destruct (full && _); [by simplify_eq|by eapply IH].
Qed.

#[local] Arguments fast_forward_loop : simpl never.

(** [inv_ok] through bindings of pairs and conditionals. *)
Ltac inv_pairs :=
  repeat (inv_ok; simplify_eq; match goal with
  | Hrun : (let '(_, _) := ?p in _) = Ok _ |- _ => destruct p
  | Hrun : (if ?b then _ else _) = Ok _ |- _ => destruct b
  end); inv_ok; simplify_eq.

Lemma check_valid_leaf_length s r lf prf i allow valid prf' :
  check_valid_leaf d B s r lf prf i allow = Ok (valid, prf') → length prf' = length prf.
Proof.
  unfold check_valid_leaf, fast_forward_proof. intros Hrun. inv_pairs.
  by eapply fast_forward_loop_length.
Qed.

Lemma append_step_length R t cache x k y :
  append_step R t cache x k = Ok y →
  length (ap_change_list y) = length (ap_change_list x) ∧ length (ap_proof y) = length (ap_proof x).
Proof.
  destruct x as [cl v inter prf]. unfold append_step. intros Hrun. inv_ok.
  case_decide; [|case_decide]; inv_ok; cbn [ap_change_list ap_proof];
    split; by first [done|eapply index_set_length].
Qed.

(** ** The methods *)
Lemma typed_log s i cl : typed s → index (E:=CMTError) (change_logs s) i = Ok cl → log_typed cl.
Proof.
  intros Hs Hcl%index_Ok_inv. by apply (proj1 (Forall_lookup _ _) (typed_logs _ Hs) _ _ Hcl).
Qed.

Lemma set_rightmost_typed q s : path_typed q → typed s → typed (set_rightmost_proof q s).
Proof. intros Hq []. by split. Qed.

Lemma put_change_log_typed i cl : log_typed cl → keeps_typed (put_change_log i cl) (λ _, True).
Proof.
  intros Hcl s Hs. split; [|done]. unfold put_change_log. run_method.
  destruct (index_set _ _ _) as [cls|e| |] eqn:Hset; [|done..].
  apply index_set_Ok_inv in Hset as [_ ->]. destruct Hs. split; simpl; try done.
  - by rewrite length_insert.
  - by apply Forall_insert.
Qed.

Lemma update_internal_counters_typed : keeps_typed (update_internal_counters B) (λ _, True).
Proof.
  unfold update_internal_counters. eapply typed_bind; [apply typed_any|intros m _].
  eapply typed_bind; [apply typed_get|intros self Hself].
  eapply typed_bind; [apply typed_lift; intros x Hx; exact (wadd_fits _ _ _ _ Hx)|intros active Hactive].
  eapply typed_bind; [apply (typed_lift _ (fits 64))|intros size Hsize].
  { intros x. destruct (_ <? _)%N; [apply wadd_fits|]. intros [= <-]. apply Hself. }
  apply typed_modify. intros s []. split; simpl; try done; [apply saturating_add_fits|by apply land_fits].
Qed.

Lemma update_rightmost_path_typed cl prf i :
  length prf = d → fits 32 i → keeps_typed (update_rightmost_path d cl prf i) (λ _, True).
Proof.
  intros Hp Hi. unfold update_rightmost_path. eapply typed_bind; [apply typed_get|intros self Hself].
  destruct (typed_rmp _ Hself) as [Hlen Hix].
  eapply typed_bind; [apply typed_any|intros cap _]. destruct (_ <? cap)%N; [|by apply typed_ret].
  destruct (_ <? _)%N.
  - eapply typed_bind; [apply typed_any|intros last _].
    eapply typed_bind; [apply typed_lift; intros x Hx; exact Hx|intros [prf' lf'] Hup].
    apply typed_modify. intros s. apply set_rightmost_typed.
    apply update_proof_or_leaf_length in Hup. split; cbn [proof rm_index]; [congruence|exact Hix].
  - eapply typed_bind; [apply typed_any|intros _ _].
    eapply typed_bind; [apply typed_lift; intros x Hx; exact (wadd_fits _ _ _ _ Hx)|intros index1 Hindex1].
    eapply typed_bind; [apply typed_any|intros lf _].
    apply typed_modify. intros s. by apply set_rightmost_typed.
Qed.

Lemma update_buffers_typed v prf i :
  length prf = d → fits 32 i → keeps_typed (update_buffers_from_proof d v prf i) (λ _, True).
Proof.
  intros Hp Hi. unfold update_buffers_from_proof. eapply typed_bind; [apply typed_get|intros self Hself].
  eapply typed_bind; [apply typed_lift; intros x Hx; exact (typed_log _ _ _ Hself Hx)|intros cl Hcl].
  eapply typed_bind; [apply typed_lift; intros x Hx; exact Hx|intros [r cl'] Hrep].
  assert (log_typed cl') as Hcl'.
  { unfold replace_and_recompute_path in Hrep. inv_pairs. split; [|exact Hi]. cbn [path].
    erewrite replace_path_loop_length by done. apply Hcl. }
  eapply typed_bind; [by apply put_change_log_typed|intros _ _].
  eapply typed_bind; [by apply update_rightmost_path_typed|intros _ _]. by apply typed_ret.
Qed.

Lemma try_apply_typed r lf v prf i allow :
  length prf = d → fits 32 i → keeps_typed (try_apply_proof d B r lf v prf i allow) (λ _, True).
Proof.
  intros Hp Hi. unfold try_apply_proof. eapply typed_bind; [apply typed_get|intros self Hself].
  eapply typed_bind; [apply typed_lift; intros x Hx; exact Hx|intros [valid prf'] Hcheck].
  apply check_valid_leaf_length in Hcheck. destruct (negb valid); [apply typed_any|].
  eapply typed_bind; [apply update_internal_counters_typed|intros _ _].
  apply update_buffers_typed; [by rewrite Hcheck|done].
Qed.

Lemma append_typed v : keeps_typed (append d B v) (λ _, True).
Proof.
  unfold append. eapply typed_bind; [apply typed_any|intros _ _].
  eapply typed_bind; [apply typed_get|intros self Hself]. destruct (typed_rmp _ Hself) as [Hlen Hix].
  case_decide; [apply typed_any|]. eapply typed_bind; [apply typed_any|intros cap _].
  destruct (_ <=? _)%N; [apply typed_any|]. destruct (_ =? 0)%N.
  { unfold initialize_tree_from_append. eapply typed_bind; [apply typed_any|intros old _].
    case_decide; [|apply typed_any]. by apply try_apply_typed. }
  eapply typed_bind; [apply typed_lift; intros x Hx; exact Hx|intros st Hst].
  assert (length (ap_change_list st) = d ∧ length (ap_proof st) = d) as [Hcl Hpr].
  { cbn beta in Hst. refine (foldM_keeps _
      (λ st, length (ap_change_list st) = d ∧ length (ap_proof st) = d) _ _ _ _ _ Hst).
    - intros x k y [Hx1 Hx2] [-> ->]%append_step_length. done.
    - split; [apply length_replicate|exact Hlen]. }
  eapply typed_bind; [apply typed_modify; intros s; by apply set_rightmost_typed|intros _ _].
  eapply typed_bind; [apply update_internal_counters_typed|intros _ _].
  eapply typed_bind; [apply typed_get|intros self' _].
  eapply typed_bind; [by apply put_change_log_typed|intros _ _].
  eapply typed_bind; [apply typed_lift; intros x Hx; exact (wadd_fits _ _ _ _ Hx)|intros index1 Hindex1].
  eapply typed_bind; [apply typed_modify; intros s; by apply set_rightmost_typed|intros _ _].
  by apply typed_ret.
Qed.

Lemma initialize_typed : keeps_typed (initialize d B) (λ _, True).
Proof.
  unfold initialize. eapply typed_bind; [apply typed_any|intros _ _].
  eapply typed_bind; [apply typed_get|intros self Hself].
  eapply typed_bind; [apply typed_lift; intros x Hx; exact (typed_log _ _ _ Hself Hx)|intros cl Hcl].
  eapply typed_bind; [apply put_change_log_typed|intros _ _].
  { split; [|apply Hcl]. cbn [path]. by rewrite length_imap, length_replicate. }
  eapply typed_bind; [apply typed_modify|intros _ _].
  { intros s []. split; simpl; try done. split; [|done]. cbn [proof].
    by rewrite length_imap, length_replicate. }
  eapply typed_bind; [apply typed_get|intros self' _].
  eapply typed_bind; [apply typed_any|intros cl' _]. by apply typed_ret.
Qed.

Lemma initialize_with_root_typed r lf pv i :
  keeps_typed (initialize_with_root d B r lf pv i) (λ _, True).
Proof.
  unfold initialize_with_root. eapply typed_bind; [apply typed_any|intros _ _].
  eapply typed_bind; [apply (typed_lift _ (λ _, length pv = d))|intros u Hpv].
  { intros u Hu%rust_assert_inv. by apply bool_decide_eq_true in Hu. }
  eapply typed_bind; [apply typed_lift; intros x Hx; exact (wadd_fits _ _ _ _ Hx)|intros index1 Hindex1].
  eapply typed_bind; [apply typed_get|intros self Hself].
  eapply typed_bind; [apply typed_lift; intros x Hx; exact (typed_log _ _ _ Hself Hx)|intros cl Hcl].
  eapply typed_bind; [apply put_change_log_typed; by destruct Hcl|intros _ _].
  eapply typed_bind; [apply typed_modify|intros _ _].
  { intros s []. by split. }
  eapply typed_bind; [apply typed_any|intros root' _].
  eapply typed_bind; [apply typed_any|intros _ _]. by apply typed_ret.
Qed.

Lemma run_call_typed c : call_typed c → keeps_typed (run_call c) (λ _, True).
Proof.
  intros Hc. destruct c as [|r lf pv i|r lf pv i|v|r lf pv i|r prev new pv i]; cbn [run_call call_typed] in *.
  - apply initialize_typed.
  - apply initialize_with_root_typed.
  - unfold prove_leaf. eapply typed_bind; [apply typed_any|intros _ _].
    eapply typed_bind; [apply typed_get|intros self Hself]. destruct (_ <? _)%N; [apply typed_any|].
    eapply typed_bind; [apply typed_any|intros prf _].
    eapply typed_bind; [apply typed_any|intros [valid prf'] _].
    destruct (negb valid); [apply typed_any|by apply typed_ret].
  - apply append_typed.
  - unfold fill_empty_or_append. eapply typed_bind; [apply typed_any|intros _ _].
    eapply typed_bind; [apply typed_lift; intros x Hx; exact (fill_in_proof_length _ _ Hx)|intros prf Hprf].
    apply typed_or_else; [by apply try_apply_typed|]. intros []; first [apply append_typed|apply typed_any].
  - unfold set_leaf. eapply typed_bind; [apply typed_any|intros _ _].
    eapply typed_bind; [apply typed_get|intros self Hself]. destruct (_ <? _)%N; [apply typed_any|].
    eapply typed_bind; [apply typed_lift; intros x Hx; exact (fill_in_proof_length _ _ Hx)|intros prf Hprf].
    by apply try_apply_typed.
Qed.

Lemma new_typed : typed (new d B).
Proof.
  assert (∀ w, fits w 0) as Hzero by (intros w; by apply N.neq_0_lt_0, N.pow_nonzero).
  split; simpl; try apply Hzero.
  - by rewrite length_replicate.
  - apply Forall_replicate. split; [apply length_replicate|apply Hzero].
  - split; [apply length_replicate|apply Hzero].
Qed.

(** ** What a successful call does to the ring *)

(** The state without the rightmost path. *)
Definition ring s : N * N * N * list ChangeLog :=
  (sequence_number s, active_index s, buffer_size s, change_logs s).

(** The counters move on by one, and the new slot holds the root [r]. *)
Definition written s (r : Node) s' : Prop :=
  ∃ cl, root cl = r ∧
    ring s' = (saturating_add 64 (sequence_number s) 1, (active_index s + 1) `mod` B, N.min (buffer_size s + 1) B,
               <[N.to_nat ((active_index s + 1) `mod` B):=cl]> (change_logs s))%N.

(** Inversion of a run that returned. *)
Ltac inv_run :=
  repeat match goal with
  | Hrun : (_ ≫= _) _ = (Ok _, _) |- _ => apply method_bind_Ok_inv in Hrun as (? & ? & ? & Hrun)
  | Hrun : lift _ _ = (Ok _, _) |- _ => apply lift_Ok_inv in Hrun as [Hrun ->]
  | Hrun : get _ = (Ok _, _) |- _ => injection Hrun as <- <-
  | Hrun : mret _ _ = (Ok _, _) |- _ => injection Hrun as <- <-
  | Hrun : modify _ _ = (Ok _, _) |- _ => first [injection Hrun as _ <- | injection Hrun as <-]
  | Hrun : (let '(_, _) := ?p in _) _ = (Ok _, _) |- _ => destruct p
  end.

Lemma put_change_log_ring i cl s u s' :
  put_change_log i cl s = (Ok u, s') →
  ring s' = (sequence_number s, active_index s, buffer_size s, <[N.to_nat i:=cl]> (change_logs s)).
Proof. unfold put_change_log. intros Hrun. inv_run. by match goal with Hset : index_set _ _ _ = _ |- _ => apply index_set_Ok_inv in Hset as [_ ->] end. Qed.

Lemma update_rightmost_path_ring cl prf i s u s' :
  update_rightmost_path d cl prf i s = (Ok u, s') → ring s' = ring s.
Proof.
  unfold update_rightmost_path. intros Hrun. inv_run. destruct (_ <? _)%N; [|by inv_run].
  destruct (_ <? _)%N; by inv_run.
Qed.

Section sizes.
Context (Hsizes : sizes_ok d B).

(** A ring whose counters are in range. *)
Definition in_range s : Prop := (active_index s < B ∧ buffer_size s ≤ B)%N.

Lemma update_internal_counters_ring s u s' :
  in_range s → update_internal_counters B s = (Ok u, s') →
  ring s' = (saturating_add 64 (sequence_number s) 1, (active_index s + 1) `mod` B, N.min (buffer_size s + 1) B,
             change_logs s)%N.
Proof.
  intros [Ha Hb]. pose proof (B_bounds _ _ Hsizes). unfold update_internal_counters. run_method.
  rewrite (mask_ok d B Hsizes). cbn beta iota. rewrite wadd_ok by lia. cbn beta iota.
  destruct (N.ltb_spec (buffer_size s) B).
  - rewrite wadd_ok by lia. intros [= _ <-]. unfold ring. cbn. rewrite (land_B d B Hsizes). by rewrite N.min_l by lia.
  - intros [= _ <-]. unfold ring. cbn. rewrite (land_B d B Hsizes). rewrite N.min_r by lia. by replace (buffer_size s) with B by lia.
Qed.

Lemma replace_and_recompute_root cl i v prf r cl' :
  replace_and_recompute_path (E:=CMTError) cl i v prf = Ok (r, cl') → root cl' = r.
Proof. unfold replace_and_recompute_path. intros Hrun. by inv_pairs. Qed.

Lemma update_buffers_ring v prf i s r s' :
  update_buffers_from_proof d v prf i s = (Ok r, s') →
  ∃ cl, root cl = r ∧
    ring s' = (sequence_number s, active_index s, buffer_size s, <[N.to_nat (active_index s):=cl]> (change_logs s)).
Proof.
  unfold update_buffers_from_proof. intros Hrun. inv_run.
  match goal with Hput : put_change_log _ ?cl _ = _, Hrm : update_rightmost_path _ _ _ _ _ = _,
      Hrep : replace_and_recompute_path _ _ _ _ = _ |- _ =>
    exists cl; apply put_change_log_ring in Hput; apply update_rightmost_path_ring in Hrm;
    apply replace_and_recompute_root in Hrep end.
  split; [done|congruence].
Qed.

Lemma try_apply_written r0 lf v prf i allow s r s' :
  in_range s → try_apply_proof d B r0 lf v prf i allow s = (Ok r, s') → written s r s'.
Proof.
  unfold try_apply_proof. intros Hs Hrun. inv_run. destruct (negb _); [by inv_run|]. inv_run.
  match goal with Hcnt : update_internal_counters _ _ = _ |- _ => apply update_internal_counters_ring in Hcnt; [|done] end.
  apply update_buffers_ring in Hrun as (cl & Hr & Hring). exists cl. split; [done|]. rewrite Hring. clear Hring.
  match goal with Hcnt : ring _ = _ |- _ => injection Hcnt as E1 E2 E3 E4 end. congruence.
Qed.

(** ** A write does not fail: an error of [try_apply_proof] comes before it. *)
Definition no_error {A} (o : cmt A) : Prop := ∀ e, o ≠ Err e.

Definition never_fails {A} (m : cmt_method A) : Prop := ∀ s e s', m s ≠ (Err e, s').

Lemma no_error_bind {A C} (o : cmt A) (f : A → cmt C) :
  no_error o → (∀ x, no_error (f x)) → no_error (o ≫= f).
Proof. intros Ho Hf e. destruct o as [x|e'| |]; simpl; [apply Hf| |done..]. by destruct (Ho e'). Qed.

Lemma never_fails_bind {A C} (m : cmt_method A) (f : A → cmt_method C) :
  never_fails m → (∀ x, never_fails (f x)) → never_fails (m ≫= f).
Proof.
  intros Hm Hf s e s'. unfold mbind, method_bind. destruct (m s) as [[x|e'| |] s1] eqn:Hrun; [apply Hf| |done..].
  by destruct (Hm s e' s1).
Qed.

Lemma never_fails_lift {A} (o : cmt A) : no_error o → never_fails (lift o).
Proof. intros Ho s e s' [= ->]. by destruct (Ho e). Qed.

Ltac no_error_step :=
  first
    [ apply no_error_bind; [|intros ?]
    | done
    | progress unfold wadd, wsub, wshl, wshr, on_overflow, index, index_set, unwrap, rust_assert, get_leaf, no_error
    | case_match | intros ? ].

Lemma replace_path_loop_no_error k pth v prf i : no_error (replace_path_loop k pth v prf i).
Proof. revert k pth v. induction prf as [|x prf IH]; intros k pth v; simpl; [done|]. repeat first [apply IH | no_error_step]. Qed.

Lemma update_proof_or_leaf_no_error cl i prf lf : no_error (update_proof_or_leaf d cl i prf lf).
Proof. unfold update_proof_or_leaf. repeat no_error_step. Qed.

Ltac never_fails_step :=
  first
    [ apply never_fails_bind; [|intros ?]
    | done
    | apply never_fails_lift
    | apply update_proof_or_leaf_no_error
    | apply no_error_bind; [apply replace_path_loop_no_error|intros [??]; done]
    | solve [repeat no_error_step]
    | progress unfold put_change_log
    | case_match ].

Lemma counters_never_fail : never_fails (update_internal_counters B).
Proof. unfold update_internal_counters, mask. repeat never_fails_step. Qed.

Lemma update_buffers_never_fails v prf i : never_fails (update_buffers_from_proof d v prf i).
Proof. unfold update_buffers_from_proof, update_rightmost_path, replace_and_recompute_path. repeat never_fails_step. Qed.

Lemma try_apply_failed r0 lf v prf i allow s e s' :
  try_apply_proof d B r0 lf v prf i allow s = (Err e, s') → s' = s.
Proof.
  unfold try_apply_proof. run_method. destruct (check_valid_leaf _ _ _ _ _ _ _ _) as [[valid prf']|e'| |]; try (by intros [= _ <-]).
  destruct (negb valid); [by intros [= _ <-]|]. intros Hrun.
  assert (never_fails (update_internal_counters B;; update_buffers_from_proof d v prf' i)) as Hnever.
  { apply never_fails_bind; [apply counters_never_fail|intros _; apply update_buffers_never_fails]. }
  destruct (Hnever _ _ _ Hrun).
Qed.

Lemma append_written v s r s' : in_range s → append d B v s = (Ok r, s') → written s r s'.
Proof.
  unfold append. intros Hs Hrun. inv_run. case_decide; [by inv_run|]. inv_run.
  destruct (_ <=? _)%N; [by inv_run|]. destruct (_ =? 0)%N.
  { unfold initialize_tree_from_append in Hrun. inv_run. case_decide; [|by inv_run]. by eapply try_apply_written. }
  inv_run.
  match goal with Hcnt : update_internal_counters _ _ = _, Hput : put_change_log _ ?cl _ = _ |- _ =>
    apply update_internal_counters_ring in Hcnt; [|done]; apply put_change_log_ring in Hput; exists cl;
    injection Hcnt as E1 E2 E3 E4; injection Hput as F1 F2 F3 F4 end.
  split; [done|]. unfold ring. cbn in *. congruence.
Qed.

(** The calls that write a leaf. *)
Definition writes (c : roll_call) : bool :=
  match c with CallAppend _ | CallFillEmptyOrAppend _ _ _ _ | CallSetLeaf _ _ _ _ _ => true | _ => false end.

Lemma call_written c s r s' : writes c = true → in_range s → run_call c s = (Ok r, s') → written s r s'.
Proof.
  destruct c as [| | |v|r0 lf pv i|r0 prev v pv i]; try done; intros _ Hs; cbn [run_call].
  - by eapply append_written.
  - unfold fill_empty_or_append. intros Hrun. inv_run. unfold or_else in Hrun.
    destruct (try_apply_proof _ _ _ _ _ _ _ _ _) as [[y|e| |] s1] eqn:Htry; [| |done..].
    + injection Hrun as -> ->. by eapply try_apply_written.
    + apply try_apply_failed in Htry as ->. destruct e; try by inv_run. by eapply append_written.
  - unfold set_leaf. intros Hrun. inv_run. destruct (_ <? _)%N; [by inv_run|]. inv_run. by eapply try_apply_written.
Qed.

(** An initialisation leaves one root, in the slot 0. *)
Definition initializes (c : roll_call) : bool :=
  match c with CallInitialize | CallInitializeWithRoot _ _ _ _ => true | _ => false end.

Definition first_number (c : roll_call) : N := match c with CallInitializeWithRoot _ _ _ _ => 1 | _ => 0 end.

Lemma call_initialized c s r s' :
  initializes c = true → length (change_logs s) = N.to_nat B → run_call c s = (Ok r, s') →
  ∃ cl, root cl = r ∧ ring s' = (first_number c, 0%N, 1%N, <[0:=cl]> (change_logs s)).
Proof.
  intros Hc Hlen. pose proof (B_bounds _ _ Hsizes).
  assert (∀ cl l s1 u, put_change_log 0 cl l = (Ok u, s1) → change_logs s1 = <[0:=cl]> (change_logs l)) as Hput.
  { intros cl l s1 u Hrun. by injection (put_change_log_ring _ _ _ _ _ Hrun). }
  destruct c as [|r0 lf pv i| | | |]; try done; cbn [run_call first_number].
  - unfold initialize. intros Hrun. inv_run.
    match goal with Hp : put_change_log _ ?cl _ = _ |- _ => exists cl; apply Hput in Hp end.
    cbn in *. match goal with Hi : index (change_logs ?s1) 0 = Ok ?y, Hp : change_logs ?s1 = _ |- _ =>
      rewrite Hp in Hi; apply index_Ok_inv in Hi; rewrite list_lookup_insert_eq in Hi by lia; injection Hi as <-;
      split; [done|unfold ring; cbn; by rewrite Hp] end.
  - unfold initialize_with_root. intros Hrun. inv_run.
    match goal with Hp : put_change_log _ ?cl _ = _ |- _ => exists cl; apply Hput in Hp end.
    split; [done|]. unfold ring. cbn in *. congruence.
Qed.

(** ** The roots of a history

    Where the sequence number started at the last initialisation, and the roots that
    the program returned since, the newest first.  A proof of a leaf returns none. *)
Definition record_root (h : N * list Node) (c : roll_call) (r : Node) : N * list Node :=
  if initializes c then (first_number c, [r]) else if writes c then (h.1, r :: h.2) else h.

(** A run of transactions: a call that fails or panics is undone. *)
Fixpoint run_calls s (h : N * list Node) (cs : list roll_call) : MerkleRoll * (N * list Node) :=
  match cs with
  | [] => (s, h)
  | c :: cs =>
      match run_call c s with
      | (Ok r, s') => run_calls s' (record_root h c r) cs
      | _ => run_calls s h cs
      end
  end.

Record keeps_roots s (h : N * list Node) : Prop := mk_keeps_roots {
  kr_typed : typed s;
  kr_some : 0 < length h.2;
  kr_seq : sequence_number s = N.min (h.1 + N.of_nat (length h.2 - 1)) (2 ^ 64 - 1);
  kr_active : active_index s = (N.of_nat (length h.2 - 1) `mod` B)%N;
  kr_size : buffer_size s = N.min (N.of_nat (length h.2)) B;
  kr_roots : ∀ k r, h.2 !! k = Some r → (N.of_nat k < B)%N →
    ∃ cl, change_logs s !! N.to_nat (slot B s k) = Some cl ∧ root cl = r;
}.

Lemma keeps_roots_in_range s h : keeps_roots s h → in_range s.
Proof.
  intros [_ _ _ Ha Hb _]. pose proof (B_bounds _ _ Hsizes). split; [|lia].
  rewrite Ha. apply N.mod_lt. lia.
Qed.

Lemma initialized_keeps_roots c s r s' h :
  typed s → call_typed c → initializes c = true → run_call c s = (Ok r, s') → keeps_roots s' (record_root h c r).
Proof.
  intros Hs Ht Hc Hrun. pose proof (B_bounds _ _ Hsizes). pose proof (typed_length _ Hs) as Hlen.
  destruct (call_initialized _ _ _ _ Hc Hlen Hrun) as (cl & Hr & [= E1 E2 E3 E4]).
  unfold record_root. rewrite Hc. split; cbn [fst snd length].
  - pose proof (run_call_typed c Ht s Hs) as [Ht' _]. by rewrite Hrun in Ht'.
  - lia.
  - rewrite E1. destruct c; cbn; lia.
  - rewrite E2. by rewrite N.Div0.mod_0_l.
  - rewrite E3. lia.
  - intros [|k] r' Hk Hlt; [|done]. injection Hk as <-. exists cl. split; [|done].
    rewrite (slot_0 B) by (rewrite E2; lia). rewrite E2, E4. apply list_lookup_insert_eq. lia.
Qed.

Lemma written_keeps_roots s r s' h :
  typed s' → keeps_roots s h → written s r s' → keeps_roots s' (h.1, r :: h.2).
Proof.
  intros Ht Hk (cl & Hr & [= E1 E2 E3 E4]). pose proof (B_bounds _ _ Hsizes). destruct (keeps_roots_in_range _ _ Hk) as [Ha' Hb'].
  destruct Hk as [Hs Hsome Hseq Ha Hb Hroots]. pose proof (typed_length _ Hs) as Hlen.
  assert (active_index s' < B)%N as Hact by (rewrite E2; apply N.mod_lt; lia).
  split; cbn [fst snd length]; [done|lia| | | |].
  - rewrite E1, Hseq. unfold saturating_add. lia.
  - rewrite E2, Ha, N.Div0.add_mod_idemp_l. f_equal. lia.
  - rewrite E3, Hb. lia.
  - intros [|k] r' Hk Hlt; cbn in Hk.
    + injection Hk as <-. exists cl. split; [|done]. rewrite (slot_0 B) by done.
      rewrite E4, E2. apply list_lookup_insert_eq. rewrite <-E2. lia.
    + destruct (Hroots k r' Hk) as (cl' & Hcl & Hr'); [lia|]. exists cl'. split; [|done].
      assert (slot B s' (S k) = slot B s k) as Hslot.
      { unfold slot. rewrite E2. replace ((active_index s + 1) `mod` B + B - N.of_nat (S k))%N
          with ((active_index s + 1) `mod` B + (B - N.of_nat (S k)))%N by lia.
        rewrite N.Div0.add_mod_idemp_l. f_equal. lia. }
      rewrite Hslot, E4, list_lookup_insert_ne; [done|]. rewrite <-Hslot, <-E2. intros Heq%N2Nat.inj.
      rewrite <-(slot_0 B s') in Heq by done. apply (slot_inj B) in Heq; [done..|lia|lia].
Qed.

Lemma prove_leaf_unchanged r0 lf pv i s r s' : prove_leaf d B r0 lf pv i s = (Ok r, s') → s' = s.
Proof.
  unfold prove_leaf. intros Hrun. inv_run. destruct (_ <? _)%N; [by inv_run|]. inv_run. by destruct (negb _); inv_run.
Qed.

Lemma run_calls_keep_roots cs s h :
  Forall call_typed cs → keeps_roots s h → keeps_roots (run_calls s h cs).1 (run_calls s h cs).2.
Proof.
  intros Hcs. revert s h. induction Hcs as [|c cs Hc _ IH]; intros s h Hk; [done|]. cbn [run_calls].
  destruct (run_call c s) as [[r|e| |] s'] eqn:Hrun; try by apply IH. apply IH.
  pose proof (run_call_typed c Hc s (kr_typed _ _ Hk)) as [Ht _]. rewrite Hrun in Ht. cbn in Ht.
  destruct (initializes c) eqn:Hi; [by eapply initialized_keeps_roots; [apply Hk|..]|].
  unfold record_root. rewrite Hi. destruct (writes c) eqn:Hw.
  - apply (written_keeps_roots s); [done..|]. eapply call_written; [done|by eapply keeps_roots_in_range|done].
  - destruct c as [| |r0 lf pv i| | |]; try done. by apply prove_leaf_unchanged in Hrun as ->.
Qed.

(** The ring is searched from the newest root on. *)
Lemma find_root_kept s h r m n :
  keeps_roots s h → m + n = N.to_nat (buffer_size s) →
  find_root_loop s r (B - 1) (N.of_nat <$> seq m n) =
  Ok ((λ q, slot B s (m + q.1)) <$> list_find (λ x : Node, x = r) (drop m (take (N.to_nat B) h.2))).
Proof.
  intros Hk. destruct (keeps_roots_in_range _ _ Hk) as [Ha Hb]. destruct Hk as [_ _ _ _ Hsize Hroots].
  revert m. induction n as [|n IH]; intros m Hm; simpl.
  { by rewrite drop_ge by (rewrite length_take; lia). }
  rewrite (slot_wrapping d B Hsizes) by (first [done|lia]).
  destruct (lookup_lt_is_Some_2 h.2 m) as [x Hx]; [lia|]. destruct (Hroots m x Hx) as (cl & Hcl & Hroot); [lia|].
  rewrite (index_lookup _ _ _ Hcl). simpl. rewrite (drop_S _ x) by (by rewrite lookup_take_lt by lia).
  simpl. rewrite Hroot. case_decide; simpl; [by rewrite Nat.add_0_r|].
  rewrite IH by lia. rewrite <-!option_fmap_compose. f_equal.
  apply option_fmap_ext. intros [k y]. simpl. f_equal. lia.
Qed.

(** C15: the ring keeps the last roots, and nothing else.  For the sizes that the
    program is instantiated with ([sizes_ok]), after an initialisation that succeeded
    and any sequence of calls - whatever their arguments of their types, with no assumption
    on what the roots, leaves and proofs are, a call that fails or panics being undone
    with its transaction -, the sequence number counts the writes and saturates, the
    active index and the size follow it around the ring, the slot of [k] writes ago
    holds the root that the program returned then, and [find_root_in_changelog] finds
    a root exactly when it is one of the last [MAX_BUFFER_SIZE] that were returned, in
    the slot of its newest occurrence: a proof against such a root is never taken for
    one against an unknown root, nor the other way round.  The state stays a value of
    its Rust type. *)
Theorem ring_keeps_last_roots (c : roll_call) (cs : list roll_call) s r s0 :
  typed s → Forall call_typed (c :: cs) → initializes c = true → run_call c s = (Ok r, s0) →
  let '(s', h) := run_calls s0 (first_number c, [r]) cs in
  keeps_roots s' h ∧
  ∀ r', find_root_in_changelog B s' r' =
    Ok ((λ q, slot B s' q.1) <$> list_find (λ x : Node, x = r') (take (N.to_nat B) h.2)).
Proof.
  intros Hs [Hc Hcs]%Forall_cons Hi Hrun.
  assert (keeps_roots s0 (first_number c, [r])) as Hk.
  { pose proof (initialized_keeps_roots c s r s0 (0%N, []) Hs Hc Hi Hrun) as Hk. unfold record_root in Hk. by rewrite Hi in Hk. }
  pose proof (run_calls_keep_roots cs _ _ Hcs Hk) as Hk'. destruct (run_calls _ _ _) as [s' h]. cbn [fst snd] in Hk'.
  split; [done|]. intros r'. unfold find_root_in_changelog. rewrite (mask_ok d B Hsizes). simpl.
  rewrite (find_root_kept s' h r' 0) by (first [done|lia]). by rewrite drop_0.
Qed.
End sizes.
End typed.
