(* ===== verification/MerkleRollLimits.v ===== *)
(** * The limits of the concurrent Merkle tree

    What the bounds of the code leave open: a full tree accepts the index one
    past its last leaf, and the replay of the whole buffer does not cover a proof
    that is [MAX_BUFFER_SIZE] writes old. *)

From S2P Require Import Prelude Hashing MerkleSpec ChangeLog MerkleRoll MerkleRollSpec.
From S2P Require Import MerkleRollLemmas MerkleRollWrite MerkleRollTotal MerkleRollAppend.
From S2P Require Import MerkleRollInit MerkleRollTheorems MerkleRollTrace.

Section limits.
Context (d : nat) (B : N) `{Keccak} `{BuildProfile} (Hsizes : sizes_ok d B).
Implicit Types (s : MerkleRoll) (a : aroll).

Lemma hash_path_pow node p : length p = d → hash_path 0 node p (2 ^ N.of_nat d) = hash_path 0 node p 0.
Proof.
  intros Hp. apply hash_path_index. intros k Hk. rewrite N.bits_0.
  rewrite N.pow2_bits_false by lia. done.
Qed.

(** C34: the bound of [set_leaf] is off by one on a full tree.  When every leaf
    has been appended, the index [2^MAX_DEPTH], which no leaf has, passes the
    check against the rightmost index; with the proof of leaf 0 the call writes
    leaf 0, but publishes a change log with the index [2^MAX_DEPTH]. *)
Theorem set_leaf_full_tree_aliases s a v i0 :
  Rep d B s a → a_count a = (2 ^ N.of_nat d)%N → a_hist a !! 0 = Some (a_tree a, i0) →
  ∃ s' cl, set_leaf d B (troot (a_tree a) d) (leaf_at (a_tree a) 0) v (tproof (a_tree a) d 0)
      (2 ^ N.of_nat d) s = (Ok (troot (<[0%N:=v]> (a_tree a)) d), s') ∧
    get_change_log s' = Ok cl ∧ cl_index cl = (2 ^ N.of_nat d)%N.
Proof.
  intros HR Hfull Hhead. pose proof (rep_wf _ _ _ _ HR) as Hwf. set (T := a_tree a) in *.
  pose proof (B_bounds _ _ Hsizes) as HB. pose proof (pow_d_bounds d B Hsizes).
  assert (((active_index s + 1) `mod` B)%N < B)%N as Hact by (apply N.mod_lt; lia).
  destruct (lookup_lt_is_Some_2 (change_logs s) (N.to_nat ((active_index s + 1) `mod` B)%N))
    as [cl0 Hcl0]; [rewrite (wf_change_logs _ _ _ Hwf); lia|].
  unfold set_leaf. run_method. rewrite (check_bounds_ok d B Hsizes). cbn beta iota.
  rewrite (rep_count _ _ _ _ HR), Hfull, N.ltb_irrefl.
  rewrite fill_in_proof_ok, length_tproof, Nat.sub_diag, app_nil_r by (by rewrite length_tproof).
  cbn beta iota.
  unfold try_apply_proof. run_method.
  assert (check_valid_leaf d B s (troot T d) (leaf_at T 0) (tproof T d 0) (2 ^ N.of_nat d) true =
    Ok (true, tproof T d 0)) as ->.
  { unfold check_valid_leaf. rewrite (mask_ok d B Hsizes). cbn [mbind outcome_bind].
    rewrite (find_root_in_changelog_ok d B Hsizes s a) by done.
    rewrite (find_root_head d a T i0 Hhead). cbn [mbind outcome_bind fmap option_fmap option_map fst].
    unfold fast_forward_proof. rewrite (mask_ok d B Hsizes). cbn [mbind outcome_bind fast_forward_loop].
    rewrite (slot_0 B) by apply Hwf. rewrite N.eqb_refl. cbn [negb andb mbind outcome_bind].
    rewrite bool_decide_true by done. cbn [negb]. destruct Hsizes as [Hd _].
    rewrite recompute_ok by (rewrite length_tproof; lia). cbn [mbind outcome_bind].
    destruct (get_change_log_ok d B s a HR) as (cl & -> & Hcl). cbn [mbind outcome_bind].
    rewrite hash_path_pow, hash_path_tproof by (first [by rewrite length_tproof|lia]).
    by rewrite Hcl, bool_decide_true. }
  cbn beta iota. cbn [negb]. rewrite (update_internal_counters_ok d B Hsizes) by done.
  unfold update_buffers_from_proof. run_method. cbn [active_index change_logs].
  rewrite (index_lookup _ _ _ Hcl0). unfold replace_and_recompute_path.
  destruct (proj1 (Forall_lookup _ _) (wf_paths _ _ _ Hwf) _ _ Hcl0) as [Hpath _].
  destruct Hsizes as [Hd _].
  rewrite replace_path_loop_ok by (rewrite length_tproof; lia). cbn [mbind outcome_bind].
  rewrite (put_change_log_ok B); [|done|apply Hwf]. cbn beta iota.
  unfold update_rightmost_path. run_method. rewrite (capacity_ok d B Hsizes). cbn beta iota.
  unfold set_change_logs. cbn [rightmost_proof]. rewrite (rep_count _ _ _ _ HR), Hfull, N.ltb_irrefl.
  eexists _, _. split.
  - f_equal. f_equal. rewrite hash_path_pow by by rewrite length_tproof.
    rewrite <-(tproof_insert_self T d 0 v). rewrite <-(leaf_at_insert T 0 v) at 1.
    apply hash_path_tproof. lia.
  - split; [|shelve]. unfold get_change_log. cbn [change_logs active_index].
    apply index_lookup, list_lookup_insert_eq. rewrite (wf_change_logs _ _ _ Hwf). lia.
  Unshelve. done.
Qed.
End limits.

(** ** Instances *)
Module Limits.
Import Toy.

(** The tree of depth 3 with its eight leaves, in a ring of 8; leaf 1 is written,
    then leaf 5 again and again: [n] writes in all. *)
Fixpoint writes (n : nat) : MerkleRoll * tree :=
  match n with
  | O => (state 8, a_tree (astate 8))
  | S n =>
      let '(s, T) := writes n in
      let i := match n with O => 1%N | _ => 5%N end in
      let v := toy_node (100 + N.of_nat n) in
      ((set_leaf 3 8 (troot T 3) (leaf_at T i) v (tproof T 3 i) i s).2, <[i:=v]> T)
  end.

(** The proof of leaf 0 before the writes, used after [n] of them. *)
Definition old_proof_after (n : nat) : cmt Node :=
  let T0 := a_tree (astate 8) in
  (set_leaf 3 8 (troot T0 3) (leaf_at T0 0) (toy_node 200) (tproof T0 3 0) 0 (writes n).1).1.

(** The alias of leaf 0 on the full tree, then a write of leaf 0 with the proof
    taken before. *)
Definition after_alias `{BuildProfile} : cmt Node :=
  let T0 := a_tree (astate 8) in
  let s := (set_leaf 3 8 (troot T0 3) (leaf_at T0 0) (toy_node 100) (tproof T0 3 0) 8 (state 8)).2 in
  (set_leaf 3 8 (troot T0 3) (leaf_at T0 0) (toy_node 200) (tproof T0 3 0) 0 s).1.
End Limits.

(** The window of stale proofs is [MAX_BUFFER_SIZE - 1] writes, not
    [MAX_BUFFER_SIZE]: the proof of leaf 0 is accepted seven writes later, and
    refused eight writes later although leaf 0 was not written and the replay of
    the whole buffer is allowed; the replay starts after the oldest change log. *)
Theorem stale_window_is_buffer_size_minus_one :
  is_ok (Limits.old_proof_after 7) = true ∧
  Limits.old_proof_after 8 = Err InvalidProof.
Proof. split; by vm_compute. Qed.

(** The change log of the aliased index makes a later fast-forward of leaf 0
    panic, in a checked and in an unchecked build: the critical bit of [0] and
    [2^MAX_DEPTH] lies above the tree. *)
Theorem alias_makes_fast_forward_panic :
  Limits.after_alias (H := true) = Panic ∧ Limits.after_alias (H := false) = Panic.
Proof. split; by vm_compute. Qed.
