(* ===== verification/MerkleRollWitnesses.v ===== *)
(** * Witnesses for the theorems on the concurrent Merkle tree

    Each theorem with hypotheses is applied at a tree of depth 3 in a ring of 8,
    initialised and filled by the methods themselves ([Toy.state]). *)

From S2P Require Import Prelude Hashing MerkleSpec ChangeLog MerkleRoll MerkleRollSpec.
From S2P Require Import MerkleRollLemmas MerkleRollWrite MerkleRollTotal MerkleRollAppend.
From S2P Require Import MerkleRollInit MerkleRollTheorems MerkleRollTrace MerkleRollTyped.
From S2P Require Import MerkleRollLimits.
Import Toy.
#[local] Opaque toy_hashv.

(** The tree of [n] appends. *)
Abbreviation tree_of n := (a_tree (astate n)).

Lemma no_collision_old (i : N) (n : nat) (l : list (tree * N)) (lf : Node) :
  forallb (λ p : tree * N, bool_decide (find_collision p.1 0 lf (tproof (tree_of n) 3 i) i = None)) l = true →
  ∀ m T j, l !! m = Some (T, j) → find_collision T 0 lf (tproof (tree_of n) 3 i) i = None.
Proof.
  rewrite forallb_forall. intros Hall m T j Hm%list_elem_of_lookup_2.
  apply list_elem_of_In in Hm. by apply Hall, bool_decide_eq_true in Hm.
Qed.

Lemma set_leaf_stale_proof_witness :
  ∃ s', set_leaf 3 8 (troot (tree_of 1) 3) (leaf_at (tree_of 1) 0) (toy_node 50)
      (tproof (tree_of 1) 3 0) 0 (state 3) = (Ok (troot (<[0%N:=toy_node 50]> (tree_of 3)) 3), s') ∧
    Rep 3 8 s' (a_write 8 (astate 3) 0 (toy_node 50)).
Proof.
  pose proof (set_leaf_stale_proof 3 8 sizes (state 3) (astate 3) 0 (toy_node 50)
    (tproof (tree_of 1) 3 0) (tproof (tree_of 1) 3 0) 2 (tree_of 1) 0) as Hthm.
  rewrite decide_True in Hthm by by vm_compute. apply Hthm; clear Hthm.
  - apply state_Rep. lia.
  - done.
  - done.
  - done.
  - split; [done|by vm_compute].
  - apply mixed_tproof.
  - apply no_collision_old. by vm_compute.
Defined.

Lemma set_leaf_sound_witness :
  let T := tree_of 3 in
  leaf_at T 1 = toy_node 2 ∧
  Rep 3 8 (set_leaf 3 8 (troot T 3) (toy_node 2) (toy_node 50) (tproof T 3 1) 1 (state 3)).2
    (a_write 8 (astate 3) 1 (toy_node 50)).
Proof.
  intros T. pose proof (set_leaf_sound 3 8 sizes (state 3) (astate 3) (troot T 3) (toy_node 2)
    (toy_node 50) (tproof T 3 1) 1 (troot (<[1%N:=toy_node 50]> T) 3)
    (set_leaf 3 8 (troot T 3) (toy_node 2) (toy_node 50) (tproof T 3 1) 1 (state 3)).2) as Hthm.
  destruct (find_collision _ _ _ _ _) as [c|] eqn:Hfc.
  - vm_compute in Hfc. discriminate Hfc.
  - destruct Hthm as (Hl & _ & HR); [apply state_Rep; lia|done|by vm_compute|by split].
Defined.

Lemma append_refines_witness :
  ∃ s', append 3 8 (toy_node 9) (state 3) = (Ok (troot (<[3%N:=toy_node 9]> (tree_of 3)) 3), s') ∧
    Rep 3 8 s' (a_write 8 (astate 3) 3 (toy_node 9)).
Proof.
  pose proof (append_refines 3 8 sizes (state 3) (astate 3) (toy_node 9)) as Hthm.
  rewrite decide_False in Hthm by by vm_compute. rewrite decide_False in Hthm by by vm_compute.
  change (a_count (astate 3)) with 3%N in Hthm. apply Hthm. apply state_Rep. lia.
Defined.

Lemma initialize_refines_witness :
  ∃ s', initialize 3 8 (new 3 8) = (Ok (troot ∅ 3), s') ∧ Rep 3 8 s' (a_start ∅ 0 0 0).
Proof. apply (initialize_refines 3 8 sizes). apply new_blank. Defined.

Lemma initialize_with_root_refines_witness :
  ∃ s', initialize_with_root 3 8 (troot (tree_of 3) 3) (toy_node 3) (tproof (tree_of 3) 3 2) 2 (new 3 8) =
      (Ok (troot (tree_of 3) 3), s') ∧ Rep 3 8 s' (a_start (tree_of 3) 2 3 1).
Proof.
  destruct (initialize_with_root_refines 3 8 sizes (new 3 8) (troot (tree_of 3) 3) (toy_node 3)
    (tproof (tree_of 3) 3 2) 2) as (s' & Hrun & HR); [apply new_blank|done|done|].
  exists s'. split.
  - assert (troot (tree_of 3) 3 = hash_path 0 (toy_node 3) (tproof (tree_of 3) 3 2) 2) as He
      by by vm_compute.
    rewrite Hrun, (decide_True _ _ He). reflexivity.
  - apply HR; [done|done|by vm_compute|]. intros j Hj.
    change (a_tree (astate 3)) with (<[2%N:=toy_node 3]> (<[1%N:=toy_node 2]> (<[0%N:=toy_node 1]> (∅ : tree)))).
    by rewrite !leaf_at_insert_ne by lia.
Defined.

Lemma set_leaf_total_witness :
  total_with (set_leaf 3 8 EMPTY EMPTY (toy_node 1) [EMPTY; EMPTY] 2 (state 3)) (state 3)
    (λ _ s', well_formed 3 8 s') [LeafIndexOutOfBounds; InvalidProof; LeafContentsModified].
Proof.
  apply (set_leaf_total 3 8 sizes).
  - apply (rep_wf _ _ _ (astate 3)), state_Rep. lia.
  - done.
  - simpl. lia.
Defined.

Lemma prove_leaf_correct_witness :
  prove_leaf 3 8 (troot (tree_of 1) 3) (toy_node 1) (tproof (tree_of 1) 3 0) 0 (state 3) = (Ok EMPTY, state 3).
Proof.
  destruct (prove_leaf_correct 3 8 sizes (state 3) (astate 3) (troot (tree_of 1) 3) (toy_node 1)
    (tproof (tree_of 1) 3 0) 0) as [_ Hthm]; [apply state_Rep; lia|done|done|done|].
  rewrite (Hthm 2 (tree_of 1) 0%N).
  - by rewrite decide_True by by vm_compute.
  - by vm_compute.
  - split; [done|by vm_compute].
  - by vm_compute.
Defined.

Lemma fill_empty_or_append_refines_witness :
  ∃ s', fill_empty_or_append 3 8 (troot (tree_of 1) 3) (toy_node 60) (tproof (tree_of 1) 3 2) 2 (state 3) =
      (Ok (troot (<[3%N:=toy_node 60]> (tree_of 3)) 3), s') ∧
    Rep 3 8 s' (a_write 8 (astate 3) 3 (toy_node 60)).
Proof.
  pose proof (fill_empty_or_append_refines 3 8 sizes (state 3) (astate 3) (toy_node 60)
    (tproof (tree_of 1) 3 2) 2 2 (tree_of 1) 0) as Hthm. cbv zeta in Hthm.
  assert (leaf_at (a_tree (astate 3)) 2 ≠ EMPTY) as Hne by by vm_compute.
  rewrite (decide_False _ _ Hne) in Hthm. change (a_count (astate 3)) with 3%N in Hthm.
  rewrite decide_False in Hthm by by vm_compute. apply Hthm; clear Hthm.
  - apply state_Rep. lia.
  - done.
  - done.
  - by vm_compute.
  - done.
  - split; [done|by vm_compute].
  - by vm_compute.
  - apply no_collision_old. by vm_compute.
Defined.

(** A history: an append, a write with a stale proof, a write that fails, a race. *)
Definition ops : list op :=
  [Append (toy_node 4);
   SetLeaf (troot (tree_of 3) 3) (toy_node 1) (toy_node 50) (tproof (tree_of 3) 3 0) 0;
   SetLeaf (troot (tree_of 3) 3) (toy_node 1) (toy_node 51) (tproof (tree_of 3) 3 0) 0;
   FillEmptyOrAppend (troot (tree_of 3) 3) (toy_node 70) (tproof (tree_of 3) 3 3) 3].

Lemma history_simulation_witness :
  Rep 3 8 (exec_all 3 8 (state 3) ops) (a_exec_all 3 8 (state 3) (astate 3) ops) ∧
  a_history 3 8 (astate 3) ops (a_exec_all 3 8 (state 3) (astate 3) ops).
Proof.
  apply (history_simulation 3 8 sizes).
  - apply state_Rep. lia.
  - cbn [all_genuine ops genuine]. split; [done|]. repeat split; by vm_compute.
Defined.

Lemma op_returns_root_witness :
  ∃ cl, get_change_log (run_op 3 8 (Append (toy_node 4)) (state 3)).2 = Ok cl ∧
    root cl = troot (tree_of 4) 3.
Proof.
  destruct (op_returns_root 3 8 sizes (state 3) (astate 3) (Append (toy_node 4)) (troot (tree_of 4) 3)
    (run_op 3 8 (Append (toy_node 4)) (state 3)).2) as [_ Hthm].
  - apply state_Rep. lia.
  - done.
  - by vm_compute.
  - exact Hthm.
Defined.

Lemma set_leaf_full_tree_aliases_witness :
  ∃ s' cl, set_leaf 3 8 (troot (tree_of 8) 3) (leaf_at (tree_of 8) 0) (toy_node 77) (tproof (tree_of 8) 3 0)
      8 (state 8) = (Ok (troot (<[0%N:=toy_node 77]> (tree_of 8)) 3), s') ∧
    get_change_log s' = Ok cl ∧ cl_index cl = 8%N.
Proof.
  apply (set_leaf_full_tree_aliases 3 8 sizes (state 8) (astate 8) (toy_node 77) 7).
  - apply state_Rep. lia.
  - by rewrite a_count_astate.
  - done.
Defined.

(** Two appends and a change of a leaf past the end, which fails. *)
Lemma ring_keeps_last_roots_witness :
  ∃ s' h, run_calls 3 8 (initialize 3 8 (new 3 8)).2 (0%N, [empty_node 3])
      [CallAppend (toy_node 1); CallAppend (toy_node 2); CallSetLeaf EMPTY (toy_node 1) (toy_node 3) [] 7] = (s', h) ∧
    keeps_roots 3 8 s' h ∧ length h.2 = 3 ∧ find_root_in_changelog 8 s' (empty_node 3) = Ok (Some 0%N).
Proof.
  pose proof (ring_keeps_last_roots 3 8 sizes CallInitialize
    [CallAppend (toy_node 1); CallAppend (toy_node 2); CallSetLeaf EMPTY (toy_node 1) (toy_node 3) [] 7]
    (new 3 8) (empty_node 3) (initialize 3 8 (new 3 8)).2) as Hthm.
  destruct (run_calls _ _ _ _ _) as [s' h] eqn:Hrun in Hthm.
  destruct Hthm as [Hk Hfind]; [apply new_typed|by repeat constructor|done|by vm_compute|].
  exists s', h. split; [exact Hrun|]. split; [exact Hk|].
  vm_compute in Hrun. injection Hrun as <- <-. split; by vm_compute.
Defined.
