(* ===== verification/Accumulator.v ===== *)
(** * The prototype of the concurrent tree: [archive/merkle-accumulator/src]

    The accumulator that the concurrent Merkle tree grew out of: a ring of roots
    beside the ring of change logs, sizes fixed as constants, [Option] in place of
    errors.  The methods are those of [main.rs]; [recompute], [empty_node] and the
    constants are those of its [merkle.rs], whose off-chain tree is the code of
    [lib/merkle-tree-reference] ([ReferenceTree]).  Everything is inside
    [Module Acc], since the successors in [ChangeLog] and [MerkleRoll] have the
    same names.

    A method is a [method] whose error type is empty; [None] is a value. *)

From S2P Require Import Prelude Hashing.

Module Acc.

(** ** [merkle.rs] *)
Definition MAX_SIZE : N := 64.
Definition MAX_DEPTH : nat := 14.
Definition PADDING : N := 32 - N.of_nat MAX_DEPTH.
Definition MASK : N := MAX_SIZE - 1.

(** ** The data *)
Record ChangeLog := mk_ChangeLog {
  path : list Node;
  prev_leaf : Node;
  curr_leaf : Node;
  cl_index : N;
}.

Record Path := mk_Path {
  proof : list Node;
  leaf : Node;
  rm_index : N;
}.

Record MerkleAccumulator := mk_MerkleAccumulator {
  roots : list Node;
  change_logs : list ChangeLog;
  active_index : N;
  buffer_size : N;
  rightmost_proof : Path;
}.

Definition ChangeLog_default : ChangeLog :=
  mk_ChangeLog (replicate MAX_DEPTH EMPTY) EMPTY EMPTY 0.

Abbreviation acc_method := (method MerkleAccumulator Empty_set).
Abbreviation acc_outcome := (outcome Empty_set).

Definition set_ring (rs : list Node) (cls : list ChangeLog) (s : MerkleAccumulator) : MerkleAccumulator :=
  mk_MerkleAccumulator rs cls (active_index s) (buffer_size s) (rightmost_proof s).

Definition set_rightmost_proof (p : Path) (s : MerkleAccumulator) : MerkleAccumulator :=
  mk_MerkleAccumulator (roots s) (change_logs s) (active_index s) (buffer_size s) p.

(** The assignments [self.roots[i] = r] and [self.change_logs[i] = cl]. *)
Definition put_root (i : N) (r : Node) : acc_method unit :=
  self ← get;
  rs ← lift (index_set (roots self) i r);
  modify (set_ring rs (change_logs self)).

Definition put_change_log (i : N) (cl : ChangeLog) : acc_method unit :=
  self ← get;
  cls ← lift (index_set (change_logs self) i cl);
  modify (set_ring (roots self) cls).

Section defs.
Context `{Keccak} `{BuildProfile}.

(** [recompute] of [merkle.rs]: the loop from position [i] on. *)
Fixpoint recompute_loop (i : nat) (leaf : Node) (proof : list Node) (index : N) : acc_outcome Node :=
  match proof with
  | [] => Ok leaf
  | s :: proof =>
      sh ← wshr 32 index (N.of_nat i);
      let leaf :=
        if (N.land sh 1 =? 0)%N then hashv [vec_to_list leaf; vec_to_list s]
        else hashv [vec_to_list s; vec_to_list leaf] in
      recompute_loop (S i) leaf proof index
  end.

Definition recompute (leaf : Node) (proof : list Node) (index : N) : acc_outcome Node :=
  recompute_loop 0 leaf proof index.

Fixpoint empty_node (level : nat) : Node :=
  match level with
  | O => EMPTY
  | S lower =>
      let lower_empty := empty_node lower in
      hashv [vec_to_list lower_empty; vec_to_list lower_empty]
  end.

(** ** [main.rs] *)
Definition new : MerkleAccumulator :=
  mk_MerkleAccumulator (replicate (N.to_nat MAX_SIZE) (empty_node MAX_DEPTH))
    (replicate (N.to_nat MAX_SIZE) ChangeLog_default) 0 1
    (mk_Path (empty_node <$> seq 0 MAX_DEPTH) EMPTY 0).

Definition new_with_root (root right_most_leaf : Node) (proof : list Node) (index : N) :
    acc_outcome MerkleAccumulator :=
  let roots := <[0 := root]> (replicate (N.to_nat MAX_SIZE) (empty_node MAX_DEPTH)) in
  index1 ← wadd 32 index 1;
  let rightmost_proof := mk_Path proof right_most_leaf index1 in
  root' ← recompute right_most_leaf proof index;
  rust_assert (bool_decide (root = root'));;
  Ok (mk_MerkleAccumulator roots (replicate (N.to_nat MAX_SIZE) ChangeLog_default) 0 1 rightmost_proof).

Definition get_root (self : MerkleAccumulator) : acc_outcome Node :=
  index (roots self) (active_index self).

Definition increment_active_index : acc_method unit :=
  self ← get;
  active ← lift (wadd 64 (active_index self) 1);
  size ← lift (if (buffer_size self <? MAX_SIZE)%N then wadd 64 (buffer_size self) 1
               else Ok (buffer_size self));
  modify (λ self, mk_MerkleAccumulator (roots self) (change_logs self) (N.land active MASK) size
                    (rightmost_proof self)).

(** The critical bit of two indices: the level at which their paths meet. *)
Definition critbit_index (i j : N) : acc_outcome N :=
  shifted ← wshl 32 (N.lxor i j) PADDING;
  wsub 64 (N.of_nat MAX_DEPTH - 1) (leading_zeros 32 shifted).

(** The loop over the proof in [apply_changes], from position [ix] on. *)
Fixpoint apply_loop (ix : nat) (path : list Node) (start : Node) (proof : list Node) (index : N) :
    acc_outcome (list Node * Node) :=
  match proof with
  | [] => Ok (path, start)
  | s :: proof =>
      sh ← wshr 32 index (N.of_nat ix);
      let start :=
        if (N.land sh 1 =? 0)%N then hashv [vec_to_list start; vec_to_list s]
        else hashv [vec_to_list s; vec_to_list start] in
      path ← (if decide (ix < MAX_DEPTH - 1) then index_set path (N.of_nat (ix + 1)) start else Ok path);
      apply_loop (S ix) path start proof index
  end.

(** The update of the rightmost path at the end of [apply_changes]. *)
Definition update_rightmost (curr_leaf : Node) (change_log : ChangeLog) (proof : list Node) (index : N) :
    acc_method unit :=
  self ← get;
  let rmp := rightmost_proof self in
  if (index <? rm_index rmp)%N then
    last ← lift (wsub 32 (rm_index rmp) 1);
    if negb (index =? last)%N then
      critbit_index ← lift (critbit_index index last);
      node ← lift (Prelude.index (path change_log) critbit_index);
      rmp_proof ← lift (index_set (Acc.proof rmp) critbit_index node);
      modify (set_rightmost_proof (mk_Path rmp_proof (leaf rmp) (rm_index rmp)))
    else mret tt
  else
    lift (rust_assert (index =? rm_index rmp)%N);;
    lift (rust_assert (bool_decide (length proof = length (Acc.proof rmp))));;
    index1 ← lift (wadd 32 index 1);
    modify (set_rightmost_proof (mk_Path proof curr_leaf index1)).

Definition apply_changes (prev_leaf start : Node) (proof : list Node) (index : N) : acc_method Node :=
  let curr_leaf := start in
  self ← get;
  cl ← lift (Prelude.index (change_logs self) (active_index self));
  path ← lift (index_set (path cl) 0 start);
  '(path, root) ← lift (apply_loop 0 path start proof index);
  let cl := mk_ChangeLog path prev_leaf curr_leaf index in
  put_change_log (active_index self) cl;;
  update_rightmost curr_leaf cl proof index;;
  mret root.

(** The body of the [while] loop of [update_and_apply_proof], after the index. *)
Definition replay_change (cl : ChangeLog) (index : N) (proof : list Node) (updated_leaf : Node) :
    acc_outcome (list Node * Node) :=
  if negb (index =? cl_index cl)%N then
    critbit_index ← critbit_index index (cl_index cl);
    node ← Prelude.index (path cl) critbit_index;
    proof ← index_set proof critbit_index node;
    Ok (proof, updated_leaf)
  else Ok (proof, curr_leaf cl).

(** The [while] loop of [update_and_apply_proof]. *)
Fixpoint fast_forward (fuel : nat) (self : MerkleAccumulator) (index j : N) (proof : list Node)
    (updated_leaf : Node) : acc_outcome (list Node * Node) :=
  match fuel with
  | O => OutOfFuel
  | S fuel =>
      if (j =? active_index self)%N then Ok (proof, updated_leaf)
      else
        next ← wadd 64 j 1;
        let j := N.land next MASK in
        cl ← Prelude.index (change_logs self) j;
        '(proof, updated_leaf) ← replay_change cl index proof updated_leaf;
        fast_forward fuel self index j proof updated_leaf
  end.

(** The locals of [append] that its loops change: [change_list], [node],
    [intersection_node] and [rightmost_proof.proof]. *)
Abbreviation locals := (list Node * Node * Node * list Node)%type.

(** An iteration of the first loop of [append], below the intersection. *)
Definition append_below (rm_ix : N) (s : locals) (i : nat) : acc_outcome locals :=
  let '(change_list, node, intersection_node, rmp_proof) := s in
  change_list ← index_set change_list (N.of_nat i) node;
  let node := hashv [vec_to_list node; vec_to_list (empty_node i)] in
  last ← wsub 32 rm_ix 1;
  sh ← wshr 32 last (N.of_nat i);
  p ← index rmp_proof (N.of_nat i);
  let intersection_node :=
    if (N.land sh 1 =? 1)%N then hashv [vec_to_list p; vec_to_list intersection_node]
    else hashv [vec_to_list intersection_node; vec_to_list p] in
  rmp_proof ← index_set rmp_proof (N.of_nat i) (empty_node i);
  Ok (change_list, node, intersection_node, rmp_proof).

(** The step at the intersection. *)
Definition append_at (intersection : nat) (s : locals) : acc_outcome locals :=
  let '(change_list, node, intersection_node, rmp_proof) := s in
  change_list ← index_set change_list (N.of_nat intersection) node;
  let node := hashv [vec_to_list intersection_node; vec_to_list node] in
  rmp_proof ← index_set rmp_proof (N.of_nat intersection) intersection_node;
  Ok (change_list, node, intersection_node, rmp_proof).

(** An iteration of the last loop of [append], above the intersection. *)
Definition append_above (rm_ix : N) (s : locals) (i : nat) : acc_outcome locals :=
  let '(change_list, node, intersection_node, rmp_proof) := s in
  change_list ← index_set change_list (N.of_nat i) node;
  sh ← wshr 32 rm_ix (N.of_nat i);
  p ← index rmp_proof (N.of_nat i);
  let node :=
    if (N.land sh 1 =? 1)%N then hashv [vec_to_list p; vec_to_list node]
    else hashv [vec_to_list node; vec_to_list p] in
  Ok (change_list, node, intersection_node, rmp_proof).

(** [append] of a tree that is not empty, from the first loop on. *)
Definition append_path (node : Node) : acc_method (option Node) :=
  self ← get;
  let leaf := node in
  let rmp := rightmost_proof self in
  let intersection := N.to_nat (trailing_zeros 32 (rm_index rmp)) in
  let locals0 := (replicate MAX_DEPTH EMPTY, node, Acc.leaf rmp, proof rmp) in
  s ← lift (foldM (append_below (rm_index rmp)) locals0 (seq 0 intersection));
  s ← lift (append_at intersection s);
  '(change_list, node, _, rmp_proof) ←
    lift (foldM (append_above (rm_index rmp)) s (seq (S intersection) (MAX_DEPTH - S intersection)));
  modify (set_rightmost_proof (mk_Path rmp_proof (Acc.leaf rmp) (rm_index rmp)));;
  increment_active_index;;
  self ← get;
  put_root (active_index self) node;;
  put_change_log (active_index self) (mk_ChangeLog change_list EMPTY leaf (rm_index rmp));;
  index1 ← lift (wadd 32 (rm_index rmp) 1);
  modify (set_rightmost_proof (mk_Path rmp_proof leaf index1));;
  mret (Some node).

(** The end of [update_and_apply_proof]. *)
Definition write_leaf (leaf new_leaf : Node) (proof : list Node) (index : N) : acc_method (option Node) :=
  increment_active_index;;
  new_root ← apply_changes leaf new_leaf proof index;
  self ← get;
  put_root (active_index self) new_root;;
  mret (Some new_root).

(** [append], [initialize_tree] and [update_and_apply_proof] call each other; the
    fuel bounds the depth of the calls. *)
Fixpoint append_calls (fuel : nat) (node : Node) : acc_method (option Node) :=
  match fuel with
  | O => lift OutOfFuel
  | S fuel =>
      if decide (node = EMPTY) then mret None else
      self ← get;
      let rmp := rightmost_proof self in
      capacity ← lift (wshl 32 1 (N.of_nat MAX_DEPTH));
      if (capacity <=? rm_index rmp)%N then mret None
      else if (rm_index rmp =? 0)%N then initialize_tree_calls fuel node (proof rmp)
      else append_path node
  end

with initialize_tree_calls (fuel : nat) (leaf : Node) (proof : list Node) : acc_method (option Node) :=
  match fuel with
  | O => lift OutOfFuel
  | S fuel =>
      old_root ← lift (recompute EMPTY proof 0);
      if decide (old_root = empty_node MAX_DEPTH)
      then update_and_apply_proof_calls fuel EMPTY leaf proof 0 0 false
      else mret None
  end

with update_and_apply_proof_calls (fuel : nat) (leaf new_leaf : Node) (proof : list Node) (index j : N)
    (append_on_conflict : bool) : acc_method (option Node) :=
  match fuel with
  | O => lift OutOfFuel
  | S fuel =>
      self ← get;
      '(proof, updated_leaf) ← lift (fast_forward (S (N.to_nat MAX_SIZE)) self index j proof leaf);
      old_root ← lift (recompute updated_leaf proof index);
      root ← lift (get_root self);
      lift (rust_assert (bool_decide (old_root = root)));;
      if decide (updated_leaf ≠ leaf) then
        if bool_decide (leaf = EMPTY) && append_on_conflict then append_calls fuel new_leaf
        else mret None
      else write_leaf leaf new_leaf proof index
  end.

(** [update_and_apply_proof] calls [append], which calls [initialize_tree], which
    calls [update_and_apply_proof] without the fallback. *)
Definition CALL_DEPTH : nat := 4.

Definition append (node : Node) : acc_method (option Node) := append_calls CALL_DEPTH node.

Definition update_and_apply_proof (leaf new_leaf : Node) (proof : list Node) (index j : N)
    (append_on_conflict : bool) : acc_method (option Node) :=
  update_and_apply_proof_calls CALL_DEPTH leaf new_leaf proof index j append_on_conflict.

(** The loop of [_find_and_update_leaf] over [0..self.buffer_size]. *)
Fixpoint find_and_update_loop (current_root leaf new_leaf : Node) (proof : list Node) (index : N)
    (append_on_conflict : bool) (range : list N) : acc_method (option Node) :=
  match range with
  | [] => mret None
  | i :: range =>
      self ← get;
      let j := N.land (wrapping_sub 64 (active_index self) i) MASK in
      root ← lift (Prelude.index (roots self) j);
      if decide (root ≠ current_root)
      then find_and_update_loop current_root leaf new_leaf proof index append_on_conflict range
      else
        old_root ← lift (recompute leaf proof index);
        if bool_decide (old_root = current_root) && (rm_index (rightmost_proof self) <? index)%N
           && append_on_conflict
        then append new_leaf
        else if decide (old_root = current_root)
        then update_and_apply_proof leaf new_leaf proof index j append_on_conflict
        else mret None
  end.

Definition _find_and_update_leaf (current_root leaf new_leaf : Node) (proof : list Node) (index : N)
    (append_on_conflict : bool) : acc_method (option Node) :=
  self ← get;
  find_and_update_loop current_root leaf new_leaf proof index append_on_conflict
    (N.of_nat <$> seq 0 (N.to_nat (buffer_size self))).

Definition fill_empty_or_append (current_root leaf : Node) (proof : list Node) (index : N) :
    acc_method (option Node) :=
  _find_and_update_leaf current_root EMPTY leaf proof index true.

Definition set_leaf_to_empty (current_root leaf : Node) (proof : list Node) (index : N) :
    acc_method (option Node) :=
  self ← get;
  if (rm_index (rightmost_proof self) <? index)%N then mret None
  else _find_and_update_leaf current_root leaf EMPTY proof index false.

Definition set_leaf (current_root leaf new_leaf : Node) (proof : list Node) (index : N) :
    acc_method (option Node) :=
  _find_and_update_leaf current_root leaf new_leaf proof index false.
End defs.

(** The constants are folded in statements. *)
#[global] Arguments MAX_DEPTH : simpl never.
#[global] Arguments MAX_SIZE : simpl never.
#[global] Arguments MASK : simpl never.
#[global] Arguments PADDING : simpl never.
#[global] Arguments append {_ _} node : simpl never.
#[global] Arguments update_and_apply_proof {_ _} leaf new_leaf proof index j append_on_conflict : simpl never.

End Acc.
