(* ===== verification/AccumulatorLemmas.v ===== *)
(** * Lemmas on the prototype of the concurrent tree

    A state of the prototype seen as a state of its successor: a root and a change
    log at the same place of the two rings are a change log of [MerkleRoll].  The
    abstract trees of [MerkleRollSpec] are then the specification of both, and the
    lemmas say how the methods of the prototype act on them: replaying a proof through
    the ring, appending, finding a root. *)

From S2P Require Import Prelude Hashing MerkleSpec ChangeLog MerkleRoll MerkleRollSpec.
From S2P Require Import MerkleRollLemmas MerkleRollWrite MerkleRollAppend Accumulator.

(** ** The prototype seen as its successor *)
Definition as_log (r : Node) (cl : Acc.ChangeLog) : ChangeLog :=
  mk_ChangeLog r (Acc.path cl) (Acc.cl_index cl).

Definition as_path (p : Acc.Path) : Path :=
  mk_Path (Acc.proof p) (Acc.leaf p) (Acc.rm_index p).

Definition as_roll (seq_no : N) (s : Acc.MerkleAccumulator) : MerkleRoll :=
  mk_MerkleRoll seq_no (Acc.active_index s) (Acc.buffer_size s)
    (zip_with as_log (Acc.roots s) (Acc.change_logs s)) (as_path (Acc.rightmost_proof s)).

(** The slot of the tree of [m] writes ago. *)
Abbreviation acc_slot s m := (slot Acc.MAX_SIZE (as_roll 0 s) m).

(** [AccRep s a]: the prototype's state [s] implements the abstract state [a];
    the leaf that a change log keeps is the bottom of its path. *)
Record AccRep `{Keccak} (s : Acc.MerkleAccumulator) (a : aroll) : Prop := mk_AccRep {
  ar_rep : Rep Acc.MAX_DEPTH Acc.MAX_SIZE (as_roll (a_seq a) s) a;
  ar_roots : length (Acc.roots s) = N.to_nat Acc.MAX_SIZE;
  ar_logs : length (Acc.change_logs s) = N.to_nat Acc.MAX_SIZE;
  ar_leaves : Forall (λ cl, Acc.path cl !! 0 = Some (Acc.curr_leaf cl)) (Acc.change_logs s);
  ar_start : a_count a = 0%N → Acc.active_index s = 0%N;
}.

Lemma acc_sizes : sizes_ok Acc.MAX_DEPTH Acc.MAX_SIZE.
Proof. split; [unfold Acc.MAX_DEPTH; lia|by exists 6%N]. Qed.

Lemma acc_land a : N.land a Acc.MASK = (a `mod` Acc.MAX_SIZE)%N.
Proof. apply (land_mask a 6). Qed.

Abbreviation acc_capacity := (2 ^ N.of_nat Acc.MAX_DEPTH)%N.

Section lemmas.
Context `{Keccak} `{BuildProfile}.
Implicit Types (s : Acc.MerkleAccumulator) (a : aroll) (T : tree) (i : N) (v : Node).

(** ** The functions of [merkle.rs] are those of the library *)
Lemma acc_recompute_loop (k : nat) leaf proof index :
  k + length proof ≤ 32 → Acc.recompute_loop k leaf proof index = Ok (hash_path k leaf proof index).
Proof.
  revert k leaf. induction proof as [|x proof IH]; intros k leaf Hlen; simpl in *; [done|].
  rewrite wshr_ok by lia. simpl. rewrite land_1_testbit. by apply IH; lia.
Qed.

Lemma acc_recompute leaf proof index :
  length proof = Acc.MAX_DEPTH → Acc.recompute leaf proof index = Ok (hash_path 0 leaf proof index).
Proof. intros Hlen. apply acc_recompute_loop. rewrite Hlen. unfold Acc.MAX_DEPTH. lia. Qed.

Lemma acc_empty_node level : Acc.empty_node level = empty_node level.
Proof. induction level as [|level IH]; simpl; [done|]. by rewrite IH. Qed.

Lemma acc_critbit i j :
  i ≠ j → (i < acc_capacity)%N → (j < acc_capacity)%N →
  Acc.critbit_index i j = Ok (N.of_nat (critbit i j)).
Proof.
  intros Hne Hi Hj. unfold Acc.critbit_index.
  destruct (critbit_arith (E:=Empty_set) i j Acc.MAX_DEPTH) as (sh & Hsh & Hcrit & Hle);
    [unfold Acc.MAX_DEPTH; lia|done..|].
  unfold Acc.PADDING. rewrite Hsh. simpl. rewrite wsub_ok by lia. by rewrite Hcrit.
Qed.

(** A step of the [while] loop is [update_proof_or_leaf]. *)
Lemma replay_change_update r cl i p l :
  Acc.path cl !! 0 = Some (Acc.curr_leaf cl) →
  Acc.replay_change cl i p l = update_proof_or_leaf Acc.MAX_DEPTH (as_log r cl) i p l.
Proof.
  intros Hleaf. unfold Acc.replay_change, update_proof_or_leaf, Acc.critbit_index, get_leaf, as_log.
  cbn [cl_index path]. rewrite (index_lookup _ 0 _ Hleaf).
  rewrite (wsub_ok 64 32) by (unfold Acc.MAX_DEPTH; lia). cbn [mbind outcome_bind].
  destruct (decide (i = Acc.cl_index cl)) as [->|Hne].
  - by rewrite N.eqb_refl, decide_False by (by intros []).
  - rewrite (proj2 (N.eqb_neq _ _) Hne), decide_True by done. cbn [negb].
    rewrite (wsub_ok 64 (N.of_nat Acc.MAX_DEPTH) 1) by (unfold Acc.MAX_DEPTH; lia).
    cbn [mbind outcome_bind]. unfold Acc.PADDING.
    by destruct (wshl _ _ _).
Qed.

(** ** Recording a write *)

(** The state after a write: the next slot of both rings. *)
Definition acc_pushed s r (cl : Acc.ChangeLog) (rmp : Acc.Path) : Acc.MerkleAccumulator :=
  let active := ((Acc.active_index s + 1) `mod` Acc.MAX_SIZE)%N in
  Acc.mk_MerkleAccumulator (<[N.to_nat active := r]> (Acc.roots s))
    (<[N.to_nat active := cl]> (Acc.change_logs s)) active
    (N.min (Acc.buffer_size s + 1) Acc.MAX_SIZE) rmp.

Lemma as_roll_pushed q s r cl rmp :
  as_roll (saturating_add 64 q 1) (acc_pushed s r cl rmp) =
  pushed Acc.MAX_SIZE (as_roll q s) (as_log r cl) (as_path rmp).
Proof.
  unfold as_roll, pushed, acc_pushed. simpl. by rewrite insert_zip_with.
Qed.

(** The change log of the write of [v] to leaf [i], that leads to the tree [T]. *)
Definition acc_log T i prev v : Acc.ChangeLog := Acc.mk_ChangeLog (tpath T Acc.MAX_DEPTH i) prev v i.

Lemma AccRep_pushed s a i prev v rmp :
  let T := <[i:=v]> (a_tree a) in
  AccRep s a → (i < acc_capacity)%N → length (Acc.proof rmp) = Acc.MAX_DEPTH →
  Acc.rm_index rmp = N.max (a_count a) (i + 1)%N → rightmost_ok Acc.MAX_DEPTH (as_path rmp) T →
  AccRep (acc_pushed s (troot T Acc.MAX_DEPTH) (acc_log T i prev v) rmp) (a_write Acc.MAX_SIZE a i v).
Proof.
  intros T [HR Hroots Hlogs Hleaves _] Hi Hp Hr Hrmp. split.
  - unfold a_write at 1. cbn [a_seq]. rewrite as_roll_pushed.
    by apply (Rep_pushed Acc.MAX_DEPTH Acc.MAX_SIZE acc_sizes).
  - simpl. by rewrite length_insert.
  - simpl. by rewrite length_insert.
  - simpl. apply Forall_insert; [done|]. unfold acc_log. cbn [Acc.path Acc.curr_leaf].
    rewrite lookup_tpath by (unfold Acc.MAX_DEPTH; lia). rewrite ix_0. unfold T. simpl.
    by rewrite leaf_at_insert.
  - simpl. lia.
Qed.

(** The sizes of the ring. *)
Record ring_ok s : Prop := mk_ring_ok {
  ring_active : (Acc.active_index s < Acc.MAX_SIZE)%N;
  ring_size : (Acc.buffer_size s ≤ Acc.MAX_SIZE)%N;
  ring_roots : length (Acc.roots s) = N.to_nat Acc.MAX_SIZE;
  ring_logs : length (Acc.change_logs s) = N.to_nat Acc.MAX_SIZE;
  ring_paths : Forall (λ cl, length (Acc.path cl) = Acc.MAX_DEPTH) (Acc.change_logs s);
}.

Lemma AccRep_ring s a : AccRep s a → ring_ok s.
Proof.
  intros [HR Hroots Hlogs _ _]. pose proof (rep_wf _ _ _ _ HR) as Hwf.
  split; [apply (wf_active _ _ _ Hwf)|apply (wf_size _ _ _ Hwf)|done..|].
  apply Forall_lookup. intros k cl Hcl.
  destruct (lookup_lt_is_Some_2 (Acc.roots s) k) as [r Hr].
  { apply lookup_lt_Some in Hcl. lia. }
  apply (proj1 (Forall_lookup _ _) (wf_paths _ _ _ Hwf) k (as_log r cl)).
  simpl. by rewrite lookup_zip_with, Hr, Hcl.
Qed.

Lemma ring_ok_pushed s r cl rmp :
  ring_ok s → length (Acc.path cl) = Acc.MAX_DEPTH → ring_ok (acc_pushed s r cl rmp).
Proof.
  intros [Ha Hb Hr Hl Hp] Hcl. split; simpl.
  - by apply N.mod_lt.
  - lia.
  - by rewrite length_insert.
  - by rewrite length_insert.
  - by apply Forall_insert.
Qed.

Lemma increment_active_index_ok s :
  ring_ok s →
  Acc.increment_active_index s =
  (Ok tt, Acc.mk_MerkleAccumulator (Acc.roots s) (Acc.change_logs s)
    ((Acc.active_index s + 1) `mod` Acc.MAX_SIZE)%N (N.min (Acc.buffer_size s + 1) Acc.MAX_SIZE)
    (Acc.rightmost_proof s)).
Proof.
  intros [Ha Hb _ _ _]. assert (Acc.MAX_SIZE = 64%N) as HM by done.
  unfold Acc.increment_active_index. run_method. rewrite wadd_ok by lia. rewrite acc_land.
  destruct (Acc.buffer_size s <? Acc.MAX_SIZE)%N eqn:Hlt.
  - apply N.ltb_lt in Hlt. rewrite wadd_ok by lia.
    by replace (N.min _ _) with (Acc.buffer_size s + 1)%N by lia.
  - apply N.ltb_ge in Hlt. by replace (N.min _ _) with (Acc.buffer_size s) by lia.
Qed.

Lemma put_root_ok s j r :
  N.to_nat j < length (Acc.roots s) →
  Acc.put_root j r s = (Ok tt, Acc.set_ring (<[N.to_nat j := r]> (Acc.roots s)) (Acc.change_logs s) s).
Proof. intros Hj. unfold Acc.put_root. run_method. by rewrite index_set_lt by done. Qed.

Lemma acc_put_change_log_ok s j cl :
  N.to_nat j < length (Acc.change_logs s) →
  Acc.put_change_log j cl s =
  (Ok tt, Acc.set_ring (Acc.roots s) (<[N.to_nat j := cl]> (Acc.change_logs s)) s).
Proof. intros Hj. unfold Acc.put_change_log. run_method. by rewrite index_set_lt by done. Qed.

(** The loop over the proof: the path recomputed from the new leaf. *)
Lemma apply_loop_ok (k : nat) pth start prf index :
  length pth = Acc.MAX_DEPTH → k + length prf = Acc.MAX_DEPTH →
  (prf ≠ [] → pth !! k = Some start) →
  Acc.apply_loop k pth start prf index =
  Ok (take k pth ++ ((λ j, hash_path k start (take j prf) index) <$> seq 0 (length prf)),
      hash_path k start prf index).
Proof.
  revert k pth start. induction prf as [|x prf IH]; intros k pth start Hlen Hk Hhead; simpl in *.
  { rewrite take_ge, app_nil_r by lia. done. }
  assert (Acc.MAX_DEPTH = 14) as HM by done.
  rewrite wshr_ok by lia. simpl. rewrite land_1_testbit.
  set (h := if negb _ then _ else _). change h with (hash_to_parent start x (negb (N.testbit index (N.of_nat k)))).
  clear h. set (h := hash_to_parent _ _ _).
  specialize (Hhead ltac:(done)).
  assert (∀ pth', length pth' = Acc.MAX_DEPTH → take (S k) pth' = take k pth ++ [start] →
    (prf ≠ [] → pth' !! S k = Some h) →
    Acc.apply_loop (S k) pth' h prf index =
    Ok (take k pth ++ start :: ((λ j, hash_path k start (take j (x :: prf)) index) <$> seq 1 (length prf)),
      hash_path (S k) h prf index)) as Hrest.
  { intros pth' Hlen' Htake Hh. rewrite IH by (first [done|lia]). rewrite Htake, <-app_assoc. simpl.
    by rewrite <-(fmap_S_seq 0), <-list_fmap_compose. }
  case_decide as Hd.
  - rewrite index_set_lt by lia. simpl. rewrite Nat2N.id. apply Hrest.
    + by rewrite length_insert.
    + rewrite take_insert_ge by lia. by apply take_S_r.
    + intros _. replace (k + 1) with (S k) by lia. apply list_lookup_insert_eq. lia.
  - apply Hrest; [done|by apply take_S_r|]. destruct prf; [done|simpl in *; lia].
Qed.

(** With the proof of the leaf in a tree: the path and the root after the write. *)
Lemma apply_loop_tree T i v pth :
  length pth = Acc.MAX_DEPTH → (i < acc_capacity)%N →
  Acc.apply_loop 0 (<[0:=v]> pth) v (tproof T Acc.MAX_DEPTH i) i =
  Ok (tpath (<[i:=v]> T) Acc.MAX_DEPTH i, troot (<[i:=v]> T) Acc.MAX_DEPTH).
Proof.
  intros Hpath Hi. assert (Acc.MAX_DEPTH = 14) as HM by done.
  rewrite apply_loop_ok by (first [rewrite length_insert; lia|rewrite length_tproof; lia|
    intros _; apply list_lookup_insert_eq; lia]).
  rewrite take_0, app_nil_l, length_tproof, <-(tproof_insert_self T Acc.MAX_DEPTH i v).
  rewrite <-(hash_path_tproof (<[i:=v]> T) Acc.MAX_DEPTH i), leaf_at_insert by done.
  f_equal. f_equal. unfold tpath. apply list_fmap_ext. intros j x [-> Hj]%lookup_seq.
  rewrite (tpath_hash_path _ Acc.MAX_DEPTH) by lia. by rewrite leaf_at_insert.
Qed.

(** [update_rightmost]: the rightmost path stays right, except that a write of the
    last leaf of a tree that is not full leaves the old leaf there. *)
Lemma update_rightmost_ok old T i prev v :
  rightmost_ok Acc.MAX_DEPTH (as_path old) T → length (Acc.proof old) = Acc.MAX_DEPTH →
  let R := Acc.rm_index old in
  (R ≤ acc_capacity)%N → (i < acc_capacity)%N → (i ≤ R)%N → (i + 1 = R → R = acc_capacity)%N →
  ∃ rmp, (∀ s, Acc.rightmost_proof s = old →
      Acc.update_rightmost v (acc_log (<[i:=v]> T) i prev v) (tproof T Acc.MAX_DEPTH i) i s =
      (Ok tt, Acc.set_rightmost_proof rmp s)) ∧
    length (Acc.proof rmp) = Acc.MAX_DEPTH ∧ Acc.rm_index rmp = N.max R (i + 1) ∧
    rightmost_ok Acc.MAX_DEPTH (as_path rmp) (<[i:=v]> T).
Proof.
  intros [Hempty Hlast] Hlen R HR Hi Hle Hnotlast. cbn [as_path rm_index leaf proof] in Hempty, Hlast.
  fold R in Hempty, Hlast.
  assert (∀ j, (N.max R (i + 1) ≤ j)%N → leaf_at (<[i:=v]> T) j = EMPTY) as Hempty'.
  { intros j Hj. rewrite leaf_at_insert_ne by lia. apply Hempty. lia. }
  assert (acc_capacity < 2 ^ 32 - 1)%N by done.
  destruct (i <? R)%N eqn:Hlt; [apply N.ltb_lt in Hlt; destruct (decide (i = R - 1)%N) as [Heq|Heq]|].
  - specialize (Hnotlast ltac:(lia)). exists old. split.
    { intros s Hs. unfold Acc.update_rightmost. run_method. rewrite Hs. fold R.
      rewrite (proj2 (N.ltb_lt _ _) Hlt), wsub_ok, <-Heq, N.eqb_refl by lia.
      by rewrite <-Hs; destruct s. }
    fold R. split; [done|]. split; [lia|].
    split; cbn [as_path rm_index]; fold R; [|lia]. intros j Hj. apply Hempty'. lia.
  - assert (R - 1 < acc_capacity)%N as HR1 by lia.
    pose proof (critbit_lt _ _ _ Heq Hi HR1) as Hc.
    eexists (Acc.mk_Path (<[critbit i (R - 1) := _]> (Acc.proof old)) (Acc.leaf old) R). split.
    { intros s Hs. unfold Acc.update_rightmost. run_method. rewrite Hs. fold R.
      rewrite (proj2 (N.ltb_lt _ _) Hlt), wsub_ok, (proj2 (N.eqb_neq _ _) Heq) by lia. cbn [negb].
      rewrite acc_critbit by done.
      rewrite (index_lookup _ _ (tnode (<[i:=v]> T) (critbit i (R - 1)) (ix i (critbit i (R - 1)))))
        by (rewrite Nat2N.id; by apply lookup_tpath).
      rewrite index_set_lt by (rewrite Nat2N.id; lia). by rewrite Nat2N.id. }
    cbn [Acc.proof Acc.rm_index]. rewrite length_insert. split; [done|]. split; [lia|].
    split; cbn [as_path rm_index leaf proof Acc.proof Acc.leaf Acc.rm_index].
    { intros j Hj. apply Hempty'. lia. }
    intros Hfull. destruct (Hlast Hfull) as [-> ->].
    rewrite leaf_at_insert_ne, tproof_insert_ne by lia. split; [done|].
    by rewrite (critbit_sym (R - 1)).
  - apply N.ltb_ge in Hlt. assert (i = R) as -> by lia.
    exists (Acc.mk_Path (tproof T Acc.MAX_DEPTH R) v (R + 1)%N). split.
    { intros s Hs. unfold Acc.update_rightmost. run_method. rewrite Hs. fold R.
      rewrite (proj2 (N.ltb_ge R R)), N.eqb_refl by lia. cbn [rust_assert].
      rewrite bool_decide_true by (by rewrite length_tproof). cbn [rust_assert].
      by rewrite wadd_ok by lia. }
    cbn [Acc.proof Acc.rm_index]. rewrite length_tproof. split; [done|]. split; [lia|].
    split; cbn [as_path rm_index leaf proof Acc.proof Acc.leaf Acc.rm_index].
    + intros j Hj. apply Hempty'. lia.
    + intros _. replace (R + 1 - 1)%N with R by lia. by rewrite leaf_at_insert, tproof_insert_self.
Qed.

(** The state of [AccRep], at hand. *)
Lemma AccRep_facts s a :
  AccRep s a →
  (Acc.active_index s < Acc.MAX_SIZE)%N ∧ Acc.rm_index (Acc.rightmost_proof s) = a_count a ∧
  length (Acc.proof (Acc.rightmost_proof s)) = Acc.MAX_DEPTH ∧ (a_count a ≤ acc_capacity)%N ∧
  rightmost_ok Acc.MAX_DEPTH (as_path (Acc.rightmost_proof s)) (a_tree a).
Proof.
  intros [HR _ _ _ _]. pose proof (rep_wf _ _ _ _ HR) as [_ _ Hlen Hcap Ha _].
  pose proof (rep_count _ _ _ _ HR) as Hc. simpl in *.
  split; [done|]. split; [done|]. split; [done|]. split; [by rewrite <-Hc|].
  apply (rep_rmp _ _ _ _ HR).
Qed.

(** [write_leaf] with the proof of the leaf in a tree, given what it does to the
    rightmost path. *)
Lemma write_leaf_run s T i prev v rmp :
  ring_ok s → (i < acc_capacity)%N →
  (∀ s0, Acc.rightmost_proof s0 = Acc.rightmost_proof s →
    Acc.update_rightmost v (acc_log (<[i:=v]> T) i prev v) (tproof T Acc.MAX_DEPTH i) i s0 =
    (Ok tt, Acc.set_rightmost_proof rmp s0)) →
  Acc.write_leaf prev v (tproof T Acc.MAX_DEPTH i) i s =
  (Ok (Some (troot (<[i:=v]> T) Acc.MAX_DEPTH)),
   acc_pushed s (troot (<[i:=v]> T) Acc.MAX_DEPTH) (acc_log (<[i:=v]> T) i prev v) rmp).
Proof.
  intros Hring Hi Hupd. pose proof (ring_roots _ Hring) as Hroots.
  pose proof (ring_logs _ Hring) as Hlogs.
  assert (((Acc.active_index s + 1) `mod` Acc.MAX_SIZE)%N < Acc.MAX_SIZE)%N as Hact by (by apply N.mod_lt).
  unfold Acc.write_leaf, Acc.apply_changes. run_method.
  rewrite (increment_active_index_ok s Hring). cbn [Acc.change_logs Acc.active_index].
  set (act := ((Acc.active_index s + 1) `mod` Acc.MAX_SIZE)%N) in *.
  destruct (lookup_lt_is_Some_2 (Acc.change_logs s) (N.to_nat act)) as [cl Hcl]; [lia|].
  rewrite (index_lookup _ _ _ Hcl).
  pose proof (proj1 (Forall_lookup _ _) (ring_paths _ Hring) _ _ Hcl) as Hpath. cbn beta in Hpath.
  assert (Acc.MAX_DEPTH = 14) as HM by done.
  rewrite index_set_lt by (rewrite Hpath; unfold N.to_nat; lia).
  rewrite (apply_loop_tree T) by done. rewrite acc_put_change_log_ok by (simpl; lia).
  unfold acc_log in Hupd. rewrite Hupd by done. rewrite put_root_ok by (simpl; lia). done.
Qed.

(** Writing a leaf through its proof in the newest tree. *)
Lemma write_leaf_ok s a i prev v :
  AccRep s a → (i < acc_capacity)%N → (i ≤ a_count a)%N →
  (i + 1 = a_count a → a_count a = acc_capacity)%N →
  ∃ s', Acc.write_leaf prev v (tproof (a_tree a) Acc.MAX_DEPTH i) i s =
      (Ok (Some (troot (<[i:=v]> (a_tree a)) Acc.MAX_DEPTH)), s') ∧
    AccRep s' (a_write Acc.MAX_SIZE a i v).
Proof.
  intros HA Hi Hle Hnotlast. destruct (AccRep_facts s a HA) as (Ha & Hrm & Hlen & Hcap & Hrmp).
  edestruct (update_rightmost_ok (Acc.rightmost_proof s) (a_tree a) i prev v)
    as (rmp & Hupd & Hlen' & Hix & Hok); [by rewrite ?Hrm..|].
  eexists. split; [by apply (write_leaf_run s (a_tree a) i prev v rmp (AccRep_ring s a HA) Hi)|].
  rewrite Hrm in Hix. by apply (AccRep_pushed s a i prev v rmp).
Qed.

(** Writing the last leaf of a tree that is not full: the rightmost path keeps the
    old leaf. *)
Lemma write_last_leaf s T i prev v :
  ring_ok s → (i < acc_capacity)%N → Acc.rm_index (Acc.rightmost_proof s) = (i + 1)%N →
  Acc.write_leaf prev v (tproof T Acc.MAX_DEPTH i) i s =
  (Ok (Some (troot (<[i:=v]> T) Acc.MAX_DEPTH)),
   acc_pushed s (troot (<[i:=v]> T) Acc.MAX_DEPTH) (acc_log (<[i:=v]> T) i prev v)
     (Acc.rightmost_proof s)).
Proof.
  intros Hring Hi Hrm. apply write_leaf_run; [done..|]. intros s0 Hs0.
  unfold Acc.update_rightmost. run_method. rewrite Hs0, Hrm.
  rewrite (proj2 (N.ltb_lt _ _)) by lia. rewrite wsub_ok by lia.
  replace (i + 1 - 1)%N with i by lia. rewrite N.eqb_refl. cbn [negb].
  by rewrite <-Hs0; destruct s0.
Qed.

(** A write past the end fails the assertion on the rightmost path. *)
Lemma write_past_end_panics s T i prev v :
  ring_ok s → (i < acc_capacity)%N → (Acc.rm_index (Acc.rightmost_proof s) < i)%N →
  ∃ s', Acc.write_leaf prev v (tproof T Acc.MAX_DEPTH i) i s = (Panic, s').
Proof.
  intros Hring Hi Hrm. pose proof (ring_logs _ Hring) as Hlogs.
  assert (((Acc.active_index s + 1) `mod` Acc.MAX_SIZE)%N < Acc.MAX_SIZE)%N as Hact by (by apply N.mod_lt).
  unfold Acc.write_leaf, Acc.apply_changes. run_method.
  rewrite (increment_active_index_ok s Hring). cbn [Acc.change_logs Acc.active_index].
  set (act := ((Acc.active_index s + 1) `mod` Acc.MAX_SIZE)%N) in *.
  destruct (lookup_lt_is_Some_2 (Acc.change_logs s) (N.to_nat act)) as [cl Hcl]; [lia|].
  rewrite (index_lookup _ _ _ Hcl).
  pose proof (proj1 (Forall_lookup _ _) (ring_paths _ Hring) _ _ Hcl) as Hpath. cbn beta in Hpath.
  assert (Acc.MAX_DEPTH = 14) as HM by done.
  rewrite index_set_lt by (rewrite Hpath; unfold N.to_nat; lia).
  rewrite (apply_loop_tree T) by done. rewrite acc_put_change_log_ok by (simpl; lia).
  unfold Acc.update_rightmost. run_method. cbn [Acc.set_ring Acc.rightmost_proof].
  rewrite (proj2 (N.ltb_ge _ _)), (proj2 (N.eqb_neq _ _)) by lia. by eexists.
Qed.
End lemmas.

Section replay.
Context `{Keccak} `{BuildProfile}.
Implicit Types (s : Acc.MerkleAccumulator) (a : aroll) (T : tree) (i : N) (v : Node).

Lemma slot_as_roll q s m : slot Acc.MAX_SIZE (as_roll q s) m = acc_slot s m.
Proof. done. Qed.

(** ** Replaying a proof *)

(** The change log of a write of the history. *)
Lemma acc_rep_step s a m T i T' i' :
  AccRep s a → a_hist a !! m = Some (T, i) → a_hist a !! S m = Some (T', i') →
  (i < acc_capacity)%N ∧ (∃ v, T = <[i:=v]> T') ∧
  ∃ cl r, Acc.change_logs s !! N.to_nat (acc_slot s m) = Some cl ∧
    Acc.path cl !! 0 = Some (Acc.curr_leaf cl) ∧
    as_log r cl = mk_ChangeLog (troot T Acc.MAX_DEPTH) (tpath T Acc.MAX_DEPTH i) i.
Proof.
  intros [HR _ _ Hleaves _] Hm HSm.
  destruct (rep_step _ _ _ _ HR _ _ _ _ _ Hm HSm) as (x & Hx & Hi & Hv & ->).
  split; [done|]. split; [done|].
  rewrite slot_as_roll in Hx. simpl in Hx.
  apply lookup_zip_with_Some in Hx as (r & cl & Hlog & _ & Hcl). exists cl, r.
  split; [done|]. split; [|done]. by apply (proj1 (Forall_lookup _ _) Hleaves _ _ Hcl).
Qed.

Lemma fast_forward_ok s a i m fuel T0 i0 :
  AccRep s a → (i < acc_capacity)%N → a_hist a !! m = Some (T0, i0) → m < fuel →
  Acc.fast_forward fuel s i (acc_slot s m) (tproof T0 Acc.MAX_DEPTH i) (leaf_at T0 i) =
  Ok (tproof (a_tree a) Acc.MAX_DEPTH i, leaf_at (a_tree a) i).
Proof.
  intros HA Hi. pose proof (ar_rep _ _ HA) as HR. revert fuel T0 i0.
  pose proof (AccRep_facts s a HA) as (Ha & _).
  pose proof (rep_length _ _ _ _ HR) as Hlen.
  pose proof (wf_size _ _ _ (rep_wf _ _ _ _ HR)) as Hsize.
  assert (Acc.MAX_SIZE = 64%N) as HM by done.
  induction m as [|m IH]; intros [|fuel] T0 i0 Hm Hfuel; [lia| |lia|]; simpl.
  { rewrite slot_0, N.eqb_refl by done.
    destruct (a_hist_0 _ _ _ _ HR) as [j Hj]. by simplify_eq. }
  pose proof (lookup_lt_Some _ _ _ Hm).
  assert ((acc_slot s (S m) =? Acc.active_index s)%N = false) as ->.
  { apply N.eqb_neq. change (Acc.active_index s) with (MerkleRoll.active_index (as_roll 0 s)).
    rewrite <-(slot_0 Acc.MAX_SIZE (as_roll 0 s)) by done.
    intros Heq. apply slot_inj in Heq; [done|done|lia|lia]. }
  pose proof (slot_lt _ _ acc_sizes (as_roll 0 s) (S m)). ok_step.
  unfold Acc.MASK. rewrite (slot_next _ _ acc_sizes) by (first [done|lia]).
  destruct (lookup_lt_is_Some_2 (a_hist a) m) as [[T i'] HT]; [lia|].
  destruct (acc_rep_step s a m T i' T0 i0 HA HT Hm) as (Hi' & [v ->] & cl & r & Hcl & Hleaf & Hlog).
  rewrite (index_lookup _ _ _ Hcl). simpl. rewrite (replay_change_update r) by done. rewrite Hlog.
  rewrite update_proof_or_leaf_tree by (first [done|unfold Acc.MAX_DEPTH; lia]). simpl.
  eapply IH; [done|lia].
Qed.

Lemma get_root_ok s a :
  AccRep s a → Acc.get_root s = Ok (troot (a_tree a) Acc.MAX_DEPTH).
Proof.
  intros [HR _ _ _ _]. destruct (a_hist_0 _ _ _ _ HR) as [j Hj].
  destruct (rep_root _ _ _ _ HR _ _ _ Hj) as (cl & Hcl & Hroot).
  rewrite (slot_0 Acc.MAX_SIZE) in Hcl by apply (rep_wf _ _ _ _ HR). simpl in Hcl.
  apply lookup_zip_with_Some in Hcl as (r & acl & -> & Hr & _).
  unfold Acc.get_root. rewrite (index_lookup _ _ _ Hr). by rewrite <-Hroot.
Qed.

(** [update_and_apply_proof] with the proof of the leaf in a tree of the ring. *)
Lemma update_and_apply_ok n s a i v m T0 i0 app :
  AccRep s a → (i < acc_capacity)%N → a_hist a !! m = Some (T0, i0) →
  Acc.update_and_apply_proof_calls (S n) (leaf_at T0 i) v (tproof T0 Acc.MAX_DEPTH i) i
    (acc_slot s m) app s =
  if decide (leaf_at (a_tree a) i = leaf_at T0 i)
  then Acc.write_leaf (leaf_at T0 i) v (tproof (a_tree a) Acc.MAX_DEPTH i) i s
  else if bool_decide (leaf_at T0 i = EMPTY) && app then Acc.append_calls n v s else (Ok None, s).
Proof.
  intros HA Hi Hm. pose proof (ar_rep _ _ HA) as HR.
  pose proof (rep_length _ _ _ _ HR) as Hlen.
  pose proof (wf_size _ _ _ (rep_wf _ _ _ _ HR)) as Hsize. pose proof (lookup_lt_Some _ _ _ Hm).
  cbn [Acc.update_and_apply_proof_calls]. run_method.
  rewrite (fast_forward_ok s a i m _ T0 i0) by (first [done|lia]).
  rewrite acc_recompute by (by rewrite length_tproof).
  rewrite (get_root_ok s a HA).
  rewrite hash_path_tproof, bool_decide_true by done. cbn [rust_assert].
  destruct (decide (leaf_at (a_tree a) i = leaf_at T0 i)) as [Heq|Hne].
  - by rewrite decide_False by (by intros []).
  - rewrite decide_True by done. by destruct (bool_decide _ && app).
Qed.

(** ** Appending *)

(** The locals of the loops, as those of the loop of the library. *)
Definition locals_of (x : append_state) : list Node * Node * Node * list Node :=
  (ap_change_list x, ap_node x, ap_intersection_node x, ap_proof x).

Section loops.
Context (T : tree) (R : N) (t : nat) (v : Node).
Context (HR0 : R ≠ 0%N) (HR : (R < acc_capacity)%N) (Ht : trailing_zeros 32 R = N.of_nat t).
Context (Hempty : ∀ i, (R ≤ i)%N → leaf_at T i = EMPTY).
Abbreviation at_step := (loop_state Acc.MAX_DEPTH T R t v).

(** The loops of the prototype take the steps of the loop of the library. *)
Lemma append_loop_step k :
  k < Acc.MAX_DEPTH →
  (if decide (k < t) then Acc.append_below R (locals_of (at_step k)) k
   else if decide (k = t) then Acc.append_at k (locals_of (at_step k))
   else Acc.append_above R (locals_of (at_step k)) k) = Ok (locals_of (at_step (S k))).
Proof.
  intros Hk. assert (Acc.MAX_DEPTH = 14) as HM by done.
  pose proof (append_step_ok _ _ acc_sizes T R t v HR0 HR Ht Hempty k Hk) as Hstep.
  rewrite Ht, Nat2N.id in Hstep.
  assert (length (ap_change_list (at_step k)) = 14 ∧ length (ap_proof (at_step k)) = 14) as [Hcl Hpr].
  { unfold loop_state. cbn [ap_change_list ap_proof]. by rewrite !length_upto. }
  destruct (at_step k) as [cl node inter pr]. cbn [ap_change_list ap_proof] in Hcl, Hpr.
  revert Hstep. generalize (at_step (S k)) as next. intros next Hstep.
  unfold append_step in Hstep. rewrite (index_set_lt cl) in Hstep by lia.
  cbn [mbind outcome_bind] in Hstep.
  unfold locals_of at 1 2 3. cbn [ap_change_list ap_node ap_intersection_node ap_proof].
  destruct (lookup_lt_is_Some_2 pr k) as [p Hp]; [lia|]. rewrite <-(Nat2N.id k) in Hp.
  destruct (decide (k < t)) as [Hkt|Hkt]; [|destruct (decide (k = t)) as [Heq|Hne]].
  - unfold Acc.append_below. do 3 ok_step. rewrite (index_lookup _ _ _ Hp).
    rewrite (index_lookup _ _ _ Hp) in Hstep. cbn [mbind outcome_bind] in Hstep |- *.
    rewrite (wsub_ok 32) in Hstep by lia. cbn [mbind outcome_bind] in Hstep.
    rewrite (wshr_ok 32) in Hstep by lia. cbn [mbind outcome_bind] in Hstep.
    rewrite index_set_lt in Hstep by lia. ok_step.
    cbn [mbind outcome_bind] in Hstep. injection Hstep as <-. unfold locals_of.
    cbn [ap_change_list ap_node ap_intersection_node ap_proof].
    rewrite land_1_testbit, land_1_testbit_1, acc_empty_node.
    rewrite (empty_node_cached_replicate k 14 : empty_node_cached k _ = _).
    unfold hash_to_parent. by destruct (N.testbit _ _).
  - unfold Acc.append_at. do 2 ok_step. subst t. rewrite index_set_lt in Hstep by lia.
    cbn [mbind outcome_bind] in Hstep. by injection Hstep as <-.
  - unfold Acc.append_above. do 2 ok_step. rewrite (index_lookup _ _ _ Hp).
    rewrite (index_lookup _ _ _ Hp) in Hstep. cbn [mbind outcome_bind] in Hstep |- *.
    rewrite (wsub_ok 32) in Hstep by lia. cbn [mbind outcome_bind] in Hstep.
    rewrite (wshr_ok 32) in Hstep by lia. cbn [mbind outcome_bind] in Hstep.
    injection Hstep as <-. unfold locals_of.
    cbn [ap_change_list ap_node ap_intersection_node ap_proof].
    rewrite land_1_testbit, land_1_testbit_1, (trailing_testbit_above R t HR0 Ht) by lia.
    unfold hash_to_parent. by destruct (N.testbit _ _).
Qed.

Lemma append_below_loop k n :
  k + n = t → foldM (Acc.append_below R) (locals_of (at_step k)) (seq k n) = Ok (locals_of (at_step t)).
Proof.
  pose proof (trailing_lt R t HR0 Ht _ HR) as Htd.
  revert k. induction n as [|n IH]; intros k Hk; cbn [seq foldM]; [by replace k with t by lia|].
  pose proof (append_loop_step k ltac:(lia)) as Hstep. rewrite decide_True in Hstep by lia.
  rewrite Hstep. cbn [mbind outcome_bind]. apply IH. lia.
Qed.

Lemma append_above_loop k n :
  t < k → k + n = Acc.MAX_DEPTH →
  foldM (Acc.append_above R) (locals_of (at_step k)) (seq k n) = Ok (locals_of (at_step Acc.MAX_DEPTH)).
Proof.
  intros Htk. revert k Htk. induction n as [|n IH]; intros k Htk Hk; cbn [seq foldM].
  { by replace k with Acc.MAX_DEPTH by lia. }
  pose proof (append_loop_step k ltac:(lia)) as Hstep.
  rewrite decide_False, decide_False in Hstep by lia.
  rewrite Hstep. cbn [mbind outcome_bind]. apply IH; lia.
Qed.
End loops.

(** [append_path], when the rightmost path is that of the last leaf of a tree [T]:
    it writes the next leaf of [T]. *)
Lemma append_path_run s T v :
  ring_ok s → let rmp := Acc.rightmost_proof s in let R := Acc.rm_index rmp in
  R ≠ 0%N → (R < acc_capacity)%N → rightmost_ok Acc.MAX_DEPTH (as_path rmp) T →
  Acc.append_path v s =
  (Ok (Some (troot (<[R:=v]> T) Acc.MAX_DEPTH)),
   acc_pushed s (troot (<[R:=v]> T) Acc.MAX_DEPTH) (acc_log (<[R:=v]> T) R EMPTY v)
     (Acc.mk_Path (tproof (<[R:=v]> T) Acc.MAX_DEPTH R) v (R + 1)%N)).
Proof.
  intros Hring rmp R HR0 HR [Hempty Hlast]. cbn [as_path rm_index leaf proof] in Hempty, Hlast.
  fold rmp R in Hempty, Hlast. destruct (Hlast HR) as [Hleaf Hproof].
  pose proof (ring_roots _ Hring) as Hroots. pose proof (ring_logs _ Hring) as Hlogs.
  assert (((Acc.active_index s + 1) `mod` Acc.MAX_SIZE)%N < Acc.MAX_SIZE)%N as Hact by (by apply N.mod_lt).
  assert (acc_capacity < 2 ^ 32 - 1)%N by done.
  assert (∃ t, trailing_zeros 32 R = N.of_nat t) as [t Ht] by (eexists; symmetry; apply N2Nat.id).
  pose proof (trailing_lt R t HR0 Ht _ HR) as Htd.
  unfold Acc.append_path. run_method. fold rmp R. rewrite Hleaf, Hproof, Ht, Nat2N.id.
  pose proof (loop_state_0 Acc.MAX_DEPTH T R t v) as Hstart.
  assert (locals_of (loop_state Acc.MAX_DEPTH T R t v 0) =
    (replicate Acc.MAX_DEPTH EMPTY, v, leaf_at T (R - 1), tproof T Acc.MAX_DEPTH (R - 1))) as <-
    by (by rewrite Hstart).
  rewrite (append_below_loop T R t v HR0 HR Ht Hempty) by lia.
  pose proof (append_loop_step T R t v HR0 HR Ht Hempty t Htd) as Hat.
  rewrite decide_False, decide_True in Hat by lia. rewrite Hat.
  rewrite (append_above_loop T R t v HR0 HR Ht Hempty) by lia.
  destruct (loop_state_end Acc.MAX_DEPTH T R t v HR) as (Hcl & Hnode & Hpr).
  unfold locals_of. rewrite Hcl, Hnode, Hpr. rewrite increment_active_index_ok.
  2: { destruct Hring. by split. }
  rewrite put_root_ok by (simpl; lia). rewrite acc_put_change_log_ok by (simpl; lia).
  by rewrite wadd_ok by lia.
Qed.
End replay.
