(* ===== verification/AccumulatorTheorems.v ===== *)
(** * The prototype of the concurrent tree is correct, except for its last leaf

    Each operation of [Accumulator] makes the write that the history of trees
    prescribes, or returns [None] and changes nothing; it agrees with the library
    that succeeded it.  One write is wrong: overwriting the last leaf of a tree
    leaves the old leaf in the rightmost path, and the next append undoes it. *)

From S2P Require Import Prelude Hashing MerkleSpec ChangeLog MerkleRoll MerkleRollSpec.
From S2P Require Import MerkleRollLemmas MerkleRollWrite MerkleRollAppend MerkleRollInit.
From S2P Require Import MerkleRollTheorems MerkleRollTrace.
From S2P Require Import Accumulator AccumulatorLemmas.

(** ** Operations and what they write *)
Inductive acc_op :=
  | AccAppend (v : Node)
  | AccFill (r v : Node) (p : list Node) (i : N)
  | AccSetLeaf (r prev new : Node) (p : list Node) (i : N)
  | AccSetToEmpty (r prev : Node) (p : list Node) (i : N).

Section spec.
Context `{Keccak} `{BuildProfile}.
Implicit Types (s : Acc.MerkleAccumulator) (a : aroll) (o : acc_op).

Definition run_acc_op o : Acc.acc_method (option Node) :=
  match o with
  | AccAppend v => Acc.append v
  | AccFill r v p i => Acc.fill_empty_or_append r v p i
  | AccSetLeaf r prev new p i => Acc.set_leaf r prev new p i
  | AccSetToEmpty r prev p i => Acc.set_leaf_to_empty r prev p i
  end.

(** The write of an append, and of a change of leaf [i] from [prev] to [new] whose
    proof is for the root [r]; [conflict] is what happens when the leaf is past the
    end or has changed since. *)
Definition append_write a (v : Node) : option (N * Node) :=
  if decide (v = EMPTY ∨ (acc_capacity ≤ a_count a)%N) then None else Some (a_count a, v).

Definition proved_write a (r prev new : Node) (p : list Node) (i : N)
    (conflict : option (N * Node)) : option (N * Node) :=
  match find_root Acc.MAX_DEPTH a r with
  | None => None
  | Some _ =>
      if decide (hash_path 0 prev p i = r) then
        if decide ((i ≤ a_count a)%N ∧ leaf_at (a_tree a) i = prev) then Some (i, new) else conflict
      else None
  end.

Definition acc_write a o : option (N * Node) :=
  match o with
  | AccAppend v => append_write a v
  | AccFill r v p i => proved_write a r EMPTY v p i (append_write a v)
  | AccSetLeaf r prev new p i => proved_write a r prev new p i None
  | AccSetToEmpty r prev p i => proved_write a r prev EMPTY p i None
  end.

(** A proof for the root [r] yields no collision against the tree of that root. *)
Definition sound_proof a (r prev : Node) (p : list Node) (i : N) : Prop :=
  length p = Acc.MAX_DEPTH ∧ (i < acc_capacity)%N ∧
  ∀ m T i0, find_root Acc.MAX_DEPTH a r = Some (m, (T, i0)) → find_collision T 0 prev p i = None.

(** Not the last leaf, unless the tree is full. *)
Definition not_last a (i : N) : Prop := (i + 1 = a_count a → a_count a = acc_capacity)%N.

(** What a call must satisfy for the prototype to behave: its index is that of a leaf
    and its proof of full length and no collision; it does not overwrite the last leaf
    unless the tree is full; [set_leaf] does not go past the end. *)
Definition acc_ready a o : Prop :=
  match o with
  | AccAppend v => True
  | AccFill r v p i => sound_proof a r EMPTY p i ∧ not_last a i
  | AccSetLeaf r prev new p i => sound_proof a r prev p i ∧ not_last a i ∧ (i ≤ a_count a)%N
  | AccSetToEmpty r prev p i => sound_proof a r prev p i ∧ not_last a i
  end.

(** The method makes the write [w], or returns [None] and changes nothing. *)
Definition performs (m : Acc.acc_method (option Node)) s a (w : option (N * Node)) : Prop :=
  match w with
  | Some (i, v) => ∃ s', m s = (Ok (Some (troot (<[i:=v]> (a_tree a)) Acc.MAX_DEPTH)), s') ∧
      AccRep s' (a_write Acc.MAX_SIZE a i v)
  | None => m s = (Ok None, s)
  end.
End spec.

Section operations.
Context `{Keccak} `{BuildProfile}.
Implicit Types (s : Acc.MerkleAccumulator) (a : aroll) (o : acc_op) (i : N) (v : Node) (T : tree).

Lemma acc_capacity_ok : wshl (E:=Empty_set) 32 1 (N.of_nat Acc.MAX_DEPTH) = Ok acc_capacity.
Proof. done. Qed.

Lemma append_calls_S n v :
  Acc.append_calls (S n) v =
  (if decide (v = EMPTY) then mret None else
   self ← get;
   capacity ← lift (wshl 32 1 (N.of_nat Acc.MAX_DEPTH));
   if (capacity <=? Acc.rm_index (Acc.rightmost_proof self))%N then mret None
   else if (Acc.rm_index (Acc.rightmost_proof self) =? 0)%N
   then Acc.initialize_tree_calls n v (Acc.proof (Acc.rightmost_proof self))
   else Acc.append_path v).
Proof. done. Qed.

Lemma initialize_tree_calls_S n v p :
  Acc.initialize_tree_calls (S n) v p =
  (old_root ← lift (Acc.recompute EMPTY p 0);
   if decide (old_root = Acc.empty_node Acc.MAX_DEPTH)
   then Acc.update_and_apply_proof_calls n EMPTY v p 0 0 false
   else mret None).
Proof. done. Qed.

Lemma append_calls_ok n s a v :
  AccRep s a → performs (Acc.append_calls (S (S (S n))) v) s a (append_write a v).
Proof.
  intros HA. destruct (AccRep_facts s a HA) as (Ha & Hrm & Hlen & Hcap & Hrmp).
  unfold append_write. rewrite append_calls_S.
  destruct (decide (v = EMPTY)) as [Hv|Hv]; [by rewrite decide_True by (by left)|].
  destruct (decide (acc_capacity ≤ a_count a)%N) as [Hfull|Hfull].
  { rewrite decide_True by (by right). unfold performs. run_method. rewrite acc_capacity_ok, Hrm.
    by rewrite (proj2 (N.leb_le _ _) Hfull). }
  rewrite decide_False by tauto. unfold performs. run_method. rewrite acc_capacity_ok, Hrm.
  rewrite (proj2 (N.leb_gt _ _)) by lia.
  destruct (N.eqb_spec (a_count a) 0) as [Hz|Hz].
  - destruct Hrmp as [Hempty Hlast]. cbn [as_path rm_index proof leaf] in Hempty, Hlast.
    rewrite Hrm, Hz in Hempty, Hlast. assert (0 < acc_capacity)%N as Hpos by done.
    destruct (Hlast Hpos) as [_ ->].
    rewrite initialize_tree_calls_S. run_method. change (0 - 1)%N with 0%N.
    rewrite acc_recompute by (by rewrite length_tproof).
    pose proof (Hempty 0%N ltac:(lia)) as He0. rewrite <-He0.
    rewrite hash_path_tproof by done. rewrite decide_True.
    2: { rewrite acc_empty_node. apply tnode_empty. intros i _. apply Hempty. lia. }
    assert (acc_slot s 0 = 0%N) as Hslot by (rewrite slot_0 by done; by apply (ar_start _ _ HA)).
    destruct (a_hist_0 _ _ _ _ (ar_rep _ _ HA)) as [i0 Hi0].
    pose proof (update_and_apply_ok n s a 0 v 0 (a_tree a) i0 false HA Hpos Hi0) as Hupd.
    rewrite Hslot in Hupd. rewrite Hupd.
    rewrite decide_True by done. rewrite Hz. apply write_leaf_ok; [done|done|lia|lia].
  - rewrite <-Hrm in Hz, Hfull. rewrite (append_path_run s (a_tree a) v);
      [|by eapply AccRep_ring|done|lia|done].
    rewrite Hrm in *. eexists. split; [done|]. apply AccRep_pushed; [done|lia|..]; cbn [Acc.proof Acc.rm_index].
    + apply length_tproof.
    + lia.
    + split; cbn [as_path rm_index leaf proof Acc.proof Acc.leaf Acc.rm_index].
      * intros j Hj. rewrite leaf_at_insert_ne by lia. destruct Hrmp as [Hempty _]. apply Hempty.
        cbn [as_path rm_index]. rewrite Hrm. lia.
      * intros _. replace (a_count a + 1 - 1)%N with (a_count a) by lia. by rewrite leaf_at_insert.
Qed.

(** Overwriting the last leaf, then appending: the append starts from the old leaf. *)
Lemma append_stale_last s T v i prev w :
  ring_ok s → Acc.rm_index (Acc.rightmost_proof s) = (i + 1)%N → (i + 1 < acc_capacity)%N →
  rightmost_ok Acc.MAX_DEPTH (as_path (Acc.rightmost_proof s)) T → w ≠ EMPTY →
  ∃ s1 s2, Acc.write_leaf prev v (tproof T Acc.MAX_DEPTH i) i s =
      (Ok (Some (troot (<[i:=v]> T) Acc.MAX_DEPTH)), s1) ∧
    Acc.append w s1 = (Ok (Some (troot (<[(i + 1)%N:=w]> T) Acc.MAX_DEPTH)), s2).
Proof.
  intros Hring Hrm Hi Hok Hw. eexists _, _. split; [apply write_last_leaf; [done|lia|done]|].
  unfold Acc.append, Acc.CALL_DEPTH. rewrite append_calls_S. rewrite decide_False by done.
  run_method. rewrite acc_capacity_ok. unfold acc_pushed at 1 2 3. cbn [Acc.rightmost_proof].
  rewrite Hrm, (proj2 (N.leb_gt _ _)), (proj2 (N.eqb_neq _ _)) by lia.
  rewrite (append_path_run _ T w); cbn [acc_pushed Acc.rightmost_proof]; rewrite ?Hrm; [done|..];
    [|lia|done|done].
  apply ring_ok_pushed; [done|]. apply length_tpath.
Qed.

(** The loop of [_find_and_update_leaf] stops at the newest tree with the root. *)
Lemma find_and_update_ok s a r prev new p i app :
  AccRep s a → length p = Acc.MAX_DEPTH →
  Acc._find_and_update_leaf r prev new p i app s =
  match find_root Acc.MAX_DEPTH a r with
  | None => (Ok None, s)
  | Some (m, _) =>
      if bool_decide (hash_path 0 prev p i = r) && (a_count a <? i)%N && app then Acc.append new s
      else if decide (hash_path 0 prev p i = r)
      then Acc.update_and_apply_proof prev new p i (acc_slot s m) app s else (Ok None, s)
  end.
Proof.
  intros HA Hp. pose proof (ar_rep _ _ HA) as HR. destruct (AccRep_facts s a HA) as (Ha & Hrm & _).
  pose proof (rep_length _ _ _ _ HR) as Hlen. pose proof (wf_size _ _ _ (rep_wf _ _ _ _ HR)) as Hsize.
  assert (∀ n m, m + n = length (a_hist a) →
    Acc.find_and_update_loop r prev new p i app (N.of_nat <$> seq m n) s =
    match list_find (λ q : tree * N, troot q.1 Acc.MAX_DEPTH = r) (drop m (a_hist a)) with
    | None => (Ok None, s)
    | Some (k, _) =>
        if bool_decide (hash_path 0 prev p i = r) && (a_count a <? i)%N && app then Acc.append new s
        else if decide (hash_path 0 prev p i = r)
        then Acc.update_and_apply_proof prev new p i (acc_slot s (m + k)) app s else (Ok None, s)
    end) as Hloop.
  { induction n as [|n IH]; intros m Hm; simpl; [by rewrite drop_ge by lia|].
    destruct (lookup_lt_is_Some_2 (a_hist a) m) as [[T j] HT]; [lia|].
    destruct (rep_root _ _ _ _ HR _ _ _ HT) as (cl & Hcl & Hroot).
    rewrite slot_as_roll in Hcl. simpl in Hcl.
    apply lookup_zip_with_Some in Hcl as (r0 & acl & -> & Hr0 & _). simpl in Hroot. subst r0.
    run_method. unfold Acc.MASK. change (Acc.active_index s) with (MerkleRoll.active_index (as_roll 0 s)).
    rewrite (slot_wrapping _ _ acc_sizes) by (first [done|simpl in *; lia]).
    rewrite (index_lookup _ _ _ Hr0). rewrite (drop_S _ _ _ HT). simpl.
    destruct (decide (troot T Acc.MAX_DEPTH = r)) as [Hr|Hr].
    - rewrite decide_False by (by intros []). rewrite acc_recompute by done. rewrite Hrm, Nat.add_0_r.
      destruct (bool_decide _ && _ && app); [done|]. by case_decide.
    - rewrite decide_True by done. rewrite IH by lia.
      destruct (list_find _ _) as [[k q]|]; simpl; [|done].
      by rewrite Nat.add_succ_r. }
  unfold Acc._find_and_update_leaf. run_method. unfold find_root.
  rewrite (Hloop (N.to_nat (Acc.buffer_size s)) 0) by (by rewrite Hlen). by rewrite drop_0.
Qed.

(** Changing a leaf through a proof of any tree of the ring. *)
Lemma proved_write_ok s a r prev new p i app :
  AccRep s a → sound_proof a r prev p i → not_last a i →
  (app = true → prev = EMPTY) → (app = false → (i ≤ a_count a)%N) →
  performs (Acc._find_and_update_leaf r prev new p i app) s a
    (proved_write a r prev new p i (if app then append_write a new else None)).
Proof.
  intros HA (Hp & Hi & Hsound) Hlast Happ Hnoapp. unfold proved_write, performs.
  rewrite (find_and_update_ok s a) by done.
  destruct (find_root Acc.MAX_DEPTH a r) as [[m [T0 i0]]|] eqn:Hfind; [|done].
  destruct (decide (hash_path 0 prev p i = r)) as [Hpath|Hpath]; [|by rewrite bool_decide_false by done].
  rewrite bool_decide_true by done. cbn [andb].
  destruct (find_root_Some _ _ _ _ _ _ Hfind) as [Hm Hroot].
  destruct (verified_proof T0 Acc.MAX_DEPTH prev p i) as [Hprev Hproof]; [done|done|by rewrite Hroot|eauto|].
  subst prev p. pose proof (append_calls_ok 0 s a new HA) as Hfresh.
  destruct (a_count a <? i)%N eqn:Hlt.
  { apply N.ltb_lt in Hlt. destruct app; [|specialize (Hnoapp eq_refl); lia]. cbn [andb].
    rewrite decide_False by (intros [? _]; lia). apply (append_calls_ok 1 s a new HA). }
  apply N.ltb_ge in Hlt. cbn [andb]. unfold Acc.update_and_apply_proof, Acc.CALL_DEPTH.
  rewrite (update_and_apply_ok 3 s a i new m T0 i0 app) by done.
  destruct (decide (leaf_at (a_tree a) i = leaf_at T0 i)) as [Hleaf|Hleaf].
  - rewrite decide_True by done. by apply write_leaf_ok.
  - rewrite decide_False by (by intros [_ ?]). destruct app; last by rewrite andb_false_r.
    by rewrite bool_decide_true by (by apply Happ).
Qed.

Lemma set_last_then_append s a v w :
  AccRep s a → (0 < a_count a < acc_capacity)%N → w ≠ EMPTY →
  let T := a_tree a in let i := (a_count a - 1)%N in
  ∃ s1 s2, Acc.set_leaf (troot T Acc.MAX_DEPTH) (leaf_at T i) v (tproof T Acc.MAX_DEPTH i) i s =
      (Ok (Some (troot (<[i:=v]> T) Acc.MAX_DEPTH)), s1) ∧
    Acc.append w s1 = (Ok (Some (troot (<[a_count a:=w]> T) Acc.MAX_DEPTH)), s2).
Proof.
  intros HA Hcount Hw T i. destruct (AccRep_facts s a HA) as (_ & Hrm & _ & _ & Hrmp).
  destruct (a_hist_0 _ _ _ _ (ar_rep _ _ HA)) as [i0 Hi0].
  unfold Acc.set_leaf. rewrite (find_and_update_ok s a) by (first [done|by rewrite length_tproof]).
  unfold T, i. rewrite (find_root_head Acc.MAX_DEPTH a _ _ Hi0), hash_path_tproof by lia.
  rewrite andb_false_r, decide_True by done. unfold Acc.update_and_apply_proof, Acc.CALL_DEPTH.
  rewrite (update_and_apply_ok 3 s a (a_count a - 1) v 0 (a_tree a) i0 false) by (first [done|lia]).
  rewrite decide_True by done.
  pose proof (append_stale_last s (a_tree a) v (a_count a - 1)
    (leaf_at (a_tree a) (a_count a - 1)) w) as Hgo.
  replace (a_count a - 1 + 1)%N with (a_count a) in Hgo by lia.
  apply Hgo; [by eapply AccRep_ring|done|lia|done|done].
Qed.

Lemma acc_op_ok s a o : AccRep s a → acc_ready a o → performs (run_acc_op o) s a (acc_write a o).
Proof.
  intros HA Hready. destruct o as [v|r v p i|r prev new p i|r prev p i]; cbn [run_acc_op acc_write].
  - apply (append_calls_ok 1 s a v HA).
  - destruct Hready as [Hsound Hlast]. by apply (proved_write_ok s a r EMPTY v p i true).
  - destruct Hready as (Hsound & Hlast & Hle). by apply (proved_write_ok s a r prev new p i false).
  - destruct Hready as [Hsound Hlast]. unfold Acc.set_leaf_to_empty, performs. run_method.
    destruct (AccRep_facts s a HA) as (_ & Hrm & _). rewrite Hrm.
    destruct (a_count a <? i)%N eqn:Hlt.
    + apply N.ltb_lt in Hlt. unfold proved_write. destruct (find_root _ _ _); [|done].
      case_decide; [|done]. by rewrite decide_False by (intros [? _]; lia).
    + apply N.ltb_ge in Hlt. by apply (proved_write_ok s a r prev EMPTY p i false).
Qed.
End operations.

(** ** Histories *)
Section histories.
Context `{Keccak} `{BuildProfile}.
Implicit Types (s : Acc.MerkleAccumulator) (a : aroll) (o : acc_op) (os : list acc_op).

(** The tree after an operation, and the root that it publishes. *)
Definition acc_after a o : aroll :=
  match acc_write a o with Some (i, v) => a_write Acc.MAX_SIZE a i v | None => a end.

Definition acc_result a o : option Node :=
  (λ '(i, v), troot (<[i:=v]> (a_tree a)) Acc.MAX_DEPTH) <$> acc_write a o.

Fixpoint acc_results a os : list (option Node) :=
  match os with
  | [] => []
  | o :: os => acc_result a o :: acc_results (acc_after a o) os
  end.

Definition acc_history a os : aroll := foldl acc_after a os.

(** Each call is ready at the tree it meets: see [acc_ready] for what that excludes,
    the overwriting of the last leaf and [set_leaf] past the end among it. *)
Fixpoint all_ready a os : Prop :=
  match os with
  | [] => True
  | o :: os => acc_ready a o ∧ all_ready (acc_after a o) os
  end.

Lemma acc_op_step s a o :
  AccRep s a → acc_ready a o →
  ∃ s', run_acc_op o s = (Ok (acc_result a o), s') ∧ AccRep s' (acc_after a o).
Proof.
  intros HA Hready. pose proof (acc_op_ok s a o HA Hready) as Hop.
  unfold performs, acc_result, acc_after in *. destruct (acc_write a o) as [[i v]|]; simpl; eauto.
Qed.

Lemma acc_run_ok s a os :
  AccRep s a → all_ready a os →
  ∃ s', run_all run_acc_op os s = (Ok (acc_results a os), s') ∧ AccRep s' (acc_history a os).
Proof.
  revert s a. induction os as [|o os IH]; intros s a HA Hready; [by exists s|].
  destruct Hready as [Ho Hready]. destruct (acc_op_step s a o HA Ho) as (s1 & Hrun & HA1).
  destruct (IH s1 _ HA1 Hready) as (s2 & Hruns & HA2). exists s2. split; [|done].
  cbn [run_all acc_results]. run_method. rewrite Hrun. by rewrite Hruns.
Qed.
End histories.

(** ** The library that succeeded the prototype *)
Section agreement.
Context `{Keccak} `{BuildProfile}.
Implicit Types (s : Acc.MerkleAccumulator) (t : MerkleRoll) (a : aroll) (o : acc_op) (i : N).
Abbreviation d := Acc.MAX_DEPTH.
Abbreviation B := Acc.MAX_SIZE.

Definition as_library (o : acc_op) : op :=
  match o with
  | AccAppend v => Append v
  | AccFill r v p i => FillEmptyOrAppend r v p i
  | AccSetLeaf r prev new p i => SetLeaf r prev new p i
  | AccSetToEmpty r prev p i => SetLeaf r prev EMPTY p i
  end.

(** The library does not append a fill past the end, it panics. *)
Definition in_bounds a o : Prop :=
  match o with AccFill r v p i => (i ≤ a_count a)%N | _ => True end.

Fixpoint all_in_bounds a (os : list acc_op) : Prop :=
  match os with
  | [] => True
  | o :: os => in_bounds a o ∧ all_in_bounds (acc_after a o) os
  end.

Lemma fill_full p : length p = d → fill_in_proof (E:=CMTError) d p (replicate d EMPTY) = Ok p.
Proof.
  intros Hp. apply fill_truncated. split; [lia|]. by rewrite Hp, Nat.sub_diag, app_nil_r.
Qed.

(** The library on a proof that the prototype accepts. *)
Lemma library_try_apply t a r prev new p i allow :
  Rep d B t a → sound_proof a r prev p i → (i ≤ a_count a)%N → find_root d a r ≠ None →
  hash_path 0 prev p i = r →
  if decide (leaf_at (a_tree a) i = prev)
  then ∃ t', try_apply_proof d B r prev new p i allow t =
         (Ok (troot (<[i:=new]> (a_tree a)) d), t') ∧ Rep d B t' (a_write B a i new)
  else try_apply_proof d B r prev new p i allow t = (Err LeafContentsModified, t).
Proof.
  intros HR (Hp & Hi & Hsound) Hle Hfound Hpath.
  destruct (find_root d a r) as [[m [T0 i0]]|] eqn:Hfind; [|done].
  destruct (find_root_Some _ _ _ _ _ _ Hfind) as [Hm Hroot].
  destruct (verified_proof T0 d prev p i) as [-> ->]; [done|done|by rewrite Hroot|eauto|].
  apply (try_apply_replay d B acc_sizes t a r i new allow m T0 i0);
    [done|done|done|done|apply mixed_tproof|by left].
Qed.

Lemma library_append t a v i w :
  Rep d B t a → append_write a v = Some (i, w) →
  ∃ t', append d B v t = (Ok (troot (<[i:=w]> (a_tree a)) d), t') ∧ Rep d B t' (a_write B a i w).
Proof.
  intros HR. unfold append_write. case_decide as Hd; [done|]. intros [= <- <-].
  apply (append_ok d B acc_sizes); [done|tauto|lia].
Qed.

Lemma library_op t a o i v :
  Rep d B t a → acc_ready a o → in_bounds a o → acc_write a o = Some (i, v) →
  ∃ t', run_op d B (as_library o) t = (Ok (troot (<[i:=v]> (a_tree a)) d), t') ∧
    Rep d B t' (a_write B a i v).
Proof.
  intros HR Hready Hin Hw.
  assert (∀ r prev new p j conflict, proved_write a r prev new p j conflict = Some (i, v) →
    find_root d a r ≠ None ∧ hash_path 0 prev p j = r ∧
    ((i, v) = (j, new) ∧ (j ≤ a_count a)%N ∧ leaf_at (a_tree a) j = prev ∨
     ¬ ((j ≤ a_count a)%N ∧ leaf_at (a_tree a) j = prev) ∧ conflict = Some (i, v))) as Hproved.
  { intros r prev new p j conflict. unfold proved_write. destruct (find_root d a r); [|done].
    case_decide; [|done]. case_decide; intros Heq; (split; [done|]); (split; [done|]);
      [left; naive_solver|by right]. }
  assert (∀ r prev new p j, sound_proof a r prev p j →
    proved_write a r prev new p j None = Some (i, v) →
    ∃ t', set_leaf d B r prev new p j t = (Ok (troot (<[i:=v]> (a_tree a)) d), t') ∧
      Rep d B t' (a_write B a i v)) as Hset.
  { intros r prev new p j Hsound (Hfound & Hpath & [([= <- <-] & Hle & Hleaf)|[_ ?]])%Hproved; [|done].
    pose proof (library_try_apply t a r prev v p i true HR Hsound Hle Hfound Hpath) as Htry.
    rewrite decide_True in Htry by done.
    unfold set_leaf. run_method. rewrite (check_bounds_ok d B acc_sizes). cbn beta iota.
    rewrite (rep_count _ _ _ _ HR), (proj2 (N.ltb_ge _ _) Hle). rewrite fill_full by apply Hsound.
    done. }
  destruct o as [w|r w p j|r prev new p j|r prev p j]; cbn [as_library run_op acc_write] in *.
  - by apply library_append.
  - destruct (Hproved _ _ _ _ _ _ Hw) as (Hfound & Hpath & Hcase). destruct Hready as [Hsound _].
    pose proof (library_try_apply t a r EMPTY w p j false HR Hsound Hin Hfound Hpath) as Htry.
    unfold fill_empty_or_append, or_else. run_method. rewrite (check_bounds_ok d B acc_sizes).
    cbn beta iota. rewrite fill_full by apply Hsound. cbn beta iota.
    destruct Hcase as [([= <- <-] & _ & Hleaf)|[Hne Happ]].
    + rewrite decide_True in Htry by done. destruct Htry as (t' & -> & HR'). by exists t'.
    + rewrite decide_False in Htry by tauto. rewrite Htry. by apply library_append.
  - apply (Hset r prev new p j); [apply Hready|done].
  - apply (Hset r prev EMPTY p j); [apply Hready|done].
Qed.

Lemma library_run t a os roots :
  Rep d B t a → all_ready a os → all_in_bounds a os → acc_results a os = Some <$> roots →
  ∃ t', run_all (λ o, run_op d B (as_library o)) os t = (Ok roots, t') ∧
    Rep d B t' (acc_history a os).
Proof.
  revert t a roots. induction os as [|o os IH]; intros t a roots HR Hready Hin Hres; simpl in *.
  { destruct roots; [|done]. by exists t. }
  destruct roots as [|r roots]; [done|]. simpl in Hres. injection Hres as Hr Hres.
  destruct Hready as [Ho Hready], Hin as [Hb Hin].
  unfold acc_result in Hr. destruct (acc_write a o) as [[i v]|] eqn:Hw; [|done]. injection Hr as <-.
  destruct (library_op t a o i v HR Ho Hb Hw) as (t1 & Hrun & HR1).
  assert (acc_after a o = a_write B a i v) as Hafter by (unfold acc_after; by rewrite Hw).
  rewrite Hafter in *. destruct (IH t1 _ roots HR1 Hready Hin Hres) as (t2 & Hruns & HR2).
  exists t2. split; [|done]. run_method. rewrite Hrun. by rewrite Hruns.
Qed.
End agreement.

(** ** Starting *)
Section start.
Context `{Keccak} `{BuildProfile}.

Lemma as_roll_blank rs q rmp :
  length rs = N.to_nat Acc.MAX_SIZE →
  blank Acc.MAX_DEPTH Acc.MAX_SIZE (as_roll q (Acc.mk_MerkleAccumulator rs
    (replicate (N.to_nat Acc.MAX_SIZE) Acc.ChangeLog_default) 0 1 rmp)).
Proof.
  intros Hrs. unfold as_roll. split; cbn [MerkleRoll.change_logs Acc.roots Acc.change_logs].
  - rewrite length_zip_with, Hrs, length_replicate. lia.
  - apply Forall_lookup. intros k cl (r & acl & -> & _ & Hacl)%lookup_zip_with_Some.
    apply lookup_replicate in Hacl as [-> _]. done.
Qed.

(** The state before any write: the tree [T] of the given root and last leaf. *)
Lemma AccRep_start r rs T i rmp count q :
  length rs = N.to_nat Acc.MAX_SIZE → rs !! 0 = Some r → r = troot T Acc.MAX_DEPTH →
  length (Acc.proof rmp) = Acc.MAX_DEPTH → Acc.rm_index rmp = count → (count ≤ acc_capacity)%N →
  rightmost_ok Acc.MAX_DEPTH (as_path rmp) T →
  AccRep (Acc.mk_MerkleAccumulator rs (replicate (N.to_nat Acc.MAX_SIZE) Acc.ChangeLog_default) 0 1 rmp)
    (a_start T i count q).
Proof.
  intros Hrs Hr -> Hp Hcount Hcap Hrmp.
  split; cbn [Acc.change_logs Acc.roots]; [|done|by rewrite length_replicate| |done].
  - pose proof (Rep_start _ _ acc_sizes _ (as_log (troot T Acc.MAX_DEPTH) Acc.ChangeLog_default) T i
      (as_path rmp) count q (as_roll_blank rs q rmp Hrs)) as Hstart.
    unfold as_roll in *. cbn [MerkleRoll.change_logs Acc.roots Acc.change_logs Acc.active_index
      Acc.buffer_size Acc.rightmost_proof] in *.
    rewrite list_insert_id in Hstart by (by rewrite lookup_zip_with, Hr).
    apply Hstart; try done.
  - apply Forall_replicate. done.
Qed.

Lemma new_AccRep q : AccRep Acc.new (a_start ∅ 0 0 q).
Proof.
  unfold Acc.new. apply (AccRep_start (Acc.empty_node Acc.MAX_DEPTH)).
  - by rewrite length_replicate.
  - apply lookup_replicate_2. unfold Acc.MAX_SIZE. lia.
  - rewrite acc_empty_node. symmetry. by apply tnode_empty.
  - cbn [Acc.proof]. by rewrite length_fmap, length_seq.
  - done.
  - lia.
  - split; cbn [as_path rm_index leaf proof Acc.proof Acc.leaf Acc.rm_index].
    { intros j _. apply leaf_at_empty. }
    intros _. split; [done|]. unfold tproof. apply list_fmap_ext. intros k j _.
    rewrite acc_empty_node. symmetry. by apply tnode_empty.
Qed.

(** [new_with_root] checks its arguments and starts from the tree they describe. *)
Lemma new_with_root_AccRep r lf p (i : N) q :
  length p = Acc.MAX_DEPTH → (i < acc_capacity)%N →
  if decide (r = hash_path 0 lf p i)
  then ∃ s, Acc.new_with_root r lf p i = Ok s ∧
    ∀ T, r = troot T Acc.MAX_DEPTH → p = tproof T Acc.MAX_DEPTH i → lf = leaf_at T i →
      (∀ j, (i < j)%N → leaf_at T j = EMPTY) → AccRep s (a_start T i (i + 1) q)
  else Acc.new_with_root r lf p i = Panic.
Proof.
  intros Hp Hi. unfold Acc.new_with_root. assert (acc_capacity < 2 ^ 32 - 1)%N by done.
  rewrite wadd_ok by lia. cbn [mbind outcome_bind]. rewrite acc_recompute by done.
  cbn [mbind outcome_bind]. case_decide as Hr; [|by rewrite bool_decide_false].
  rewrite bool_decide_true by done. cbn [rust_assert mbind outcome_bind].
  eexists. split; [done|]. intros T -> -> -> Hlast. apply (AccRep_start (troot T Acc.MAX_DEPTH)).
  - by rewrite length_insert, length_replicate.
  - apply list_lookup_insert_eq. rewrite length_replicate. unfold Acc.MAX_SIZE. lia.
  - done.
  - apply length_tproof.
  - done.
  - lia.
  - split; cbn [as_path rm_index leaf proof Acc.proof Acc.leaf Acc.rm_index].
    + intros j Hj. apply Hlast. lia.
    + intros _. by replace (i + 1 - 1)%N with i by lia.
Qed.
End start.
