(* ===== verification/AccumulatorProperties.v ===== *)
(** * The properties of the prototype of the concurrent tree

    Its histories, its agreement with the library, and the write it loses.  At the
    end, their witnesses: a fresh prototype takes two appends and a change of the first
    leaf, and so does a fresh library of the same sizes.  The hash is [toy_hashv];
    nothing of depth 14 is evaluated, the states are those that the lemmas give. *)

From S2P Require Import Prelude Hashing MerkleSpec ChangeLog MerkleRoll MerkleRollSpec.
From S2P Require Import MerkleRollLemmas MerkleRollWrite MerkleRollAppend MerkleRollInit.
From S2P Require Import MerkleRollTrace Accumulator AccumulatorLemmas.
From S2P Require Import AccumulatorTheorems.

Section properties.
Context `{Keccak} `{BuildProfile}.
Implicit Types (s : Acc.MerkleAccumulator) (t : MerkleRoll) (a : aroll).
Abbreviation d := Acc.MAX_DEPTH.
Abbreviation B := Acc.MAX_SIZE.

(** C21: a history of calls to the prototype that stays within its limits terminates
    without a panic and is the history of writes that the trees prescribe.  The limits
    ([all_ready]) are those past which the program misbehaves: the last leaf is not
    overwritten ([last_leaf_overwrite_lost]), [set_leaf] does not go past the end
    ([set_leaf_past_end_panics]), an index is below [2^MAX_DEPTH], and no proof is a
    collision of the hash.  Each call returns the root of the
    tree with its leaf written, where a leaf is written when its proof is for a
    root of the ring and it has not changed since (a fill of a leaf that is taken
    or past the end is appended), or returns [None] and changes nothing - an append of
    the empty leaf or to a full tree too, which the source says always succeeds; the
    state represents the resulting tree. *)
Theorem prototype_history s a os :
  AccRep s a → all_ready a os →
  ∃ s', run_all run_acc_op os s = (Ok (acc_results a os), s') ∧ AccRep s' (acc_history a os) ∧
    Acc.get_root s' = Ok (troot (a_tree (acc_history a os)) d).
Proof.
  intros HA Hready. destruct (acc_run_ok s a os HA Hready) as (s' & Hrun & HA').
  exists s'. split; [done|]. split; [done|]. by apply get_root_ok.
Qed.

(** C23: within the limits of both, the library accepts what the prototype accepts.
    On a history of calls that the prototype accepts one after the other, in which
    the last leaf is not overwritten, no call goes past the end and no proof is a
    collision of the hash ([all_ready], [all_in_bounds]), the library, with the same
    depth and buffer and the same tree, accepts every call and returns the same roots.
    (After an overwrite of the last leaf the prototype appends to a tree that is not
    the library's, and the library panics on a fill past the end.) *)
Theorem prototype_agrees_with_library s t a os roots s' :
  AccRep s a → Rep d B t a → all_ready a os → all_in_bounds a os →
  run_all run_acc_op os s = (Ok (Some <$> roots), s') →
  ∃ t' a', run_all (λ o, run_op d B (as_library o)) os t = (Ok roots, t') ∧ AccRep s' a' ∧ Rep d B t' a'.
Proof.
  intros HA HR Hready Hin Hrun. destruct (acc_run_ok s a os HA Hready) as (s1 & Hrun' & HA').
  rewrite Hrun in Hrun'. injection Hrun' as Hres ->.
  destruct (library_run t a os roots HR Hready Hin) as (t' & Hlib & HR'); [done|].
  by exists t', (acc_history a os).
Qed.

(** Overwriting the last leaf is lost by the next append.  [set_leaf] of
    the last leaf succeeds and returns the right root, but leaves the old leaf in
    the rightmost path; the append that follows returns the root of the tree in
    which the overwrite never happened.  It is not the root of the tree with both
    writes, unless the proof of the old leaf is a collision of the hash. *)
Theorem last_leaf_overwrite_lost s a v w :
  AccRep s a → (0 < a_count a < acc_capacity)%N → w ≠ EMPTY →
  let T := a_tree a in let i := (a_count a - 1)%N in
  let lost := <[a_count a:=w]> T in let right := <[a_count a:=w]> (<[i:=v]> T) in
  (∃ s1 s2, Acc.set_leaf (troot T d) (leaf_at T i) v (tproof T d i) i s =
       (Ok (Some (troot (<[i:=v]> T) d)), s1) ∧
     Acc.append w s1 = (Ok (Some (troot lost d)), s2)) ∧
  (v ≠ leaf_at T i → find_collision right 0 (leaf_at T i) (tproof lost d i) i = None →
   troot lost d ≠ troot right d).
Proof.
  intros HA Hcount Hw T i lost right. split.
  - apply set_last_then_append; [done|lia|done].
  - intros Hv Hnone Heq. assert (leaf_at lost i = leaf_at T i) as Hl.
    { unfold lost. rewrite leaf_at_insert_ne by (unfold i; lia). done. }
    destruct (verified_proof right d (leaf_at T i) (tproof lost d i) i) as [Hleaf _].
    + apply length_tproof.
    + unfold i. lia.
    + rewrite <-Hl, hash_path_tproof by (unfold i; lia). done.
    + done.
    + apply Hv. rewrite Hleaf. unfold right. rewrite leaf_at_insert_ne by (unfold i; lia).
      by rewrite leaf_at_insert.
Qed.

(** [set_leaf] with a valid proof of a leaf past the end panics, where the other
    operations return [None]. *)
Lemma set_leaf_past_end_panics s a v (i : N) :
  AccRep s a → (a_count a < i < acc_capacity)%N →
  ∃ s', Acc.set_leaf (troot (a_tree a) d) EMPTY v (tproof (a_tree a) d i) i s = (Panic, s').
Proof.
  intros HA Hi. destruct (AccRep_facts s a HA) as (_ & Hrm & _ & _ & [Hempty _]).
  cbn [as_path rm_index] in Hempty. rewrite Hrm in Hempty.
  assert (leaf_at (a_tree a) i = EMPTY) as He by (apply Hempty; lia).
  destruct (a_hist_0 _ _ _ _ (ar_rep _ _ HA)) as [i0 Hi0].
  unfold Acc.set_leaf. rewrite (find_and_update_ok s a) by (first [done|by rewrite length_tproof]).
  rewrite (find_root_head d a _ _ Hi0). rewrite <-He, hash_path_tproof by lia.
  rewrite bool_decide_true, (proj2 (N.ltb_lt _ _)), decide_True by (first [done|lia]). cbn [andb].
  unfold Acc.update_and_apply_proof, Acc.CALL_DEPTH.
  rewrite (update_and_apply_ok 3 s a i v 0 (a_tree a) i0 false) by (first [done|lia]).
  rewrite decide_True by done. apply (write_past_end_panics s (a_tree a)); [by eapply AccRep_ring|lia|].
  rewrite Hrm. lia.
Qed.
End properties.

Import Toy.
#[local] Opaque toy_hashv troot.

Module ATree.

Definition a0 : aroll := a_start ∅ 0 0 0.
Definition a1 : aroll := a_write Acc.MAX_SIZE a0 0 (toy_node 1).
Definition a2 : aroll := a_write Acc.MAX_SIZE a1 1 (toy_node 2).
Definition T2 : tree := a_tree a2.

(** Two appends, and a change of leaf 0 through its proof. *)
Definition o1 : acc_op := AccAppend (toy_node 1).
Definition o2 : acc_op := AccAppend (toy_node 2).
Definition o3 : acc_op :=
  AccSetLeaf (troot T2 Acc.MAX_DEPTH) (toy_node 1) (toy_node 4) (tproof T2 Acc.MAX_DEPTH 0) 0.

Definition history : list acc_op := [o1; o2; o3].

Definition history_roots : list Node :=
  [troot (<[0%N := toy_node 1]> (a_tree a0)) Acc.MAX_DEPTH;
   troot (<[1%N := toy_node 2]> (a_tree a1)) Acc.MAX_DEPTH;
   troot (<[0%N := toy_node 4]> (a_tree a2)) Acc.MAX_DEPTH].

Lemma write1 : acc_write a0 o1 = Some (0%N, toy_node 1).
Proof. by vm_compute. Qed.

Lemma write2 : acc_write a1 o2 = Some (1%N, toy_node 2).
Proof. by vm_compute. Qed.

Lemma T2_leaf : leaf_at T2 0 = toy_node 1.
Proof. by vm_compute. Qed.

Lemma find_T2 : find_root Acc.MAX_DEPTH a2 (troot T2 Acc.MAX_DEPTH) = Some (0, (T2, 1%N)).
Proof. by apply find_root_head. Qed.

Lemma write3 : acc_write a2 o3 = Some (0%N, toy_node 4).
Proof.
  unfold o3. cbn [acc_write]. unfold proved_write. rewrite find_T2, <-T2_leaf, hash_path_tproof by done.
  rewrite decide_True by done. by rewrite decide_True.
Qed.

Lemma after1 : acc_after a0 o1 = a1.
Proof. unfold acc_after. by rewrite write1. Qed.

Lemma after2 : acc_after a1 o2 = a2.
Proof. unfold acc_after. by rewrite write2. Qed.

Lemma ready3 : acc_ready a2 o3.
Proof.
  split; [|by split].
  split; [apply length_tproof|]. split; [done|]. intros m T i0. rewrite find_T2. intros [= <- <- <-].
  rewrite <-T2_leaf. apply find_collision_tproof.
Qed.

Lemma run1 : run_acc_op o1 = Acc.append (toy_node 1).
Proof. done. Qed.

Lemma result1 : acc_result a0 o1 = Some (troot (<[0%N := toy_node 1]> (a_tree a0)) Acc.MAX_DEPTH).
Proof. unfold acc_result. by rewrite write1. Qed.

Lemma count1 : a_count a1 = 1%N.
Proof. done. Qed.

#[local] Opaque a1 a2 o1 o2 o3.

Lemma history_ready : all_ready a0 history.
Proof. cbn [all_ready history]. rewrite after1, after2. split; [done|]. split; [done|]. by split; [apply ready3|]. Qed.

Lemma history_results : acc_results a0 history = Some <$> history_roots.
Proof.
  cbn [acc_results history]. rewrite after1, after2. unfold acc_result.
  by rewrite write1, write2, write3.
Qed.

Lemma history_in_bounds : all_in_bounds a0 history.
Proof. done. Qed.

Lemma history_tree : a_tree (acc_history a0 history) = <[0%N := toy_node 4]> T2.
Proof.
  unfold acc_history, history. cbn [foldl]. rewrite after1, after2. unfold acc_after.
  rewrite write3. apply (a_tree_write _ _ acc_sizes).
Qed.

(** The fresh states. *)
Lemma fresh_library :
  ∃ t, Rep Acc.MAX_DEPTH Acc.MAX_SIZE t a0 ∧
    t = (initialize Acc.MAX_DEPTH Acc.MAX_SIZE (new Acc.MAX_DEPTH Acc.MAX_SIZE)).2.
Proof.
  destruct (initialize_ok _ _ acc_sizes (new Acc.MAX_DEPTH Acc.MAX_SIZE)) as (t & Hrun & HR).
  { apply new_blank. }
  exists t. split; [done|]. by rewrite Hrun.
Qed.

Lemma prototype_history_witness :
  ∃ s', run_all run_acc_op history Acc.new = (Ok (Some <$> history_roots), s') ∧
    Acc.get_root s' = Ok (troot (<[0%N := toy_node 4]> T2) Acc.MAX_DEPTH).
Proof.
  destruct (prototype_history Acc.new a0 history (new_AccRep 0) history_ready)
    as (s' & Hrun & _ & Hroot).
  rewrite history_results in Hrun. rewrite history_tree in Hroot.
  exists s'. split; [exact Hrun|exact Hroot].
Defined.

Lemma prototype_agrees_with_library_witness :
  ∃ t', run_all (λ o, run_op Acc.MAX_DEPTH Acc.MAX_SIZE (as_library o)) history
    (initialize Acc.MAX_DEPTH Acc.MAX_SIZE (new Acc.MAX_DEPTH Acc.MAX_SIZE)).2 =
    (Ok history_roots, t').
Proof.
  destruct fresh_library as (t & HR & <-).
  destruct (acc_run_ok Acc.new a0 history (new_AccRep 0) history_ready) as (s' & Hrun & _).
  rewrite history_results in Hrun.
  destruct (prototype_agrees_with_library Acc.new t a0 history history_roots s' (new_AccRep 0) HR
    history_ready history_in_bounds Hrun) as (t' & a' & Hlib & _).
  exists t'. exact Hlib.
Defined.

(** One leaf, overwritten; the next append brings it back. *)
Lemma last_leaf_overwrite_lost_witness :
  let T := a_tree a1 in
  ∃ s s1 s2, Acc.append (toy_node 1) Acc.new = (Ok (Some (troot (<[0%N := toy_node 1]> (a_tree a0)) Acc.MAX_DEPTH)), s) ∧
    Acc.set_leaf (troot T Acc.MAX_DEPTH) (leaf_at T 0) (toy_node 2) (tproof T Acc.MAX_DEPTH 0) 0 s =
      (Ok (Some (troot (<[0%N := toy_node 2]> T) Acc.MAX_DEPTH)), s1) ∧
    Acc.append (toy_node 3) s1 = (Ok (Some (troot (<[1%N := toy_node 3]> T) Acc.MAX_DEPTH)), s2).
Proof.
  intros T. destruct (acc_op_step Acc.new a0 o1 (new_AccRep 0) I) as (s & Hrun & HA).
  rewrite after1 in HA. rewrite result1, run1 in Hrun.
  assert (0 < a_count a1 < acc_capacity)%N as Hcount by (rewrite count1; split; reflexivity).
  assert (toy_node 3 ≠ EMPTY) as Hw by by vm_compute.
  destruct (last_leaf_overwrite_lost s a1 (toy_node 2) (toy_node 3) HA Hcount Hw)
    as [(s1 & s2 & Hset & Happ) _].
  rewrite count1 in Hset, Happ. change (1 - 1)%N with 0%N in Hset.
  exists s, s1, s2. split; [exact Hrun|]. split; [exact Hset|exact Happ].
Defined.

End ATree.
