(* ===== verification/EllipticAccumulator.v ===== *)
(** * A prototype on an elliptic curve: [archive/ecc-accumulator/src/main.rs]

    An accumulator whose value is a point: adding an element multiplies it by a
    scalar, removing one multiplies it by the inverse.  The last 1024 values are kept in
    a ring beside the elements removed lately.  The curve is a parameter
    ([EdwardsCurve], of [curve25519_dalek]); the laws that a theorem needs are stated
    where it needs them.

    The abstract accumulator is the list of the values in the ring with the removal
    mark of their slot, newest first.  The methods refine it ([run_ecc_ok]), and two
    facts follow about what the prototype does not protect
    ([anything_can_be_removed], [removed_for_good]). *)

From S2P Require Import Prelude.

Class EdwardsCurve := {
  EdwardsPoint : Type;
  Scalar : Type;
  point_eq_dec :: EqDecision EdwardsPoint;
  scalar_eq_dec :: EqDecision Scalar;
  ED25519_BASEPOINT_POINT : EdwardsPoint;
  scalar_zero : Scalar;
  point_mul : EdwardsPoint → Scalar → EdwardsPoint;
  scalar_invert : Scalar → Scalar;
}.

Module Ecc.

Definition MAX_SIZE : N := 1024.
Definition MASK : N := MAX_SIZE - 1.

Section defs.
Context `{EdwardsCurve} `{BuildProfile}.

Record Accumulator := mk_Accumulator {
  heads : list EdwardsPoint;
  removals : list Scalar;
  active_index : N;
  size : N;
}.

Abbreviation ecc_method := (method Accumulator Empty_set).
Abbreviation ecc_outcome := (outcome Empty_set).

Definition new : Accumulator :=
  mk_Accumulator (replicate (N.to_nat MAX_SIZE) ED25519_BASEPOINT_POINT)
    (replicate (N.to_nat MAX_SIZE) scalar_zero) 0 1.

Definition get_value (self : Accumulator) : ecc_outcome EdwardsPoint :=
  index (heads self) (active_index self).

Definition set_heads (hs : list EdwardsPoint) (self : Accumulator) : Accumulator :=
  mk_Accumulator hs (removals self) (active_index self) (size self).

Definition set_removals (rs : list Scalar) (self : Accumulator) : Accumulator :=
  mk_Accumulator (heads self) rs (active_index self) (size self).

Definition set_active_index (active : N) (self : Accumulator) : Accumulator :=
  mk_Accumulator (heads self) (removals self) active (size self).

Definition set_size (n : N) (self : Accumulator) : Accumulator :=
  mk_Accumulator (heads self) (removals self) (active_index self) n.

Definition add (elem : Scalar) : ecc_method unit :=
  self ← get;
  size' ← lift (if (size self <? MAX_SIZE)%N then wadd 64 (size self) 1 else Ok (size self));
  modify (set_size size');;
  prev ← lift (index (heads self) (active_index self));
  active ← lift (wadd 64 (active_index self) 1);
  modify (set_active_index (N.land active MASK));;
  self ← get;
  hs ← lift (index_set (heads self) (active_index self) (point_mul prev elem));
  modify (set_heads hs).

Definition step_back (j : N) : ecc_outcome N := if (j =? 0)%N then Ok MASK else wsub 64 j 1.

(** The loop over the removals: was the element removed lately? *)
Fixpoint removed_loop (n : nat) (self : Accumulator) (elem : Scalar) (j : N) : ecc_outcome bool :=
  match n with
  | O => Ok false
  | S n =>
      r ← index (removals self) j;
      if decide (r = elem) then Ok true
      else
        j ← step_back j;
        removed_loop n self elem j
  end.

(** The search for [head] of the second loop: the value found, if any. *)
Fixpoint find_head_loop (fuel : nat) (self : Accumulator) (head : EdwardsPoint) (i j : N) :
    ecc_outcome (option EdwardsPoint) :=
  match fuel with
  | O => OutOfFuel
  | S fuel =>
      if (i =? size self)%N then Ok None
      else
        current ← index (heads self) j;
        if decide (head ≠ current) then
          i ← wadd 64 i 1;
          j ← step_back j;
          find_head_loop fuel self head i j
        else Ok (Some current)
  end.

Definition remove (elem : Scalar) (proof head : EdwardsPoint) : ecc_method (option Scalar) :=
  self ← get;
  removed ← lift (removed_loop (N.to_nat (size self)) self elem (active_index self));
  if (removed : bool) then mret None
  else
    found ← lift (find_head_loop (S (N.to_nat (size self))) self head 0 (active_index self));
    match found with
    | None => mret None
    | Some current =>
        let proposed := point_mul current (scalar_invert elem) in
        if decide (proposed ≠ proof) then mret None
        else
          add (scalar_invert elem);;
          self ← get;
          rs ← lift (index_set (removals self) (active_index self) elem);
          modify (set_removals rs);;
          mret (Some elem)
    end.

End defs.
End Ecc.

(** ** The abstract accumulator *)
Inductive ecc_op `{EdwardsCurve} :=
  | EccAdd (elem : Scalar)
  | EccRemove (elem : Scalar) (proof head : EdwardsPoint).

Section spec.
Context `{EdwardsCurve} `{BuildProfile}.
Abbreviation window := (list (EdwardsPoint * Scalar)).
Implicit Types (s : Ecc.Accumulator) (l : window) (e m : Scalar) (p : EdwardsPoint).
Abbreviation cap := (N.to_nat Ecc.MAX_SIZE).

(** The newest value. *)
Definition value l : EdwardsPoint := from_option fst ED25519_BASEPOINT_POINT (head l).

(** The mark that the slot of the next value holds: that of the value it evicts. *)
Definition evicted_mark l : Scalar :=
  if decide (length l < cap) then scalar_zero else from_option snd scalar_zero (last l).

Definition push p m l : window := (p, m) :: take (cap - 1) l.

Definition accepts l e (proof head : EdwardsPoint) : bool :=
  bool_decide (e ∉ l.*2 ∧ head ∈ l.*1 ∧ point_mul head (scalar_invert e) = proof).

(** What an operation returns, and the accumulator it leaves. *)
Definition ecc_answer l (o : ecc_op) : option Scalar :=
  match o with
  | EccAdd _ => None
  | EccRemove e proof head => if accepts l e proof head then Some e else None
  end.

Definition ecc_step l (o : ecc_op) : window :=
  match o with
  | EccAdd e => push (point_mul (value l) e) (evicted_mark l) l
  | EccRemove e proof head =>
      if accepts l e proof head then push (point_mul (value l) (scalar_invert e)) e l else l
  end.

Fixpoint ecc_answers l (os : list ecc_op) : list (option Scalar) :=
  match os with
  | [] => []
  | o :: os => ecc_answer l o :: ecc_answers (ecc_step l o) os
  end.

Definition run_ecc (o : ecc_op) : method Ecc.Accumulator Empty_set (option Scalar) :=
  match o with
  | EccAdd e => Ecc.add e;; mret None
  | EccRemove e proof head => Ecc.remove e proof head
  end.

(** The slot of the value of [k] pushes ago. *)
Definition ecc_slot (active : N) (k : nat) : N := ((active + Ecc.MAX_SIZE - N.of_nat k) `mod` Ecc.MAX_SIZE)%N.

Record EccRep s l : Prop := {
  ecc_heads : length (Ecc.heads s) = cap;
  ecc_removals : length (Ecc.removals s) = cap;
  ecc_active : (Ecc.active_index s < Ecc.MAX_SIZE)%N;
  ecc_size : Ecc.size s = N.of_nat (length l);
  ecc_length : 1 ≤ length l ≤ cap;
  ecc_window k p m : l !! k = Some (p, m) →
    Ecc.heads s !! N.to_nat (ecc_slot (Ecc.active_index s) k) = Some p ∧
    Ecc.removals s !! N.to_nat (ecc_slot (Ecc.active_index s) k) = Some m;
  ecc_unused k : length l ≤ k < cap →
    Ecc.removals s !! N.to_nat (ecc_slot (Ecc.active_index s) k) = Some scalar_zero;
}.

(** *** Slots *)
Lemma ecc_slot_cases a k : (a < Ecc.MAX_SIZE)%N → k ≤ cap →
  ecc_slot a k = (if decide (N.of_nat k ≤ a)%N then a - N.of_nat k else a + Ecc.MAX_SIZE - N.of_nat k)%N.
Proof.
  unfold ecc_slot, Ecc.MAX_SIZE. intros. case_decide.
  - replace (a + 1024 - N.of_nat k)%N with (a - N.of_nat k + 1 * 1024)%N by lia.
    rewrite N.Div0.mod_add. apply N.mod_small. lia.
  - apply N.mod_small. lia.
Qed.

(** Decides bounds, and equations between slots. *)
Ltac ecc_lia := unfold Ecc.MASK, Ecc.MAX_SIZE in *; lia.
Ltac slots := rewrite !ecc_slot_cases by ecc_lia; unfold Ecc.MASK, Ecc.MAX_SIZE in *;
  repeat case_decide; lia.

Lemma ecc_slot_0 a : (a < Ecc.MAX_SIZE)%N → ecc_slot a 0 = a.
Proof. intros. slots. Qed.

Lemma ecc_slot_lt a k : (ecc_slot a k < Ecc.MAX_SIZE)%N.
Proof. by apply N.mod_lt. Qed.

Lemma ecc_slot_neq a j k :
  (a < Ecc.MAX_SIZE)%N → j < k < cap → N.to_nat (ecc_slot a j) ≠ N.to_nat (ecc_slot a k).
Proof. intros. slots. Qed.

(** A step of the loops goes one push back. *)
Lemma step_back_ok a k :
  (a < Ecc.MAX_SIZE)%N → k < cap → Ecc.step_back (ecc_slot a k) = Ok (ecc_slot a (S k)).
Proof.
  intros Ha Hk. unfold Ecc.step_back. destruct (N.eqb_spec (ecc_slot a k) 0) as [Hz|Hz].
  - f_equal. revert Hz. slots.
  - rewrite wsub_ok by lia. f_equal. revert Hz. slots.
Qed.

(** After a push, the slots are one push older. *)
Lemma ecc_next a : (a < Ecc.MAX_SIZE)%N → ∃ a',
  N.land (a + 1) Ecc.MASK = a' ∧ (a' < Ecc.MAX_SIZE)%N ∧ a' = ecc_slot a (cap - 1) ∧
  ∀ k, k < cap → ecc_slot a' (S k) = ecc_slot a k.
Proof.
  intros Ha. exists (if decide (a = 1023) then 0 else a + 1)%N. split; [|split; [|split]].
  - unfold Ecc.MASK, Ecc.MAX_SIZE in *. change (1024 - 1)%N with (2 ^ 10 - 1)%N. rewrite land_mask.
    case_decide as Hc; [by rewrite Hc|]. apply N.mod_small. change (2 ^ 10)%N with 1024%N. lia.
  - unfold Ecc.MAX_SIZE in *. case_decide; lia.
  - slots.
  - intros k Hk. rewrite (ecc_slot_cases a) by lia.
    rewrite ecc_slot_cases by (unfold Ecc.MAX_SIZE in *; repeat case_decide; lia).
    unfold Ecc.MAX_SIZE in *. repeat case_decide; lia.
Qed.

(** *** The loops *)
Lemma ecc_lookup s l k :
  EccRep s l → k < length l → ∃ p m, l !! k = Some (p, m) ∧
    index (E:=Empty_set) (Ecc.heads s) (ecc_slot (Ecc.active_index s) k) = Ok p ∧
    index (E:=Empty_set) (Ecc.removals s) (ecc_slot (Ecc.active_index s) k) = Ok m.
Proof.
  intros HR Hk. destruct (lookup_lt_is_Some_2 l k Hk) as [[p m] Hl]. exists p, m.
  destruct (ecc_window s l HR k p m Hl) as [Hp Hm]. by rewrite !(index_lookup _ _ _ Hp), (index_lookup _ _ _ Hm).
Qed.

Lemma removed_loop_ok s l e n : EccRep s l → n ≤ length l →
  Ecc.removed_loop n s e (ecc_slot (Ecc.active_index s) (length l - n)) =
    Ok (bool_decide (e ∈ (drop (length l - n) l).*2)).
Proof.
  intros HR. pose proof (ecc_active s l HR) as Ha. destruct (ecc_length s l HR) as [_ Hlen].
  induction n as [|n IH]; intros Hn; simpl.
  - rewrite Nat.sub_0_r, drop_all. by rewrite bool_decide_eq_false_2 by set_solver.
  - destruct (ecc_lookup s l (length l - S n) HR) as (p & m & Hl & _ & Hm); [lia|].
    rewrite Hm. simpl. rewrite (drop_S _ _ _ Hl). simpl. destruct (decide (m = e)) as [Hd|Hd].
    + subst. by rewrite bool_decide_eq_true_2 by (by left).
    + rewrite step_back_ok by (done || lia). simpl.
      replace (S (length l - S n)) with (length l - n) by lia. rewrite IH by lia. f_equal.
      apply bool_decide_ext. rewrite elem_of_cons. naive_solver.
Qed.

Lemma find_head_step fuel s h i j :
  Ecc.find_head_loop (S fuel) s h i j =
    if (i =? Ecc.size s)%N then Ok None
    else
      current ← index (Ecc.heads s) j;
      if decide (h ≠ current) then
        i ← wadd 64 i 1; j ← Ecc.step_back j; Ecc.find_head_loop fuel s h i j
      else Ok (Some current).
Proof. done. Qed.

Lemma find_head_loop_ok s l h n : EccRep s l → n ≤ length l →
  Ecc.find_head_loop (S n) s h (N.of_nat (length l - n)) (ecc_slot (Ecc.active_index s) (length l - n)) =
    Ok (if decide (h ∈ (drop (length l - n) l).*1) then Some h else None).
Proof.
  intros HR. pose proof (ecc_active s l HR) as Ha. destruct (ecc_length s l HR) as [_ Hlen].
  induction n as [|n IH]; intros Hn; rewrite find_head_step, (ecc_size s l HR).
  - rewrite Nat.sub_0_r, drop_all, N.eqb_refl. by rewrite decide_False by set_solver.
  - destruct (N.eqb_spec (N.of_nat (length l - S n)) (N.of_nat (length l))) as [|_]; [lia|].
    destruct (ecc_lookup s l (length l - S n) HR) as (p & m & Hl & Hp & _); [lia|].
    rewrite Hp, (drop_S _ _ _ Hl). cbn [mbind outcome_bind]. rewrite fmap_cons. destruct (decide (h = p)) as [->|Hne].
    + rewrite decide_False by auto. by rewrite decide_True by set_solver.
    + rewrite decide_True by auto. rewrite wadd_ok by ecc_lia. cbn [mbind outcome_bind].
      rewrite step_back_ok by (done || lia). cbn [mbind outcome_bind].
      replace (N.of_nat (length l - S n) + 1)%N with (N.of_nat (length l - n)) by lia.
      replace (S (length l - S n)) with (length l - n) by lia.
      rewrite IH by lia. f_equal.
      apply decide_ext. rewrite elem_of_cons. naive_solver.
Qed.

(** *** Pushing a value *)
Lemma length_push p m l : length (push p m l) = S (Nat.min (cap - 1) (length l)).
Proof. unfold push. simpl. by rewrite length_take. Qed.

Lemma rep_push s l p m :
  EccRep s l →
  let a' := N.land (Ecc.active_index s + 1) Ecc.MASK in
  EccRep (Ecc.mk_Accumulator (<[N.to_nat a' := p]> (Ecc.heads s)) (<[N.to_nat a' := m]> (Ecc.removals s)) a'
            (N.of_nat (length (push p m l)))) (push p m l).
Proof.
  intros HR a'. destruct (ecc_next (Ecc.active_index s) (ecc_active s l HR)) as (a & Heq & Ha & Hlast & Hnext).
  subst a'. rewrite Heq. destruct (ecc_length s l HR) as [Hpos Hle].
  assert (∀ k, k < cap - 1 → N.to_nat a ≠ N.to_nat (ecc_slot (Ecc.active_index s) k)) as Hne.
  { intros k Hk Hbad. rewrite Hlast in Hbad. symmetry in Hbad. revert Hbad.
    apply ecc_slot_neq; [apply (ecc_active s l HR)|lia]. }
  split; cbn [Ecc.heads Ecc.removals Ecc.active_index Ecc.size]; rewrite ?length_insert, ?length_push; try (done || by apply (ecc_heads s l HR) || by apply (ecc_removals s l HR)).
  - ecc_lia.
  - intros [|k] q m' Hk; simpl in Hk.
    + injection Hk as -> ->. rewrite ecc_slot_0 by done. split; apply list_lookup_insert_eq;
        rewrite ?(ecc_heads s l HR), ?(ecc_removals s l HR); ecc_lia.
    + apply lookup_take_Some in Hk as [Hk Hlt]. rewrite Hnext by ecc_lia.
      rewrite !list_lookup_insert_ne by (apply Hne; ecc_lia). by apply (ecc_window s l HR).
  - intros [|k] Hk; [lia|]. rewrite Hnext by ecc_lia. rewrite list_lookup_insert_ne by (apply Hne; ecc_lia).
    apply (ecc_unused s l HR). lia.
Qed.

(** The slot that a push writes holds the mark of the value it evicts. *)
Lemma evicted_mark_ok s l :
  EccRep s l →
  Ecc.removals s !! N.to_nat (N.land (Ecc.active_index s + 1) Ecc.MASK) = Some (evicted_mark l).
Proof.
  intros HR. destruct (ecc_next (Ecc.active_index s) (ecc_active s l HR)) as (a & -> & _ & -> & _).
  destruct (ecc_length s l HR) as [Hpos Hle]. unfold evicted_mark. case_decide.
  - apply (ecc_unused s l HR). lia.
  - destruct (ecc_lookup s l (cap - 1) HR) as (p & m & Hl & _); [lia|].
    rewrite last_lookup. replace (pred (length l)) with (cap - 1) by lia. rewrite Hl. simpl.
    by apply (ecc_window s l HR) in Hl as [_ ?].
Qed.

Lemma ecc_value s l :
  EccRep s l → index (E:=Empty_set) (Ecc.heads s) (Ecc.active_index s) = Ok (value l).
Proof.
  intros HR. destruct (ecc_length s l HR) as [Hpos _].
  destruct (ecc_lookup s l 0 HR) as (p & m & Hl & Hp & _); [lia|].
  rewrite ecc_slot_0 in Hp by apply (ecc_active s l HR). destruct l; [done|]. by injection Hl as ->.
Qed.

Lemma add_ok s l e :
  EccRep s l → ∃ s', Ecc.add e s = (Ok tt, s') ∧ EccRep s' (push (point_mul (value l) e) (evicted_mark l) l).
Proof.
  intros HR. pose proof (rep_push s l (point_mul (value l) e) (evicted_mark l) HR) as HR'.
  cbv zeta in HR'. rewrite (list_insert_id (Ecc.removals s)) in HR' by (by apply evicted_mark_ok).
  eexists. split; [|exact HR'].
  destruct (ecc_length s l HR) as [Hpos Hle]. pose proof (ecc_active s l HR).
  destruct (ecc_next (Ecc.active_index s)) as (a & Heq & Ha & _); [done|]. rewrite Heq.
  unfold Ecc.add. run_method.
  assert ((if Ecc.size s <? Ecc.MAX_SIZE then wadd 64 (Ecc.size s) 1 else Ok (Ecc.size s))%N =
    Ok (E:=Empty_set) (N.of_nat (length (push (point_mul (value l) e) (evicted_mark l) l)))) as ->.
  { rewrite length_push, (ecc_size s l HR). unfold Ecc.MAX_SIZE in *.
    destruct (N.ltb_spec (N.of_nat (length l)) 1024).
    - rewrite wadd_ok by lia. f_equal. lia.
    - f_equal. lia. }
  rewrite (ecc_value s l HR). rewrite wadd_ok by ecc_lia. rewrite Heq.
  cbn [Ecc.set_size Ecc.set_active_index Ecc.heads Ecc.active_index].
  by rewrite index_set_lt by (rewrite (ecc_heads s l HR); ecc_lia).
Qed.

(** [remove] marks the slot of the value it pushed. *)
Lemma rep_mark s l p m e :
  EccRep s ((p, m) :: l) →
  ∃ rs, index_set (E:=Empty_set) (Ecc.removals s) (Ecc.active_index s) e = Ok rs ∧
    EccRep (Ecc.mk_Accumulator (Ecc.heads s) rs (Ecc.active_index s) (Ecc.size s)) ((p, e) :: l).
Proof.
  intros HR. pose proof (ecc_active _ _ HR) as Ha. pose proof (ecc_removals _ _ HR) as Hlen.
  pose proof (ecc_length _ _ HR) as Hle. simpl in Hle.
  assert (∀ k, S k < cap → N.to_nat (Ecc.active_index s) ≠ N.to_nat (ecc_slot (Ecc.active_index s) (S k))) as Hne.
  { intros k Hk. rewrite <-(ecc_slot_0 (Ecc.active_index s)) at 1 by done. apply ecc_slot_neq; [done|lia]. }
  eexists. split; [apply index_set_lt; ecc_lia|].
  split; cbn [Ecc.heads Ecc.removals Ecc.active_index Ecc.size]; try apply HR.
  - by rewrite length_insert.
  - intros [|k] q m' Hk.
    + injection Hk as -> ->. destruct (ecc_window _ _ HR 0 q m) as [Hq _]; [done|]. split; [done|].
      rewrite ecc_slot_0 by done. apply list_lookup_insert_eq. ecc_lia.
    + destruct (ecc_window _ _ HR (S k) q m' Hk) as [Hq Hm]. split; [done|].
      apply lookup_lt_Some in Hk. simpl in Hk. by rewrite list_lookup_insert_ne by (apply Hne; lia).
  - intros [|k] Hk; simpl in Hk; [lia|]. rewrite list_lookup_insert_ne by (apply Hne; lia).
    apply (ecc_unused _ _ HR). simpl. lia.
Qed.

Lemma remove_ok s l e proof h :
  EccRep s l → ∃ s', Ecc.remove e proof h s = (Ok (ecc_answer l (EccRemove e proof h)), s') ∧
    EccRep s' (ecc_step l (EccRemove e proof h)).
Proof.
  intros HR. unfold Ecc.remove, ecc_answer, ecc_step, accepts.
  pose proof (removed_loop_ok s l e (length l) HR (le_n _)) as Hrem.
  pose proof (find_head_loop_ok s l h (length l) HR (le_n _)) as Hfind.
  rewrite Nat.sub_diag, drop_0, ecc_slot_0 in Hrem, Hfind by apply (ecc_active s l HR).
  run_method. rewrite (ecc_size s l HR), Nat2N.id, Hrem.
  destruct (decide (e ∈ l.*2)) as [Hin|Hnin].
  { rewrite bool_decide_eq_true_2 by done. rewrite bool_decide_eq_false_2 by naive_solver. by exists s. }
  rewrite bool_decide_eq_false_2 by done. change (N.of_nat 0) with 0%N in Hfind. rewrite Hfind.
  destruct (decide (h ∈ l.*1)) as [Hh|Hh].
  2: { rewrite bool_decide_eq_false_2 by naive_solver. by exists s. }
  destruct (decide (point_mul h (scalar_invert e) = proof)) as [Hp|Hp].
  2: { rewrite decide_True by done. rewrite bool_decide_eq_false_2 by naive_solver. by exists s. }
  rewrite decide_False by auto. rewrite bool_decide_eq_true_2 by done.
  destruct (add_ok s l (scalar_invert e) HR) as (s' & -> & HR').
  destruct (rep_mark _ _ _ _ e HR') as (rs & -> & HR''). by eexists.
Qed.

(** An operation returns what the abstract accumulator says, and never panics. *)
Lemma run_ecc_ok s l o :
  EccRep s l → ∃ s', run_ecc o s = (Ok (ecc_answer l o), s') ∧ EccRep s' (ecc_step l o).
Proof.
  intros HR. destruct o as [e|e proof h]; [|by apply remove_ok].
  destruct (add_ok s l e HR) as (s' & Hadd & HR'). exists s'. split; [|done].
  simpl. unfold mbind, method_bind. by rewrite Hadd.
Qed.

Lemma new_represents : EccRep Ecc.new [(ED25519_BASEPOINT_POINT, scalar_zero)].
Proof.
  split; unfold Ecc.new; cbn [Ecc.heads Ecc.removals Ecc.active_index Ecc.size];
    rewrite ?length_replicate; try done; try (simpl; ecc_lia).
  - intros [|k] p m Hk; [|done]. injection Hk as <- <-. rewrite ecc_slot_0 by done.
    split; apply lookup_replicate_2; ecc_lia.
  - intros k Hk. apply lookup_replicate_2. pose proof (ecc_slot_lt 0 k). ecc_lia.
Qed.

(** ** What the prototype promises *)

(** Every sequence of calls to a new accumulator terminates without a panic, and
    answers as the abstract accumulator; its value is that of the abstract one. *)
Theorem elliptic_refines (os : list ecc_op) :
  ∃ s', run_all run_ecc os Ecc.new = (Ok (ecc_answers [(ED25519_BASEPOINT_POINT, scalar_zero)] os), s') ∧
    Ecc.get_value s' = Ok (value (foldl ecc_step [(ED25519_BASEPOINT_POINT, scalar_zero)] os)).
Proof.
  generalize new_represents. generalize [(ED25519_BASEPOINT_POINT, scalar_zero)]. generalize Ecc.new.
  induction os as [|o os IH]; intros s l HR; simpl.
  - exists s. split; [done|]. by apply ecc_value.
  - destruct (run_ecc_ok s l o HR) as (s1 & Hrun & HR1). destruct (IH s1 _ HR1) as (s' & Hall & Hv).
    exists s'. split; [|done]. by apply (run_all_cons _ _ _ _ _ _ _ _ Hrun).
Qed.

Lemma marks_push p m l : (push p m l).*2 = m :: take (cap - 1) l.*2.
Proof. unfold push. by rewrite fmap_cons, fmap_take. Qed.

Lemma evicted_mark_zero_or_in l : evicted_mark l = scalar_zero ∨ evicted_mark l ∈ l.*2.
Proof.
  unfold evicted_mark. case_decide; [by left|]. destruct (last l) as [[p m]|] eqn:Hlast; [right|by left].
  apply last_Some in Hlast as [l' ->]. rewrite fmap_app. apply elem_of_app. right. by left.
Qed.

Lemma remove_accepted s l e proof h :
  EccRep s l → accepts l e proof h = true →
  ∃ s', Ecc.remove e proof h s = (Ok (Some e), s') ∧
    EccRep s' (push (point_mul (value l) (scalar_invert e)) e l).
Proof.
  intros HR Hacc. destruct (remove_ok s l e proof h HR) as (s' & Hrun & HR').
  unfold ecc_answer, ecc_step in *. rewrite Hacc in *. by exists s'.
Qed.

(** Adding an element and removing it gives the value back, if the element was not
    removed lately and is not zero. *)
Theorem add_then_remove s l e :
  EccRep s l → e ∉ l.*2 → e ≠ scalar_zero → point_mul (point_mul (value l) e) (scalar_invert e) = value l →
  ∃ s1 s2, Ecc.add e s = (Ok tt, s1) ∧
    Ecc.remove e (value l) (point_mul (value l) e) s1 = (Ok (Some e), s2) ∧ Ecc.get_value s2 = Ok (value l).
Proof.
  intros HR Hnin Hz Hinv. destruct (add_ok s l e HR) as (s1 & Hadd & HR1).
  edestruct (remove_accepted s1 _ e (value l) (point_mul (value l) e) HR1) as (s2 & Hrem & HR2).
  - apply bool_decide_eq_true_2. split; [|split; [by left|done]].
    rewrite marks_push, elem_of_cons. intros [->|(k & Hk & _)%elem_of_take].
    + by destruct (evicted_mark_zero_or_in l).
    + by apply Hnin, (list_elem_of_lookup_2 _ k).
  - exists s1, s2. split; [done|]. split; [done|]. unfold Ecc.get_value. rewrite (ecc_value s2 _ HR2).
    f_equal. exact Hinv.
Qed.

(** Removing needs no proof of membership: for any element that was not removed
    lately, added or not, the current value and the value times the inverse of the
    element are accepted. *)
Theorem anything_can_be_removed s l e :
  EccRep s l → e ∉ l.*2 →
  ∃ s', Ecc.remove e (point_mul (value l) (scalar_invert e)) (value l) s = (Ok (Some e), s') ∧
    Ecc.get_value s' = Ok (point_mul (value l) (scalar_invert e)).
Proof.
  intros HR Hnin. destruct (ecc_length s l HR) as [Hpos _].
  destruct (remove_accepted s l e (point_mul (value l) (scalar_invert e)) (value l) HR) as (s' & Hrem & HR').
  - apply bool_decide_eq_true_2. split; [done|]. split; [|done].
    destruct l as [|[p m] l]; [simpl in Hpos; lia|]. by left.
  - exists s'. split; [done|]. unfold Ecc.get_value. by rewrite (ecc_value s' _ HR').
Qed.

(** Adding keeps the marks: at a full ring the new value takes over the mark of the
    value it evicts. *)
Lemma add_keeps_marks l e a : length l ≤ cap → e ∈ l.*2 → e ∈ (ecc_step l (EccAdd a)).*2.
Proof.
  intros Hlen He. unfold ecc_step. rewrite marks_push, elem_of_cons. unfold evicted_mark. case_decide.
  - right. by rewrite take_ge by (rewrite length_fmap; ecc_lia).
  - destruct (last l) as [[p m]|] eqn:Hlast; simpl.
    + apply last_Some in Hlast as [l' ->]. rewrite length_app in *. simpl in *.
      rewrite fmap_app in *. rewrite take_app_length' by (rewrite length_fmap; ecc_lia).
      apply elem_of_app in He as [|He]; [by right|]. apply list_elem_of_singleton in He. by left.
    + apply last_None in Hlast. subst l. by apply not_elem_of_nil in He.
Qed.

(** An element that was removed is not removed again, whatever is added in between:
    also when it was added again, and when 1024 values have pushed the removal out of
    the ring of values. *)
Theorem removed_for_good s l e proof h es s1 :
  EccRep s l → Ecc.remove e proof h s = (Ok (Some e), s1) →
  ∃ s2, run_all run_ecc (EccAdd <$> es) s1 = (Ok (replicate (length es) None), s2) ∧
    ∀ proof' h', (Ecc.remove e proof' h' s2).1 = Ok None.
Proof.
  intros HR Hrem. destruct (remove_ok s l e proof h HR) as (s1' & Hrem' & HR1).
  unfold ecc_answer, ecc_step in *. rewrite Hrem in Hrem'. destruct (accepts l e proof h); [|done].
  injection Hrem' as <-.
  assert (e ∈ (push (point_mul (value l) (scalar_invert e)) e l).*2) as He by (rewrite marks_push; by left).
  clear Hrem. revert s1 HR1 He. generalize (push (point_mul (value l) (scalar_invert e)) e l) as l1.
  induction es as [|a es IH]; intros l1 s1 HR1 He.
  - exists s1. split; [done|]. intros proof' h'. destruct (remove_ok s1 l1 e proof' h' HR1) as (s' & -> & _).
    simpl. unfold accepts. by rewrite bool_decide_eq_false_2 by naive_solver.
  - destruct (run_ecc_ok s1 l1 (EccAdd a) HR1) as (s' & Hrun & HR').
    destruct (IH _ s' HR') as (s2 & Hall & Hno).
    { apply add_keeps_marks; [apply (ecc_length _ _ HR1)|done]. }
    exists s2. split; [|done]. by apply (run_all_cons _ _ _ _ _ _ _ _ Hrun).
Qed.

End spec.

(** ** A small curve

    The group of the nonzero residues modulo 11, on which 1 is the base point. *)
Module EccToy.

#[export] Instance residues : EdwardsCurve := {|
  EdwardsPoint := N; Scalar := N;
  ED25519_BASEPOINT_POINT := 1%N; scalar_zero := 0%N;
  point_mul p a := ((p * a) `mod` 11)%N;
  scalar_invert a := ((a ^ 9) `mod` 11)%N;
|}.

#[local] Instance release : BuildProfile := false.

(** Two elements are added and the first removed, with the value before it was
    added as proof; it cannot be removed twice, nor after it is added again; an element
    that was never added is removed. *)
Example elliptic_history :
  (run_all run_ecc [EccAdd 3; EccAdd 5; EccRemove 3 1 3; EccRemove 3 5 4; EccAdd 3; EccRemove 3 5 4;
                    EccRemove 7 10 4]%N Ecc.new).1 =
    Ok [None; None; Some 3; None; None; None; Some 7]%N.
Proof. vm_compute. reflexivity. Qed.

(** The hypotheses of [add_then_remove] hold at an element of that history. *)
Lemma add_then_remove_witness :
  ∃ s1 s2, Ecc.add 3%N Ecc.new = (Ok tt, s1) ∧ Ecc.remove 3%N 1%N 3%N s1 = (Ok (Some 3%N), s2) ∧
    Ecc.get_value s2 = Ok 1%N.
Proof.
  apply (@add_then_remove residues release Ecc.new _ 3%N new_represents); [|done|reflexivity].
  by intros ?%list_elem_of_singleton.
Defined.

End EccToy.
