(* ===== verification/Solana.v ===== *)
(** * What the programs share: accounts, errors, events

    Public keys, the account metadata that the handlers read, and the errors of
    an instruction: an error of the program's own enumeration, a declared account
    constraint that does not hold, or an error of the runtime.  Runtime services
    that are not code of the repository (program-derived addresses, clock, rent)
    are parameters. *)

From S2P Require Import Prelude.

Abbreviation Pubkey := (vec Byte.byte 32).

(** [Pubkey::default]. *)
Definition default_pubkey : Pubkey := vreplicate 32 x00.

(** The errors of an instruction of a program whose own errors are [C].
    [Constraint] is a failed account constraint of a [#[derive(Accounts)]]
    structure; [Runtime] an error of a system call or of another program. *)
Inductive ix_error (C : Type) :=
  | Custom (c : C)
  | Constraint
  | Runtime.
Arguments Custom {C} c.
Arguments Constraint {C}.
Arguments Runtime {C}.

#[export] Instance ix_error_eq_dec {C} `{EqDecision C} : EqDecision (ix_error C).
Proof. solve_decision. Defined.

(** [require!(b, e)] and a declared constraint. *)
Definition require_that {E} (b : bool) (e : E) : outcome E unit := if b then Ok tt else Err e.

Definition constraint {C} (b : bool) : outcome (ix_error C) unit := require_that b Constraint.

Record AccountInfo := mk_AccountInfo {
  key : Pubkey;
  is_signer : bool;
  is_writable : bool;
  owner : Pubkey;
  lamports : N;
}.

(** The wrapper program ([candy-wrapper/src/lib.rs]), whose only purpose is that its
    instruction data is kept with the transaction: it accepts anything. *)
Record Instruction := mk_Instruction {
  program_id : Pubkey;
  ix_accounts : list Pubkey;
  ix_data : bytes;
}.

Module CandyWrapper.

Definition wrap {E} (_instruction_data : bytes) : outcome E unit := Ok tt.

Definition wrap_instruction (candy_wrapper_id : Pubkey) (data : bytes) : Instruction :=
  mk_Instruction candy_wrapper_id [] data.

End CandyWrapper.

(** [find_program_address(seeds, program)]: the address and its bump. *)
Class Pda := find_program_address : list bytes → Pubkey → Pubkey * N.

(** The bytes of a string and of a key, as seeds. *)
Abbreviation key_bytes k := (vec_to_list (k : Pubkey)).

Lemma require_that_inv {E} (b : bool) (e : E) u : require_that b e = Ok u → b = true.
Proof. by destruct b. Qed.

Lemma constraint_inv {C} (b : bool) u : constraint (C:=C) b = Ok u → b = true.
Proof. apply require_that_inv. Qed.
