(* ===== verification/Gummyroll.v ===== *)
(** * The tree program: [contracts/programs/gummyroll/src]

    An account holds a header, a [MerkleRoll] whose sizes the header gives, and
    a canopy: the top of the tree, cached so that clients send shorter proofs.
    The handlers authenticate the caller, complete the proof from the canopy,
    call the [MerkleRoll], emit the change log and refresh the canopy.

    The account is modelled as the typed view that the code takes of its bytes:
    [rest] is what follows the header, either still zeroed (before
    initialisation, any length) or a roll followed by canopy bytes.  A zeroed
    roll is [MerkleRoll.new], whose fields are all zero. *)

From S2P Require Import Prelude Hashing MerkleSpec ChangeLog MerkleRoll Solana.

(** ** State ([state/mod.rs], [error.rs]) *)

Record PathNode := mk_PathNode {
  pn_node : Node;
  pn_index : N;
}.

Record ChangeLogEvent := mk_ChangeLogEvent {
  ev_id : Pubkey;
  ev_path : list PathNode;
  ev_seq : N;
  ev_index : N;
}.

Record MerkleRollHeader := mk_MerkleRollHeader {
  max_buffer_size : N;
  max_depth : N;
  authority : Pubkey;
  append_authority : Pubkey;
  creation_slot : N;
}.

Inductive GummyrollError :=
  | IncorrectLeafLength
  | ConcurrentMerkleTreeError
  | ZeroCopyError
  | MerkleRollConstantsError
  | CanopyLengthMismatch.

#[export] Instance GummyrollError_eq_dec : EqDecision GummyrollError.
Proof. solve_decision. Defined.

Abbreviation g_error := (ix_error GummyrollError).
Abbreviation g_outcome := (outcome g_error).

(** The header of a zeroed account. *)
Definition zero_header : MerkleRollHeader := mk_MerkleRollHeader 0 0 default_pubkey default_pubkey 0.

Inductive rest_data :=
  | Zeroed (len : N)
  | Laid (roll : MerkleRoll) (canopy_bytes : bytes).

(** The Merkle roll account, and the events emitted by the instruction: [emit!]
    logs the event, [wrap_event] passes its serialization to the wrapper program. *)
Inductive event :=
  | Wrapped (data : bytes)
  | Emitted (e : ChangeLogEvent).

Record tree_account := mk_tree_account {
  tree_id : Pubkey;
  header : MerkleRollHeader;
  rest : rest_data;
  events : list event;
}.

Abbreviation g_method := (method tree_account g_error).

(** Borsh serialization of an event ([try_to_vec]). *)
Class EventCodec := try_to_vec : ChangeLogEvent → bytes.

(** [err.into()]: any error of the tree is one error of the program. *)
Definition GummyrollError_of_CMTError (_ : CMTError) : GummyrollError := ConcurrentMerkleTreeError.

Section defs.
Context `{Keccak} `{BuildProfile}.

(** [MerkleRollHeader::initialize]. *)
Definition header_initialize (self : MerkleRollHeader) (max_depth' max_buffer_size' : N)
    (authority' append_authority' : Pubkey) (slot : N) : g_outcome MerkleRollHeader :=
  rust_assert (max_buffer_size self =? 0)%N;;
  rust_assert (max_depth self =? 0)%N;;
  Ok (mk_MerkleRollHeader max_buffer_size' max_depth' authority' append_authority' slot).

(** [Box<ChangeLogEvent>::from((change_log, id, seq))].  The shift counts are in
    range for the depths that the program supports. *)
Definition ChangeLogEvent_from (changelog : ChangeLog) (tree_id : Pubkey) (seq : N) :
    g_outcome ChangeLogEvent :=
  let path_len := N.of_nat (length (path changelog)) in
  nodes ← foldM (λ acc '(lvl, n),
      up ← wsub 32 path_len (N.of_nat lvl);
      base ← wshl 32 1 up;
      offset ← wshr 32 (cl_index changelog) (N.of_nat lvl);
      ix ← wadd 32 base offset;
      Ok (acc ++ [mk_PathNode n ix])) [] (imap pair (path changelog));
  Ok (mk_ChangeLogEvent tree_id (nodes ++ [mk_PathNode (root changelog) 1]) seq (cl_index changelog)).

(** ** The canopy *)

Definition check_canopy_bytes (canopy_bytes : bytes) : g_outcome unit :=
  if (N.of_nat (length canopy_bytes) `mod` 32 =? 0)%N then Ok tt
  else Err (Custom CanopyLengthMismatch).

(** [cast_slice_mut::<u8, Node>], and back. *)
Fixpoint cast_slice (n : nat) (l : bytes) : list Node :=
  match n with
  | O => []
  | S n => vec_of_bytes 32 (take 32 l) :: cast_slice n (drop 32 l)
  end.

Definition canopy_of (canopy_bytes : bytes) : list Node :=
  cast_slice (length canopy_bytes / 32) canopy_bytes.

Definition bytes_of_canopy (canopy : list Node) : bytes := concat (vec_to_list <$> canopy).

Definition get_cached_path_length (canopy : list Node) (max_depth : N) : g_outcome N :=
  let closest_power_of_2 := wrap 32 (N.of_nat (length canopy) + 2) in
  below ← wsub 32 closest_power_of_2 1;
  if (N.land closest_power_of_2 below =? 0)%N then
    up ← wadd 32 max_depth 1;
    max_size ← wshl 32 1 up;
    if (max_size <? closest_power_of_2)%N then Err (Custom CanopyLengthMismatch)
    else wsub 32 (trailing_zeros 32 closest_power_of_2) 1
  else Err (Custom CanopyLengthMismatch).

Definition update_canopy (canopy_bytes : bytes) (max_depth : N) (change_log : option ChangeLogEvent) :
    g_outcome bytes :=
  check_canopy_bytes canopy_bytes;;
  let canopy := canopy_of canopy_bytes in
  path_len ← get_cached_path_length canopy max_depth;
  match change_log with
  | Some cl =>
      canopy ← foldM (λ canopy path_node,
          i ← wsub 32 (pn_index path_node) 2;
          index_set canopy i (pn_node path_node))
        canopy (take (N.to_nat path_len) (drop 1 (reverse (ev_path cl))));
      Ok (bytes_of_canopy canopy)
  | None => Ok canopy_bytes
  end.

(** [Box::new([EMPTY; 30])]. *)
Definition empty_node_cache : list Node := replicate 30 EMPTY.

(** The [while] loop of [fill_in_proof_from_canopy]; [node_idx] loses a bit at
    each turn. *)
Fixpoint canopy_loop (fuel : nat) (max_depth node_idx : N) (canopy inferred_nodes : list Node) :
    g_outcome (list Node * list Node) :=
  match fuel with
  | O => OutOfFuel
  | S fuel =>
      if (1 <? node_idx)%N then
        shifted_index ← wsub 64 node_idx 2;
        cached_idx ← (if (shifted_index `mod` 2 =? 0)%N then wadd 64 shifted_index 1
                      else wsub 64 shifted_index 1);
        cached ← index canopy cached_idx;
        if decide (cached = EMPTY) then
          top ← wsub 32 31 (leading_zeros 32 node_idx);
          level ← wsub 32 max_depth top;
          let empty_node := empty_node_cached (N.to_nat level) empty_node_cache in
          canopy ← index_set canopy cached_idx empty_node;
          canopy_loop fuel max_depth (N.shiftr node_idx 1) canopy (inferred_nodes ++ [empty_node])
        else
          canopy_loop fuel max_depth (N.shiftr node_idx 1) canopy (inferred_nodes ++ [cached])
      else Ok (canopy, inferred_nodes)
  end.

Definition fill_in_proof_from_canopy (canopy_bytes : bytes) (max_depth index : N) (proof : list Node) :
    g_outcome (bytes * list Node) :=
  check_canopy_bytes canopy_bytes;;
  let canopy := canopy_of canopy_bytes in
  path_len ← get_cached_path_length canopy max_depth;
  leaves ← wshl 32 1 max_depth;
  leaf_idx ← wadd 32 leaves index;
  up ← wsub 32 max_depth path_len;
  node_idx ← wshr 32 leaf_idx up;
  '(canopy, inferred_nodes) ← canopy_loop 33 max_depth node_idx canopy [];
  Ok (bytes_of_canopy canopy, proof ++ inferred_nodes).

(** ** Sizes *)

(** [size_of::<MerkleRoll<D, B>>()]: three [u64], [B] change logs and a path, each
    of the latter 32 bytes for the root or the leaf, [D] nodes and two [u32]. *)
Definition size_of_MerkleRoll (d B : N) : N := (24 + B * (40 + 32 * d) + (40 + 32 * d))%N.

(** The pairs that [merkle_roll_get_size!] and [merkle_roll_apply_fn!] match. *)
Definition supported : list (N * N) :=
  ([(3, 8); (5, 8);
    (14, 64); (14, 256); (14, 1024); (14, 2048);
    (20, 64); (20, 256); (20, 1024); (20, 2048);
    (24, 64); (24, 256); (24, 512); (24, 1024); (24, 2048);
    (26, 512); (26, 1024); (26, 2048);
    (30, 512); (30, 1024); (30, 2048)])%N.

Definition merkle_roll_get_size (h : MerkleRollHeader) : g_outcome N :=
  if decide ((max_depth h, max_buffer_size h) ∈ supported)
  then Ok (size_of_MerkleRoll (max_depth h) (max_buffer_size h))
  else Err (Custom MerkleRollConstantsError).

(** [rest.split_at_mut(merkle_roll_size)]. *)
Definition split_rest (h : MerkleRollHeader) (r : rest_data) (size : N) : g_outcome (MerkleRoll * bytes) :=
  match r with
  | Zeroed len =>
      if (size <=? len)%N
      then Ok (new (N.to_nat (max_depth h)) (max_buffer_size h), replicate (N.to_nat (len - size)) x00)
      else Panic
  | Laid roll canopy_bytes => Ok (roll, canopy_bytes)
  end.

(** [merkle_roll_depth_size_apply_fn!]: the call, then the event of the active
    change log; [func] is the method at the sizes of the header. *)
Definition merkle_roll_depth_size_apply_fn (id : Pubkey) (roll : MerkleRoll) (func : cmt_method Node) :
    g_outcome ChangeLogEvent * MerkleRoll :=
  match func roll with
  | (Ok _, roll) =>
      (cl ← map_err (λ e, Custom (GummyrollError_of_CMTError e)) (get_change_log roll);
       ChangeLogEvent_from cl id (sequence_number roll), roll)
  | (Err e, roll) => (Err (Custom ConcurrentMerkleTreeError), roll)
  | (Panic, roll) => (Panic, roll)
  | (OutOfFuel, roll) => (OutOfFuel, roll)
  end.

Definition merkle_roll_apply_fn (h : MerkleRollHeader) (id : Pubkey) (roll : MerkleRoll)
    (func : nat → N → cmt_method Node) : g_outcome ChangeLogEvent * MerkleRoll :=
  if decide ((max_depth h, max_buffer_size h) ∈ supported)
  then merkle_roll_depth_size_apply_fn id roll (func (N.to_nat (max_depth h)) (max_buffer_size h))
  else (Err (Custom MerkleRollConstantsError), roll).

(** ** Instructions *)
Context `{EventCodec}.

Definition set_header (h : MerkleRollHeader) (a : tree_account) : tree_account :=
  mk_tree_account (tree_id a) h (rest a) (events a).
Definition set_rest (roll : MerkleRoll) (canopy_bytes : bytes) (a : tree_account) : tree_account :=
  mk_tree_account (tree_id a) (header a) (Laid roll canopy_bytes) (events a).
Definition log_event (e : event) (a : tree_account) : tree_account :=
  mk_tree_account (tree_id a) (header a) (rest a) (events a ++ [e]).

Context (candy_wrapper_id : Pubkey).

(** [wrap_event]: the data is passed to the wrapper program, that is logged. *)
Definition wrap_event (data : bytes) : g_method unit :=
  let ix := CandyWrapper.wrap_instruction candy_wrapper_id data in
  lift (CandyWrapper.wrap (ix_data ix));;
  modify (log_event (Wrapped (ix_data ix))).

(** The end of every handler that writes: publish the event, refresh the canopy. *)
Definition publish (roll : MerkleRoll) (canopy_bytes : bytes) (max_depth : N)
    (change_log : ChangeLogEvent) (refresh : option ChangeLogEvent) : g_method unit :=
  wrap_event (try_to_vec change_log);;
  modify (log_event (Emitted change_log));;
  canopy_bytes ← lift (update_canopy canopy_bytes max_depth refresh);
  modify (set_rest roll canopy_bytes).

Definition apply_roll (h : MerkleRollHeader) (roll : MerkleRoll) (func : nat → N → cmt_method Node) :
    g_method (ChangeLogEvent * MerkleRoll) := λ self,
  match merkle_roll_apply_fn h (tree_id self) roll func with
  | (Ok change_log, roll) => (Ok (change_log, roll), self)
  | (Err e, _) => (Err e, self)
  | (Panic, _) => (Panic, self)
  | (OutOfFuel, _) => (OutOfFuel, self)
  end.

(** The accounts of the instructions: the metadata that is checked, and the keys
    of the remaining accounts, which are the nodes of the proof. *)
Record g_accounts := mk_g_accounts {
  acc_merkle_roll : AccountInfo;
  acc_authority : AccountInfo;
  acc_append_authority : AccountInfo;
  acc_candy_wrapper : AccountInfo;
  remaining_accounts : list Pubkey;
  clock_slot : g_outcome N;
}.

(** [#[account(zero)]] of [Initialize]: the first eight bytes of the account,
    the two sizes of the header, are zero. *)
Definition Initialize_ok (self : tree_account) (accs : g_accounts) : g_outcome unit :=
  constraint ((max_buffer_size (header self) =? 0)%N && (max_depth (header self) =? 0)%N &&
              is_writable (acc_merkle_roll accs) && is_signer (acc_authority accs) &&
              bool_decide (key (acc_candy_wrapper accs) = candy_wrapper_id)).

Definition Modify_ok (accs : g_accounts) : g_outcome unit :=
  constraint (is_writable (acc_merkle_roll accs) && is_signer (acc_authority accs) &&
              bool_decide (key (acc_candy_wrapper accs) = candy_wrapper_id)).

Definition Append_ok (accs : g_accounts) : g_outcome unit :=
  constraint (is_writable (acc_merkle_roll accs) && is_signer (acc_authority accs) &&
              is_signer (acc_append_authority accs) &&
              bool_decide (key (acc_candy_wrapper accs) = candy_wrapper_id)).

Definition TransferAuthority_ok (accs : g_accounts) : g_outcome unit :=
  constraint (is_writable (acc_merkle_roll accs) && is_signer (acc_authority accs)).

Definition init_empty_gummyroll (accs : g_accounts) (max_depth' max_buffer_size' : N) : g_method unit :=
  self ← get;
  lift (Initialize_ok self accs);;
  slot ← lift (clock_slot accs);
  h ← lift (header_initialize (header self) max_depth' max_buffer_size' (key (acc_authority accs))
              (key (acc_append_authority accs)) slot);
  modify (set_header h);;
  merkle_roll_size ← lift (merkle_roll_get_size h);
  '(roll, canopy_bytes) ← lift (split_rest h (rest self) merkle_roll_size);
  '(change_log, roll) ← apply_roll h roll (λ d B, initialize d B);
  publish roll canopy_bytes (max_depth h) change_log None.

Definition init_gummyroll_with_root (accs : g_accounts) (max_depth' max_buffer_size' : N)
    (root leaf : Node) (index : N) : g_method unit :=
  self ← get;
  lift (Initialize_ok self accs);;
  slot ← lift (clock_slot accs);
  h ← lift (header_initialize (header self) max_depth' max_buffer_size' (key (acc_authority accs))
              (key (acc_append_authority accs)) slot);
  modify (set_header h);;
  merkle_roll_size ← lift (merkle_roll_get_size h);
  '(roll, canopy_bytes) ← lift (split_rest h (rest self) merkle_roll_size);
  '(canopy_bytes, proof) ←
    lift (fill_in_proof_from_canopy canopy_bytes (max_depth h) index (remaining_accounts accs));
  lift (rust_assert (N.of_nat (length proof) =? max_depth')%N);;
  '(change_log, roll) ←
    apply_roll h roll (λ d B, initialize_with_root d B root leaf proof index);
  publish roll canopy_bytes (max_depth h) change_log (Some change_log).

Definition replace_leaf (accs : g_accounts) (root previous_leaf new_leaf : Node) (index : N) :
    g_method unit :=
  lift (Modify_ok accs);;
  self ← get;
  let h := header self in
  lift (rust_assert (bool_decide (authority h = key (acc_authority accs))));;
  merkle_roll_size ← lift (merkle_roll_get_size h);
  '(roll, canopy_bytes) ← lift (split_rest h (rest self) merkle_roll_size);
  '(canopy_bytes, proof) ←
    lift (fill_in_proof_from_canopy canopy_bytes (max_depth h) index (remaining_accounts accs));
  '(change_log, roll) ←
    apply_roll h roll (λ d B, set_leaf d B root previous_leaf new_leaf proof index);
  publish roll canopy_bytes (max_depth h) change_log (Some change_log).

Definition transfer_authority (accs : g_accounts) (new_authority new_append_authority : option Pubkey) :
    g_method unit :=
  lift (TransferAuthority_ok accs);;
  self ← get;
  let h := header self in
  lift (rust_assert (bool_decide (authority h = key (acc_authority accs))));;
  modify (set_header (mk_MerkleRollHeader (max_buffer_size h) (max_depth h)
    (default (authority h) new_authority) (default (append_authority h) new_append_authority)
    (creation_slot h))).

(** [verify_leaf] borrows the account mutably: the canopy that
    [fill_in_proof_from_canopy] completes is written when the account is writable. *)
Definition verify_leaf (accs : g_accounts) (root leaf : Node) (index : N) : g_method unit :=
  self ← get;
  let h := header self in
  merkle_roll_size ← lift (merkle_roll_get_size h);
  '(roll, canopy_bytes) ← lift (split_rest h (rest self) merkle_roll_size);
  '(canopy_bytes, proof) ←
    lift (fill_in_proof_from_canopy canopy_bytes (max_depth h) index (remaining_accounts accs));
  '(_, roll) ← apply_roll h roll (λ d B, prove_leaf d B root leaf proof index);
  modify (set_rest roll canopy_bytes).

Definition append_instruction (accs : g_accounts) (leaf : Node) : g_method unit :=
  lift (Append_ok accs);;
  self ← get;
  let h := header self in
  lift (rust_assert (bool_decide (authority h = key (acc_authority accs))));;
  lift (rust_assert (bool_decide (append_authority h = key (acc_append_authority accs))));;
  merkle_roll_size ← lift (merkle_roll_get_size h);
  '(roll, canopy_bytes) ← lift (split_rest h (rest self) merkle_roll_size);
  '(change_log, roll) ← apply_roll h roll (λ d B, append d B leaf);
  publish roll canopy_bytes (max_depth h) change_log (Some change_log).

Definition insert_or_append (accs : g_accounts) (root leaf : Node) (index : N) : g_method unit :=
  lift (Modify_ok accs);;
  self ← get;
  let h := header self in
  lift (rust_assert (bool_decide (authority h = key (acc_authority accs))));;
  merkle_roll_size ← lift (merkle_roll_get_size h);
  '(roll, canopy_bytes) ← lift (split_rest h (rest self) merkle_roll_size);
  '(canopy_bytes, proof) ←
    lift (fill_in_proof_from_canopy canopy_bytes (max_depth h) index (remaining_accounts accs));
  '(change_log, roll) ←
    apply_roll h roll (λ d B, fill_empty_or_append d B root leaf proof index);
  publish roll canopy_bytes (max_depth h) change_log (Some change_log).
End defs.
