(* ===== verification/GummyrollCanopy.v ===== *)
(** * The canopy of the tree program

    A canopy of height [p] caches the nodes of the [p] levels below the root:
    node [j] of depth [k] is at position [2^k + j - 2], an entry that is [EMPTY]
    stands for an empty subtree.  Completing a proof from the canopy gives the
    top of the proof of the newest tree; refreshing it from the event of a write
    keeps it up to date. *)

From S2P Require Import Prelude Hashing MerkleSpec ChangeLog MerkleRoll MerkleRollSpec.
From S2P Require Import MerkleRollLemmas MerkleRollWrite Solana Gummyroll.

(** ** Lists of bytes and nodes *)
Section casting.

Lemma vec_of_bytes_to_list n (v : vec Byte.byte n) : vec_of_bytes n (vec_to_list v) = v.
Proof. induction v as [|b n v IH]; simpl; [done|]. by rewrite IH. Qed.

Lemma length_bytes_of_canopy c : length (bytes_of_canopy c) = 32 * length c.
Proof.
  unfold bytes_of_canopy. induction c as [|v c IH]; [done|].
  rewrite fmap_cons. cbn [concat]. rewrite length_app, length_vec_to_list, IH. simpl. lia.
Qed.

Lemma canopy_of_bytes c : canopy_of (bytes_of_canopy c) = c.
Proof.
  unfold canopy_of. rewrite length_bytes_of_canopy, Nat.mul_comm, Nat.div_mul by done.
  unfold bytes_of_canopy. induction c as [|v c IH]; [done|].
  rewrite fmap_cons. cbn [length cast_slice concat].
  rewrite take_app_length', drop_app_length' by by rewrite length_vec_to_list.
  by rewrite vec_of_bytes_to_list, IH.
Qed.

Lemma check_canopy_bytes_ok c : check_canopy_bytes (bytes_of_canopy c) = Ok tt.
Proof.
  unfold check_canopy_bytes. rewrite length_bytes_of_canopy, Nat2N.inj_mul, N.mul_comm.
  by rewrite N.Div0.mod_mul.
Qed.
End casting.

Lemma snoc_app {A} (l : list A) x k : l ++ x :: k = (l ++ [x]) ++ k.
Proof. by rewrite <-app_assoc. Qed.

(** ** Powers of two *)
Section powers.
Local Open Scope N_scope.

Lemma trailing_zeros_pow2 n w : trailing_zeros w (2 ^ N.of_nat n) = N.of_nat n.
Proof.
  induction n as [|n IH]; [done|].
  rewrite Nat2N.inj_succ, N.pow_succ_r'. pose proof (N.pow_nonzero 2 (N.of_nat n) ltac:(done)).
  unfold trailing_zeros in *. destruct (2 ^ N.of_nat n) as [|q] eqn:Hq; [done|].
  change (2 * N.pos q) with (N.pos q~0). cbn [pos_trailing_zeros]. by rewrite IH.
Qed.

Lemma land_pow2 n : N.land (2 ^ n) (2 ^ n - 1) = 0.
Proof. by rewrite land_mask, N.Div0.mod_same. Qed.

(** The heap index of a node determines its depth and its position. *)
Lemma heap_index_inj k j k' j' :
  j < 2 ^ k → j' < 2 ^ k' → 2 ^ k + j = 2 ^ k' + j' → k = k' ∧ j = j'.
Proof.
  intros Hj Hj' Heq. assert (k = k') as ->; [|split; [done|lia]].
  pose proof (N.pow_nonzero 2 k ltac:(done)). pose proof (N.pow_nonzero 2 k' ltac:(done)).
  transitivity (N.log2 (2 ^ k + j)).
  - symmetry. apply N.log2_unique; [lia|]. rewrite N.pow_succ_r'. lia.
  - rewrite Heq. apply N.log2_unique; [lia|]. rewrite N.pow_succ_r'. lia.
Qed.

Lemma log2_heap_index k j : j < 2 ^ k → N.log2 (2 ^ k + j) = k.
Proof.
  intros Hj. pose proof (N.pow_nonzero 2 k ltac:(done)).
  apply N.log2_unique; [lia|]. rewrite N.pow_succ_r'. lia.
Qed.

Lemma shiftr_heap_index k j n :
  n ≤ k → N.shiftr (2 ^ k + j) n = 2 ^ (k - n) + N.shiftr j n.
Proof.
  intros Hn. rewrite !N.shiftr_div_pow2. replace (2 ^ k) with (2 ^ (k - n) * 2 ^ n).
  - rewrite N.div_add_l; [done|]. by apply N.pow_nonzero.
  - rewrite <-N.pow_add_r. f_equal. lia.
Qed.
End powers.

(** ** What a canopy represents *)
Section canopy.
Context `{Keccak} `{BuildProfile}.
Implicit Types (T : tree) (c : list Node) (d p k l : nat) (i j : N).

Definition cell T d k j (x : Node) : Prop :=
  (x = EMPTY → tnode T (d - k) j = empty_node (d - k)) ∧ (x ≠ EMPTY → x = tnode T (d - k) j).

Definition position k j : nat := N.to_nat (2 ^ N.of_nat k + j - 2).

Record canopy_rep c T d p : Prop := mk_canopy_rep {
  cr_height : p ≤ d;
  cr_length : N.of_nat (length c) = (2 ^ N.of_nat (S p) - 2)%N;
  cr_cells : ∀ k j, 1 ≤ k ≤ p → (j < 2 ^ N.of_nat k)%N →
    ∃ x, c !! position k j = Some x ∧ cell T d k j x;
}.

Lemma pow2_ge_2 k : 1 ≤ k → (2 ≤ 2 ^ N.of_nat k)%N.
Proof. intros. apply (N.pow_le_mono_r 2 1); lia. Qed.

Lemma position_inj k j k' j' :
  1 ≤ k → 1 ≤ k' → (j < 2 ^ N.of_nat k)%N → (j' < 2 ^ N.of_nat k')%N →
  position k j = position k' j' → k = k' ∧ j = j'.
Proof.
  intros Hk Hk' Hj Hj' Heq. unfold position in Heq.
  pose proof (pow2_ge_2 k Hk). pose proof (pow2_ge_2 k' Hk').
  destruct (heap_index_inj (N.of_nat k) j (N.of_nat k') j') as [? ?]; [done|done|lia|].
  split; [lia|done].
Qed.

(** Writing one cell. *)
Lemma canopy_rep_insert c T d p k j x :
  canopy_rep c T d p → 1 ≤ k ≤ p → (j < 2 ^ N.of_nat k)%N → cell T d k j x →
  canopy_rep (<[position k j := x]> c) T d p.
Proof.
  intros [Hp Hlen Hcells] Hk Hj Hx. split; [done|by rewrite length_insert|].
  intros k' j' Hk' Hj'. destruct (Hcells k' j' Hk' Hj') as (y & Hy & Hcell).
  destruct (decide (position k j = position k' j')) as [Heq|Hne].
  - apply position_inj in Heq as [-> ->]; [|lia..|done|done].
    exists x. split; [|done]. apply list_lookup_insert_eq. by eapply lookup_lt_Some.
  - exists y. split; [|done]. by rewrite list_lookup_insert_ne.
Qed.

Lemma get_cached_path_length_ok c T d p :
  canopy_rep c T d p → d ≤ 30 → get_cached_path_length c (N.of_nat d) = Ok (N.of_nat p).
Proof.
  intros [Hp Hlen _] Hd. unfold get_cached_path_length. rewrite Hlen.
  pose proof (pow2_ge_2 (S p) ltac:(lia)) as H2.
  assert (2 ^ N.of_nat (S p) ≤ 2 ^ N.of_nat (S d))%N as Hle by (apply N.pow_le_mono_r; lia).
  assert (2 ^ N.of_nat (S d) < 2 ^ 32)%N by (apply N.pow_lt_mono_r; lia).
  replace (2 ^ N.of_nat (S p) - 2 + 2)%N with (2 ^ N.of_nat (S p))%N by lia.
  rewrite N.mod_small by lia. ok_step. rewrite land_pow2. cbn [N.eqb]. rewrite N.eqb_refl.
  ok_step. replace (N.of_nat d + 1)%N with (N.of_nat (S d)) by lia.
  rewrite wshl_ok by (rewrite ?shiftl_1_pow; lia). simpl. rewrite shiftl_1_pow.
  rewrite (proj2 (N.ltb_ge _ _)) by lia. rewrite trailing_zeros_pow2. ok_step. f_equal. lia.
Qed.

(** ** Completing a proof *)

(** The sibling of a node of the path, in heap order. *)
Lemma sibling_position i d k :
  1 ≤ k ≤ d → (i < 2 ^ N.of_nat d)%N →
  let shifted := (2 ^ N.of_nat k + ix i (d - k) - 2)%N in
  (if (shifted `mod` 2 =? 0)%N then shifted + 1 else shifted - 1)%N =
    (2 ^ N.of_nat k + sibling_ix i (d - k) - 2)%N ∧
  (shifted `mod` 2 ≠ 0 → 1 ≤ shifted)%N ∧ (sibling_ix i (d - k) < 2 ^ N.of_nat k)%N.
Proof.
  intros Hk Hi shifted. subst shifted. pose proof (pow2_ge_2 k ltac:(lia)) as H2.
  assert (ix i (d - k) < 2 ^ N.of_nat k)%N as Hix.
  { replace k with (d - (d - k)) at 2 by lia. apply ix_lt; [lia|done]. }
  assert (∃ h, 2 ^ N.of_nat k = 2 * h)%N as [h Hh].
  { exists (2 ^ N.of_nat (k - 1))%N. rewrite <-N.pow_succ_r'. f_equal. lia. }
  destruct (ix_children i (d - k)) as [Hx Hs]. rewrite Hx, Hs in *. rewrite Hh in *.
  set (q := ix i (S (d - k))) in *. destruct (N.testbit i (N.of_nat (d - k))).
  - replace (2 * h + (2 * q + 1) - 2)%N with (1 + (h + q - 1) * 2)%N by lia.
    rewrite N.Div0.mod_add. change (1 `mod` 2 =? 0)%N with false. cbn iota. lia.
  - replace (2 * h + 2 * q - 2)%N with (0 + (h + q - 1) * 2)%N by lia.
    rewrite N.Div0.mod_add. change (0 `mod` 2 =? 0)%N with true. cbn iota. split; [lia|].
    split; [|lia]. intros Hne. by change (0 `mod` 2)%N with 0%N in Hne.
Qed.

Lemma canopy_loop_ok fuel c T d p i k acc :
  canopy_rep c T d p → d ≤ 30 → (i < 2 ^ N.of_nat d)%N → k ≤ p → k < fuel →
  ∃ c', canopy_loop fuel (N.of_nat d) (2 ^ N.of_nat k + ix i (d - k)) c acc =
      Ok (c', acc ++ ((λ l, tnode T l (sibling_ix i l)) <$> seq (d - k) k)) ∧ canopy_rep c' T d p.
Proof.
  intros Hc Hd Hi. revert fuel c acc Hc. induction k as [|k IH]; intros fuel c acc Hc Hk Hfuel;
    (destruct fuel as [|fuel]; [lia|]); cbn [canopy_loop].
  { rewrite Nat.sub_0_r, ix_eq_0 by done. change (1 <? 2 ^ N.of_nat 0 + 0)%N with false.
    cbn iota. rewrite app_nil_r. eauto. }
  pose proof (cr_height _ _ _ _ Hc) as Hpd.
  replace (seq (d - S k) (S k)) with ((d - S k) :: seq (d - k) k)
    by (cbn [seq]; do 2 f_equal; lia).
  rewrite fmap_cons. pose proof (pow2_ge_2 (S k) ltac:(lia)) as H2.
  assert (2 ^ N.of_nat (S k) ≤ 2 ^ 30)%N by (apply N.pow_le_mono_r; lia).
  assert (ix i (d - S k) < 2 ^ N.of_nat (S k))%N as Hix.
  { replace (S k) with (d - (d - S k)) at 2 by lia. apply ix_lt; [lia|done]. }
  rewrite (proj2 (N.ltb_lt _ _)) by lia. ok_step.
  destruct (sibling_position i d (S k) ltac:(lia) Hi) as (Hpos & Hodd & Hsib).
  set (shifted := (2 ^ N.of_nat (S k) + ix i (d - S k) - 2)%N) in *.
  assert ((if (shifted `mod` 2 =? 0)%N then wadd (E:=g_error) 64 shifted 1 else wsub 64 shifted 1) =
    Ok (2 ^ N.of_nat (S k) + sibling_ix i (d - S k) - 2)%N) as ->.
  { rewrite <-Hpos. destruct (shifted `mod` 2 =? 0)%N eqn:Hm; [by rewrite wadd_ok by lia|].
    apply N.eqb_neq in Hm. rewrite wsub_ok; [done|by apply Hodd]. }
  simpl. destruct (cr_cells _ _ _ _ Hc (S k) _ ltac:(lia) Hsib) as (x & Hx & Hcell).
  rewrite (index_lookup _ _ _ Hx). simpl.
  replace (N.shiftr (2 ^ N.of_nat (S k) + ix i (d - S k)) 1)
    with (2 ^ N.of_nat k + ix i (d - k))%N; last first.
  { rewrite shiftr_heap_index by lia. replace (d - k) with (S (d - S k)) by lia.
    rewrite ix_S. f_equal. f_equal. lia. }
  destruct Hcell as [Hempty Hfull]. case_decide as He.
  - assert (leading_zeros 32 (2 ^ N.of_nat (S k) + ix i (d - S k)) = 31 - N.of_nat (S k))%N as ->.
    { unfold leading_zeros. rewrite size_log2 by lia. rewrite log2_heap_index by done. lia. }
    do 2 ok_step. rewrite index_set_lt by (apply lookup_lt_Some in Hx; exact Hx). simpl.
    unfold empty_node_cache. rewrite empty_node_cached_replicate.
    replace (N.to_nat (N.of_nat d - (31 - (31 - N.of_nat (S k)))))%N with (d - S k) by lia.
    rewrite <-(Hempty He), (snoc_app acc _ (_ <$> _)). apply IH; [|lia|lia].
    apply (canopy_rep_insert c T d p (S k)); [done|lia|done|].
    split; [by rewrite Hempty|done].
  - rewrite (Hfull He), (snoc_app acc _ (_ <$> _)). apply IH; [done|lia|lia].
Qed.

Lemma canopy_loop_S fuel (d n : N) c acc :
  canopy_loop (S fuel) d n c acc =
  if (1 <? n)%N then
    shifted ← wsub 64 n 2;
    cached_idx ← (if (shifted `mod` 2 =? 0)%N then wadd 64 shifted 1 else wsub 64 shifted 1);
    cached ← index c cached_idx;
    if decide (cached = EMPTY) then
      top ← wsub 32 31 (leading_zeros 32 n);
      level ← wsub 32 d top;
      let e := empty_node_cached (N.to_nat level) empty_node_cache in
      c ← index_set c cached_idx e;
      canopy_loop fuel d (N.shiftr n 1) c (acc ++ [e])
    else canopy_loop fuel d (N.shiftr n 1) c (acc ++ [cached])
  else Ok (c, acc).
Proof. done. Qed.

#[global] Arguments canopy_loop : simpl never.

(** A proof of the lower levels, completed from the canopy. *)
Lemma fill_in_proof_from_canopy_ok c T d p i proof :
  canopy_rep c T d p → 0 < d ≤ 30 → (i < 2 ^ N.of_nat d)%N →
  ∃ c', fill_in_proof_from_canopy (bytes_of_canopy c) (N.of_nat d) i proof =
      Ok (bytes_of_canopy c', proof ++ drop (d - p) (tproof T d i)) ∧ canopy_rep c' T d p.
Proof.
  intros Hc Hd Hi. pose proof (cr_height _ _ _ _ Hc) as Hpd.
  destruct (canopy_loop_ok 33 c T d p i p [] Hc) as (c' & Hrun & Hc'); [lia|done|lia|lia|].
  exists c'. split; [|done]. revert Hrun. unfold fill_in_proof_from_canopy. generalize 33.
  intros fuel Hrun. rewrite check_canopy_bytes_ok. simpl.
  rewrite canopy_of_bytes, (get_cached_path_length_ok c T d p) by (first [done|lia]). simpl.
  assert (2 ^ N.of_nat d * 2 ≤ 2 ^ 31)%N.
  { rewrite N.mul_comm, <-N.pow_succ_r'. apply N.pow_le_mono_r; lia. }
  rewrite wshl_ok by (rewrite ?shiftl_1_pow; lia). simpl. rewrite shiftl_1_pow.
  do 2 ok_step. rewrite wshr_ok by lia. simpl. rewrite shiftr_heap_index by lia.
  replace (N.of_nat d - (N.of_nat d - N.of_nat p))%N with (N.of_nat p) by lia.
  replace (N.of_nat d - N.of_nat p)%N with (N.of_nat (d - p)) by lia.
  rewrite Hrun. simpl. do 3 f_equal.
  unfold tproof. rewrite <-fmap_drop, drop_seq. by replace (d - (d - p)) with p by lia.
Qed.
End canopy.

(** ** The event of a write *)
Section event.
Context `{Keccak} `{BuildProfile}.
Implicit Types (T : tree) (c : list Node) (d p k l : nat) (i j : N).

Definition event_node T d i l : PathNode :=
  mk_PathNode (tnode T l (ix i l)) (2 ^ N.of_nat (d - l) + ix i l).

(** The event that describes the write of leaf [i] that led to [T]: the path from
    the leaf to the root, each node with its index in heap order. *)
Definition event_of (id : Pubkey) T d i (seq' : N) : ChangeLogEvent :=
  mk_ChangeLogEvent id (event_node T d i <$> seq 0 (S d)) seq' i.

Lemma ChangeLogEvent_from_ok T d i id seq' :
  0 < d ≤ 30 → (i < 2 ^ N.of_nat d)%N →
  ChangeLogEvent_from (log_of d T i) id seq' = Ok (event_of id T d i seq').
Proof.
  intros Hd Hi. unfold ChangeLogEvent_from, log_of. cbn [path root cl_index].
  rewrite length_tpath.
  rewrite (foldM_snoc _ (λ x : nat * Node, event_node T d i x.1)).
  - simpl. unfold event_of. do 2 f_equal. rewrite seq_S, fmap_app. f_equal.
    + apply list_eq. intros l. rewrite list_lookup_fmap, list_lookup_imap.
      destruct (decide (l < d)) as [Hl|Hl].
      * by rewrite lookup_tpath, list_lookup_fmap, lookup_seq_lt by done.
      * rewrite list_lookup_fmap, !(proj2 (lookup_ge_None _ _));
          [done|rewrite length_seq; lia|rewrite length_tpath; lia].
    + simpl. unfold event_node. rewrite Nat.sub_diag, ix_eq_0 by done. done.
  - intros acc [l n] Hin. apply list_elem_of_lookup in Hin as [l' Hl].
    rewrite list_lookup_imap in Hl. destruct (tpath T d i !! l') as [n'|] eqn:Hn; [|done].
    injection Hl as <- <-. assert (l' < d) as Hl by (rewrite <-(length_tpath T d i); by eapply lookup_lt_Some).
    rewrite lookup_tpath in Hn by done. injection Hn as <-.
    assert (2 ^ N.of_nat (d - l') ≤ 2 ^ 30)%N by (apply N.pow_le_mono_r; lia).
    pose proof (ix_lt i l' d ltac:(lia) Hi).
    ok_step. replace (N.of_nat d - N.of_nat l')%N with (N.of_nat (d - l')) by lia.
    rewrite wshl_ok by (rewrite ?shiftl_1_pow; lia). simpl. rewrite shiftl_1_pow.
    rewrite wshr_ok by lia. simpl. ok_step. done.
Qed.

(** ** Refreshing the canopy *)

(** The nodes hashed on the path of the written leaf are not the zero node. *)
Definition nonzero_path T d i : Prop := ∀ l, 0 < l < d → tnode T l (ix i l) ≠ EMPTY.

(** The canopy after the first [m] levels of the path were refreshed. *)
Definition refreshed c T T' d p i m : Prop :=
  N.of_nat (length c) = (2 ^ N.of_nat (S p) - 2)%N ∧
  ∀ k j, 1 ≤ k ≤ p → (j < 2 ^ N.of_nat k)%N →
    ∃ x, c !! position k j = Some x ∧ cell (if decide (j = ix i (d - k) ∧ m < k) then T else T') d k j x.

Lemma refreshed_0 c T d p i v : canopy_rep c T d p → refreshed c T (<[i:=v]> T) d p i 0.
Proof.
  intros Hc. split; [apply Hc|]. intros k j Hk Hj.
  destruct (cr_cells _ _ _ _ Hc k j Hk Hj) as (x & Hx & Hcell). exists x. split; [done|].
  case_decide as Hd; [done|]. unfold cell. rewrite tnode_insert_ne; [done|].
  intros ->. apply Hd. split; [done|lia].
Qed.

Lemma refreshed_all c T T' d p i : p ≤ d → refreshed c T T' d p i p → canopy_rep c T' d p.
Proof.
  intros Hp [Hlen Hcells]. split; [done..|]. intros k j Hk Hj.
  destruct (Hcells k j Hk Hj) as (x & Hx & Hcell). exists x.
  by rewrite decide_False in Hcell by lia.
Qed.

Lemma refreshed_step c T T' d p i m :
  refreshed c T T' d p i m → m < p ≤ d → (i < 2 ^ N.of_nat d)%N → nonzero_path T' d i →
  let c' := <[position (S m) (ix i (d - S m)) := tnode T' (d - S m) (ix i (d - S m))]> c in
  position (S m) (ix i (d - S m)) < length c ∧ refreshed c' T T' d p i (S m).
Proof.
  intros [Hlen Hcells] Hm Hi Hnz c'. subst c'.
  assert (ix i (d - S m) < 2 ^ N.of_nat (S m))%N as Hix.
  { replace (S m) with (d - (d - S m)) at 2 by lia. apply ix_lt; [lia|done]. }
  destruct (Hcells (S m) _ ltac:(lia) Hix) as (x0 & Hx0 & _).
  pose proof (lookup_lt_Some _ _ _ Hx0) as Hlt. split; [done|].
  split; [by rewrite length_insert|]. intros k j Hk Hj.
  destruct (Hcells k j Hk Hj) as (x & Hx & Hcell).
  destruct (decide (position (S m) (ix i (d - S m)) = position k j)) as [Heq|Hne].
  - apply position_inj in Heq as [<- <-]; [|lia..|done|done].
    eexists. split; [by apply list_lookup_insert_eq|]. rewrite decide_False by lia.
    split; [|done]. intros He. destruct (decide (d - S m = 0)) as [Hz|Hz].
    + by rewrite He, Hz.
    + exfalso. apply (Hnz (d - S m)); [lia|done].
  - exists x. split; [by rewrite list_lookup_insert_ne|].
    destruct (decide (j = ix i (d - k) ∧ m < k)) as [[-> Hmk]|Hd1];
      destruct (decide (_ ∧ S m < k)) as [Hd2|Hd2] in |- *; try done.
    + destruct (decide (k = S m)) as [->|]; [done|]. destruct Hd2. split; [done|lia].
    + destruct Hd1. destruct Hd2. split; [done|lia].
Qed.

Lemma refresh_loop_ok c T T' d p i m n :
  refreshed c T T' d p i m → m + n = p → p ≤ d ≤ 30 → (i < 2 ^ N.of_nat d)%N → nonzero_path T' d i →
  ∃ c', foldM (E:=g_error) (λ canopy path_node,
          i ← wsub 32 (pn_index path_node) 2;
          index_set canopy i (pn_node path_node)) c
        ((λ k, event_node T' d i (d - S k)) <$> seq m n) = Ok c' ∧ refreshed c' T T' d p i p.
Proof.
  revert c m. induction n as [|n IH]; intros c m Hc Hmn Hp Hi Hnz; simpl.
  { replace m with p in Hc by lia. eauto. }
  destruct (refreshed_step c T T' d p i m) as [Hlt Hc']; [done|lia|done|done|].
  pose proof (pow2_ge_2 (S m) ltac:(lia)).
  assert (d - (d - S m) = S m) as Hdm by lia. rewrite Hdm.
  ok_step. rewrite index_set_lt by exact Hlt. simpl. apply IH; [exact Hc'|lia|lia|done|done].
Qed.

(** The levels that [update_canopy] visits. *)
Lemma event_levels T' d i p :
  p ≤ d →
  take p (drop 1 (reverse (event_node T' d i <$> seq 0 (S d)))) =
  (λ k, event_node T' d i (d - S k)) <$> seq 0 p.
Proof.
  intros Hp. rewrite seq_S, fmap_app. rewrite fmap_cons, fmap_nil, reverse_snoc. rewrite skipn_cons, drop_0.
  apply list_eq. intros k. destruct (decide (k < p)) as [Hk|Hk].
  - rewrite lookup_take_lt by done. rewrite reverse_lookup by (rewrite length_fmap, length_seq; lia).
    rewrite !list_lookup_fmap, length_fmap, length_seq, !lookup_seq_lt by lia. done.
  - rewrite !(proj2 (lookup_ge_None _ _)); [done|..].
    + rewrite length_fmap, length_seq. lia.
    + rewrite length_take. lia.
Qed.

(** [update_canopy] with the event of a write represents the new tree. *)
Lemma update_canopy_ok c T d p i v id seq' :
  canopy_rep c T d p → 0 < d ≤ 30 → (i < 2 ^ N.of_nat d)%N → nonzero_path (<[i:=v]> T) d i →
  ∃ c', update_canopy (bytes_of_canopy c) (N.of_nat d) (Some (event_of id (<[i:=v]> T) d i seq')) =
      Ok (bytes_of_canopy c') ∧ canopy_rep c' (<[i:=v]> T) d p.
Proof.
  intros Hc Hd Hi Hnz. pose proof (cr_height _ _ _ _ Hc) as Hp.
  unfold update_canopy. rewrite check_canopy_bytes_ok. cbn [mbind outcome_bind].
  rewrite canopy_of_bytes, (get_cached_path_length_ok c T d p) by (first [done|lia]).
  cbn [mbind outcome_bind event_of ev_path]. rewrite Nat2N.id, event_levels by done.
  destruct (refresh_loop_ok c T (<[i:=v]> T) d p i 0 p) as (c' & -> & Hc');
    [by apply refreshed_0|done|lia|done|done|].
  exists c'. split; [done|]. by eapply refreshed_all.
Qed.

Lemma update_canopy_none c T d p :
  canopy_rep c T d p → d ≤ 30 →
  update_canopy (bytes_of_canopy c) (N.of_nat d) None = Ok (bytes_of_canopy c).
Proof.
  intros Hc Hd. unfold update_canopy. rewrite check_canopy_bytes_ok. cbn [mbind outcome_bind].
  by rewrite canopy_of_bytes, (get_cached_path_length_ok c T d p).
Qed.
End event.

(** ** Outside of the canopy *)
Section outside.
Context `{Keccak} `{BuildProfile}.
Implicit Types (T : tree) (c : list Node) (d p : nat) (i : N).

(** One turn of the canopy loop outside of the canopy. *)
Lemma canopy_loop_out_of_range fuel (d : N) c n p acc :
  (N.of_nat (length c) = 2 ^ N.of_nat (S p) - 2)%N → (2 ^ N.of_nat (S p) ≤ n)%N → (n < 2 ^ 32)%N →
  canopy_loop (S fuel) d n c acc = Panic.
Proof.
  intros Hlen Hn Hn32. pose proof (pow2_ge_2 (S p) ltac:(lia)) as H2.
  rewrite canopy_loop_S. rewrite (proj2 (N.ltb_lt _ _)) by lia. ok_step.
  assert (∃ h, 2 ^ N.of_nat (S p) = 2 * h)%N as [h Hh].
  { exists (2 ^ N.of_nat p)%N. rewrite <-N.pow_succ_r'. f_equal. lia. }
  destruct ((n - 2) `mod` 2 =? 0)%N eqn:Hm.
  - ok_step. rewrite index_ge; [done|lia].
  - apply N.eqb_neq in Hm. assert (n ≠ 2 * h)%N.
    { intros ->. apply Hm. replace (2 * h - 2)%N with (0 + (h - 1) * 2)%N by lia.
      by rewrite N.Div0.mod_add. }
    ok_step. rewrite index_ge; [done|lia].
Qed.

(** An index past the last leaf panics. *)
Lemma fill_past_last_leaf c d p T i proof :
  canopy_rep c T d p → 0 < d ≤ 30 → (2 ^ N.of_nat d ≤ i)%N → (i < 2 ^ 32 - 2 ^ N.of_nat d)%N →
  fill_in_proof_from_canopy (bytes_of_canopy c) (N.of_nat d) i proof = Panic.
Proof.
  intros Hc Hd Hge Hlt. pose proof (cr_height _ _ _ _ Hc) as Hpd.
  assert (2 ^ N.of_nat d * 2 ≤ 2 ^ 31)%N.
  { rewrite N.mul_comm, <-N.pow_succ_r'. apply N.pow_le_mono_r; lia. }
  pose proof (N.pow_nonzero 2 (N.of_nat (d - p)) ltac:(done)).
  assert (2 ^ N.of_nat (S p) ≤ N.shiftr (2 ^ N.of_nat d + i) (N.of_nat (d - p)))%N as Hidx.
  { rewrite N.shiftr_div_pow2. apply N.div_le_lower_bound; [done|].
    rewrite <-N.pow_add_r. replace (N.of_nat (d - p) + N.of_nat (S p))%N with (N.succ (N.of_nat d)) by lia.
    rewrite N.pow_succ_r'. lia. }
  assert (N.shiftr (2 ^ N.of_nat d + i) (N.of_nat (d - p)) < 2 ^ 32)%N as Hidx32.
  { rewrite N.shiftr_div_pow2. apply N.Div0.div_lt_upper_bound. nia. }
  pose proof (canopy_loop_out_of_range 32 (N.of_nat d) c _ p [] (cr_length _ _ _ _ Hc) Hidx Hidx32) as Hrun.
  revert Hrun. unfold fill_in_proof_from_canopy. generalize 33. intros fuel Hrun.
  rewrite check_canopy_bytes_ok. simpl.
  rewrite canopy_of_bytes, (get_cached_path_length_ok c T d p) by (first [done|lia]). simpl.
  rewrite wshl_ok by (rewrite ?shiftl_1_pow; lia). simpl. rewrite shiftl_1_pow.
  do 2 ok_step. rewrite wshr_ok by lia. simpl.
  replace (N.of_nat d - N.of_nat p)%N with (N.of_nat (d - p)) by lia. by rewrite Hrun.
Qed.
End outside.
