(* ===== verification/GummyrollTheorems.v ===== *)
(** * The theorems on the tree program

    An account represents an abstract tree when its roll does and its canopy
    caches this tree.  The handlers that write refine the writes of the tree,
    complete stale proofs with current nodes, publish the event of the write and
    keep the canopy current; only the authority can write. *)

From S2P Require Import Prelude Hashing MerkleSpec ChangeLog MerkleRoll MerkleRollSpec.
From S2P Require Import MerkleRollLemmas MerkleRollWrite MerkleRollTotal MerkleRollAppend.
From S2P Require Import MerkleRollInit MerkleRollTheorems Solana Gummyroll GummyrollCanopy.

Section accounts.
Context `{Keccak} `{BuildProfile} `{EventCodec} (candy_wrapper_id : Pubkey).
Implicit Types (T : tree) (acct : tree_account) (a : aroll) (c : list Node) (d p : nat) (B i : N).

(** The account of a tree of depth [d], with a canopy of height [p]. *)
Record acct_rep acct d B p a : Prop := mk_acct_rep {
  ar_depth : max_depth (header acct) = N.of_nat d;
  ar_buffer : max_buffer_size (header acct) = B;
  ar_supported : (N.of_nat d, B) ∈ supported;
  ar_data : ∃ roll c, rest acct = Laid roll (bytes_of_canopy c) ∧ Rep d B roll a ∧
    canopy_rep c (a_tree a) d p;
}.

(** The supported sizes satisfy the bounds of the tree. *)
Lemma supported_sizes d B : (N.of_nat d, B) ∈ supported → sizes_ok d B ∧ (8 ≤ B)%N.
Proof.
  assert (Forall (λ x, ((0 <? x.1) && (x.1 <=? 30) && (8 <=? x.2) && (x.2 =? 2 ^ N.log2 x.2) &&
    (N.log2 x.2 <=? 32))%N = true) supported) as Hall by (repeat constructor).
  intros Hin. rewrite Forall_forall in Hall. specialize (Hall _ Hin). cbn [fst snd] in Hall.
  rewrite !andb_true_iff, N.ltb_lt, !N.leb_le, N.eqb_eq in Hall.
  split; [|lia]. split; [lia|]. exists (N.log2 B). lia.
Qed.

Lemma get_size_ok acct d B p a :
  acct_rep acct d B p a →
  merkle_roll_get_size (header acct) = Ok (size_of_MerkleRoll (N.of_nat d) B).
Proof.
  intros HA. unfold merkle_roll_get_size. rewrite (ar_depth _ _ _ _ _ HA), (ar_buffer _ _ _ _ _ HA).
  rewrite decide_True; [done|apply HA].
Qed.

(** The change log of a write, as the newest one of the new state. *)
Lemma active_change_log d B s s' a i v :
  sizes_ok d B → (1 < B)%N → Rep d B s a → Rep d B s' (a_write B a i v) →
  get_change_log s' = Ok (log_of d (<[i:=v]> (a_tree a)) i).
Proof.
  intros Hsizes HB HR HR'. destruct (a_hist_0 d B s a HR) as [i0 Hi0].
  destruct (rep_step _ _ _ _ HR' 0 (<[i:=v]> (a_tree a)) i (a_tree a) i0) as (cl & Hcl & _ & _ & ->).
  - rewrite a_hist_write by lia. done.
  - rewrite a_hist_write by lia. done.
  - rewrite (slot_0 B) in Hcl by apply (rep_wf _ _ _ _ HR'). by apply index_lookup.
Qed.

(** Any method that refines a write of the tree, through the dispatch on sizes. *)
Lemma apply_roll_ok acct d B p a roll (func : nat → N → cmt_method Node) r roll' i v :
  acct_rep acct d B p a → (i < 2 ^ N.of_nat d)%N → Rep d B roll a →
  func d B roll = (Ok r, roll') → Rep d B roll' (a_write B a i v) →
  apply_roll (header acct) roll func acct =
  (Ok (event_of (tree_id acct) (<[i:=v]> (a_tree a)) d i (saturating_add 64 (a_seq a) 1), roll'), acct).
Proof.
  intros HA Hi HR Hrun HR'. destruct (supported_sizes d B (ar_supported _ _ _ _ _ HA)) as [Hsizes HB].
  unfold apply_roll, merkle_roll_apply_fn, merkle_roll_depth_size_apply_fn.
  rewrite (ar_depth _ _ _ _ _ HA), (ar_buffer _ _ _ _ _ HA), decide_True by apply HA.
  rewrite Nat2N.id, Hrun. rewrite (active_change_log d B roll roll' a i v) by (first [done|lia]).
  cbn [map_err mbind outcome_bind]. destruct Hsizes as [Hd _].
  rewrite ChangeLogEvent_from_ok by (first [done|lia]). by rewrite (rep_seq _ _ _ _ HR').
Qed.

Lemma publish_ok acct d B p a roll c i v :
  let T := <[i:=v]> (a_tree a) in
  let ev := event_of (tree_id acct) T d i (saturating_add 64 (a_seq a) 1) in
  acct_rep acct d B p a → (i < 2 ^ N.of_nat d)%N → Rep d B roll (a_write B a i v) →
  canopy_rep c (a_tree a) d p → nonzero_path T d i →
  ∃ acct', publish candy_wrapper_id roll (bytes_of_canopy c) (max_depth (header acct)) ev (Some ev) acct = (Ok tt, acct') ∧
    acct_rep acct' d B p (a_write B a i v) ∧ header acct' = header acct ∧
    events acct' = events acct ++ [Wrapped (try_to_vec ev); Emitted ev].
Proof.
  intros T ev HA Hi HR Hc Hnz. destruct (supported_sizes d B (ar_supported _ _ _ _ _ HA)) as [Hsizes HB].
  unfold publish, wrap_event, CandyWrapper.wrap. run_method. rewrite (ar_depth _ _ _ _ _ HA).
  destruct (update_canopy_ok c (a_tree a) d p i v (tree_id acct) (saturating_add 64 (a_seq a) 1))
    as (c' & Hup & Hc'); [done|apply Hsizes|done|done|].
  unfold ev, T. rewrite Hup. eexists. split; [done|].
  split; [|split; [done|simpl; by rewrite <-app_assoc]].
  split; try apply HA. exists roll, c'. split; [done|]. split; [done|].
  by rewrite (a_tree_write d B Hsizes).
Qed.

(** What a handler that wrote leaf [i] leaves: the account of the new tree, and
    the event of the write, wrapped and emitted. *)
Definition wrote acct d B p a i v (r : g_outcome unit * tree_account) : Prop :=
  let ev := event_of (tree_id acct) (<[i:=v]> (a_tree a)) d i (saturating_add 64 (a_seq a) 1) in
  ∃ acct', r = (Ok tt, acct') ∧ acct_rep acct' d B p (a_write B a i v) ∧ header acct' = header acct ∧
    events acct' = events acct ++ [Wrapped (try_to_vec ev); Emitted ev].

(** The proof that the client of a tree with a canopy sends: its lower levels. *)
Definition client_proof T0 d p i : list Node := take (d - p) (tproof T0 d i).

Lemma mixed_client T0 T d p i :
  p ≤ d → mixed d T0 T i (client_proof T0 d p i ++ drop (d - p) (tproof T d i)).
Proof.
  intros Hp. unfold client_proof. split.
  - rewrite length_app, length_take, length_drop, !length_tproof. lia.
  - intros k Hk. destruct (decide (k < d - p)) as [Hlt|Hge].
    + left. rewrite lookup_app_l by (rewrite length_take, length_tproof; lia).
      rewrite lookup_take_lt by done. by apply lookup_tproof.
    + right. rewrite lookup_app_r by (rewrite length_take, length_tproof; lia).
      rewrite length_take, length_tproof, lookup_drop.
      replace (d - p + (k - (d - p) `min` d)) with k by lia. by apply lookup_tproof.
Qed.

Lemma truncated_mixed d T0 T i q : mixed d T0 T i q → truncated_proof d q q.
Proof. intros [Hlen _]. split; [lia|]. by rewrite Hlen, Nat.sub_diag, app_nil_r. Qed.

Lemma replace_leaf_wrote accs acct d B p a i v m T0 i0 :
  acct_rep acct d B p a → Modify_ok candy_wrapper_id accs = Ok tt →
  authority (header acct) = key (acc_authority accs) →
  remaining_accounts accs = client_proof T0 d p i → a_hist a !! m = Some (T0, i0) →
  (i < 2 ^ N.of_nat d)%N → (i ≤ a_count a)%N → leaf_at (a_tree a) i = leaf_at T0 i →
  (∀ m' T1 i1, a_hist a !! m' = Some (T1, i1) →
     find_collision T1 0 (leaf_at T0 i) (tproof T0 d i) i = None) →
  nonzero_path (<[i:=v]> (a_tree a)) d i →
  wrote acct d B p a i v (replace_leaf candy_wrapper_id accs (troot T0 d) (leaf_at T0 i) v i acct).
Proof.
  intros HA Haccs Hauth Hrem Hm Hi Hcount Hleaf Hnone Hnz.
  destruct (supported_sizes d B (ar_supported _ _ _ _ _ HA)) as [Hsizes HB].
  destruct (ar_data _ _ _ _ _ HA) as (roll & c & Hrest & HR & Hc).
  unfold replace_leaf. run_method. rewrite Haccs, bool_decide_true by done. cbn [rust_assert].
  rewrite (get_size_ok _ _ _ _ _ HA), Hrest. cbn [split_rest]. rewrite Hrem, (ar_depth _ _ _ _ _ HA) at 1.
  destruct (fill_in_proof_from_canopy_ok c (a_tree a) d p i (client_proof T0 d p i)) as (c' & -> & Hc');
    [done|apply Hsizes|done|].
  pose proof (mixed_client T0 (a_tree a) d p i (cr_height _ _ _ _ Hc)) as Hmix.
  pose proof (set_leaf_replay d B Hsizes roll a i v _ _ m T0 i0 HR Hi Hcount Hm
    (truncated_mixed _ _ _ _ _ Hmix) Hmix Hnone) as Hset.
  rewrite decide_True in Hset by done. destruct Hset as (roll' & Hset & HR').
  cbn beta iota.
  rewrite (apply_roll_ok acct d B p a roll _ _ roll' i v HA Hi HR Hset HR').
  by apply (publish_ok acct d B p a roll' c' i v).
Qed.

(** C17: [replace_leaf] refines the write of a leaf on an account with a canopy.
    The client sends the lower part of a proof of any tree [T0] whose root is
    still in the ring; the handler completes it with nodes of the newest tree,
    and the mix is brought up to date: the account represents the newest tree
    with the leaf replaced, its canopy caches it, and the event gives the path of
    the write with the heap indices of its nodes. *)
Theorem replace_leaf_refines accs acct d B p a i v m T0 i0 :
  acct_rep acct d B p a → Modify_ok candy_wrapper_id accs = Ok tt →
  authority (header acct) = key (acc_authority accs) →
  remaining_accounts accs = client_proof T0 d p i → a_hist a !! m = Some (T0, i0) →
  (i < 2 ^ N.of_nat d)%N → (i ≤ a_count a)%N → leaf_at (a_tree a) i = leaf_at T0 i →
  (∀ m' T1 i1, a_hist a !! m' = Some (T1, i1) →
     find_collision T1 0 (leaf_at T0 i) (tproof T0 d i) i = None) →
  nonzero_path (<[i:=v]> (a_tree a)) d i →
  wrote acct d B p a i v (replace_leaf candy_wrapper_id accs (troot T0 d) (leaf_at T0 i) v i acct).
Proof. apply replace_leaf_wrote. Qed.

(** C28: [append] of the tree program, for the authority and the append authority:
    the next free leaf is written without a proof. *)
Theorem append_instruction_refines accs acct d B p a v :
  acct_rep acct d B p a → Append_ok candy_wrapper_id accs = Ok tt →
  authority (header acct) = key (acc_authority accs) →
  append_authority (header acct) = key (acc_append_authority accs) →
  v ≠ EMPTY → (a_count a < 2 ^ N.of_nat d)%N →
  nonzero_path (<[a_count a:=v]> (a_tree a)) d (a_count a) →
  wrote acct d B p a (a_count a) v (append_instruction candy_wrapper_id accs v acct).
Proof.
  intros HA Haccs Hauth Happ Hv Hcount Hnz.
  destruct (supported_sizes d B (ar_supported _ _ _ _ _ HA)) as [Hsizes HB].
  destruct (ar_data _ _ _ _ _ HA) as (roll & c & Hrest & HR & Hc).
  unfold append_instruction. run_method. rewrite Haccs, !bool_decide_true by done. cbn [rust_assert].
  rewrite (get_size_ok _ _ _ _ _ HA), Hrest. cbn [split_rest].
  destruct (append_ok d B Hsizes roll a v HR Hv Hcount) as (roll' & Hrun & HR').
  rewrite (apply_roll_ok acct d B p a roll (λ d B, append d B v) _ roll' (a_count a) v HA Hcount HR Hrun HR').
  by apply (publish_ok acct d B p a roll' c (a_count a) v).
Qed.

(** ** Initialisation *)

Lemma new_change_log d B : (0 < B)%N → change_logs (new d B) !! 0 = Some (ChangeLog_default d).
Proof. intros. simpl. apply lookup_replicate_2. lia. Qed.

Lemma tpath_empty d i : tpath ∅ d i = tproof ∅ d i.
Proof. apply list_fmap_ext. intros k l _. by rewrite !tnode_empty. Qed.

Lemma canopy_rep_empty d p n :
  p ≤ d → N.of_nat n = (2 ^ N.of_nat (S p) - 2)%N → canopy_rep (replicate n EMPTY) ∅ d p.
Proof.
  intros Hp Hn. split; [done|by rewrite length_replicate|]. intros k j Hk Hj. exists EMPTY. split.
  - apply lookup_replicate_2. unfold position. pose proof (pow2_ge_2 k ltac:(lia)).
    assert (2 ^ N.of_nat k * 2 ≤ 2 ^ N.of_nat (S p))%N; [|lia].
    rewrite N.mul_comm, <-N.pow_succ_r'. apply N.pow_le_mono_r; lia.
  - split; [|done]. intros _. by apply tnode_empty.
Qed.

Lemma zero_bytes n : replicate (32 * n) x00 = bytes_of_canopy (replicate n EMPTY).
Proof.
  unfold bytes_of_canopy. induction n as [|n IH]; [done|].
  rewrite Nat.mul_succ_r, Nat.add_comm, replicate_add, IH.
  change (replicate (S n) EMPTY) with (EMPTY :: replicate n EMPTY). rewrite fmap_cons. cbn [concat].
  f_equal.
Qed.

Lemma header_initialize_zero (d B : N) auth aauth slot :
  header_initialize zero_header d B auth aauth slot = Ok (mk_MerkleRollHeader B d auth aauth slot).
Proof. done. Qed.

Lemma init_empty_ok accs acct d p B len slot :
  Initialize_ok candy_wrapper_id acct accs = Ok tt → clock_slot accs = Ok slot →
  header acct = zero_header → rest acct = Zeroed len → p ≤ d →
  (len = size_of_MerkleRoll (N.of_nat d) B + 32 * (2 ^ N.of_nat (S p) - 2))%N →
  let r := init_empty_gummyroll candy_wrapper_id accs (N.of_nat d) B acct in
  let ev := event_of (tree_id acct) ∅ d 0 0 in
  if decide ((N.of_nat d, B) ∈ supported)
  then ∃ acct', r = (Ok tt, acct') ∧ acct_rep acct' d B p (a_start ∅ 0 0 0) ∧
      authority (header acct') = key (acc_authority accs) ∧
      append_authority (header acct') = key (acc_append_authority accs) ∧
      events acct' = events acct ++ [Wrapped (try_to_vec ev); Emitted ev]
  else r.1 = Err (Custom MerkleRollConstantsError).
Proof.
  intros Haccs Hslot Hhdr Hrest Hp Hlen r ev. subst r.
  unfold init_empty_gummyroll. run_method. rewrite Haccs, Hslot, Hhdr, Hrest.
  rewrite header_initialize_zero. cbn beta iota. unfold merkle_roll_get_size.
  cbn [max_depth max_buffer_size]. case_decide as Hsup; [|done]. cbn beta iota.
  destruct (supported_sizes d B Hsup) as [Hsizes HB].
  cbn [split_rest max_depth max_buffer_size]. rewrite (proj2 (N.leb_le _ _)) by lia. cbn beta iota.
  replace (N.to_nat (len - size_of_MerkleRoll (N.of_nat d) B))
    with (32 * N.to_nat (2 ^ N.of_nat (S p) - 2)) by lia.
  rewrite Nat2N.id, zero_bytes.
  destruct (initialize_log d B Hsizes (new d B) _ (new_blank d B) (new_change_log d B ltac:(lia)))
    as (roll' & Hrun & HR & Hcl).
  unfold apply_roll, merkle_roll_apply_fn, merkle_roll_depth_size_apply_fn.
  cbn [max_depth max_buffer_size]. rewrite decide_True by done. rewrite Nat2N.id, Hrun, Hcl.
  cbn [map_err mbind outcome_bind]. destruct Hsizes as [Hd Hk].
  assert (mk_ChangeLog (empty_node d) (tproof ∅ d 0) (cl_index (ChangeLog_default d)) = log_of d ∅ 0) as ->.
  { unfold log_of. rewrite tpath_empty. unfold troot. by rewrite tnode_empty. }
  rewrite ChangeLogEvent_from_ok; [|lia|pose proof (N.pow_nonzero 2 (N.of_nat d)); lia].
  pose proof (canopy_rep_empty d p (N.to_nat (2 ^ N.of_nat (S p) - 2)) Hp ltac:(lia)) as Hc.
  unfold publish, wrap_event, CandyWrapper.wrap. run_method. rewrite (rep_seq _ _ _ _ HR). cbn [a_start a_seq].
  rewrite (update_canopy_none _ ∅ d p) by (first [done|lia]).
  eexists. split; [done|]. split; [|split; [done|split; [done|simpl; by rewrite <-app_assoc]]].
  split; try done. eexists _, _. split; [done|]. split; [exact HR|done].
Qed.

(** [init_empty_gummyroll] on a zeroed account that is large enough for the
    roll and a full canopy of height [p]: the account represents the empty tree
    with its signer as authority, and the event gives the leftmost path.  Sizes
    that are not supported are refused. *)
Theorem init_empty_refines accs acct d p B len slot :
  Initialize_ok candy_wrapper_id acct accs = Ok tt → clock_slot accs = Ok slot →
  header acct = zero_header → rest acct = Zeroed len → p ≤ d →
  (len = size_of_MerkleRoll (N.of_nat d) B + 32 * (2 ^ N.of_nat (S p) - 2))%N →
  let r := init_empty_gummyroll candy_wrapper_id accs (N.of_nat d) B acct in
  let ev := event_of (tree_id acct) ∅ d 0 0 in
  if decide ((N.of_nat d, B) ∈ supported)
  then ∃ acct', r = (Ok tt, acct') ∧ acct_rep acct' d B p (a_start ∅ 0 0 0) ∧
      authority (header acct') = key (acc_authority accs) ∧
      append_authority (header acct') = key (acc_append_authority accs) ∧
      events acct' = events acct ++ [Wrapped (try_to_vec ev); Emitted ev]
  else r.1 = Err (Custom MerkleRollConstantsError).
Proof. apply init_empty_ok. Qed.

(** ** Access control *)

Inductive g_op :=
  | ReplaceLeaf (root previous_leaf new_leaf : Node) (index : N)
  | AppendLeaf (leaf : Node)
  | InsertOrAppend (root leaf : Node) (index : N)
  | TransferAuthority (new_authority new_append_authority : option Pubkey).

Definition run_g (accs : g_accounts) (o : g_op) : g_method unit :=
  match o with
  | ReplaceLeaf root previous_leaf new_leaf index =>
      replace_leaf candy_wrapper_id accs root previous_leaf new_leaf index
  | AppendLeaf leaf => append_instruction candy_wrapper_id accs leaf
  | InsertOrAppend root leaf index => insert_or_append candy_wrapper_id accs root leaf index
  | TransferAuthority na naa => transfer_authority accs na naa
  end.

(** The header that an operation leaves. *)
Definition header_after (h : MerkleRollHeader) (o : g_op) : MerkleRollHeader :=
  match o with
  | TransferAuthority na naa =>
      mk_MerkleRollHeader (max_buffer_size h) (max_depth h) (default (authority h) na)
        (default (append_authority h) naa) (creation_slot h)
  | _ => h
  end.

Lemma publish_header id roll cb (d : N) ev refresh acct u acct' :
  publish id roll cb d ev refresh acct = (Ok u, acct') →
  header acct' = header acct ∧ tree_id acct' = tree_id acct.
Proof.
  unfold publish, wrap_event. run_method. destruct (update_canopy _ _ _); try done. by intros [= _ <-].
Qed.

Lemma apply_roll_state h roll func acct x acct' :
  apply_roll h roll func acct = (Ok x, acct') → acct' = acct.
Proof.
  unfold apply_roll. destruct (merkle_roll_apply_fn _ _ _ _) as [[ev|e| |] roll']; try done.
  by intros [= _ <-].
Qed.

End accounts.

(** [inv_method] with the calls of this program. *)
Ltac inv_g :=
  repeat (inv_method; match goal with
  | H : constraint _ = Ok _ |- _ => apply constraint_inv in H
  | H : apply_roll _ _ _ _ = (Ok _, _) |- _ => apply apply_roll_state in H
  end); inv_method.

Section access.
Context `{Keccak} `{BuildProfile} `{EventCodec} (candy_wrapper_id : Pubkey).

(** C29: only the authority writes.  Of the instructions on an initialized tree -
    replace, append, insert or append, and transfer of the authority; the two
    initializers, which set the header, are not among them - each succeeds only when the account's authority signed,
    an append only when the append authority signed too, and only
    [transfer_authority] changes the header, in the two authorities alone. *)
Theorem writes_are_authorized accs acct o u acct' :
  run_g candy_wrapper_id accs o acct = (Ok u, acct') →
  authority (header acct) = key (acc_authority accs) ∧ is_signer (acc_authority accs) = true ∧
  (∀ leaf, o = AppendLeaf leaf →
     append_authority (header acct) = key (acc_append_authority accs) ∧
     is_signer (acc_append_authority accs) = true) ∧
  header acct' = header_after (header acct) o.
Proof.
  destruct o; cbn [run_g header_after]; intros Hrun.
  - unfold replace_leaf, Modify_ok in Hrun. inv_g. apply publish_header in Hrun as [Hrun _]. naive_solver.
  - unfold append_instruction, Append_ok in Hrun. inv_g. apply publish_header in Hrun as [Hrun _]. naive_solver.
  - unfold insert_or_append, Modify_ok in Hrun. inv_g. apply publish_header in Hrun as [Hrun _]. naive_solver.
  - unfold transfer_authority, TransferAuthority_ok in Hrun. inv_g. naive_solver.
Qed.
End access.
