(* ===== verification/GummyrollSound.v ===== *)
(** * What a successful instruction of the tree program says

    The converse of the refinement theorems: from the success of [replace_leaf]
    or [append], with any proof, to the write that happened.  Programs that call
    the tree program rely on it. *)

From S2P Require Import Prelude Hashing MerkleSpec ChangeLog MerkleRoll MerkleRollSpec.
From S2P Require Import MerkleRollLemmas MerkleRollWrite MerkleRollTotal MerkleRollAppend.
From S2P Require Import MerkleRollInit MerkleRollTheorems MerkleRollTrace.
From S2P Require Import Solana Gummyroll GummyrollCanopy GummyrollTheorems.

(** The proof that the instruction checks: completed from the canopy, brought to
    the newest tree. *)
Definition checked_proof `{Keccak, BuildProfile} (acct : tree_account) (remaining : list Node)
    (root prev : Node) (i : N) : list Node :=
  match rest acct with
  | Laid roll cb =>
      match fill_in_proof_from_canopy cb (max_depth (header acct)) i remaining with
      | Ok (_, pv) => forwarded_proof (N.to_nat (max_depth (header acct))) (max_buffer_size (header acct))
                        roll root prev pv i true
      | _ => []
      end
  | Zeroed _ => []
  end.

Section sound.
Context `{Keccak} `{BuildProfile} `{EventCodec} (candy_wrapper_id : Pubkey).
Implicit Types (acct : tree_account) (a : aroll) (d p : nat) (B i : N).

(** A call dispatched on the sizes of the account succeeds when the method does. *)
Lemma apply_roll_Ok_inv acct d B p a roll (func : nat → N → cmt_method Node) ev roll' acct' :
  acct_rep acct d B p a → apply_roll (header acct) roll func acct = (Ok (ev, roll'), acct') →
  ∃ r, func d B roll = (Ok r, roll') ∧ acct' = acct.
Proof.
  intros HA Hrun. pose proof (apply_roll_state _ _ _ _ _ _ Hrun) as ->. revert Hrun.
  unfold apply_roll, merkle_roll_apply_fn, merkle_roll_depth_size_apply_fn.
  rewrite (ar_depth _ _ _ _ _ HA), (ar_buffer _ _ _ _ _ HA), decide_True by apply HA.
  rewrite Nat2N.id. destruct (func d B roll) as [[r|e| |] roll1]; try done.
  destruct (_ ≫= _) as [ev'|e| |]; try done. intros [= _ <-]. by exists r.
Qed.

(** The events that the write of leaf [i] publishes. *)
Definition published acct acct' a d i (v : Node) : Prop :=
  let ev := event_of (tree_id acct) (<[i:=v]> (a_tree a)) d i (saturating_add 64 (a_seq a) 1) in
  events acct' = events acct ++ [Wrapped (try_to_vec ev); Emitted ev].

(** The account keeps its tree, or publishes a write. *)
Definition tree_moved d B acct acct' a a' : Prop :=
  (a' = a ∧ events acct' = events acct) ∨
  ∃ i v, (i < 2 ^ N.of_nat d)%N ∧ a' = a_write B a i v ∧ published acct acct' a d i v.

Lemma replace_leaf_sound accs acct acct' d B p a root prev new i u :
  acct_rep acct d B p a → (i < 2 ^ 32)%N →
  replace_leaf candy_wrapper_id accs root prev new i acct = (Ok u, acct') →
  find_collision (a_tree a) 0 prev (checked_proof acct (remaining_accounts accs) root prev i) i = None →
  nonzero_path (<[i:=new]> (a_tree a)) d i →
  (i < 2 ^ N.of_nat d)%N ∧ leaf_at (a_tree a) i = prev ∧ acct_rep acct' d B p (a_write B a i new) ∧
  tree_id acct' = tree_id acct ∧ published acct acct' a d i new.
Proof.
  intros HA Hi32 Hrun Hfc Hnz.
  destruct (supported_sizes d B (ar_supported _ _ _ _ _ HA)) as [Hsizes HB].
  destruct (ar_data _ _ _ _ _ HA) as (roll & c & Hrest & HR & Hc).
  pose proof (pow_d_bounds d B Hsizes). assert (0 < d ≤ 30) as Hd by apply Hsizes.
  unfold replace_leaf in Hrun. inv_method.
  unfold checked_proof in Hfc. rewrite Hrest in *. cbn [split_rest] in *. inv_method.
  match goal with H : Ok _ = Ok _ |- _ => injection H as <- <- end.
  match goal with
  | H : fill_in_proof_from_canopy _ _ _ _ = Ok (?cb, ?pv) |- _ => rename H into Hfill, cb into cb', pv into pv'
  end.
  match goal with H : apply_roll _ _ _ _ = _ |- _ => rename H into Happ end.
  destruct (apply_roll_Ok_inv acct d B p a _ _ _ _ _ HA Happ) as (r & Hset & ->).
  rewrite Hfill, (ar_depth _ _ _ _ _ HA), (ar_buffer _ _ _ _ _ HA), Nat2N.id in Hfc.
  assert (i ≤ a_count a)%N as Hle.
  { revert Hset. unfold set_leaf. run_method. rewrite (check_bounds_ok d B Hsizes). cbn beta iota.
    rewrite (rep_count _ _ _ _ HR). destruct (a_count a <? i)%N eqn:Hlt; [done|].
    intros _. by apply N.ltb_ge in Hlt. }
  pose proof (wf_rm_index _ _ _ (rep_wf _ _ _ _ HR)) as Hcap. rewrite (rep_count _ _ _ _ HR) in Hcap.
  rewrite (ar_depth _ _ _ _ _ HA) in Hfill.
  assert (i < 2 ^ N.of_nat d)%N as Hi.
  { destruct (N.lt_ge_cases i (2 ^ N.of_nat d)) as [|Hge]; [done|].
    rewrite (fill_past_last_leaf c d p (a_tree a) i) in Hfill by (first [done|lia]). done. }
  destruct (fill_in_proof_from_canopy_ok c (a_tree a) d p i (remaining_accounts accs)) as (c' & Hfill' & Hc');
    [done|lia|done|]. rewrite Hfill' in Hfill. injection Hfill as <- <-.
  destruct (set_leaf_Ok d B Hsizes roll a root prev new _ i r _ HR Hi Hset Hfc) as (Hleaf & -> & HR').
  split; [done|]. split; [done|].
  rewrite (apply_roll_ok acct d B p a roll _ _ _ i new HA Hi HR Hset HR') in Happ.
  injection Happ as <-.
  destruct (publish_ok candy_wrapper_id acct d B p a _ c' i new HA Hi HR' Hc' Hnz) as (acct1 & Hpub & HA' & _ & Hev).
  pose proof (publish_header _ _ _ _ _ _ _ _ _ Hrun) as [_ Hid].
  rewrite Hpub in Hrun. injection Hrun as _ <-. done.
Qed.

Lemma append_sound accs acct acct' d B p a v u :
  acct_rep acct d B p a → append_instruction candy_wrapper_id accs v acct = (Ok u, acct') →
  nonzero_path (<[a_count a:=v]> (a_tree a)) d (a_count a) →
  v ≠ EMPTY ∧ (a_count a < 2 ^ N.of_nat d)%N ∧ acct_rep acct' d B p (a_write B a (a_count a) v) ∧
  tree_id acct' = tree_id acct ∧ append_authority (header acct) = key (acc_append_authority accs) ∧
  is_signer (acc_append_authority accs) = true ∧ published acct acct' a d (a_count a) v.
Proof.
  intros HA Hrun Hnz. destruct (supported_sizes d B (ar_supported _ _ _ _ _ HA)) as [Hsizes HB].
  destruct (ar_data _ _ _ _ _ HA) as (roll & c & Hrest & HR & Hc).
  unfold append_instruction, Append_ok in Hrun. inv_method.
  match goal with H : constraint _ = _ |- _ => apply constraint_inv in H end. inv_method.
  rewrite Hrest in *. cbn [split_rest] in *.
  match goal with H : Ok _ = Ok _ |- _ => injection H as <- <- end.
  match goal with H : apply_roll _ _ _ _ = _ |- _ => rename H into Happ end.
  destruct (apply_roll_Ok_inv acct d B p a _ _ _ _ _ HA Happ) as (r & Happend & ->).
  destruct (append_Ok d B Hsizes roll a v r _ HR Happend) as (Hv & Hcount & -> & HR').
  rewrite (apply_roll_ok acct d B p a roll _ _ _ (a_count a) v HA Hcount HR Happend HR') in Happ.
  injection Happ as <-.
  match goal with H : publish ?w _ _ _ _ _ _ = _ |- _ =>
    destruct (publish_ok w acct d B p a _ c (a_count a) v HA Hcount HR' Hc Hnz)
      as (acct1 & Hpub & HA' & _ & Hev);
    pose proof (publish_header _ _ _ _ _ _ _ _ _ H) as [_ Hid]; rewrite Hpub in H;
    injection H as _ <-
  end.
  done.
Qed.
End sound.
