(* ===== verification/GummyrollLimits.v ===== *)
(** * Limits of the tree program, and the witnesses of its theorems

    The canopy lookup is what keeps an index past the last leaf out; and a tree
    initialised from a root gets a canopy that does not describe it. *)

From S2P Require Import Prelude Hashing MerkleSpec ChangeLog MerkleRoll MerkleRollSpec.
From S2P Require Import MerkleRollLemmas MerkleRollWrite MerkleRollTotal MerkleRollAppend.
From S2P Require Import MerkleRollInit MerkleRollTheorems MerkleRollWitnesses.
From S2P Require Import Solana Gummyroll GummyrollCanopy GummyrollTheorems.

Section limits.
Context `{Keccak} `{BuildProfile}.
Implicit Types (T : tree) (c : list Node) (d p : nat) (i : N).

(** An index past the last leaf panics in the completion of the proof, for a
    canopy of any height, the empty one included: no instruction reaches the
    tree with such an index, which the bound of [set_leaf] would let through on
    a full tree. *)
Theorem index_past_last_leaf_panics c d p T i proof :
  canopy_rep c T d p → 0 < d ≤ 30 → (2 ^ N.of_nat d ≤ i)%N → (i < 2 ^ 32 - 2 ^ N.of_nat d)%N →
  fill_in_proof_from_canopy (bytes_of_canopy c) (N.of_nat d) i proof = Panic.
Proof. apply fill_past_last_leaf. Qed.
End limits.

(** ** Instances *)
Module GToy.
Import Toy.

#[export] Instance toy_codec : EventCodec := λ ev, vec_to_list (ev_id ev).

Definition wrapper : Pubkey := toy_node 1000.
Definition admin : Pubkey := toy_node 1001.

Definition info (k : Pubkey) : AccountInfo := mk_AccountInfo k true true default_pubkey 0.

Definition accs (proof : list Node) : g_accounts :=
  mk_g_accounts (info (toy_node 1002)) (info admin) (info admin) (info wrapper) proof (Ok 7%N).

Definition zeroed (p : nat) : tree_account :=
  mk_tree_account (toy_node 1002) zero_header
    (Zeroed (size_of_MerkleRoll 3 8 + 32 * (2 ^ N.of_nat (S p) - 2))) [].

(** The tree of three appends, with a canopy of height 1. *)
Definition canopy3 : list Node := [tnode (tree_of 3) 2 0; EMPTY].

Definition account3 : tree_account :=
  mk_tree_account (toy_node 1002) (mk_MerkleRollHeader 8 3 admin admin 7)
    (Laid (state 3) (bytes_of_canopy canopy3)) [].

Lemma canopy3_rep : canopy_rep canopy3 (tree_of 3) 3 1.
Proof.
  split; [lia|done|]. intros k j Hk Hj. assert (k = 1) as -> by lia.
  change (2 ^ N.of_nat 1)%N with 2%N in Hj.
  assert (j = 0 ∨ j = 1)%N as [-> | ->] by lia; eexists; (split; [reflexivity|]).
  - split; [|done]. intros He. by vm_compute in He.
  - split; [|done]. intros _. by vm_compute.
Qed.

Lemma account3_rep : acct_rep account3 3 8 1 (astate 3).
Proof.
  split; [done|done|by apply (bool_decide_unpack _); vm_compute|].
  exists (state 3), canopy3. split; [done|]. split; [|apply canopy3_rep].
  apply state_Rep. lia.
Qed.

(** A tree with leaves 0 and 1, initialised from its root; leaf 2 is appended, and
    then proved with its right proof. *)
Definition init_append_prove (p : nat) : g_outcome unit :=
  let T := tree_of 2 in
  let T' := <[2%N:=toy_node 3]> T in
  match init_gummyroll_with_root wrapper (accs (client_proof T 3 p 1)) 3 8 (troot T 3) (leaf_at T 1) 1
          (zeroed p) with
  | (Ok _, acct) =>
      match append_instruction wrapper (accs []) (toy_node 3) acct with
      | (Ok _, acct) => (verify_leaf (accs (client_proof T' 3 p 2)) (troot T' 3) (toy_node 3) 2 acct).1
      | (r, _) => r
      end
  | (r, _) => r
  end.
End GToy.

Import Toy GToy.
#[local] Opaque toy_hashv.

(** The canopy of a tree initialised from its root does not describe it.
    [initialize_with_root] leaves the first change log without a path, so the
    event and the canopy get zero nodes for it, which stand for empty subtrees:
    later, the right proof of a leaf is refused on an account with a canopy, and
    accepted on one without. *)
Theorem init_with_root_canopy_stale :
  GToy.init_append_prove 0 = Ok tt ∧
  GToy.init_append_prove 2 = Err (Custom ConcurrentMerkleTreeError).
Proof. split; by vm_compute. Qed.

(** ** Witnesses *)

Lemma replace_leaf_refines_witness :
  wrote account3 3 8 1 (astate 3) 0 (toy_node 99)
    (replace_leaf wrapper (accs (client_proof (tree_of 1) 3 1 0)) (troot (tree_of 1) 3)
       (leaf_at (tree_of 1) 0) (toy_node 99) 0 account3).
Proof.
  apply (replace_leaf_refines wrapper _ account3 3 8 1 (astate 3) 0 (toy_node 99) 2 (tree_of 1) 0).
  - apply account3_rep.
  - by vm_compute.
  - done.
  - done.
  - done.
  - done.
  - by vm_compute.
  - by vm_compute.
  - apply no_collision_old. by vm_compute.
  - intros l Hl. assert (l = 1 ∨ l = 2) as [-> | ->] by lia; by vm_compute.
Defined.

Lemma append_instruction_refines_witness :
  wrote account3 3 8 1 (astate 3) 3 (toy_node 99)
    (append_instruction wrapper (accs []) (toy_node 99) account3).
Proof.
  pose proof (append_instruction_refines wrapper (accs []) account3 3 8 1 (astate 3) (toy_node 99)) as Hthm.
  change (a_count (astate 3)) with 3%N in Hthm. apply Hthm; clear Hthm.
  - apply account3_rep.
  - by vm_compute.
  - done.
  - done.
  - by vm_compute.
  - done.
  - intros l Hl. assert (l = 1 ∨ l = 2) as [-> | ->] by lia; by vm_compute.
Defined.

Lemma init_empty_refines_witness :
  ∃ acct', init_empty_gummyroll wrapper (accs []) 3 8 (zeroed 1) = (Ok tt, acct') ∧
    acct_rep acct' 3 8 1 (a_start ∅ 0 0 0).
Proof.
  pose proof (init_empty_refines wrapper (accs []) (zeroed 1) 3 1 8
    (size_of_MerkleRoll 3 8 + 64) 7 ltac:(by vm_compute) eq_refl eq_refl eq_refl ltac:(lia) eq_refl) as Hthm.
  cbv zeta in Hthm. rewrite decide_True in Hthm by (by apply (bool_decide_unpack _); vm_compute).
  destruct Hthm as (acct' & Hrun & HA & _). by exists acct'.
Defined.

Lemma writes_are_authorized_witness :
  run_g wrapper (accs []) (AppendLeaf (toy_node 99)) account3 =
    (Ok tt, (run_g wrapper (accs []) (AppendLeaf (toy_node 99)) account3).2) ∧
  authority (header account3) = admin.
Proof.
  split; [by vm_compute|].
  destruct (writes_are_authorized wrapper (accs []) account3 (AppendLeaf (toy_node 99)) tt
    (run_g wrapper (accs []) (AppendLeaf (toy_node 99)) account3).2) as [Hauth _]; [by vm_compute|].
  exact Hauth.
Defined.

Lemma index_past_last_leaf_panics_witness :
  fill_in_proof_from_canopy (bytes_of_canopy canopy3) 3 8 [] = Panic.
Proof.
  apply (index_past_last_leaf_panics canopy3 3 1 (tree_of 3) 8 []).
  - apply canopy3_rep.
  - lia.
  - done.
  - done.
Defined.
