(* ===== verification/LeafSchema.v ===== *)
(** * Leaves and metadata of compressed NFTs: [contracts/programs/bubblegum/src/state]

    The schema whose hash is the leaf, the metadata arguments with the
    adapters to the token-metadata program, vouchers, nonces and events, and the
    small helpers of [utils.rs]. *)

From S2P Require Import Prelude Hashing MerkleSpec Solana.

(** ** [state/leaf_schema.rs] *)

Inductive Version := Version_V1.

(** [Version::to_bytes]. *)
Definition Version_to_bytes (self : Version) : N := match self with Version_V1 => 1%N end.

(** [enum LeafSchema], with its single variant [V1]. *)
Record LeafSchema := mk_LeafSchema {
  ls_id : Pubkey;
  ls_owner : Pubkey;
  ls_delegate : Pubkey;
  ls_nonce : N;
  ls_data_hash : bytes32;
  ls_creator_hash : bytes32;
}.

#[export] Instance LeafSchema_eq_dec : EqDecision LeafSchema.
Proof. solve_decision. Defined.

Definition LeafSchema_default : LeafSchema :=
  mk_LeafSchema default_pubkey default_pubkey default_pubkey 0 (vreplicate 32 x00) (vreplicate 32 x00).

Record LeafSchemaEvent := mk_LeafSchemaEvent {
  lse_version : Version;
  lse_schema : LeafSchema;
  lse_leaf_hash : Node;
}.

Section leaf_schema.
Context `{Keccak}.

Definition new_v0 (id owner delegate : Pubkey) (nonce : N) (data_hash creator_hash : bytes32) : LeafSchema :=
  mk_LeafSchema id owner delegate nonce data_hash creator_hash.

Definition version (self : LeafSchema) : Version := Version_V1.

(** The slices that [to_node] hashes. *)
Definition leaf_slices (self : LeafSchema) : list bytes :=
  [ [byte_of_N (Version_to_bytes (version self))];
    vec_to_list (ls_id self); vec_to_list (ls_owner self); vec_to_list (ls_delegate self);
    to_le_bytes 8 (ls_nonce self);
    vec_to_list (ls_data_hash self); vec_to_list (ls_creator_hash self) ].

Definition to_node (self : LeafSchema) : Node := hashv (leaf_slices self).

Definition to_event (self : LeafSchema) : LeafSchemaEvent :=
  mk_LeafSchemaEvent (version self) self (to_node self).
End leaf_schema.

(** ** [state/metaplex_adapter.rs] *)

Inductive TokenProgramVersion := Original | Token2022.

Record Creator := mk_Creator {
  cr_address : Pubkey;
  cr_verified : bool;
  cr_share : N;
}.

Inductive TokenStandard := NonFungible | FungibleAsset | Fungible | NonFungibleEdition.

Inductive UseMethod := UseBurn | UseMultiple | UseSingle.

Record Uses := mk_Uses {
  use_method : UseMethod;
  uses_remaining : N;
  uses_total : N;
}.

Record Collection := mk_Collection {
  col_verified : bool;
  col_key : Pubkey;
}.

Record MetadataArgs := mk_MetadataArgs {
  ma_name : string;
  ma_symbol : string;
  ma_uri : string;
  ma_seller_fee_basis_points : N;
  ma_primary_sale_happened : bool;
  ma_is_mutable : bool;
  ma_edition_nonce : option N;
  ma_token_standard : option TokenStandard;
  ma_collection : option Collection;
  ma_uses : option Uses;
  ma_token_program_version : TokenProgramVersion;
  ma_creators : list Creator;
}.

(** The types of the token-metadata program that the adapters build. *)
Module Mpl.
Record Creator := mk_Creator { address : Pubkey; verified : bool; share : N }.
Inductive UseMethod := Burn | Multiple | Single.
Record Uses := mk_Uses { use_method : UseMethod; remaining : N; total : N }.
Record Collection := mk_Collection { verified_collection : bool; key : Pubkey }.
End Mpl.

Definition Creator_adapt (self : Creator) : Mpl.Creator :=
  Mpl.mk_Creator (cr_address self) (cr_verified self) (cr_share self).

Definition Uses_adapt (self : Uses) : Mpl.Uses :=
  Mpl.mk_Uses
    (match use_method self with
     | UseBurn => Mpl.Burn
     | UseMultiple => Mpl.Multiple
     | UseSingle => Mpl.Single
     end) (uses_remaining self) (uses_total self).

Definition Collection_adapt (self : Collection) : Mpl.Collection :=
  Mpl.mk_Collection (col_verified self) (col_key self).

(** ** [state/mod.rs] and [error.rs] *)

Record Nonce := mk_Nonce { count : N }.

Definition NONCE_SIZE : N := (8 + 8)%N.
Definition VOUCHER_SIZE : N := (8 + 1 + 32 + 32 + 32 + 8 + 32 + 32 + 4 + 32)%N.
Definition VOUCHER_PREFIX : string := "voucher".
Definition ASSET_PREFIX : string := "asset".

Record Voucher := mk_Voucher {
  leaf_schema : LeafSchema;
  v_index : N;
  v_merkle_slab : Pubkey;
}.

Record NewNFTEvent := mk_NewNFTEvent {
  nft_version : Version;
  nft_metadata : MetadataArgs;
  nft_nonce : N;
}.

Record NFTDecompressionEvent := mk_NFTDecompressionEvent {
  dec_version : Version;
  dec_id : Pubkey;
  dec_tree_id : Pubkey;
  dec_nonce : N;
}.

Inductive BubblegumError :=
  | AssetOwnerMismatch
  | PublicKeyMismatch
  | HashingMismatch
  | UnsupportedSchemaVersion.

#[export] Instance BubblegumError_eq_dec : EqDecision BubblegumError.
Proof. solve_decision. Defined.

(** ** [utils.rs] *)

(** [AsRef<[u8]>] of a string. *)
Definition string_bytes (s : string) : bytes := String.list_byte_of_string s.

Definition cmp_bytes (a b : bytes) (size : nat) : bool := bool_decide (take size a = take size b).

Definition cmp_pubkeys (a b : Pubkey) : bool := cmp_bytes (vec_to_list a) (vec_to_list b) 32.

Definition assert_pubkey_equal {C} (of_error : BubblegumError → C) (a b : Pubkey)
    (error : option (ix_error C)) : outcome (ix_error C) unit :=
  if negb (cmp_pubkeys a b) then
    match error with
    | Some err => Err err
    | None => Err (Custom (of_error PublicKeyMismatch))
    end
  else Ok tt.

Section derivation.
Context `{Pda}.

Definition assert_derivation {C} (program : Pubkey) (account : AccountInfo) (path : list bytes)
    (error : option (ix_error C)) : outcome (ix_error C) N :=
  let '(k, bump) := find_program_address path program in
  if negb (cmp_pubkeys k (key account)) then
    match error with
    | Some err => Err err
    | None => Err Runtime
    end
  else Ok bump.

Definition assert_owned_by {C} (account : AccountInfo) (owner' : Pubkey) : outcome (ix_error C) unit :=
  if negb (cmp_pubkeys (owner account) owner') then Err Runtime else Ok tt.

Definition get_asset_id (bubblegum_id tree_id : Pubkey) (nonce : N) : Pubkey :=
  (find_program_address [string_bytes ASSET_PREFIX; vec_to_list tree_id; to_le_bytes 8 nonce]
     bubblegum_id).1.
End derivation.

(** ** Lemmas *)

Lemma cmp_pubkeys_spec a b : cmp_pubkeys a b = true ↔ a = b.
Proof.
  unfold cmp_pubkeys, cmp_bytes. rewrite bool_decide_eq_true.
  rewrite !take_ge by (by rewrite length_vec_to_list). split; [apply vec_to_list_inj2|by intros ->].
Qed.

Lemma cmp_pubkeys_bool a b : cmp_pubkeys a b = bool_decide (a = b).
Proof. apply eq_true_iff_eq. by rewrite cmp_pubkeys_spec, bool_decide_eq_true. Qed.

Section binding.
Context `{Keccak}.

(** The concatenation of the slices determines the schema: every slice has a
    fixed length. *)
Lemma leaf_slices_inj l1 l2 :
  (ls_nonce l1 < 2 ^ 64)%N → (ls_nonce l2 < 2 ^ 64)%N →
  concat (leaf_slices l1) = concat (leaf_slices l2) → l1 = l2.
Proof.
  destruct l1 as [i1 o1 d1 n1 h1 c1], l2 as [i2 o2 d2 n2 h2 c2]. unfold leaf_slices.
  cbn [ls_id ls_owner ls_delegate ls_nonce ls_data_hash ls_creator_hash concat].
  intros Hn1 Hn2 Heq. apply app_inj_1 in Heq as [_ Heq]; [|done].
  apply bytes32_app_inj in Heq as [-> Heq]. apply bytes32_app_inj in Heq as [-> Heq].
  apply bytes32_app_inj in Heq as [-> Heq].
  apply app_inj_1 in Heq as [Hn Heq]; [|by rewrite !length_to_le_bytes].
  apply to_le_bytes_inj in Hn as ->; [|done|done].
  apply bytes32_app_inj in Heq as [-> Heq]. by apply bytes32_app_inj in Heq as [-> _].
Qed.

(** Two schemas with the same leaf are equal, or their slices are a collision. *)
Lemma to_node_binding l1 l2 :
  (ls_nonce l1 < 2 ^ 64)%N → (ls_nonce l2 < 2 ^ 64)%N → to_node l1 = to_node l2 →
  l1 = l2 ∨ is_collision (leaf_slices l1, leaf_slices l2).
Proof.
  intros Hn1 Hn2 Heq.
  destruct (decide (concat (leaf_slices l1) = concat (leaf_slices l2))) as [Hc|Hc].
  - left. by apply leaf_slices_inj.
  - by right.
Qed.
End binding.
