(* ===== verification/MerkleWallet.v ===== *)
(** * The prototype of compressed NFTs: [archive/merkle_wallet/src]

    A wallet is an account of the program at an address derived from its owner: the
    root of a Merkle tree without change logs, and a counter of the NFTs minted
    through it.  [compress_nft] burns an NFT of the token program and puts its hash
    into the tree; a proof that a leaf is zero comes from the caller.

    The state is the wallets by address and the calls made to other programs.
    Those are parameters ([WalletPrograms]): whether a call succeeds, and how the
    metadata program's accounts are read. *)

From S2P Require Import Prelude Hashing Solana LeafSchema.

Inductive w_custom := InvalidArgument | InvalidAccountData.

Abbreviation w_error := (ix_error w_custom).
Abbreviation w_outcome := (outcome w_error).

Record MerkleWallet := mk_MerkleWallet {
  w_root : Node;
  w_counter : N;
  w_bump : N;
}.

(** The calls to the system, token, associated token and metadata programs. *)
Inductive wallet_cpi :=
  | InitAccount (payer account : Pubkey) (space : N) (program : Pubkey)
  | InitializeMintCloseAuthority (program mint : Pubkey) (close_authority : option Pubkey)
  | InitializeMint (program mint mint_authority : Pubkey) (freeze_authority : option Pubkey) (decimals : N)
  | CreateAssociatedIdempotent (payer wallet mint token_program : Pubkey)
  | MintToAccount (program mint account authority : Pubkey) (amount : N)
  | BurnFrom (program account mint authority : Pubkey) (amount : N)
  | CloseTokenAccount (program account destination authority : Pubkey) (seeds : list bytes)
  | CloseMetadataAndMasterEdition (program metadata edition mint owner destination : Pubkey).

Class WalletPrograms := {
  invoke_ok : wallet_cpi → bool;
  mint_with_close_authority_len : N;
  Metadata : Type;
  MasterEditionV2 : Type;
  me_max_supply : MasterEditionV2 → option N;
  metadata_from_slice_checked : bytes → option Metadata;
  master_edition_from_slice_checked : bytes → option MasterEditionV2;
}.

Record wallet_state := mk_wallet_state {
  wallets : gmap Pubkey MerkleWallet;
  wallet_cpis : list wallet_cpi;
}.

Abbreviation w_method := (method wallet_state w_error).

Definition MERKLE_PREFIX : string := "MERKLE".

(** ** The accounts of the instructions *)
Record InitializeMerkleWallet := mk_InitializeMerkleWallet {
  im_merkle_wallet : AccountInfo;
  im_payer : AccountInfo;
  im_system_program : AccountInfo;
}.

Record MintNFT := mk_MintNFT {
  mn_merkle_wallet : AccountInfo;
  mn_mint : AccountInfo;
  mn_mint_uninitialized : bool;
  mn_token_account : AccountInfo;
  mn_authority : AccountInfo;
  mn_payer : AccountInfo;
  mn_rent : AccountInfo;
  mn_token_program : AccountInfo;
  mn_associated_token_program : AccountInfo;
  mn_system_program : AccountInfo;
}.

Record CompressNFT := mk_CompressNFT {
  cn_merkle_wallet : AccountInfo;
  cn_token_account : AccountInfo;
  cn_mint : AccountInfo;
  cn_authority : AccountInfo;
  cn_metadata : AccountInfo;
  cn_metadata_data : bytes;
  cn_master_edition : AccountInfo;
  cn_master_edition_data : bytes;
  cn_owner : AccountInfo;
  cn_token_program : AccountInfo;
  cn_token_metadata_program : AccountInfo;
  cn_system_program : AccountInfo;
}.

Record DecompressNFTArgs := mk_DecompressNFTArgs {
  da_index : N;
  da_mint_creator : Pubkey;
  da_max_supply : N;
  da_supply : N;
  da_metadata_bytes : bytes;
  da_path : N;
  da_proof : list Node;
}.

(** [ctx.bumps]: the bumps that the account constraints found, by field. *)
Abbreviation bumps := (gmap string N).

Section defs.
Context `{Keccak} `{BuildProfile} `{Pda} `{WalletPrograms}.
Context (wallet_program_id spl_token_2022_id mpl_token_metadata_id associated_token_id system_id rent_id :
  Pubkey).

Definition assert_with_msg (v : bool) (err : w_error) (_msg : string) : w_outcome unit :=
  if negb v then Err err else Ok tt.

(** [generate_leaf_node]: the seeds are hashed one after the other into the leaf. *)
Definition generate_leaf_node (seeds : list bytes) : w_outcome Node :=
  foldM (λ leaf seed, Ok (hashv [vec_to_list leaf; seed])) EMPTY seeds.

(** [recompute]: a bit that is set puts the node on the left. *)
Fixpoint wallet_recompute_loop (ix : nat) (start : Node) (path : list Node) (address : N) : w_outcome Node :=
  match path with
  | [] => Ok start
  | s :: path =>
      sh ← wshr 32 address (N.of_nat ix);
      let start :=
        if (N.land sh 1 =? 1)%N then hashv [vec_to_list start; vec_to_list s]
        else hashv [vec_to_list s; vec_to_list start] in
      wallet_recompute_loop (S ix) start path address
  end.

Definition wallet_recompute (start : Node) (path : list Node) (address : N) : w_outcome Node :=
  wallet_recompute_loop 0 start path address.

(** ** The accounts of the metadata program, [state/metaplex_anchor.rs] *)
Definition MasterEdition_owner : Pubkey := mpl_token_metadata_id.
Definition TokenMetadata_owner : Pubkey := mpl_token_metadata_id.
Definition MplTokenMetadata_id : Pubkey := mpl_token_metadata_id.
Definition Token2022_id : Pubkey := spl_token_2022_id.

Definition MasterEdition_try_deserialize (buf : bytes) : w_outcome MasterEditionV2 :=
  ok_or (master_edition_from_slice_checked buf) Runtime.

Definition TokenMetadata_try_deserialize (buf : bytes) : w_outcome Metadata :=
  ok_or (metadata_from_slice_checked buf) Runtime.

(** ** Addresses *)
Definition wallet_seeds (owner : Pubkey) : list bytes := [string_bytes MERKLE_PREFIX; vec_to_list owner].
Definition wallet_authority_seeds : list bytes := [string_bytes MERKLE_PREFIX].
Definition wallet_mint_seeds (payer : Pubkey) (counter : N) : list bytes :=
  [vec_to_list payer; to_le_bytes 16 counter].

Definition at_seeds (acc : AccountInfo) (seeds : list bytes) : bool :=
  bool_decide (key acc = (find_program_address seeds wallet_program_id).1).

Definition bump_of (seeds : list bytes) : N := (find_program_address seeds wallet_program_id).2.

Definition account_is (acc : AccountInfo) (id : Pubkey) : bool := bool_decide (key acc = id).

(** ** State *)
Definition set_wallet (k : Pubkey) (w : MerkleWallet) (s : wallet_state) : wallet_state :=
  mk_wallet_state (<[k := w]> (wallets s)) (wallet_cpis s).

Definition add_wallet_cpi (c : wallet_cpi) (s : wallet_state) : wallet_state :=
  mk_wallet_state (wallets s) (wallet_cpis s ++ [c]).

Definition invoke_wallet (c : wallet_cpi) : w_method unit :=
  lift (require_that (invoke_ok c) Runtime);;
  modify (add_wallet_cpi c).

(** [Account<'info, MerkleWallet>]: the account exists. *)
Definition load_wallet (acc : AccountInfo) : w_method MerkleWallet :=
  self ← get; lift (ok_or (wallets self !! key acc) Constraint).

(** ** Account constraints: what they check and create, and the bumps they find *)
Definition InitializeMerkleWallet_accounts (accs : InitializeMerkleWallet) : w_method bumps :=
  self ← get;
  let seeds := wallet_seeds (key (im_payer accs)) in
  lift (constraint (at_seeds (im_merkle_wallet accs) seeds && is_writable (im_merkle_wallet accs) &&
                    bool_decide (wallets self !! key (im_merkle_wallet accs) = None) &&
                    is_signer (im_payer accs) && is_writable (im_payer accs) &&
                    account_is (im_system_program accs) system_id));;
  invoke_wallet (InitAccount (key (im_payer accs)) (key (im_merkle_wallet accs)) (49 + 8) wallet_program_id);;
  modify (set_wallet (key (im_merkle_wallet accs)) (mk_MerkleWallet EMPTY 0 0));;
  mret (<["merkle_wallet" := bump_of seeds]> ∅).

Definition MintNFT_accounts (accs : MintNFT) : w_method bumps :=
  w ← load_wallet (mn_merkle_wallet accs);
  let seeds := wallet_seeds (key (mn_payer accs)) in
  let mint_seeds := wallet_mint_seeds (key (mn_payer accs)) (w_counter w) in
  lift (constraint (at_seeds (mn_merkle_wallet accs) seeds && is_writable (mn_merkle_wallet accs) &&
                    at_seeds (mn_mint accs) mint_seeds && is_writable (mn_mint accs) &&
                    mn_mint_uninitialized accs && is_writable (mn_token_account accs) &&
                    at_seeds (mn_authority accs) wallet_authority_seeds &&
                    is_signer (mn_payer accs) && is_writable (mn_payer accs) &&
                    account_is (mn_rent accs) rent_id && account_is (mn_token_program accs) Token2022_id &&
                    account_is (mn_associated_token_program accs) associated_token_id &&
                    account_is (mn_system_program accs) system_id));;
  invoke_wallet (InitAccount (key (mn_payer accs)) (key (mn_mint accs)) mint_with_close_authority_len
                   spl_token_2022_id);;
  mret (<["merkle_wallet" := bump_of seeds]> (<["mint" := bump_of mint_seeds]>
        (<["authority" := bump_of wallet_authority_seeds]> ∅))).

(** The accounts of [compress_nft], with the master edition that they carry. *)
Definition CompressNFT_accounts (accs : CompressNFT) : w_method (MasterEditionV2 * bumps) :=
  load_wallet (cn_merkle_wallet accs);;
  let seeds := wallet_seeds (key (cn_owner accs)) in
  lift (TokenMetadata_try_deserialize (cn_metadata_data accs));;
  edition ← lift (MasterEdition_try_deserialize (cn_master_edition_data accs));
  lift (constraint (at_seeds (cn_merkle_wallet accs) seeds && is_writable (cn_merkle_wallet accs) &&
                    is_writable (cn_token_account accs) && is_writable (cn_mint accs) &&
                    at_seeds (cn_authority accs) wallet_authority_seeds &&
                    bool_decide (owner (cn_metadata accs) = TokenMetadata_owner) &&
                    is_writable (cn_metadata accs) &&
                    bool_decide (owner (cn_master_edition accs) = MasterEdition_owner) &&
                    is_writable (cn_master_edition accs) &&
                    is_signer (cn_owner accs) && is_writable (cn_owner accs) &&
                    account_is (cn_token_program accs) Token2022_id &&
                    account_is (cn_token_metadata_program accs) MplTokenMetadata_id &&
                    account_is (cn_system_program accs) system_id));;
  mret (edition, <["merkle_wallet" := bump_of seeds]> (<["authority" := bump_of wallet_authority_seeds]> ∅)).

(** ** Instructions *)
Definition initialize_merkle_wallet (accs : InitializeMerkleWallet) : w_method unit :=
  bumps ← InitializeMerkleWallet_accounts accs;
  match bumps !! "merkle_wallet" with
  | Some b => modify (set_wallet (key (im_merkle_wallet accs)) (mk_MerkleWallet EMPTY 0 b))
  | None => lift (Err (Custom InvalidArgument))
  end.

Definition mint_nft (accs : MintNFT) : w_method unit :=
  MintNFT_accounts accs;;
  invoke_wallet (InitializeMintCloseAuthority spl_token_2022_id (key (mn_mint accs))
                   (Some (key (mn_authority accs))));;
  invoke_wallet (InitializeMint spl_token_2022_id (key (mn_mint accs)) (key (mn_payer accs))
                   (Some (key (mn_payer accs))) 0);;
  invoke_wallet (CreateAssociatedIdempotent (key (mn_payer accs)) (key (mn_payer accs)) (key (mn_mint accs))
                   (key (mn_token_program accs)));;
  invoke_wallet (MintToAccount spl_token_2022_id (key (mn_mint accs)) (key (mn_token_account accs))
                   (key (mn_payer accs)) 1);;
  w ← load_wallet (mn_merkle_wallet accs);
  counter ← lift (wadd 128 (w_counter w) 1);
  modify (set_wallet (key (mn_merkle_wallet accs)) (mk_MerkleWallet (w_root w) counter (w_bump w))).

Definition compress_nft (accs : CompressNFT) (index : N) (mint_creator : Pubkey) (path : N)
    (proof : list Node) : w_method unit :=
  '(edition, bumps) ← CompressNFT_accounts accs;
  bump ← lift (ok_or (bumps !! "authority") (Custom InvalidArgument));
  w ← load_wallet (cn_merkle_wallet accs);
  old_root ← lift (wallet_recompute EMPTY proof path);
  lift (assert_with_msg (bool_decide (old_root = w_root w)) (Custom InvalidArgument)
          "Invalid Merkle proof provided");;
  invoke_wallet (BurnFrom spl_token_2022_id (key (cn_token_account accs)) (key (cn_mint accs))
                   (key (cn_owner accs)) 1);;
  invoke_wallet (CloseTokenAccount spl_token_2022_id (key (cn_token_account accs)) (key (cn_owner accs))
                   (key (cn_owner accs)) []);;
  lift (match me_max_supply edition with
        | Some d => if (0 <? d)%N then Err (Custom InvalidAccountData) else Ok tt
        | None => Ok tt
        end);;
  leaf ← lift (generate_leaf_node [cn_metadata_data accs; vec_to_list mint_creator; to_le_bytes 16 index]);
  new_root ← lift (wallet_recompute leaf proof path);
  modify (set_wallet (key (cn_merkle_wallet accs)) (mk_MerkleWallet new_root (w_counter w) (w_bump w)));;
  invoke_wallet (CloseTokenAccount spl_token_2022_id (key (cn_mint accs)) (key (cn_owner accs))
                   (key (cn_authority accs)) [string_bytes MERKLE_PREFIX; [byte_of_N bump]]);;
  invoke_wallet (CloseMetadataAndMasterEdition mpl_token_metadata_id (key (cn_metadata accs))
                   (key (cn_master_edition accs)) (key (cn_mint accs)) (key (cn_owner accs))
                   (key (cn_owner accs))).

(** [decompress_nft] is not written yet in the source: it succeeds and does nothing. *)
Definition decompress_nft (_mint_bump : N) (_params : DecompressNFTArgs) : w_method unit := mret tt.
End defs.
