(* ===== verification/MerkleWalletTheorems.v ===== *)
(** * The prototype of compressed NFTs writes a leaf, and only one

    [compress_nft] writes the hash of the NFT into the abstract tree of which the
    wallet holds the root, at the index whose bits are complemented.  But a new
    wallet starts from the zero root, which is that of the tree of depth 0: the
    first NFT fills it, and then no proof of an empty leaf exists.  The witness creates
    a wallet, mints and compresses an NFT, and tries others. *)

From S2P Require Import Prelude Hashing MerkleSpec MerkleRollInit Solana LeafSchema.
From S2P Require Import MerkleWallet.

(** ** Instructions as data, and histories of transactions *)
Inductive wallet_op :=
  | WInitialize (accs : InitializeMerkleWallet)
  | WMint (accs : MintNFT)
  | WCompress (accs : CompressNFT) (index : N) (mint_creator : Pubkey) (path : N) (proof : list Node)
  | WDecompress (mint_bump : N) (params : DecompressNFTArgs).

Section theorems.
Context `{Keccak} `{BuildProfile} `{Pda} `{WalletPrograms}.
Context (wallet_program_id spl_token_2022_id mpl_token_metadata_id associated_token_id system_id rent_id :
  Pubkey).
Implicit Types (s : wallet_state) (w : MerkleWallet) (k : Pubkey) (o : wallet_op).

Definition run_wallet o : w_method unit :=
  match o with
  | WInitialize accs => initialize_merkle_wallet wallet_program_id system_id accs
  | WMint accs => mint_nft wallet_program_id spl_token_2022_id associated_token_id system_id rent_id accs
  | WCompress accs index mint_creator path proof =>
      compress_nft wallet_program_id spl_token_2022_id mpl_token_metadata_id system_id
        accs index mint_creator path proof
  | WDecompress mint_bump params => decompress_nft mint_bump params
  end.

(** A transaction that fails leaves the accounts as they were. *)
Definition exec_wallet s o : wallet_state :=
  match run_wallet o s with
  | (Ok _, s') => s'
  | _ => s
  end.

(** What the leaf of an NFT is the hash of: the hash of the metadata and of the
    creator of its mint, and its index. *)
Definition leaf_inputs (metadata : bytes) (mint_creator : Pubkey) (index : N) : list bytes :=
  [vec_to_list (hashv [vec_to_list (hashv [vec_to_list EMPTY; metadata]); vec_to_list mint_creator]);
   to_le_bytes 16 index].

(** The pair of nodes that a proof of a zero leaf hashes last; none for an empty proof. *)
Definition last_inputs (proof : list Node) (path : N) : w_outcome (option (list bytes)) :=
  match last proof with
  | None => Ok None
  | Some top =>
      let below := take (length proof - 1) proof in
      node ← wallet_recompute EMPTY below path;
      sh ← wshr 32 path (N.of_nat (length below));
      Ok (Some (if (N.land sh 1 =? 1)%N then [vec_to_list node; vec_to_list top]
                else [vec_to_list top; vec_to_list node]))
  end.

(** ** The tree of a wallet *)

(** The index of the leaf that [path] denotes: a set bit is a left child. *)
Definition leaf_index (path : N) (depth : nat) : N :=
  N.lxor (path `mod` 2 ^ N.of_nat depth) (N.ones (N.of_nat depth)).

Lemma leaf_index_testbit path depth (j : nat) :
  j < depth → N.testbit (leaf_index path depth) (N.of_nat j) = negb (N.testbit path (N.of_nat j)).
Proof.
  intros Hj. unfold leaf_index. rewrite N.lxor_spec, N.ones_spec_low by lia.
  rewrite <-N.land_ones, N.land_spec, N.ones_spec_low by lia.
  by destruct (N.testbit path (N.of_nat j)).
Qed.

Lemma leaf_index_lt path depth : (leaf_index path depth < 2 ^ N.of_nat depth)%N.
Proof.
  apply lxor_lt.
  - apply N.mod_lt. by apply N.pow_nonzero.
  - rewrite N.ones_equiv. pose proof (N.pow_nonzero 2 (N.of_nat depth)). lia.
Qed.

Lemma wallet_recompute_loop_ok ix start proof path depth :
  ix + length proof ≤ depth → depth ≤ 32 →
  wallet_recompute_loop ix start proof path = Ok (hash_path ix start proof (leaf_index path depth)).
Proof.
  revert ix start. induction proof as [|x proof IH]; intros ix start Hlen Hd; simpl in *; [done|].
  rewrite wshr_ok by lia. simpl. rewrite land_1_testbit_1, leaf_index_testbit, negb_involutive by lia.
  by apply IH; lia.
Qed.

Lemma wallet_recompute_ok start proof path :
  length proof ≤ 32 →
  wallet_recompute start proof path = Ok (hash_path 0 start proof (leaf_index path (length proof))).
Proof. intros. by apply wallet_recompute_loop_ok. Qed.

Lemma generate_leaf_ok metadata mint_creator index :
  generate_leaf_node [metadata; vec_to_list mint_creator; to_le_bytes 16 index] =
  Ok (hashv (leaf_inputs metadata mint_creator index)).
Proof. done. Qed.

(** ** What a successful [compress_nft] did *)
Lemma invoke_wallet_Ok c s x s' :
  invoke_wallet c s = (Ok x, s') → wallets s' = wallets s ∧ wallet_cpis s' = wallet_cpis s ++ [c].
Proof. unfold invoke_wallet. intros Hrun. by inv_method. Qed.

Lemma load_wallet_Ok acc s w s' :
  load_wallet acc s = (Ok w, s') → wallets s !! key acc = Some w ∧ s' = s.
Proof.
  unfold load_wallet. intros Hrun. inv_method. destruct (wallets _ !! _); [|done].
  by injection Hrun as ->.
Qed.

Lemma CompressNFT_accounts_Ok accs s edition b s' :
  CompressNFT_accounts wallet_program_id spl_token_2022_id mpl_token_metadata_id system_id accs s =
    (Ok (edition, b), s') → s' = s.
Proof.
  unfold CompressNFT_accounts. intros Hrun. inv_method.
  match goal with Hl : load_wallet _ _ = _ |- _ => by apply load_wallet_Ok in Hl as [_ ->] end.
Qed.

(** Replaces what is known of each call by its effect on the wallets. *)
Ltac wallet_calls :=
  repeat match goal with
  | Hrun : invoke_wallet _ _ = (Ok _, _) |- _ => apply invoke_wallet_Ok in Hrun as [Hrun _]
  | Hrun : load_wallet _ _ = (Ok _, _) |- _ => apply load_wallet_Ok in Hrun as [Hrun ->]
  | Hrun : CompressNFT_accounts _ _ _ _ _ _ = (Ok (_, _), _) |- _ => apply CompressNFT_accounts_Ok in Hrun as ->
  end; cbn [wallets set_wallet] in *.

Lemma compress_Ok accs index mint_creator path proof s x s' :
  run_wallet (WCompress accs index mint_creator path proof) s = (Ok x, s') →
  ∃ w new_root,
    wallets s !! key (cn_merkle_wallet accs) = Some w ∧
    wallet_recompute EMPTY proof path = Ok (w_root w) ∧
    wallet_recompute (hashv (leaf_inputs (cn_metadata_data accs) mint_creator index)) proof path =
      Ok new_root ∧
    wallets s' = <[key (cn_merkle_wallet accs) := mk_MerkleWallet new_root (w_counter w) (w_bump w)]>
      (wallets s).
Proof.
  cbn [run_wallet]. unfold compress_nft, assert_with_msg. intros Hrun. inv_method.
  rewrite generate_leaf_ok in *. wallet_calls. simplify_eq.
  match goal with Hc : (if negb (bool_decide (?r = ?r')) then _ else _) = Ok _ |- _ =>
    destruct (bool_decide_reflect (r = r')) as [->|]; [|done] end.
  eexists _, _. split; [done|]. split; [done|]. split; [done|]. congruence.
Qed.

Lemma wallet_initialize_Ok accs s x s' :
  run_wallet (WInitialize accs) s = (Ok x, s') →
  wallets s !! key (im_merkle_wallet accs) = None ∧
  ∃ b, wallets s' = <[key (im_merkle_wallet accs) := mk_MerkleWallet EMPTY 0 b]> (wallets s).
Proof.
  cbn [run_wallet]. unfold initialize_merkle_wallet, InitializeMerkleWallet_accounts.
  intros Hrun. inv_method.
  match goal with Hc : (match ?found with Some _ => _ | None => _ end) _ = _ |- _ =>
    destruct found as [b|]; [|done] end. inv_method.
  match goal with Hc : constraint _ = Ok _ |- _ => apply constraint_inv in Hc end. inv_method.
  wallet_calls. split; [done|]. exists b.
  match goal with Hw : wallets _ = wallets _ |- _ => rewrite Hw end. by rewrite insert_insert_eq.
Qed.

Lemma wallet_mint_Ok accs s x s' :
  run_wallet (WMint accs) s = (Ok x, s') →
  ∃ w counter, wallets s !! key (mn_merkle_wallet accs) = Some w ∧
    wadd (E:=w_error) 128 (w_counter w) 1 = Ok counter ∧
    wallets s' = <[key (mn_merkle_wallet accs) := mk_MerkleWallet (w_root w) counter (w_bump w)]> (wallets s).
Proof.
  cbn [run_wallet]. unfold mint_nft, MintNFT_accounts. intros Hrun. inv_method. wallet_calls.
  exists x7, x6. assert (wallets s4 = wallets s) as Hw by congruence.
  rewrite Hw in *. by simplify_eq.
Qed.

(** A wallet stays, and only [compress_nft] on it changes its root. *)
Lemma wallet_op_root o s x s' k w :
  run_wallet o s = (Ok x, s') → wallets s !! k = Some w →
  ∃ w', wallets s' !! k = Some w' ∧
    (w_root w' = w_root w ∨
     ∃ accs index mint_creator path proof,
       o = WCompress accs index mint_creator path proof ∧ key (cn_merkle_wallet accs) = k ∧
       wallet_recompute EMPTY proof path = Ok (w_root w)).
Proof.
  intros Hrun Hk. destruct o as [accs|accs|accs index creator path proof|b params].
  - apply wallet_initialize_Ok in Hrun as (Hnone & b & ->). exists w. split; [|by left].
    rewrite lookup_insert_ne by congruence. done.
  - apply wallet_mint_Ok in Hrun as (w0 & counter & Hw0 & _ & ->).
    destruct (decide (key (mn_merkle_wallet accs) = k)) as [<-|Hne].
    + simplify_eq. eexists. split; [apply lookup_insert_eq|by left].
    + exists w. rewrite lookup_insert_ne by done. split; [done|by left].
  - apply compress_Ok in Hrun as (w0 & new_root & Hw0 & Hproof & _ & ->).
    destruct (decide (key (cn_merkle_wallet accs) = k)) as [<-|Hne].
    + simplify_eq. eexists. split; [apply lookup_insert_eq|]. right.
      by exists accs, index, creator, path, proof.
    + exists w. rewrite lookup_insert_ne by done. split; [done|by left].
  - injection Hrun as _ <-. exists w. split; [done|by left].
Qed.

(** ** What an accepted proof of a zero leaf hashed *)
Lemma recompute_snoc start proof top path ix :
  wallet_recompute_loop ix start (proof ++ [top]) path =
  (node ← wallet_recompute_loop ix start proof path;
   sh ← wshr 32 path (N.of_nat (ix + length proof));
   Ok (if (N.land sh 1 =? 1)%N then hashv [vec_to_list node; vec_to_list top]
       else hashv [vec_to_list top; vec_to_list node])).
Proof.
  revert ix start. induction proof as [|x proof IH]; intros ix start; simpl.
  - rewrite Nat.add_0_r. by destruct (wshr _ _ _).
  - destruct (wshr 32 path (N.of_nat ix)); simpl; [|done..].
    rewrite IH. by rewrite Nat.add_succ_r.
Qed.

Lemma recompute_last proof path r :
  wallet_recompute EMPTY proof path = Ok r →
  (proof = [] ∧ r = EMPTY) ∨
  ∃ l, last_inputs proof path = Ok (Some l) ∧ r = hashv l ∧ length (concat l) = 64.
Proof.
  destruct proof as [|top below _] using rev_ind; [intros [= <-]; by left|].
  unfold wallet_recompute. rewrite recompute_snoc. intros Hrun. right.
  unfold last_inputs. rewrite last_snoc, length_app.
  replace (length below + length [top] - 1) with (length below) by (simpl; lia).
  rewrite take_app_length. unfold wallet_recompute.
  apply bind_Ok_inv in Hrun as (node & -> & Hrun). apply bind_Ok_inv in Hrun as (sh & Hsh & [= <-]).
  simpl in *. rewrite Hsh. simpl. eexists. split; [done|].
  by destruct (_ =? _)%N; split; [|simpl; rewrite !length_app, !length_vec_to_list|
    |simpl; rewrite !length_app, !length_vec_to_list].
Qed.

(** A proof of a zero leaf whose root is the hash of an NFT is a collision. *)
Lemma leaf_has_no_proof proof path metadata creator index :
  hashv (leaf_inputs metadata creator index) ≠ EMPTY →
  (∀ l, last_inputs proof path = Ok (Some l) → ¬ is_collision (l, leaf_inputs metadata creator index)) →
  wallet_recompute EMPTY proof path ≠ Ok (hashv (leaf_inputs metadata creator index)).
Proof.
  intros Hleaf Hcol [[_ He]|(l & Hl & Heq & Hlen)]%recompute_last; [done|].
  apply (Hcol l Hl). split; [|done]. cbn [fst snd]. intros Hc. rewrite Hc in Hlen.
  simpl in Hlen. rewrite !length_app, length_vec_to_list in Hlen. simpl in Hlen. lia.
Qed.

(** The accepted compressions of a history do not hash a proof to the leaf [l]. *)
Definition no_collision_with (l : list bytes) o : Prop :=
  match o with
  | WCompress _ _ _ path proof => ∀ l', last_inputs proof path = Ok (Some l') → ¬ is_collision (l', l)
  | _ => True
  end.

Lemma leaf_stays s k w metadata creator index os :
  let l := leaf_inputs metadata creator index in
  wallets s !! k = Some w → w_root w = hashv l → hashv l ≠ EMPTY → Forall (no_collision_with l) os →
  ∃ w', wallets (foldl exec_wallet s os) !! k = Some w' ∧ w_root w' = hashv l.
Proof.
  intros l Hk Hroot Hleaf Hos. revert s w Hk Hroot.
  induction Hos as [|o os Ho _ IH]; intros s w Hk Hroot; cbn [foldl]; [by exists w|].
  assert (∃ w', wallets (exec_wallet s o) !! k = Some w' ∧ w_root w' = hashv l) as (w' & Hk' & Hroot').
  { unfold exec_wallet. destruct (run_wallet o s) as [[x|e| |] s'] eqn:Hrun; [|by exists w..].
    destruct (wallet_op_root o s x s' k w Hrun Hk)
      as (w' & Hk' & [Hsame|(accs & ix & c & path & proof & -> & _ & Hproof)]).
    - exists w'. split; [done|]. by rewrite Hsame.
    - exfalso. rewrite Hroot in Hproof. by apply leaf_has_no_proof in Hproof. }
  by apply (IH _ w').
Qed.

(** C33: a wallet holds one NFT.  A new wallet has the zero root, which only an
    empty proof reaches; the first compression makes the root the hash of its NFT.
    From then on, whatever instructions anyone sends, on this wallet and others,
    the root stays that hash: no second compression succeeds, since its proof
    would be a collision between 64 bytes and the 48 bytes that the leaf hashes.
    The side conditions name the inputs at hand that must not hash to zero, or
    collide. *)
Theorem wallet_holds_one_nft s w accs index creator path proof s1 os :
  let k := key (cn_merkle_wallet accs) in
  let l := leaf_inputs (cn_metadata_data accs) creator index in
  wallets s !! k = Some w → w_root w = EMPTY →
  run_wallet (WCompress accs index creator path proof) s = (Ok tt, s1) →
  (∀ l', last_inputs proof path = Ok (Some l') → hashv l' ≠ EMPTY) → hashv l ≠ EMPTY →
  Forall (no_collision_with l) os →
  ∃ w', wallets (foldl exec_wallet s1 os) !! k = Some w' ∧ w_root w' = hashv l.
Proof.
  intros k l Hk Hroot Hrun Hzero Hleaf Hos.
  apply compress_Ok in Hrun as (w0 & new_root & Hk0 & Hproof & Hnew & Hs1).
  fold k in Hk0, Hs1. fold l in Hnew. simplify_eq. rewrite Hroot in Hproof.
  apply recompute_last in Hproof as [[-> _]|(l' & Hl' & He & _)]; [|by destruct (Hzero l' Hl')].
  injection Hnew as <-. eapply leaf_stays; [rewrite Hs1; apply lookup_insert_eq|done..].
Qed.

(** What [compress_nft] means: with a proof of at most 32 nodes for the tree [T] of
    which the wallet holds the root, the leaf at the index that [path] denotes is
    empty, and takes the hash of the NFT. *)
Theorem compress_refines accs index creator path proof s x s' w T :
  let k := key (cn_merkle_wallet accs) in let d := length proof in let i := leaf_index path d in
  wallets s !! k = Some w → w_root w = troot T d → d ≤ 32 →
  run_wallet (WCompress accs index creator path proof) s = (Ok x, s') →
  find_collision T 0 EMPTY proof i = None →
  leaf_at T i = EMPTY ∧ ∃ w', wallets s' !! k = Some w' ∧
    w_root w' = troot (<[i := hashv (leaf_inputs (cn_metadata_data accs) creator index)]> T) d.
Proof.
  intros k d i Hk Hroot Hd Hrun Hnone.
  apply compress_Ok in Hrun as (w0 & new_root & Hk0 & Hproof & Hnew & Hs'). fold k in Hk0, Hs'.
  simplify_eq. rewrite Hroot in Hproof. rewrite wallet_recompute_ok in Hproof, Hnew by done.
  fold d i in Hproof, Hnew. injection Hproof as Hproof. injection Hnew as <-.
  pose proof (leaf_index_lt path d) as Hi. fold i in Hi.
  destruct (verified_proof T d EMPTY proof i) as [He Hp]; [done..|].
  split; [done|]. eexists. split; [rewrite Hs'; apply lookup_insert_eq|]. cbn [w_root].
  rewrite Hp. rewrite <-(tproof_insert_self T d i (hashv (leaf_inputs (cn_metadata_data accs) creator index))).
  rewrite <-(hash_path_tproof (<[i:=hashv (leaf_inputs (cn_metadata_data accs) creator index)]> T) d i) by done.
  by rewrite leaf_at_insert.
Qed.
End theorems.

Module WToy.
Import Toy.

#[export] Instance toy_pda : Pda := λ seeds program, (toy_hashv (seeds ++ [vec_to_list program]), 254%N).

#[export] Instance toy_programs : WalletPrograms := {
  invoke_ok _ := true;
  mint_with_close_authority_len := 202;
  Metadata := bytes;
  MasterEditionV2 := option N;
  me_max_supply edition := edition;
  metadata_from_slice_checked buf := Some buf;
  master_edition_from_slice_checked buf := match buf with [] => None | _ => Some (Some 0%N) end;
}.

Definition program : Pubkey := toy_node 4000.
Definition token : Pubkey := toy_node 4001.
Definition token_metadata : Pubkey := toy_node 4002.
Definition associated_token : Pubkey := toy_node 4003.
Definition system : Pubkey := toy_node 4004.
Definition rent : Pubkey := toy_node 4005.
Definition carol : Pubkey := toy_node 4100.
Definition mint : Pubkey := toy_node 4101.

Definition account (k o : Pubkey) : AccountInfo := mk_AccountInfo k true true o 1000.
Definition at_address (seeds : list bytes) : AccountInfo :=
  account (find_program_address seeds program).1 program.

Definition run_toy : wallet_op → w_method unit :=
  run_wallet program token token_metadata associated_token system rent.

Definition exec_toy : wallet_state → wallet_op → wallet_state :=
  exec_wallet program token token_metadata associated_token system rent.

Definition init_accs : InitializeMerkleWallet :=
  mk_InitializeMerkleWallet (at_address (wallet_seeds carol)) (account carol system) (account system system).

Definition mint_accs : MintNFT :=
  mk_MintNFT (at_address (wallet_seeds carol)) (at_address (wallet_mint_seeds carol 0)) true
    (account (toy_node 4102) token) (at_address wallet_authority_seeds) (account carol system)
    (account rent system) (account token system) (account associated_token system) (account system system).

Definition compress_accs : CompressNFT :=
  mk_CompressNFT (at_address (wallet_seeds carol)) (account (toy_node 4102) token) (account mint token)
    (at_address wallet_authority_seeds) (account (toy_node 4103) token_metadata) (string_bytes "candy")
    (account (toy_node 4104) token_metadata) (string_bytes "edition") (account carol system)
    (account token system) (account token_metadata system) (account system system).

Definition created : wallet_state := (run_toy (WInitialize init_accs) (mk_wallet_state ∅ [])).2.
Definition minted : wallet_state := (run_toy (WMint mint_accs) created).2.
Definition compressed : wallet_state := (run_toy (WCompress compress_accs 0 carol 0 []) minted).2.

(** Attempts at a second NFT, without a proof and with one. *)
Definition attempts : list wallet_op :=
  [WCompress compress_accs 1 carol 0 []; WCompress compress_accs 1 carol 1 [toy_node 7];
   WInitialize init_accs; WDecompress 254 (mk_DecompressNFTArgs 0 carol 0 0 [] 0 [])].

Definition nft : Node := hashv (leaf_inputs (string_bytes "candy") carol 0).

Example wallet_minted :
  wallets minted !! key (cn_merkle_wallet compress_accs) = Some (mk_MerkleWallet EMPTY 1 254).
Proof. by vm_compute. Qed.

Lemma wallet_holds_one_nft_witness :
  ∃ w', wallets (foldl exec_toy compressed attempts) !! key (cn_merkle_wallet compress_accs) = Some w' ∧
    w_root w' = nft.
Proof.
  apply (wallet_holds_one_nft program token token_metadata associated_token system rent minted
    (mk_MerkleWallet EMPTY 1 254) compress_accs 0 carol 0 [] compressed attempts).
  - exact wallet_minted.
  - done.
  - by vm_compute.
  - intros l' Hl. by vm_compute in Hl.
  - by vm_compute.
  - apply Forall_cons_2; [|apply Forall_cons_2; [|by repeat constructor]]; intros l' Hl;
      vm_compute in Hl; [discriminate|]. injection Hl as <-. intros [_ Heq]. by vm_compute in Heq.
Defined.

End WToy.
