(* ===== verification/Database.v ===== *)
(** * The database of the indexer: [digital_asset_types/src/dao] and its tables

    The rows of the tables that the ingester writes and the APIs read, and how
    statements run: one after the other, each of which may fail, inside or
    outside a transaction that is reverted as a whole.

    A signed integer of the source is a [Z] in its range.  [cl_items] has a unique
    index on (tree, node), so it is a map; [backfill_items] keeps its rows in the
    order of their serial ids.  What decides whether a statement fails for a
    reason of its own (a lost connection) is a parameter, [Faults]. *)

From S2P Require Import Prelude Solana LeafSchema.

(** ** Signed integers *)
Section signed.
Context `{BuildProfile} {E : Type}.
Local Open Scope Z_scope.

(** The value that [as i64] and [as i32] keep. *)
Definition wrap_signed (w z : Z) : Z := (z + 2 ^ (w - 1)) `mod` 2 ^ w - 2 ^ (w - 1).
Definition as_i64 (n : N) : Z := wrap_signed 64 (Z.of_N n).
Definition as_i32 (n : N) : Z := wrap_signed 32 (Z.of_N n).

(** The result of an operation on [i64]. *)
Definition i64 (z : Z) : outcome E Z :=
  if decide (- 2 ^ 63 ≤ z < 2 ^ 63) then Ok z else on_overflow (wrap_signed 64 z).

Definition pow2_i64 (n : N) : outcome E Z := i64 (2 ^ Z.of_N n).
End signed.

(** ** Rows *)

(** [cl_items::Model], keyed by [tree] and [node_idx]. *)
Record cl_item := mk_cl_item {
  ci_leaf_idx : option Z;
  ci_seq : Z;
  ci_level : Z;
  ci_hash : bytes;
}.

#[export] Instance cl_item_eq_dec : EqDecision cl_item.
Proof. solve_decision. Defined.

Record backfill_item := mk_backfill_item {
  bf_id : Z;
  bf_tree : Pubkey;
  bf_seq : Z;
  bf_slot : Z;
  bf_force_chk : option bool;
}.

#[export] Instance backfill_item_eq_dec : EqDecision backfill_item.
Proof. solve_decision. Defined.

Inductive ChainMutability := ChainImmutable | ChainMutable | ChainUnknown.
Inductive RoyaltyTargetType := RoyaltyCreators | RoyaltyFanout | RoyaltySingle | RoyaltyUnknown.
Inductive Mutability := Immutable | Mutable | MutabilityUnknown.
Inductive OwnerType := OwnerSingle | OwnerToken | OwnerUnknown.

#[export] Instance RoyaltyTargetType_eq_dec : EqDecision RoyaltyTargetType.
Proof. solve_decision. Defined.

#[export] Instance OwnerType_eq_dec : EqDecision OwnerType.
Proof. solve_decision. Defined.

(** [asset::Model]; [created_at], which the database fills in and no code reads, is
    left out. *)
Record asset_row := mk_asset_row {
  as_specification_version : Z;
  as_owner : bytes;
  as_owner_type : OwnerType;
  as_delegate : option bytes;
  as_frozen : bool;
  as_supply : Z;
  as_supply_mint : option bytes;
  as_compressed : bool;
  as_compressible : bool;
  as_tree_id : option bytes;
  as_leaf : option bytes;
  as_nonce : Z;
  as_royalty_target_type : RoyaltyTargetType;
  as_royalty_target : option bytes;
  as_royalty_amount : Z;
  as_chain_data_id : option Z;
  as_burnt : bool;
}.

(** [json::ChainDataV1]: what [chain_data] holds, and the [serde_json::Value]s that
    [metadata] holds: a string, or the body that was downloaded. *)
Record ChainDataV1 := mk_ChainDataV1 {
  cd_name : string;
  cd_symbol : string;
  cd_edition_nonce : option N;
  cd_primary_sale_happened : bool;
  cd_token_standard : option TokenStandard;
  cd_uses : option Uses;
}.

Inductive json_value := JsonString (s : string) | JsonBody (body : bytes).

Record asset_data_row := mk_asset_data_row {
  ad_chain_data_mutability : ChainMutability;
  ad_schema_version : Z;
  ad_chain_data : ChainDataV1;
  ad_metadata_url : string;
  ad_metadata_mutability : Mutability;
  ad_metadata : json_value;
}.

(** The serial ids of these three tables are read by nothing, and left out. *)
Record creator_row := mk_creator_row {
  cw_asset_id : Pubkey;
  cw_creator : Pubkey;
  cw_share : Z;
  cw_verified : bool;
}.

Record authority_row := mk_authority_row {
  aw_asset_id : Pubkey;
  aw_scopes : option string;
  aw_authority : bytes;
}.

Record grouping_row := mk_grouping_row {
  gw_asset_id : Pubkey;
  gw_group_key : string;
  gw_group_value : string;
}.

Record tables := mk_tables {
  cl_items : gmap (Pubkey * Z) cl_item;
  backfill_items : list backfill_item;
  assets : gmap Pubkey asset_row;
  asset_datas : gmap Z asset_data_row;
  asset_creators : list creator_row;
  asset_authorities : list authority_row;
  asset_groupings : list grouping_row;
}.

Definition set_cl_items m t := mk_tables m (backfill_items t) (assets t) (asset_datas t)
  (asset_creators t) (asset_authorities t) (asset_groupings t).
Definition set_backfill_items b t := mk_tables (cl_items t) b (assets t) (asset_datas t)
  (asset_creators t) (asset_authorities t) (asset_groupings t).
Definition set_assets a t := mk_tables (cl_items t) (backfill_items t) a (asset_datas t)
  (asset_creators t) (asset_authorities t) (asset_groupings t).
Definition set_asset_datas d t := mk_tables (cl_items t) (backfill_items t) (assets t) d
  (asset_creators t) (asset_authorities t) (asset_groupings t).
Definition set_asset_creators c t := mk_tables (cl_items t) (backfill_items t) (assets t) (asset_datas t)
  c (asset_authorities t) (asset_groupings t).
Definition set_asset_authorities a t := mk_tables (cl_items t) (backfill_items t) (assets t) (asset_datas t)
  (asset_creators t) a (asset_groupings t).
Definition set_asset_groupings g t := mk_tables (cl_items t) (backfill_items t) (assets t) (asset_datas t)
  (asset_creators t) (asset_authorities t) g.

(** [DownloadMetadata], the one kind of background task. *)
Record DownloadMetadata := mk_DownloadMetadata {
  dm_asset_data_id : Z;
  dm_uri : string;
}.

(** The database: its tables, the two sequences of serial ids that the code reads
    (a reverted transaction does not give ids back), and the number of statements
    run so far; beside it, the channel of the tasks that were sent and not run. *)
Record db := mk_db {
  tbl : tables;
  next_backfill_id : Z;
  next_asset_data_id : Z;
  executed : N;
  task_queue : list DownloadMetadata;
}.

Definition set_tables (t : tables) (d : db) : db :=
  mk_db t (next_backfill_id d) (next_asset_data_id d) (executed d) (task_queue d).

Definition set_task_queue (q : list DownloadMetadata) (d : db) : db :=
  mk_db (tbl d) (next_backfill_id d) (next_asset_data_id d) (executed d) q.

Definition tick (d : db) : db :=
  mk_db (tbl d) (next_backfill_id d) (next_asset_data_id d) (executed d + 1) (task_queue d).

(** The errors of the ingester ([error/mod.rs]) and of the database layer; the
    messages that some of them carry are left out. *)
Inductive IngesterError :=
  | ChangeLogEventMalformed
  | CompressedAssetEventMalformed
  | BatchInitNetworkingError
  | BatchInitIOError
  | StorageWriteError
  | NotImplemented
  | DeserializationError
  | TaskManagerError
  | ConfigurationError.

#[export] Instance IngesterError_eq_dec : EqDecision IngesterError.
Proof. solve_decision. Defined.

(** [From<reqwest::Error>], [From<std::io::Error>], [From<DbErr>], [From<TransactionError>]
    and [From<SendError>]. *)
Inductive foreign_error := ReqwestError | IoError | DbError | TransactionError | SendError.

Definition IngesterError_from (e : foreign_error) : IngesterError :=
  match e with
  | ReqwestError => BatchInitNetworkingError
  | IoError => BatchInitIOError
  | DbError => StorageWriteError
  | TransactionError => StorageWriteError
  | SendError => TaskManagerError
  end.

(** The errors of the database layer. *)
Inductive DbErr := DbErrExec | RecordNotFound | DbErrCustom (msg : string).

Abbreviation i_method := (method db IngesterError).
Abbreviation d_method := (method db DbErr).

(** The order of the rows of a query without [ORDER BY]. *)
Class RowOrder := row_order : ∀ A : Type, list A → list A.
Arguments row_order {_ A} l.

(** Which statements fail: the [n]-th statement of the run does when [fails n].
    [missing_update_fails]: whether updating a row that does not exist is an error
    of the database layer.  [receiver_closed]: whether the receiver of the channel
    of tasks is gone. *)
Class Faults := {
  fails : N → bool;
  missing_update_fails : bool;
  receiver_closed : bool;
}.

Section statements.
Context `{Faults}.

(** One statement: its effect on the tables and the value it returns, or the error
    of the layer that runs it. *)
Definition execute_as {E A} (e : E) (f : db → A * db) : method db E A := λ d,
  if fails (executed d) then (Err e, tick d) else let '(a, d') := f (tick d) in (Ok a, d').

Definition execute {A} (f : db → A * db) : i_method A := execute_as (IngesterError_from DbError) f.
Definition db_execute {A} (f : db → A * db) : d_method A := execute_as DbErrExec f.

Definition query {A} (f : tables → A) : i_method A := execute (λ d, (f (tbl d), d)).
Definition update_tables (f : tables → tables) : i_method unit :=
  execute (λ d, (tt, set_tables (f (tbl d)) d)).

(** [db.transaction(...)]: the tables are those of the start unless everything,
    the commit included, succeeds; its error becomes one of the ingester. *)
Definition begin_commit {A} (m : i_method A) : i_method A :=
  execute (λ d, (tt, d));; a ← m; execute (λ d, (tt, d));; mret a.

Definition transaction {A} (m : i_method A) : i_method A := λ d,
  match begin_commit m d with
  | (Ok a, d') => (Ok a, d')
  | (Err _, d') => (Err (IngesterError_from TransactionError), set_tables (tbl d) d')
  | (o, d') => (o, set_tables (tbl d) d')
  end.
End statements.

(** ** Lemmas *)
Section lemmas.
Local Open Scope Z_scope.

Lemma wrap_signed_id w z : 0 < w → - 2 ^ (w - 1) ≤ z < 2 ^ (w - 1) → wrap_signed w z = z.
Proof.
  intros Hw Hz. unfold wrap_signed. rewrite Z.mod_small; [lia|].
  assert (2 ^ w = 2 * 2 ^ (w - 1)) as ->; [|lia].
  rewrite <-Z.pow_succ_r by lia. f_equal. lia.
Qed.

Lemma as_i64_small n : (n < 2 ^ 63)%N → as_i64 n = Z.of_N n.
Proof.
  intros Hn. apply wrap_signed_id; [done|]. change (2 ^ (64 - 1)) with (2 ^ 63).
  assert (Z.of_N n < Z.of_N (2 ^ 63)) as Hlt by lia. change (Z.of_N (2 ^ 63)) with (2 ^ 63) in Hlt. lia.
Qed.

Lemma i64_ok `{BuildProfile} {E} z : - 2 ^ 63 ≤ z < 2 ^ 63 → i64 (E:=E) z = Ok z.
Proof. intros. unfold i64. by rewrite decide_True. Qed.

Context `{Faults}.

(** A failed transaction leaves the tables as they were. *)
Lemma transaction_atomic {A} (m : i_method A) d o d' :
  transaction m d = (o, d') → is_ok o = false → tbl d' = tbl d.
Proof.
  unfold transaction. destruct (begin_commit m d) as [[x|e| |] d1];
    intros Heq; injection Heq as <- <-; simpl; congruence.
Qed.

Lemma execute_as_ok {E A} (e : E) (f : db → A * db) d :
  fails (executed d) = false → execute_as e f d = let '(a, d') := f (tick d) in (Ok a, d').
Proof. intros Hf. unfold execute_as. by rewrite Hf. Qed.

Lemma execute_ok {A} (f : db → A * db) d :
  (∀ n, fails n = false) → execute f d = let '(a, d') := f (tick d) in (Ok a, d').
Proof. intros Hf. by apply execute_as_ok. Qed.

Lemma execute_Ok_inv {A} (f : db → A * db) d x d' : execute f d = (Ok x, d') → f (tick d) = (x, d').
Proof.
  unfold execute, execute_as. destruct (fails _); [done|]. destruct (f _) as [y d1]. by intros [= -> ->].
Qed.

(** Methods whose every run, failed or not, stays in a preorder. *)
Definition moves {E A} (R : db → db → Prop) (m : method db E A) : Prop := ∀ d, R d (m d).2.

Lemma moves_ret {E A} R `{!PreOrder R} (x : A) : moves (E:=E) R (mret x).
Proof. intros d. simpl. reflexivity. Qed.

Lemma moves_lift {E A} R `{!PreOrder R} (o : outcome E A) : moves R (lift o).
Proof. intros d. simpl. reflexivity. Qed.

Lemma moves_bind {E A C} R `{!PreOrder R} (m : method db E A) (f : A → method db E C) :
  moves R m → (∀ x, moves R (f x)) → moves R (m ≫= f).
Proof.
  intros Hm Hf d. unfold mbind, method_bind. specialize (Hm d).
  destruct (m d) as [[x|e| |] d1]; simpl in *; [|done..]. etransitivity; [exact Hm|apply Hf].
Qed.

Lemma moves_execute_as {E A} R `{!PreOrder R} (e : E) (f : db → A * db) :
  (∀ d, R d (tick d)) → (∀ d, R d (f d).2) → moves R (execute_as e f).
Proof.
  intros Ht Hf d. unfold execute_as. destruct (fails _); [apply Ht|].
  etransitivity; [apply Ht|]. specialize (Hf (tick d)). by destruct (f (tick d)).
Qed.

Lemma moves_transaction {A} R `{!PreOrder R} (m : i_method A) :
  (∀ d, R d (tick d)) → (∀ d d', R d d' → R d (set_tables (tbl d) d')) → moves R m → moves R (transaction m).
Proof.
  intros Ht Hset Hm.
  assert (moves R (begin_commit m)) as Hb.
  { assert (moves R (execute (λ d, (tt, d)))) by (apply (moves_execute_as R); [exact Ht|intros d; simpl; reflexivity]).
    apply (moves_bind R); [done|]. intros u. apply (moves_bind R); [done|]. intros x.
    apply (moves_bind R); [done|]. intros v. by apply moves_ret. }
  intros d. specialize (Hb d). unfold transaction. destruct (begin_commit m d) as [[x|e| |] d1]; simpl in *; auto.
Qed.

(** A transaction whose statements do not fail. *)
Lemma transaction_ok {A} (m : i_method A) d a d' :
  (∀ n, fails n = false) → m (tick d) = (Ok a, d') → transaction m d = (Ok a, tick d').
Proof.
  intros Hf Hm. unfold transaction, begin_commit, mbind, method_bind. rewrite !execute_ok by done.
  rewrite Hm. by rewrite execute_ok.
Qed.

(** A transaction that succeeded ran its statements. *)
Lemma transaction_Ok_inv {A} (m : i_method A) d a d' :
  transaction m d = (Ok a, d') → ∃ d1, m (tick d) = (Ok a, d1) ∧ d' = tick d1.
Proof.
  unfold transaction. destruct (begin_commit m d) as [[x|e| |] d1] eqn:Hm; try done. intros [= -> ->].
  apply method_bind_Ok_inv in Hm as ([] & d2 & Hb & Hm). apply execute_Ok_inv in Hb. injection Hb as <-.
  apply method_bind_Ok_inv in Hm as (y & d3 & Hs & Hm).
  apply method_bind_Ok_inv in Hm as ([] & d4 & Hc & Hm). apply execute_Ok_inv in Hc. injection Hc as <-.
  injection Hm as -> <-. by eexists.
Qed.
End lemmas.
