(* ===== verification/Text.v ===== *)
(** * Rust strings

    What the programs use of [std::str]: [from_utf8] with its validation,
    [trim_matches] of a one-byte character, and the decimal notation of
    integers.  A string is its UTF-8 bytes. *)

From stdpp Require Export pretty.
From S2P Require Import Prelude.

(** A continuation byte, and a byte in a range. *)
Definition in_range (lo hi b : N) : bool := ((lo <=? b) && (b <=? hi))%N.
Abbreviation continuation b := (in_range 128 191 b).

(** The well-formed sequences of the Unicode standard (its table 3-7). *)
Fixpoint utf8_valid (l : list N) : bool :=
  match l with
  | [] => true
  | a :: l1 =>
      if (a <? 128)%N then utf8_valid l1
      else match l1 with
      | [] => false
      | b :: l2 =>
          if in_range 194 223 a then continuation b && utf8_valid l2
          else match l2 with
          | [] => false
          | c :: l3 =>
              if (a =? 224)%N then in_range 160 191 b && continuation c && utf8_valid l3
              else if (a =? 237)%N then in_range 128 159 b && continuation c && utf8_valid l3
              else if in_range 225 239 a then continuation b && continuation c && utf8_valid l3
              else match l3 with
              | [] => false
              | e :: l4 =>
                  (if (a =? 240)%N then in_range 144 191 b
                   else if (a =? 244)%N then in_range 128 143 b
                   else in_range 241 243 a && continuation b) &&
                  continuation c && continuation e && utf8_valid l4
              end
          end
      end
  end.

(** [std::str::from_utf8]. *)
Definition from_utf8 (l : bytes) : option string :=
  if utf8_valid (Strings.Byte.to_N <$> l) then Some (String.string_of_list_byte l) else None.

Fixpoint drop_nul (l : bytes) : bytes :=
  match l with
  | x00 :: l => drop_nul l
  | _ => l
  end.

(** [trim_matches] of the character NUL. *)
Definition trim_nul (l : bytes) : bytes := reverse (drop_nul (reverse (drop_nul l))).

(** [std::str::from_utf8(l).unwrap().trim_matches(zero)]. *)
Definition text_of {E} (l : bytes) : outcome E string :=
  unwrap (from_utf8 l);; Ok (String.string_of_list_byte (trim_nul l)).

Lemma text_of_cases {E} l : text_of (E:=E) l = Panic ∨ ∃ x, text_of (E:=E) l = Ok x.
Proof. unfold text_of. destruct (from_utf8 l); [right; by eexists|by left]. Qed.

(** A byte above 127 that is followed by an ASCII byte is not well-formed. *)
Lemma utf8_invalid_lone a b l : (128 ≤ a)%N → (b < 128)%N → utf8_valid (a :: b :: l) = false.
Proof.
  intros Ha Hb. assert (∀ lo hi, (128 ≤ lo)%N → in_range lo hi b = false) as Hr.
  { intros lo hi Hlo. unfold in_range. apply andb_false_iff. left. apply N.leb_gt. lia. }
  cbn [utf8_valid]. rewrite (proj2 (N.ltb_ge a 128) Ha), !Hr by lia.
  destruct (in_range 194 223 a); [done|]. destruct l as [|c l]; [done|].
  destruct (a =? 224)%N; [done|]. destruct (a =? 237)%N; [done|]. destruct (in_range 225 239 a); [done|].
  destruct l as [|e l]; [done|]. by destruct (a =? 240)%N, (a =? 244)%N, (in_range 241 243 a).
Qed.

(** ASCII bytes are well-formed. *)
Lemma utf8_ascii l : Forall (λ b, (b < 128)%N) l → utf8_valid l = true.
Proof.
  induction 1 as [|b l Hb _ IH]; [done|]. cbn [utf8_valid].
  by rewrite (proj2 (N.ltb_lt b 128) Hb).
Qed.

(** The Base58 codec ([bs58], whose crate is not in the repository). *)
Class Base58 := {
  bs58_encode : bytes → string;
  bs58_decode : string → option bytes;
}.
