(* ===== verification/Json.v ===== *)
(** * JSON values: [serde_json::Value]

    A value, its indexing by a key and by a position (which give [Null] where
    there is nothing), and its views. *)

From S2P Require Import Prelude.

#[warnings="-all"]
Inductive json :=
  | JNull
  | JBool (b : bool)
  | JNumber (text : string)
  | JString (s : string)
  | JArray (l : list json)
  | JObject (m : list (string * json)).

(** [Value::get] of a key. *)
Definition json_get (v : json) (key : string) : option json :=
  match v with
  | JObject m => (λ p, p.2.2) <$> list_find (λ p, p.1 = key) m
  | _ => None
  end.

Definition json_index (v : json) (key : string) : json := default JNull (json_get v key).

(** [value\[i\]]. *)
Definition json_nth (v : json) (i : nat) : json :=
  match v with
  | JArray l => default JNull (l !! i)
  | _ => JNull
  end.

(** [as_str().unwrap()]. *)
Definition as_str {E} (v : json) : outcome E string :=
  match v with JString s => Ok s | _ => Panic end.
