(* ===== verification/ChangeLogStore.v ===== *)
(** * Ingesting change logs: [nft_ingester/src/parsers/gummyroll.rs]

    Each event of the tree program carries the path of one write.  The ingester
    stores its nodes by heap index, a newer sequence number replacing an older
    one, and adds a row to the queue of the backfiller. *)

From S2P Require Import Prelude Solana Gummyroll Database.

Section defs.
Context `{BuildProfile} `{Faults}.

Definition node_idx_to_leaf_idx {E} (index : Z) (tree_height : N) : outcome E Z :=
  p ← pow2_i64 tree_height;
  i64 (index - p)%Z.

(** The statement [INSERT .. ON CONFLICT (tree, node_idx) DO UPDATE SET hash, seq],
    with [WHERE excluded.seq > cl_items.seq] unless a gap is being filled. *)
Definition upsert (filling : bool) (m : gmap (Pubkey * Z) cl_item) (row : (Pubkey * Z) * cl_item) :
    gmap (Pubkey * Z) cl_item :=
  let '(k, item) := row in
  match m !! k with
  | None => <[k := item]> m
  | Some old =>
      if filling || (ci_seq old <? ci_seq item)%Z
      then <[k := mk_cl_item (ci_leaf_idx old) (ci_seq item) (ci_level old) (ci_hash item)]> m
      else m
  end.

(** The body of the loop over the path, at level [i]. *)
Definition store_path_node (ev : ChangeLogEvent) (filling : bool) (depth i : N) (p : PathNode) : i_method unit :=
  let node_idx := Z.of_N (pn_index p) in
  leaf_idx ← lift (if (i =? 0)%N
                   then l ← node_idx_to_leaf_idx node_idx (wrap 32 depth); Ok (Some l) else Ok None);
  let item := mk_cl_item leaf_idx (as_i64 (ev_seq ev)) (as_i64 i) (vec_to_list (pn_node p)) in
  update_tables (λ t, set_cl_items (upsert filling (cl_items t) ((ev_id ev, node_idx), item)) t).

Fixpoint store_path (ev : ChangeLogEvent) (filling : bool) (depth i : N) (path : list PathNode) : i_method N :=
  match path with
  | [] => mret i
  | p :: path => store_path_node ev filling depth i p;; store_path ev filling depth (i + 1) path
  end.

(** The row for the backfiller. *)
Definition insert_backfill_item (tree : Pubkey) (seq slot : Z) (force_chk : bool) : i_method unit :=
  execute (λ d,
    (tt, mk_db (set_backfill_items
                 (backfill_items (tbl d) ++ [mk_backfill_item (next_backfill_id d) tree seq slot (Some force_chk)])
                 (tbl d))
           (next_backfill_id d + 1)%Z (next_asset_data_id d) (executed d) (task_queue d))).

Definition gummyroll_change_log_event_to_database (ev : ChangeLogEvent) (slot : N) (filling : bool) :
    i_method unit :=
  depth ← lift (wsub 64 (N.of_nat (length (ev_path ev))) 1);
  i ← store_path ev filling depth 0 (ev_path ev);
  if bool_decide (Z.of_N i - 1 = as_i64 depth)%Z then
    query_result ← query (λ t, take 1 (filter (λ r, bf_tree r = ev_id ev) (backfill_items t)));
    let force_chk := bool_decide (length query_result = 0) && (1 <? ev_seq ev)%N in
    insert_backfill_item (ev_id ev) (as_i64 (ev_seq ev)) (as_i64 slot) force_chk
  else mret tt.

Fixpoint save_changelog_events (gummy_roll_events : list ChangeLogEvent) (slot : N) : i_method unit :=
  match gummy_roll_events with
  | [] => mret tt
  | ev :: evs =>
      gummyroll_change_log_event_to_database ev slot false;;
      save_changelog_events evs slot
  end.

(** The part of [handle_gummyroll_instruction] and of [tree_change_only] that
    follows the parsing of the logs. *)
Definition store_events (events : list ChangeLogEvent) (slot : N) : i_method unit :=
  transaction (save_changelog_events events slot).
End defs.

(** ** What a sequence of upserts leaves

    Rows of one history: two rows for the same key agree on the leaf index and the
    level, and are equal when they have the same sequence number. *)
Abbreviation row := ((Pubkey * Z) * cl_item)%type.

Definition coherent_at (rows : list row) (k : Pubkey * Z) : Prop := ∀ r1 r2,
  (k, r1) ∈ rows → (k, r2) ∈ rows →
  ci_leaf_idx r1 = ci_leaf_idx r2 ∧ ci_level r1 = ci_level r2 ∧ (ci_seq r1 = ci_seq r2 → r1 = r2).

Definition coherent (rows : list row) : Prop := ∀ k, coherent_at rows k.

(** [o] is the newest of the rows under the key [k]. *)
Definition newest (rows : list row) (k : Pubkey * Z) (o : option cl_item) : Prop :=
  match o with
  | None => ∀ r, (k, r) ∉ rows
  | Some r => (k, r) ∈ rows ∧ ∀ r2, (k, r2) ∈ rows → (ci_seq r2 ≤ ci_seq r)%Z
  end.

Lemma newest_unique rows k o1 o2 : coherent_at rows k → newest rows k o1 → newest rows k o2 → o1 = o2.
Proof.
  intros Hc H1 H2. destruct o1 as [r1|], o2 as [r2|]; simpl in *; [|naive_solver..].
  destruct H1 as [Hr1 Hm1], H2 as [Hr2 Hm2]. f_equal. apply Hc; [done..|].
  specialize (Hm1 _ Hr2). specialize (Hm2 _ Hr1). lia.
Qed.

Lemma newest_ext rows1 rows2 k o :
  (∀ r, (k, r) ∈ rows1 ↔ (k, r) ∈ rows2) → newest rows1 k o → newest rows2 k o.
Proof. intros Heq. destruct o as [r|]; simpl; setoid_rewrite Heq; done. Qed.

Lemma coherent_at_ext rows1 rows2 k :
  (∀ r, (k, r) ∈ rows1 ↔ (k, r) ∈ rows2) → coherent_at rows1 k → coherent_at rows2 k.
Proof. unfold coherent_at. intros Heq. by setoid_rewrite Heq. Qed.

Lemma upsert_lookup_ne f m k' it k : k ≠ k' → upsert f m (k', it) !! k = m !! k.
Proof.
  intros Hne. unfold upsert. destruct (m !! k'); [case_match; [|done]|]; by rewrite lookup_insert_ne.
Qed.

Lemma elem_of_snoc {A} (l : list A) x y : x ∈ l ++ [y] ↔ x ∈ l ∨ x = y.
Proof. by rewrite elem_of_app, list_elem_of_singleton. Qed.

Lemma newest_upsert rows m k' it k :
  coherent_at (rows ++ [(k', it)]) k → newest rows k (m !! k) →
  newest (rows ++ [(k', it)]) k (upsert false m (k', it) !! k).
Proof.
  intros Hc Hn. destruct (decide (k = k')) as [<-|Hne].
  2: { rewrite upsert_lookup_ne by done. revert Hn. apply newest_ext.
       intros r. rewrite elem_of_snoc. naive_solver. }
  unfold upsert. destruct (m !! k) as [old|] eqn:Hold; simpl in Hn; cbn [orb].
  2: { rewrite lookup_insert_eq. simpl. setoid_rewrite elem_of_snoc. split; [by right|].
       intros r2 [Hr2|[= ->]]; [by apply Hn in Hr2|done]. }
  destruct Hn as [Hr Hmax].
  destruct (Hc old it) as (Hl & Hv & Heq); [rewrite elem_of_snoc; auto..|].
  destruct (Z.ltb_spec (ci_seq old) (ci_seq it)) as [Hlt|Hge].
  - rewrite lookup_insert_eq, Hl, Hv. simpl. setoid_rewrite elem_of_snoc. split; [right; by destruct it|].
    intros r2 [Hr2|[= ->]]; [specialize (Hmax _ Hr2); lia|done].
  - rewrite Hold. simpl. setoid_rewrite elem_of_snoc. split; [by left|].
    intros r2 [Hr2|[= ->]]; [by apply Hmax|lia].
Qed.

(** After any sequence of upserts, each key holds the newest of its rows. *)
Lemma newest_upserts m rows k :
  coherent_at (map_to_list m ++ rows) k →
  newest (map_to_list m ++ rows) k (foldl (upsert false) m rows !! k).
Proof.
  induction rows as [|[k' it] rows IH] using rev_ind; intros Hc.
  - rewrite app_nil_r in *. simpl. destruct (m !! k) as [r|] eqn:Hr; simpl;
      setoid_rewrite elem_of_map_to_list.
    + split; [done|]. intros r2 Hr2. simplify_eq. done.
    + intros r Hin. congruence.
  - rewrite app_assoc in *. rewrite foldl_app. cbn [foldl]. apply newest_upsert; [done|].
    apply IH. intros r1 r2 H1 H2. apply Hc; rewrite elem_of_snoc; by left.
Qed.

(** The order and the repetitions of the rows do not matter. *)
Lemma upserts_ext m rows1 rows2 :
  coherent (map_to_list m ++ rows1) → (∀ x, x ∈ rows1 ↔ x ∈ rows2) →
  foldl (upsert false) m rows1 = foldl (upsert false) m rows2.
Proof.
  intros Hc Heq. apply map_eq. intros k.
  assert (∀ r, (k, r) ∈ map_to_list m ++ rows1 ↔ (k, r) ∈ map_to_list m ++ rows2) as Heq'.
  { intros r. by rewrite !elem_of_app, Heq. }
  apply (newest_unique (map_to_list m ++ rows1) k); [done|by apply newest_upserts|].
  apply (newest_ext (map_to_list m ++ rows2)); [done|].
  apply newest_upserts. by apply (coherent_at_ext _ _ _ Heq').
Qed.
