(* ===== verification/ChangeLogStoreTheorems.v ===== *)
(** * The indexed tree

    What the change-log table holds after events were ingested: whatever the order
    in which they arrive, however often, and whichever transactions of the
    database failed, the events that were stored at least once leave the newest
    value of every node; when they are those of a history, this is its last tree. *)

From S2P Require Import Prelude Hashing MerkleSpec Solana Gummyroll GummyrollCanopy Database ChangeLogStore.

Section store.
Context `{BuildProfile} `{Faults}.
Implicit Types (ev : ChangeLogEvent) (d : db).

(** The rows of an event. *)
Definition event_row ev (l : nat) (p : PathNode) : row :=
  ((ev_id ev, Z.of_N (pn_index p)),
   mk_cl_item (if decide (l = 0) then Some (Z.of_N (pn_index p) - 2 ^ Z.of_nat (length (ev_path ev) - 1))%Z else None)
     (as_i64 (ev_seq ev)) (Z.of_nat l) (vec_to_list (pn_node p))).

Definition event_rows ev : list row := imap (event_row ev) (ev_path ev).

Definition rows_of (evs : list ChangeLogEvent) : list row := evs ≫= event_rows.

(** An event whose path has a leaf and at most 63 nodes, with [u32] indices. *)
Definition event_ok ev : Prop :=
  0 < length (ev_path ev) ≤ 63 ∧ Forall (λ p, pn_index p < 2 ^ 32)%N (ev_path ev).

(** What the ingestion of change logs may touch. *)
Definition only_change_logs d d' : Prop :=
  ∃ b m, tbl d' = set_backfill_items b (set_cl_items m (tbl d)).

Lemma only_change_logs_refl d : only_change_logs d d.
Proof. exists (backfill_items (tbl d)), (cl_items (tbl d)). by destruct (tbl d). Qed.

Lemma only_change_logs_trans d1 d2 d3 :
  only_change_logs d1 d2 → only_change_logs d2 d3 → only_change_logs d1 d3.
Proof. intros (b & m & Ht) (b' & m' & Ht'). exists b', m'. rewrite Ht', Ht. done. Qed.

Lemma leaf_idx_ok {E} (n : N) (depth : nat) :
  (n < 2 ^ 32)%N → depth ≤ 62 →
  node_idx_to_leaf_idx (E:=E) (Z.of_N n) (wrap 32 (N.of_nat depth)) = Ok (Z.of_N n - 2 ^ Z.of_nat depth)%Z.
Proof.
  intros Hn Hd. unfold node_idx_to_leaf_idx, pow2_i64.
  rewrite N.mod_small by (change (2 ^ 32)%N with 4294967296%N; lia). rewrite nat_N_Z.
  assert (0 < 2 ^ Z.of_nat depth ≤ 2 ^ 62)%Z by (split; [lia|apply Z.pow_le_mono_r; lia]).
  change (2 ^ 32)%N with 4294967296%N in Hn.
  rewrite !i64_ok by lia. simpl. by rewrite i64_ok by lia.
Qed.

Lemma store_path_Ok ev (l : nat) (path : list PathNode) d n d' :
  l + length path = length (ev_path ev) → length (ev_path ev) ≤ 63 →
  Forall (λ p, pn_index p < 2 ^ 32)%N path →
  store_path ev false (N.of_nat (length (ev_path ev) - 1)) (N.of_nat l) path d = (Ok n, d') →
  n = N.of_nat (length (ev_path ev)) ∧ only_change_logs d d' ∧
  cl_items (tbl d') = foldl (upsert false) (cl_items (tbl d)) (imap (λ k, event_row ev (l + k)) path).
Proof.
  revert l d. induction path as [|p path IH]; intros l d Hlen H63 Hix Hrun; simpl in *.
  { injection Hrun as <- <-. split; [lia|]. split; [apply only_change_logs_refl|done]. }
  apply Forall_cons in Hix as [Hp Hix]. inv_method. unfold store_path_node in Hm.
  assert ((if (N.of_nat l =? 0)%N
     then l0 ← node_idx_to_leaf_idx (Z.of_N (pn_index p)) (wrap 32 (N.of_nat (length (ev_path ev) - 1))); Ok (Some l0)
     else Ok None) = Ok (E:=IngesterError) (ci_leaf_idx (event_row ev l p).2)) as Hleaf.
  { simpl. destruct (decide (l = 0)) as [->|Hl]; [|by rewrite (proj2 (N.eqb_neq _ _)) by lia].
    change (N.of_nat 0 =? 0)%N with true. cbv iota. by rewrite leaf_idx_ok by lia. }
  rewrite Hleaf in Hm. inv_method. injection Hm0 as <-. apply execute_Ok_inv in Hm. injection Hm as <- <-.
  replace (N.of_nat l + 1)%N with (N.of_nat (S l)) in Hrun by lia.
  destruct (IH (S l) _ ltac:(lia) H63 Hix Hrun) as (-> & Honly & ->).
  split; [done|]. split.
  - eapply only_change_logs_trans; [|done]. simpl. by eexists (backfill_items _), _.
  - cbn [imap foldl tbl set_tables set_cl_items cl_items]. rewrite Nat.add_0_r. f_equal.
    + f_equal. unfold event_row. cbn [ci_leaf_idx snd]. rewrite (as_i64_small (N.of_nat l)) by lia.
      by rewrite nat_N_Z.
    + apply imap_ext. intros k p' _. simpl. by rewrite Nat.add_succ_r.
Qed.

Lemma event_to_database_Ok ev slot d d' :
  event_ok ev → gummyroll_change_log_event_to_database ev slot false d = (Ok tt, d') →
  only_change_logs d d' ∧ cl_items (tbl d') = foldl (upsert false) (cl_items (tbl d)) (event_rows ev).
Proof.
  intros [[Hpos H63] Hix] Hrun. unfold gummyroll_change_log_event_to_database in Hrun.
  rewrite wsub_ok in Hrun by lia.
  replace (N.of_nat (length (ev_path ev)) - 1)%N with (N.of_nat (length (ev_path ev) - 1)) in Hrun by lia.
  apply method_bind_Ok_inv in Hrun as (? & ? & [= <- <-] & Hrun).
  apply method_bind_Ok_inv in Hrun as (n & d1 & Hpath & Hrun).
  apply (store_path_Ok ev 0) in Hpath as (-> & Honly & Hrows); [|done..].
  revert Hrun. case_bool_decide.
  - intros Hrun. apply method_bind_Ok_inv in Hrun as (q & d2 & Hq & Hrun).
    apply execute_Ok_inv in Hq. injection Hq as _ <-. apply execute_Ok_inv in Hrun. injection Hrun as <-.
    split; [|done]. eapply only_change_logs_trans; [done|]. by eexists _, (cl_items (tbl d1)).
  - intros [= <-]. done.
Qed.

Lemma save_changelog_events_Ok evs slot d d' :
  Forall event_ok evs → save_changelog_events evs slot d = (Ok tt, d') →
  only_change_logs d d' ∧ cl_items (tbl d') = foldl (upsert false) (cl_items (tbl d)) (rows_of evs).
Proof.
  revert d. induction evs as [|ev evs IH]; intros d Hok Hrun; simpl in Hrun.
  { injection Hrun as <-. split; [apply only_change_logs_refl|done]. }
  apply Forall_cons in Hok as [Hev Hok].
  apply method_bind_Ok_inv in Hrun as ([] & d1 & Hm & Hrun).
  apply event_to_database_Ok in Hm as [Ho1 Hr1]; [|done].
  destruct (IH _ Hok Hrun) as [Ho2 Hr2]. split; [by eapply only_change_logs_trans|].
  unfold rows_of in *. rewrite Hr2, Hr1. cbn [mbind list_bind]. by rewrite foldl_app.
Qed.

(** Events are stored without an error when no statement fails. *)
Lemma save_changelog_events_total evs slot d :
  (∀ n, fails n = false) → Forall event_ok evs →
  ∃ d', save_changelog_events evs slot d = (Ok tt, d').
Proof.
  intros Hf. revert d. induction evs as [|ev evs IH]; intros d Hok; simpl; [by eexists|].
  apply Forall_cons in Hok as [[[Hpos H63] Hix] Hok].
  assert (∃ d1, gummyroll_change_log_event_to_database ev slot false d = (Ok tt, d1)) as [d1 Hd1].
  { unfold gummyroll_change_log_event_to_database. run_method. rewrite wsub_ok by lia. cbn beta iota.
    assert (∀ path (l : nat) d, Forall (λ p, pn_index p < 2 ^ 32)%N path →
      ∃ n d', store_path ev false (N.of_nat (length (ev_path ev)) - 1) (N.of_nat l) path d = (Ok n, d')) as Hp.
    { clear d Hix IH. induction path as [|p path IH]; intros l d Hix; simpl; [by eexists _, _|].
      apply Forall_cons in Hix as [Hp Hix]. unfold store_path_node. run_method.
      replace (N.of_nat (length (ev_path ev)) - 1)%N with (N.of_nat (length (ev_path ev) - 1)) in * by lia.
      assert (∃ o, (if (N.of_nat l =? 0)%N
        then l0 ← node_idx_to_leaf_idx (Z.of_N (pn_index p)) (wrap 32 (N.of_nat (length (ev_path ev) - 1))); Ok (Some l0)
        else Ok None) = Ok (E:=IngesterError) o) as [o Ho].
      { destruct (N.of_nat l =? 0)%N; [|by eexists]. rewrite leaf_idx_ok by lia. by eexists. }
      unfold mbind in Ho. rewrite Ho. unfold update_tables. rewrite execute_ok by done. cbn beta iota.
      replace (N.of_nat l + 1)%N with (N.of_nat (S l)) by lia. by apply IH. }
    destruct (Hp (ev_path ev) 0 d Hix) as (n & d' & Hn). change (N.of_nat 0) with 0%N in Hn. rewrite Hn.
    case_bool_decide; [|by eexists]. unfold query, insert_backfill_item. rewrite !execute_ok by done. by eexists. }
  unfold mbind, method_bind. rewrite Hd1. by apply IH.
Qed.

(** ** Batches

    The stream delivers batches of events, each stored in a transaction; the run
    gives the events of the transactions that succeeded. *)
Fixpoint run_batches (bs : list (list ChangeLogEvent * N)) d : list ChangeLogEvent * db :=
  match bs with
  | [] => ([], d)
  | (evs, slot) :: bs =>
      let '(o, d1) := store_events evs slot d in
      let '(stored, d2) := run_batches bs d1 in
      ((if is_ok o then evs else []) ++ stored, d2)
  end.

Lemma store_events_rows evs slot d o d' :
  Forall event_ok evs → store_events evs slot d = (o, d') →
  only_change_logs d d' ∧
  cl_items (tbl d') = foldl (upsert false) (cl_items (tbl d)) (rows_of (if is_ok o then evs else [])).
Proof.
  intros Hok Hrun. destruct o as [[]| | |].
  2-4: pose proof (transaction_atomic _ _ _ _ Hrun eq_refl) as Ht; rewrite Ht; simpl; split; [|done];
    eexists (backfill_items (tbl d)), (cl_items (tbl d)); rewrite Ht; by destruct (tbl d).
  apply transaction_Ok_inv in Hrun as (d1 & Hs & ->). by apply save_changelog_events_Ok in Hs.
Qed.

Lemma run_batches_rows bs d evs d' :
  Forall (λ b, Forall event_ok b.1) bs → run_batches bs d = (evs, d') →
  only_change_logs d d' ∧ cl_items (tbl d') = foldl (upsert false) (cl_items (tbl d)) (rows_of evs).
Proof.
  revert d evs. induction bs as [|[b slot] bs IH]; intros d evs Hok Hrun; simpl in Hrun.
  { injection Hrun as <- <-. split; [apply only_change_logs_refl|done]. }
  apply Forall_cons in Hok as [Hb Hok].
  destruct (store_events b slot d) as [o d1] eqn:Hs. destruct (run_batches bs d1) as [stored d2] eqn:Hr.
  injection Hrun as <- <-. apply store_events_rows in Hs as [Ho1 Hr1]; [|done].
  destruct (IH _ _ Hok Hr) as [Ho2 Hr2]. split; [by eapply only_change_logs_trans|].
  unfold rows_of in *. by rewrite Hr2, Hr1, bind_app, foldl_app.
Qed.
End store.
