(* ===== verification/IndexedTree.v ===== *)
(** * The indexed tree of a history

    The events of a history of writes, and the table that represents a tree: the
    row of each node that was ever written holds the node of the newest tree, and
    a node without a row is the root of an empty subtree. *)

From S2P Require Import Prelude Hashing MerkleSpec Solana Gummyroll GummyrollCanopy Database ChangeLogStore.
From S2P Require Import ChangeLogStoreTheorems.

(** The index, in heap order, of the [j]-th node of level [l]. *)
Definition heap_index (d l : nat) (j : N) : Z := Z.of_N (2 ^ N.of_nat (d - l) + j).

Lemma node_index_inj d l l' j j' :
  l ≤ d → l' ≤ d → (j < 2 ^ N.of_nat (d - l))%N → (j' < 2 ^ N.of_nat (d - l'))%N →
  heap_index d l j = heap_index d l' j' → l = l' ∧ j = j'.
Proof.
  intros Hl Hl' Hj Hj' Heq%N2Z.inj.
  assert (∀ n k : N, (k < 2 ^ n)%N → N.log2 (2 ^ n + k) = n) as Hlog.
  { intros n k Hk. apply N.log2_unique; [lia|]. rewrite N.pow_succ_r'. lia. }
  pose proof (Hlog _ _ Hj) as H1. rewrite Heq, (Hlog _ _ Hj') in H1.
  assert (l = l') as <- by lia. split; [done|lia].
Qed.

Section history.
Context `{Keccak}.
Implicit Types (T : tree) (ws : list (N * Node)) (d l : nat) (i j s : N).

(** The tree after the writes [ws], and the events that the program emits for them. *)
Fixpoint tree_after T ws : tree :=
  match ws with
  | [] => T
  | (i, v) :: ws => tree_after (<[i:=v]> T) ws
  end.

Fixpoint events_from (id : Pubkey) d T s ws : list ChangeLogEvent :=
  match ws with
  | [] => []
  | (i, v) :: ws => event_of id (<[i:=v]> T) d i (s + 1) :: events_from id d (<[i:=v]> T) (s + 1) ws
  end.

(** The row that stores the [j]-th node of level [l] of the tree [T], at sequence
    number [s]. *)
Definition node_item T d s l j : cl_item :=
  mk_cl_item (if decide (l = 0) then Some (Z.of_N j) else None) (Z.of_N s) (Z.of_nat l)
    (vec_to_list (tnode T l j)).

Definition node_key (id : Pubkey) d l j : Pubkey * Z := (id, heap_index d l j).

Lemma event_rows_of id T d i s :
  d ≤ 30 → (i < 2 ^ N.of_nat d)%N → (s < 2 ^ 63)%N →
  event_rows (event_of id T d i s) =
  (λ l, (node_key id d l (ix i l), node_item T d s l (ix i l))) <$> seq 0 (S d).
Proof.
  intros Hd Hi Hs. apply list_eq. intros l. unfold event_rows. rewrite list_lookup_imap. cbn [ev_path event_of].
  rewrite !list_lookup_fmap. destruct (decide (l < S d)) as [Hl|Hl].
  2: { rewrite (proj2 (lookup_ge_None (seq 0 (S d)) l)) by (rewrite length_seq; lia). done. }
  rewrite lookup_seq_lt by done. cbn [fmap option_fmap option_map]. change (0 + l) with l. f_equal.
  unfold event_row, node_key, node_item, heap_index. cbn [ev_id ev_path event_of ev_seq event_node pn_index pn_node].
  rewrite as_i64_small by done. rewrite length_fmap, length_seq.
  destruct (decide (l = 0)) as [->|]; [|done]. do 3 f_equal. rewrite Nat.sub_0_r, ix_0.
  rewrite N2Z.inj_add, N2Z.inj_pow, nat_N_Z. replace (S d - 1) with d by lia. lia.
Qed.

Lemma event_row_in id T d i s l j r :
  d ≤ 30 → (i < 2 ^ N.of_nat d)%N → (s < 2 ^ 63)%N → l ≤ d → (j < 2 ^ N.of_nat (d - l))%N →
  (node_key id d l j, r) ∈ event_rows (event_of id T d i s) ↔ j = ix i l ∧ r = node_item T d s l j.
Proof.
  intros Hd Hi Hs Hl Hj. rewrite event_rows_of by done. rewrite list_elem_of_fmap. split.
  - intros (l' & [= Hk ->] & Hl'%elem_of_seq).
    apply node_index_inj in Hk as [-> ->]; [done|done|lia|done|apply ix_lt; [lia|done]].
  - intros [-> ->]. exists l. split; [done|]. apply elem_of_seq. lia.
Qed.

Lemma event_of_ok id T d i s : d ≤ 30 → (i < 2 ^ N.of_nat d)%N → event_ok (event_of id T d i s).
Proof.
  intros Hd Hi. split; cbn [ev_path event_of]; [rewrite length_fmap, length_seq; lia|].
  apply Forall_fmap, Forall_forall. intros l Hl%elem_of_seq. unfold event_node. simpl.
  pose proof (ix_lt i l d ltac:(lia) Hi).
  assert (2 ^ N.of_nat (d - l) ≤ 2 ^ 30)%N by (apply N.pow_le_mono_r; lia).
  change (2 ^ 32)%N with (4 * 2 ^ 30)%N. lia.
Qed.

(** The writes of a history that fits the machine's integers. *)
Definition history_ok d s ws : Prop :=
  d ≤ 30 ∧ Forall (λ w : N * Node, w.1 < 2 ^ N.of_nat d)%N ws ∧ (s + N.of_nat (length ws) < 2 ^ 63)%N.

Lemma history_ok_cons d s i v ws :
  history_ok d s ((i, v) :: ws) → (i < 2 ^ N.of_nat d)%N ∧ (s + 1 < 2 ^ 63)%N ∧ history_ok d (s + 1) ws.
Proof.
  intros (Hd & Hws & Hs). apply Forall_cons in Hws as [Hi Hws]. simpl in *.
  split; [done|]. split; [lia|]. split; [done|]. split; [done|lia].
Qed.

(** Each row of a history is a node of one of its trees. *)
Lemma history_row id d T s ws k r :
  history_ok d s ws → (k, r) ∈ rows_of (events_from id d T s ws) →
  ∃ l j T' s', l ≤ d ∧ (j < 2 ^ N.of_nat (d - l))%N ∧ (s < s' ≤ s + N.of_nat (length ws))%N ∧
    k = node_key id d l j ∧ r = node_item T' d s' l j.
Proof.
  revert T s. induction ws as [|[i v] ws IH]; intros T s Hok Hin; [by apply not_elem_of_nil in Hin|].
  destruct (history_ok_cons _ _ _ _ _ Hok) as (Hi & Hs & Hok').
  unfold rows_of in *. cbn [events_from mbind list_bind] in Hin.
  apply elem_of_app in Hin as [Hin|Hin].
  - rewrite event_rows_of in Hin by (first [done|apply Hok]).
    apply list_elem_of_fmap in Hin as (l & [= -> ->] & Hl%elem_of_seq).
    exists l, (ix i l), (<[i:=v]> T), (s + 1)%N. simpl. split; [lia|]. split; [apply ix_lt; [lia|done]|].
    split; [lia|done].
  - destruct (IH _ _ Hok' Hin) as (l & j & T' & s' & ? & ? & ? & -> & ->).
    exists l, j, T', s'. simpl. repeat split; try done; lia.
Qed.

(** The newest row of a node holds the node of the last tree; a node without rows
    was not written. *)
Lemma history_newest id d T s ws l j :
  history_ok d s ws → l ≤ d → (j < 2 ^ N.of_nat (d - l))%N →
  let rows := rows_of (events_from id d T s ws) in
  (newest rows (node_key id d l j) None ∧ tnode (tree_after T ws) l j = tnode T l j) ∨
  ∃ s', (s < s' ≤ s + N.of_nat (length ws))%N ∧
    newest rows (node_key id d l j) (Some (node_item (tree_after T ws) d s' l j)) ∧
    (l = d → s' = s + N.of_nat (length ws))%N.
Proof.
  intros Hok Hl Hj. revert T s Hok. induction ws as [|[i v] ws IH]; intros T s Hok; cbn zeta.
  { left. split; [|done]. intros r Hin. by apply not_elem_of_nil in Hin. }
  destruct (history_ok_cons _ _ _ _ _ Hok) as (Hi & Hs & Hok').
  specialize (IH (<[i:=v]> T) (s + 1)%N Hok'). cbn zeta in IH.
  unfold rows_of in *. cbn [events_from mbind list_bind tree_after length].
  set (rows := events_from id d (<[i:=v]> T) (s + 1) ws ≫= event_rows) in *.
  assert (∀ r, (node_key id d l j, r) ∈ event_rows (event_of id (<[i:=v]> T) d i (s + 1)) ↔
      j = ix i l ∧ r = node_item (<[i:=v]> T) d (s + 1) l j) as Hhead.
  { intros r. apply event_row_in; first [done|apply Hok]. }
  assert (∀ r, (node_key id d l j, r) ∈ rows → (Z.of_N (s + 1) < ci_seq r)%Z) as Htail.
  { intros r Hin. destruct (history_row id d _ _ _ _ _ Hok' Hin) as (l' & j' & T' & s' & ? & ? & ? & ? & ->).
    simpl. lia. }
  destruct IH as [[Hnone Heq]|(s' & Hs' & [Hin Hmax] & Hroot)].
  - destruct (decide (j = ix i l)) as [->|Hne].
    + right. exists (s + 1)%N. split; [lia|]. split.
      * cbn [newest]. rewrite elem_of_app, Hhead. unfold node_item. rewrite Heq. split; [by left|].
        intros r2. rewrite elem_of_app, Hhead. intros [[_ ->]|Hin]; [done|by apply Hnone in Hin].
      * intros ->. destruct ws as [|[i' v'] ws]; [simpl; lia|].
        destruct (Hnone (node_item (<[i':=v']> (<[i:=v]> T)) d (s + 1 + 1) d (ix i d))).
        destruct (history_ok_cons _ _ _ _ _ Hok') as (Hi' & Hs'' & _).
        unfold rows. cbn [events_from mbind list_bind]. apply elem_of_app. left.
        apply event_row_in; [apply Hok|done|done|done|done|]. by rewrite !ix_eq_0.
    + left. split; [|by rewrite Heq, tnode_insert_ne]. intros r. rewrite elem_of_app, Hhead.
      intros [[? _]|Hin]; [done|by apply Hnone in Hin].
  - right. exists s'. split; [lia|]. split; [|intros ->; rewrite Hroot by done; lia].
    cbn [newest]. rewrite elem_of_app. split; [by right|].
    intros r2. rewrite elem_of_app, Hhead. intros [[_ ->]|Hin2]; [|by apply Hmax].
    specialize (Htail _ Hin). simpl in *. lia.
Qed.

Lemma history_coherent id d T s ws l j :
  history_ok d s ws → l ≤ d → (j < 2 ^ N.of_nat (d - l))%N →
  coherent_at (rows_of (events_from id d T s ws)) (node_key id d l j).
Proof.
  intros Hok Hl Hj. revert T s Hok. induction ws as [|[i v] ws IH]; intros T s Hok.
  { intros r1 r2 Hin. by apply not_elem_of_nil in Hin. }
  destruct (history_ok_cons _ _ _ _ _ Hok) as (Hi & Hs & Hok').
  intros r1 r2 H1 H2.
  destruct (history_row id d _ _ _ _ _ Hok H1) as (l1 & j1 & T1 & s1 & ? & ? & ? & Hk1 & ->).
  destruct (history_row id d _ _ _ _ _ Hok H2) as (l2 & j2 & T2 & s2 & ? & ? & ? & Hk2 & ->).
  injection Hk1 as Hk1. injection Hk2 as Hk2. apply node_index_inj in Hk1 as [<- <-]; [|done..].
  apply node_index_inj in Hk2 as [<- <-]; [|done..]. split; [done|]. split; [done|]. intros Hseq.
  simpl in Hseq. apply N2Z.inj in Hseq as <-. revert H1 H2. unfold rows_of. cbn [events_from mbind list_bind].
  rewrite !elem_of_app, !event_row_in by (first [done|apply Hok]).
  assert (∀ T', (node_key id d l j, node_item T' d s1 l j) ∈ events_from id d (<[i:=v]> T) (s + 1) ws ≫= event_rows →
    s1 ≠ s + 1)%N as Htail.
  { intros T' Hin ->.
    destruct (history_row id d _ _ _ _ _ Hok' Hin) as (l' & j' & T'' & s' & ? & ? & ? & ? & Heq).
    injection Heq as _ Heq%N2Z.inj _ _. lia. }
  intros [[_ Hn1]|Hin1] [[_ Hn2]|Hin2].
  - by rewrite Hn1, Hn2.
  - apply Htail in Hin2. injection Hn1 as ?%N2Z.inj _. done.
  - apply Htail in Hin1. injection Hn2 as ?%N2Z.inj _. done.
  - by apply (IH (<[i:=v]> T) (s + 1)%N Hok').
Qed.

Lemma history_coherent_all id d T s ws :
  history_ok d s ws → coherent (rows_of (events_from id d T s ws)).
Proof.
  intros Hok k r1 r2 H1. destruct (history_row id d _ _ _ _ _ Hok H1) as (l & j & _ & _ & ? & ? & _ & -> & _).
  revert H1. by apply history_coherent.
Qed.
(** ** The table of a tree *)

(** The rows of the tree [id] represent [T], at sequence number [s]. *)
Record represents (t : tables) (id : Pubkey) d T s : Prop := mk_represents {
  rp_node : ∀ l j, l ≤ d → (j < 2 ^ N.of_nat (d - l))%N →
    match cl_items t !! node_key id d l j with
    | Some r => ∃ s', (s' ≤ s)%N ∧ r = node_item T d s' l j
    | None => tnode T l j = empty_node l
    end;
  rp_root : cl_items t !! node_key id d d 0 = Some (node_item T d s d 0);
  rp_only : ∀ x r, cl_items t !! (id, x) = Some r →
    ∃ l j, l ≤ d ∧ (j < 2 ^ N.of_nat (d - l))%N ∧ x = heap_index d l j;
}.

(** Only the change-log table matters. *)
Lemma represents_ext (t t' : tables) id d T s :
  cl_items t' = cl_items t → represents t id d T s → represents t' id d T s.
Proof. intros Heq [Hn Hr Ho]. by split; rewrite ?Heq. Qed.

Context `{BuildProfile} `{Faults}.

(** The rows of the events of other trees are under other keys. *)
Lemma rows_of_tree (evs : list ChangeLogEvent) id x r :
  ((id, x), r) ∈ rows_of evs ↔ ∃ ev, ev ∈ evs ∧ ev_id ev = id ∧ ((id, x), r) ∈ event_rows ev.
Proof.
  unfold rows_of. rewrite list_elem_of_bind. split.
  - intros (ev & Hr & Hev). exists ev. split; [done|]. split; [|done].
    unfold event_rows in Hr. apply list_elem_of_lookup in Hr as [k Hk]. rewrite list_lookup_imap in Hk.
    destruct (ev_path ev !! k); [|done]. by injection Hk.
  - intros (ev & ? & _ & ?). by exists ev.
Qed.

Lemma stored_history_represents id d ws (evs : list ChangeLogEvent) (t t' : tables) :
  history_ok d 0 ws → ws ≠ [] → (∀ x, cl_items t !! (id, x) = None) →
  (∀ ev, ev ∈ evs ∧ ev_id ev = id ↔ ev ∈ events_from id d ∅ 0 ws) →
  cl_items t' = foldl (upsert false) (cl_items t) (rows_of evs) →
  represents t' id d (tree_after ∅ ws) (N.of_nat (length ws)).
Proof.
  intros Hok Hne Hempty Hevs Ht'.
  assert (∀ x r, ((id, x), r) ∈ map_to_list (cl_items t) ++ rows_of evs ↔
                 ((id, x), r) ∈ rows_of (events_from id d ∅ 0 ws)) as Hrows.
  { intros x r. rewrite elem_of_app, elem_of_map_to_list, Hempty, !rows_of_tree. split.
    - intros [?|(ev & Hev & Hid & Hr)]; [done|]. exists ev. by rewrite <-Hevs.
    - intros (ev & Hev & Hid & Hr). right. exists ev. by apply Hevs in Hev as [? _]. }
  assert (∀ x, newest (rows_of (events_from id d ∅ 0 ws)) (id, x) (cl_items t' !! (id, x))) as Hnew.
  { intros x. rewrite Ht'. apply (newest_ext (map_to_list (cl_items t) ++ rows_of evs)); [apply Hrows|].
    apply newest_upserts. eapply coherent_at_ext; [intros r; symmetry; apply Hrows|].
    by apply history_coherent_all. }
  assert (∀ l j o, newest (rows_of (events_from id d ∅ 0 ws)) (node_key id d l j) o →
    cl_items t' !! node_key id d l j = o) as Hlook.
  { intros l j o Ho. eapply newest_unique; [by apply history_coherent_all|apply Hnew|done]. }
  split.
  - intros l j Hl Hj. destruct (history_newest id d ∅ 0 ws l j Hok Hl Hj) as [[Hn Ht]|(s' & Hs' & Hn & _)];
      rewrite (Hlook l j _ Hn).
    + rewrite Ht. by apply tnode_empty.
    + exists s'. split; [lia|done].
  - assert (0 < 2 ^ N.of_nat (d - d))%N as Hz by (rewrite Nat.sub_diag; done).
    destruct (history_newest id d ∅ 0 ws d 0 Hok (le_n d) Hz) as [[Hn _]|(s' & Hs' & Hn & Hroot)].
    + destruct ws as [|[i v] ws]; [done|]. destruct (history_ok_cons _ _ _ _ _ Hok) as (Hi & Hs & _).
      destruct (Hn (node_item (<[i:=v]> ∅) d 1 d 0)). unfold rows_of. cbn [events_from mbind list_bind].
      apply elem_of_app. left. apply event_row_in; [apply Hok|done..|]. by rewrite ix_eq_0.
    + rewrite (Hlook d 0%N _ Hn), (Hroot eq_refl). done.
  - intros x r Hr. pose proof (Hnew x) as Hn. rewrite Hr in Hn. destruct Hn as [Hin _].
    destruct (history_row id d _ _ _ _ _ Hok Hin) as (l & j & _ & _ & ? & ? & _ & [= ->] & _). by exists l, j.
Qed.
End history.

Section theorems.
Context `{Keccak} `{BuildProfile} `{Faults}.

(** C11: the order of delivery does not matter.  Two runs of the ingester from the
    same change-log table, over any batches and with any statement of the database
    failing, end with the same table when the same events were stored, each at
    least once, in any order and in any grouping into transactions - provided that the
    rows of these events and of the table are coherent: two rows of one node with the
    same sequence number are equal, as those of the history of one tree are.  (Of two
    different events with one sequence number the first to arrive would win.) *)
Theorem delivery_order_irrelevant bs1 bs2 evs1 evs2 (d1 d2 d1' d2' : db) :
  Forall (λ b, Forall event_ok b.1) bs1 → Forall (λ b, Forall event_ok b.1) bs2 →
  run_batches bs1 d1 = (evs1, d1') → run_batches bs2 d2 = (evs2, d2') →
  cl_items (tbl d1) = cl_items (tbl d2) → (∀ ev, ev ∈ evs1 ↔ ev ∈ evs2) →
  coherent (map_to_list (cl_items (tbl d1)) ++ rows_of evs1) →
  cl_items (tbl d1') = cl_items (tbl d2').
Proof.
  intros Hok1 Hok2 Hr1 Hr2 Heq Hevs Hc.
  destruct (run_batches_rows _ _ _ _ Hok1 Hr1) as [_ ->]. destruct (run_batches_rows _ _ _ _ Hok2 Hr2) as [_ ->].
  rewrite <-Heq. apply upserts_ext; [done|]. intros x. unfold rows_of. rewrite !list_elem_of_bind.
  by setoid_rewrite Hevs.
Qed.

(** C6: the index follows the tree.  When the events of a tree that were stored are
    those of a history of writes from the empty tree (each at least once, in any
    order, between events of other trees, whichever transactions failed), the
    table represents the last tree of the history. *)
Theorem ingested_history_represents bs evs (d : db) (d' : db) id depth ws :
  Forall (λ b, Forall event_ok b.1) bs → run_batches bs d = (evs, d') →
  history_ok depth 0 ws → ws ≠ [] → (∀ x, cl_items (tbl d) !! (id, x) = None) →
  (∀ ev, ev ∈ evs ∧ ev_id ev = id ↔ ev ∈ events_from id depth ∅ 0 ws) →
  represents (tbl d') id depth (tree_after ∅ ws) (N.of_nat (length ws)).
Proof.
  intros Hok Hrun Hws Hne Hempty Hevs.
  destruct (run_batches_rows _ _ _ _ Hok Hrun) as [_ Hrows].
  by eapply stored_history_represents.
Qed.
End theorems.
