(* ===== verification/ProofApi.v ===== *)
(** * Serving proofs: [nft_api/src/main.rs], [digital_asset_types/src/dapi/change_logs.rs]
      and [das_api/src/api_impl.rs]

    Both APIs answer a request for the proof of a leaf from the change-log table:
    they list the nodes that a proof needs, read their rows, and put empty nodes
    where there is no row.

    Each SQL query is a function of the tables: a filter of their rows and a sort.
    [DISTINCT ON (node_idx)] keeps every row, since (tree, node_idx) is unique. *)

From stdpp Require Export sorting.
From S2P Require Import Prelude Text Hashing MerkleSpec Solana Database ChangeLogStore.

(** ** Nodes *)

(** [NodeDAO], and the [SimpleChangeLog] of the other API. *)
Record NodeDAO := mk_NodeDAO {
  nd_hash : bytes;
  nd_level : Z;
  nd_node_idx : Z;
  nd_seq : Z;
}.

#[export] Instance NodeDAO_eq_dec : EqDecision NodeDAO.
Proof. solve_decision. Defined.

Record NodeView := mk_NodeView {
  nv_hash : string;
  nv_level : Z;
  nv_index : Z;
  nv_seq : Z;
}.

#[export] Instance NodeView_eq_dec : EqDecision NodeView.
Proof. solve_decision. Defined.

(** The derived [Default]s. *)
Definition NodeView_default : NodeView := mk_NodeView "" 0 0 0.
Definition SimpleChangeLog_default : NodeDAO := mk_NodeDAO [] 0 0 0.

Record AssetDAO := mk_AssetDAO {
  ao_data : string;
  ao_index : Z;
  ao_owner : bytes;
  ao_tree : bytes;
  ao_admin : bytes;
  ao_hash : bytes;
  ao_level : Z;
}.

Record AssetView := mk_AssetView {
  av_data : string;
  av_index : Z;
  av_owner : string;
  av_treeAccount : string;
  av_treeAdmin : string;
  av_hash : string;
}.

Record AssetProof := mk_AssetProof {
  ap_root : string;
  ap_hash : string;
  ap_proof : list string;
}.

(** [error.rs]; the messages of the database are left out. *)
Inductive ApiError :=
  | ParameterInvalid
  | ResponseError (msg : option string).

(** [rpc::AssetProof]. *)
Record RpcAssetProof := mk_RpcAssetProof {
  rp_root_hash : string;
  rp_proof : list string;
  rp_node_index : Z;
  rp_leaf : string;
  rp_tree_id : string;
}.

(** The casts of an [i64] to [u32] and to [usize]. *)
Definition as_u32 (z : Z) : N := Z.to_N (z `mod` 2 ^ 32).
Definition as_usize (z : Z) : N := Z.to_N (z `mod` 2 ^ 64).

(** The orders of the queries. *)
Definition node_idx_desc (a b : NodeDAO) : Prop := (nd_node_idx b ≤ nd_node_idx a)%Z.
Definition node_idx_asc (a b : NodeDAO) : Prop := (nd_node_idx a ≤ nd_node_idx b)%Z.
Definition seq_desc (a b : row) : Prop := (ci_seq b.2 ≤ ci_seq a.2)%Z.

#[export] Instance node_idx_desc_dec : RelDecision node_idx_desc.
Proof. intros a b. apply Z_le_dec. Defined.

#[export] Instance node_idx_asc_dec : RelDecision node_idx_asc.
Proof. intros a b. apply Z_le_dec. Defined.

#[export] Instance seq_desc_dec : RelDecision seq_desc.
Proof. intros a b. apply Z_le_dec. Defined.

(** A comparison with a maximum, which is NULL when there are no rows. *)
Definition at_most (x : Z) (max : option Z) : bool :=
  match max with Some m => (x <=? m)%Z | None => false end.

(** A query: [None] when the statement fails. *)
Definition try_query `{Faults} {E A} (f : tables → A) : method db E (option A) := λ d,
  (Ok (if fails (executed d) then None else Some (f (tbl d))), tick d).

Section defs.
Context `{Keccak} `{BuildProfile} `{Faults} `{Base58}.

(** ** The nodes of a proof *)

(** The loop of [get_required_nodes_for_proof]; an [i64] has 63 bits to shift out. *)
Fixpoint required_nodes_loop {E} (fuel : nat) (idx : Z) (indexes : list Z) : outcome E (list Z) :=
  match fuel with
  | O => OutOfFuel
  | S fuel =>
      if decide (1 < idx)%Z then
        sibling ← (if decide (idx `rem` 2 = 0)%Z then i64 (idx + 1) else i64 (idx - 1))%Z;
        required_nodes_loop fuel (Z.shiftr idx 1) (indexes ++ [sibling])
      else Ok indexes
  end.

Definition get_required_nodes_for_proof {E} (index : Z) : outcome E (list Z) :=
  indexes ← required_nodes_loop 64 index [];
  Ok (indexes ++ [1%Z]).

Definition make_empty_node (lvl node_index : Z) : NodeDAO :=
  mk_NodeDAO (vec_to_list (empty_node (N.to_nat (as_u32 lvl)))) lvl node_index 0.

Definition leaf_idx_to_node_idx {E} (index : Z) (tree_height : N) : outcome E Z :=
  p ← pow2_i64 tree_height;
  i64 (index + p)%Z.

(** The two loops that both APIs run over the list of the answer: each row at its
    level, and then an empty node wherever no row was placed. *)
Definition place {E A} (view : NodeDAO → A) (final_node_list : list A) (returned : NodeDAO) :
    outcome E (list A) :=
  if decide (nd_level returned < Z.of_nat (length final_node_list))%Z
  then index_set final_node_list (as_usize (nd_level returned)) (view returned)
  else Ok final_node_list.

Fixpoint fill_empty `{EqDecision A} (view : NodeDAO → A) (default : A) (i : nat) (final_node_list : list A)
    (nodes : list Z) : list A :=
  match final_node_list, nodes with
  | n :: l, nin :: nodes =>
      (if decide (n = default) then view (make_empty_node (Z.of_nat i) nin) else n)
      :: fill_empty view default (S i) l nodes
  | l, _ => l
  end.

(** ** Views *)

Definition node_to_view (r : NodeDAO) : NodeView :=
  mk_NodeView (bs58_encode (nd_hash r)) (nd_level r) (nd_node_idx r) (nd_seq r).

Definition node_list_to_view (items : list NodeDAO) : list NodeView := node_to_view <$> items.

Definition asset_to_view {E} (r : AssetDAO) : outcome E AssetView :=
  index ← node_idx_to_leaf_idx (ao_index r) (as_u32 (ao_level r));
  Ok (mk_AssetView (ao_data r) index (bs58_encode (ao_owner r)) (bs58_encode (ao_tree r))
        (bs58_encode (ao_admin r)) (bs58_encode (ao_hash r))).

Fixpoint asset_list_to_view {E} (items : list AssetDAO) : outcome E (list AssetView) :=
  match items with
  | [] => Ok []
  | r :: items => v ← asset_to_view r; view ← asset_list_to_view items; Ok (v :: view)
  end.

(** [Pubkey::from_str] of a parameter of the request. *)
Definition decode_b58_param (param : string) : outcome ApiError Pubkey :=
  match bs58_decode param with
  | Some b => ok_or (list_to_array 32 b) ParameterInvalid
  | None => Err ParameterInvalid
  end.

(** ** Queries *)

Definition dao_of (row : (Pubkey * Z) * cl_item) : NodeDAO :=
  mk_NodeDAO (ci_hash row.2) (ci_level row.2) row.1.2 (ci_seq row.2).

Definition desc_by_node_idx : list NodeDAO → list NodeDAO := merge_sort node_idx_desc.

Definition asc_by_node_idx : list NodeDAO → list NodeDAO := merge_sort node_idx_asc.

(** [select max(seq) from cl_items where node_idx = 1 and tree = $2]. *)
Definition root_seq (t : tables) (tree_id : Pubkey) : option Z := ci_seq <$> cl_items t !! (tree_id, 1%Z).

(** [where node_idx = ANY ($1) and tree = $2]. *)
Definition path_rows (t : tables) (tree_id : Pubkey) (nodes : list Z) : list row :=
  filter (λ row, row.1.1 = tree_id ∧ row.1.2 ∈ nodes) (map_to_list (cl_items t)).

(** [.. and seq <= (max seq of the root) order by node_idx desc]: no row is at most NULL. *)
Definition select_proof_nodes (tree_id : Pubkey) (nodes : list Z) (t : tables) : list NodeDAO :=
  desc_by_node_idx (dao_of <$> filter (λ row, at_most (ci_seq row.2) (root_seq t tree_id))
                                 (path_rows t tree_id nodes)).

Definition select_tree (tree_id : Pubkey) (t : tables) : list NodeDAO :=
  asc_by_node_idx (dao_of <$> filter (λ row, row.1.1 = tree_id) (map_to_list (cl_items t))).

(** ** [nft_api]

    What each handler does once it has read the parameters of its request; the handlers
    themselves are in [NftApi]. *)

Definition get_height (tree_id : Pubkey) : method db ApiError N :=
  result ← try_query (λ t, cl_items t !! (tree_id, 1%Z));
  lift (match result with
        | Some (Some r) => Ok (as_u32 (ci_level r))
        | _ => Err (ResponseError None)
        end).

Definition get_root (tree_id : Pubkey) : method db ApiError string :=
  result ← try_query (λ t, cl_items t !! (tree_id, 1%Z));
  lift (match result with
        | Some (Some r) => Ok (bs58_encode (ci_hash r))
        | _ => Err (ResponseError None)
        end).

Definition nodes_of (tree_id : Pubkey) : method db ApiError (list NodeView) :=
  results ← try_query (select_tree tree_id);
  lift (match results with
        | Some rows => Ok (node_list_to_view rows)
        | None => Err (ResponseError None)
        end).

Definition get_proof_and_root (tree_id : Pubkey) (index : Z) : method db ApiError (list NodeView) :=
  nodes ← lift (get_required_nodes_for_proof index);
  let expected_proof_size := length nodes in
  results ← try_query (select_proof_nodes tree_id nodes);
  nodes_from_db ← lift (unwrap results);
  let final_node_list := replicate expected_proof_size NodeView_default in
  if decide (expected_proof_size < length nodes_from_db) then
    lift (Err (ResponseError (Some "Tree Corrupted"%string)))
  else if decide (length nodes_from_db ≠ expected_proof_size) then
    final_node_list ← lift (foldM (place node_to_view) final_node_list nodes_from_db);
    mret (fill_empty node_to_view NodeView_default 0 final_node_list nodes)
  else mret (node_list_to_view nodes_from_db).

(** [&proof[..proof.len() - 1]] and [proof[proof.len() - 1]]. *)
Definition all_but_last {E A} (l : list A) : outcome E (list A) :=
  n ← wsub 64 (N.of_nat (length l)) 1; slice l 0 n.

Definition last_of {E A} (l : list A) : outcome E A :=
  n ← wsub 64 (N.of_nat (length l)) 1; Prelude.index l n.

Definition proof_of (tree_id : Pubkey) (index : Z) : method db ApiError (list NodeView) :=
  proof ← get_proof_and_root tree_id index;
  lift (all_but_last proof).

(** The query of [get_asset] reads tables that the schema of the repository does
    not have; its answer is an argument. *)
Definition get_asset (asset_query : Pubkey → Z → option AssetDAO) (tree_id : Pubkey) (node_idx : Z) :
    method db ApiError AssetView :=
  result ← try_query (λ _, asset_query tree_id node_idx);
  lift (match result with
        | Some (Some r) => asset_to_view r
        | _ => Err (ResponseError None)
        end).

Definition asset_of (asset_query : Pubkey → Z → option AssetDAO) (tree_id : Pubkey) (leaf_idx : Z) :
    method db ApiError AssetView :=
  tree_height ← expect (get_height tree_id);
  node_idx ← lift (leaf_idx_to_node_idx leaf_idx tree_height);
  get_asset asset_query tree_id node_idx.

(** Its query, too, is an argument. *)
Definition assets_of (owner_query : Pubkey → list AssetDAO) (owner : Pubkey) :
    method db ApiError (list AssetView) :=
  results ← try_query (λ _, owner_query owner);
  lift (match results with
        | Some assets => asset_list_to_view assets
        | None => Err (ResponseError None)
        end).

(** When the asset is not found, the hash is that of an empty leaf. *)
Definition asset_proof_of (asset_query : Pubkey → Z → option AssetDAO) (tree_id : Pubkey) (leaf_idx : Z) :
    method db ApiError AssetProof :=
  tree_height ← expect (get_height tree_id);
  node_idx ← lift (leaf_idx_to_node_idx leaf_idx tree_height);
  proof ← attempt (get_proof_and_root tree_id node_idx);
  result ← attempt (E:=ApiError) (get_asset asset_query tree_id node_idx);
  let hash := match result with
              | inr a => av_hash a
              | inl _ => bs58_encode (vec_to_list (empty_node 0))
              end in
  lift (match proof with
        | inl e => Err e
        | inr proof =>
            let p := nv_hash <$> proof in
            root ← last_of p;
            init ← all_but_last p;
            Ok (mk_AssetProof root hash init)
        end).

(** ** [dapi::change_logs] *)

(** The newest row of level 0 whose leaf index is the nonce of the asset, in its tree. *)
Definition select_leaf (asset_id : Pubkey) (t : tables) : option row :=
  match assets t !! asset_id with
  | Some a =>
      head (merge_sort seq_desc
        (filter (λ row, ci_leaf_idx row.2 = Some (as_nonce a) ∧ as_tree_id a = Some (vec_to_list row.1.1) ∧
                        ci_level row.2 = 0%Z) (map_to_list (cl_items t))))
  | None => None
  end.

Definition select_nodes (tree_id : Pubkey) (nodes : list Z) (t : tables) : list NodeDAO :=
  desc_by_node_idx (dao_of <$> path_rows t tree_id nodes).

(** A failed query is an error ([?]). *)
Definition query_or_err {A} (f : tables → A) : method db DbErr A :=
  r ← try_query f; lift (ok_or r DbErrExec).

Definition get_proof_for_asset (asset_id : Pubkey) : method db DbErr RpcAssetProof :=
  leaf ← query_or_err (select_leaf asset_id);
  leaf ← lift (ok_or leaf RecordNotFound);
  req_indexes ← lift (get_required_nodes_for_proof leaf.1.2);
  let expected_proof_size := length req_indexes in
  let final_node_list := replicate expected_proof_size SimpleChangeLog_default in
  nodes ← query_or_err (select_nodes leaf.1.1 req_indexes);
  final_node_list ←
    (if decide (length nodes ≠ expected_proof_size) then
       final_node_list ← lift (foldM (place id) final_node_list nodes);
       mret (fill_empty id SimpleChangeLog_default 0 final_node_list req_indexes)
     else mret final_node_list);
  root ← lift (unwrap (last final_node_list));
  mret (mk_RpcAssetProof (bs58_encode (nd_hash root))
          ((λ model, bs58_encode (nd_hash model)) <$> take (length final_node_list - 1) final_node_list)
          leaf.1.2 (bs58_encode (ci_hash leaf.2)) (bs58_encode (vec_to_list leaf.1.1))).

(** [DasApi::get_asset_proof], after the key was validated. *)
Definition get_asset_proof (asset_id : Pubkey) : method db DbErr RpcAssetProof :=
  p ← get_proof_for_asset asset_id;
  lift (if decide (length (rp_proof p) = 0) then Err RecordNotFound else Ok p).
End defs.
