(* ===== verification/ProofApiTheorems.v ===== *)
(** * The proofs that the APIs serve

    From a table that represents a tree, the nodes that are listed for a leaf are
    its siblings and the root, the query returns the rows that exist in that
    order, and filling the gaps with empty nodes gives the proof of the tree. *)

From S2P Require Import Prelude Text Hashing MerkleSpec Solana Gummyroll GummyrollCanopy Database.
From S2P Require Import ChangeLogStore ChangeLogStoreTheorems IndexedTree ProofApi.

(** ** The nodes of a proof *)

(** The position, at level [l], of the node that the proof of leaf [i] takes there;
    at level [d] it is the root. *)
Definition proof_pos (d : nat) (i : N) (l : nat) : N := if decide (l < d) then sibling_ix i l else 0%N.

Lemma sibling_ix_lt i l d : l < d → (i < 2 ^ N.of_nat d)%N → (sibling_ix i l < 2 ^ N.of_nat (d - l))%N.
Proof.
  intros Hl Hi. unfold sibling_ix. pose proof (ix_lt i l d ltac:(lia) Hi). apply lxor_lt; [done|].
  replace (d - l) with (S (d - S l)) by lia. rewrite Nat2N.inj_succ, N.pow_succ_r'.
  pose proof (N.pow_nonzero 2 (N.of_nat (d - S l))). lia.
Qed.

Lemma proof_pos_lt d i l : l ≤ d → (i < 2 ^ N.of_nat d)%N → (proof_pos d i l < 2 ^ N.of_nat (d - l))%N.
Proof.
  intros Hl Hi. unfold proof_pos. case_decide; [by apply sibling_ix_lt|].
  pose proof (N.pow_nonzero 2 (N.of_nat (d - l))). lia.
Qed.

Lemma heap_index_bounds d l j :
  l ≤ d ≤ 62 → (j < 2 ^ N.of_nat (d - l))%N → (2 ^ Z.of_nat (d - l) ≤ heap_index d l j < 2 ^ 63)%Z.
Proof.
  intros Hd Hj. unfold heap_index. rewrite N2Z.inj_add, N2Z.inj_pow, nat_N_Z.
  assert (Z.of_N j < 2 ^ Z.of_nat (d - l))%Z as Hj'.
  { apply N2Z.inj_lt in Hj. by rewrite N2Z.inj_pow, nat_N_Z in Hj. }
  assert (2 ^ Z.of_nat (d - l) ≤ 2 ^ 62)%Z by (apply Z.pow_le_mono_r; lia).
  change (2 ^ 63)%Z with (2 * 2 ^ 62)%Z. lia.
Qed.

(** Going up: the parent, and the sibling, of an ancestor of the leaf. *)
Lemma heap_index_up d l i :
  l < d → Z.shiftr (heap_index d l (ix i l)) 1 = heap_index d (S l) (ix i (S l)).
Proof.
  intros Hl. unfold heap_index. rewrite Z.shiftr_div_pow2 by done. change (2 ^ 1)%Z with 2%Z.
  change 2%Z with (Z.of_N 2). rewrite <-N2Z.inj_div. f_equal.
  replace (d - l) with (S (d - S l)) by lia. rewrite Nat2N.inj_succ, N.pow_succ_r'.
  rewrite ix_S, (N.shiftr_div_pow2 (ix i l) 1). change (2 ^ 1)%N with 2%N.
  by rewrite (N.mul_comm 2), N.div_add_l.
Qed.

Lemma sibling_heap_index d l i :
  l < d → heap_index d l (sibling_ix i l) =
  (if decide (heap_index d l (ix i l) `rem` 2 = 0) then heap_index d l (ix i l) + 1 else heap_index d l (ix i l) - 1)%Z.
Proof.
  intros Hl. unfold heap_index. destruct (ix_children i l) as [-> ->].
  replace (d - l) with (S (d - S l)) by lia. rewrite Nat2N.inj_succ, N.pow_succ_r'.
  set (p := (2 ^ N.of_nat (d - S l))%N). set (k := ix i (S l)).
  rewrite Z.rem_mod_nonneg by lia.
  destruct (N.testbit i (N.of_nat l)); case_decide as Hm; try lia.
  - exfalso. replace (Z.of_N (2 * p + (2 * k + 1))) with (1 + Z.of_N (p + k) * 2)%Z in Hm by lia.
    by rewrite Z.mod_add in Hm.
  - exfalso. apply Hm. replace (Z.of_N (2 * p + 2 * k)) with (Z.of_N (p + k) * 2)%Z by lia.
    by apply Z.mod_mul.
Qed.

Section required.
Context `{BuildProfile} {E : Type}.

Lemma required_nodes_loop_ok fuel d i l acc :
  l ≤ d ≤ 62 → (i < 2 ^ N.of_nat d)%N → d - l < fuel →
  required_nodes_loop (E:=E) fuel (heap_index d l (ix i l)) acc =
  Ok (acc ++ ((λ l, heap_index d l (sibling_ix i l)) <$> seq l (d - l))).
Proof.
  intros Hl Hi. revert l acc Hl. induction fuel as [|fuel IH]; intros l acc Hl Hfuel; [lia|].
  cbn [required_nodes_loop]. pose proof (ix_lt i l d ltac:(lia) Hi) as Hix.
  pose proof (heap_index_bounds d l (ix i l) Hl Hix) as Hb.
  destruct (decide (l = d)) as [->|Hne].
  - rewrite Nat.sub_diag. cbn [seq fmap list_fmap]. rewrite app_nil_r, decide_False; [done|].
    rewrite ix_eq_0 by done. unfold heap_index. rewrite Nat.sub_diag. done.
  - assert (l < d) as Hlt by lia.
    assert (2 ≤ 2 ^ Z.of_nat (d - l))%Z as H2.
    { change 2%Z with (2 ^ 1)%Z at 1. apply Z.pow_le_mono_r; lia. }
    rewrite decide_True by lia.
    pose proof (heap_index_bounds d l (sibling_ix i l) Hl (sibling_ix_lt i l d Hlt Hi)) as Hs.
    pose proof (sibling_heap_index d l i Hlt) as Heq.
    assert ((if decide (heap_index d l (ix i l) `rem` 2 = 0)%Z then i64 (heap_index d l (ix i l) + 1)
       else i64 (heap_index d l (ix i l) - 1))%Z = Ok (E:=E) (heap_index d l (sibling_ix i l))) as ->.
    { rewrite Heq in Hs |- *. case_decide; apply i64_ok; lia. }
    cbn [mbind outcome_bind]. rewrite heap_index_up by done. rewrite IH by lia.
    rewrite <-app_assoc. do 2 f_equal. replace (d - l) with (S (d - S l)) by lia. done.
Qed.

Lemma get_required_nodes_ok d i :
  d ≤ 62 → (i < 2 ^ N.of_nat d)%N →
  get_required_nodes_for_proof (E:=E) (heap_index d 0 i) =
  Ok ((λ l, heap_index d l (proof_pos d i l)) <$> seq 0 (S d)).
Proof.
  intros Hd Hi. unfold get_required_nodes_for_proof. rewrite <-(ix_0 i) at 1.
  rewrite required_nodes_loop_ok by (first [done|lia]). rewrite Nat.sub_0_r, app_nil_l.
  cbn [mbind outcome_bind]. f_equal. rewrite seq_S, fmap_app. f_equal.
  - apply list_fmap_ext. intros k l [-> Hk]%lookup_seq. unfold proof_pos. by rewrite decide_True by lia.
  - unfold proof_pos. simpl. rewrite decide_False by lia. unfold heap_index. rewrite Nat.sub_diag. done.
Qed.

(** The loop ends for every index: an [i64] is shifted to one in at most 62 steps. *)
Lemma required_nodes_total fuel idx acc :
  (idx < 2 ^ Z.of_nat fuel)%Z → (idx < 2 ^ 63)%Z →
  ∃ l, required_nodes_loop (E:=E) (S fuel) idx acc = Ok l.
Proof.
  revert idx acc. induction fuel as [|fuel IH]; intros idx acc Hidx H63; cbn [required_nodes_loop].
  { rewrite decide_False by (simpl in Hidx; lia). by eexists. }
  case_decide as Hgt; [|by eexists].
  assert (∃ s, (if decide (idx `rem` 2 = 0)%Z then i64 (idx + 1) else i64 (idx - 1))%Z = Ok (E:=E) s) as [s ->].
  { rewrite Z.rem_mod_nonneg by lia. case_decide as Hm; eexists; apply i64_ok; [|lia].
    pose proof (Z.div_mod idx 2 ltac:(done)). change (2 ^ 63)%Z with (2 * 2 ^ 62)%Z in *. lia. }
  assert (Z.shiftr idx 1 < 2 ^ Z.of_nat fuel)%Z.
  { rewrite Z.shiftr_div_pow2 by done. apply Z.div_lt_upper_bound; [done|].
    rewrite Nat2Z.inj_succ, Z.pow_succ_r in Hidx by lia. done. }
  assert (Z.shiftr idx 1 < 2 ^ 63)%Z.
  { rewrite Z.shiftr_div_pow2 by done. pose proof (Z.div_lt idx (2 ^ 1) ltac:(lia) ltac:(done)). lia. }
  apply IH; done.
Qed.
End required.

(** ** Placing rows and filling gaps *)
Section fill.
Context `{Keccak} `{BuildProfile} {E A : Type} `{EqDecision A} (view : NodeDAO → A) (dflt : A).

(** [f l] is the row found for level [l]. *)
Lemma place_all (f : nat → option NodeDAO) n (acc : list A) :
  n ≤ length acc → (Z.of_nat (length acc) < 2 ^ 63)%Z → (∀ l r, f l = Some r → nd_level r = Z.of_nat l) →
  foldM (place (E:=E) view) acc (omap f (seq 0 n)) =
  Ok (imap (λ l x, if decide (l < n) then default x (view <$> f l) else x) acc).
Proof.
  intros Hn Hlen Hf. revert Hn. induction n as [|n IH]; intros Hn.
  - simpl. f_equal. apply list_eq. intros l. rewrite list_lookup_imap. by destruct (acc !! l).
  - rewrite seq_S, omap_app, foldM_app, IH by lia. cbn [mbind outcome_bind].
    cbn [omap list_omap]. change (0 + n) with n. destruct (f n) as [r|] eqn:Hr.
    + cbn [foldM]. unfold place. rewrite length_imap, (Hf _ _ Hr), decide_True by lia.
      assert (N.to_nat (as_usize (Z.of_nat n)) = n) as Hto.
      { unfold as_usize. rewrite Z.mod_small by lia. lia. }
      rewrite index_set_lt by (rewrite Hto, length_imap; lia). cbn [mbind outcome_bind]. f_equal. rewrite Hto.
      apply list_eq. intros l. destruct (decide (l = n)) as [->|Hne].
      * rewrite list_lookup_insert_eq by (rewrite length_imap; lia). rewrite list_lookup_imap.
        destruct (lookup_lt_is_Some_2 acc n ltac:(lia)) as [x ->]. simpl. by rewrite decide_True, Hr by lia.
      * rewrite list_lookup_insert_ne, !list_lookup_imap by done. destruct (acc !! l); [|done]. simpl.
        f_equal. repeat case_decide; done || lia.
    + cbn [foldM]. f_equal. apply imap_ext. intros l x _. destruct (decide (l = n)) as [->|Hne].
      * rewrite decide_False, decide_True by lia. by rewrite Hr.
      * repeat case_decide; done || lia.
Qed.

Lemma length_fill_empty i l nodes : length (fill_empty view dflt i l nodes) = length l.
Proof. revert i nodes. induction l as [|n l IH]; intros i [|nin nodes]; simpl; auto. Qed.

Lemma lookup_fill_empty i l nodes k n nin :
  l !! k = Some n → nodes !! k = Some nin →
  fill_empty view dflt i l nodes !! k =
  Some (if decide (n = dflt) then view (make_empty_node (Z.of_nat (i + k)) nin) else n).
Proof.
  revert i l nodes. induction k as [|k IH]; intros i [|n' l] [|nin' nodes] Hl Hn; try done; simpl in *.
  - simplify_eq. by rewrite Nat.add_0_r.
  - rewrite (IH (S i) l nodes Hl Hn). by rewrite Nat.add_succ_r.
Qed.

(** Rows at their levels and empty nodes elsewhere. *)
Lemma placed_and_filled (f : nat → option NodeDAO) nodes :
  (Z.of_nat (length nodes) < 2 ^ 63)%Z → (∀ l r, f l = Some r → nd_level r = Z.of_nat l ∧ view r ≠ dflt) →
  ∃ final, foldM (place (E:=E) view) (replicate (length nodes) dflt) (omap f (seq 0 (length nodes))) = Ok final ∧
    length final = length nodes ∧
    ∀ l nin, nodes !! l = Some nin →
      fill_empty view dflt 0 final nodes !! l = Some (view (default (make_empty_node (Z.of_nat l) nin) (f l))).
Proof.
  intros Hlen Hf. eexists. split; [|split].
  - apply place_all; rewrite ?length_replicate; [done|done|]. intros l r Hr. by apply Hf.
  - by rewrite length_imap, length_replicate.
  - intros l nin Hl. pose proof (lookup_lt_Some _ _ _ Hl) as Hlt.
    rewrite (lookup_fill_empty _ _ _ _ (default dflt (view <$> f l)) nin); [|..|done].
    + destruct (f l) as [r|] eqn:Hr; simpl; [|by rewrite decide_True].
      rewrite decide_False; [done|]. by apply (Hf l r).
    + rewrite list_lookup_imap, lookup_replicate_2 by done. simpl. by rewrite decide_True.
Qed.
End fill.

(** ** The query *)
Section sorting.
Implicit Types (l : list NodeDAO).

Definition node_idx_gt (a b : NodeDAO) : Prop := (nd_node_idx b < nd_node_idx a)%Z.

Lemma strictly_sorted_inj l a b :
  StronglySorted node_idx_gt l → a ∈ l → b ∈ l → nd_node_idx a = nd_node_idx b → a = b.
Proof.
  induction 1 as [|x l Hs IH Hx]; intros Ha Hb Heq; [by apply not_elem_of_nil in Ha|].
  rewrite Forall_forall in Hx. apply elem_of_cons in Ha as [->|Ha], Hb as [->|Hb]; try done.
  - specialize (Hx _ Hb). unfold node_idx_gt in Hx. lia.
  - specialize (Hx _ Ha). unfold node_idx_gt in Hx. lia.
  - by apply IH.
Qed.

Lemma strictly_sorted_NoDup l : StronglySorted node_idx_gt l → NoDup l.
Proof.
  induction 1 as [|x l Hs IH Hx]; constructor; [|done]. intros Hin.
  rewrite Forall_forall in Hx. specialize (Hx _ Hin). unfold node_idx_gt in Hx. lia.
Qed.

Lemma strictly_sorted_desc l : StronglySorted node_idx_gt l → StronglySorted node_idx_desc l.
Proof.
  induction 1 as [|x l Hs IH Hx]; constructor; [done|].
  eapply Forall_impl; [done|]. unfold node_idx_gt, node_idx_desc. lia.
Qed.

Lemma desc_by_node_idx_eq l1 l2 :
  StronglySorted node_idx_gt l2 → NoDup l1 → (∀ x, x ∈ l1 ↔ x ∈ l2) → desc_by_node_idx l1 = l2.
Proof.
  intros Hs Hnd Hin. apply (StronglySorted_unique_strong node_idx_desc).
  - intros x1 x2 H1 H2 ? ?. unfold desc_by_node_idx in H1. rewrite merge_sort_Permutation in H1.
    apply (strictly_sorted_inj l2); [done|by apply Hin|done|]. unfold node_idx_desc in *. lia.
  - apply StronglySorted_merge_sort.
    + intros a b c. unfold node_idx_desc. lia.
    + intros a b. unfold node_idx_desc. lia.
  - by apply strictly_sorted_desc.
  - unfold desc_by_node_idx. rewrite merge_sort_Permutation.
    apply NoDup_Permutation; [done|by apply strictly_sorted_NoDup|done].
Qed.

(** A list of rows by level, whose indices go down as the levels go up. *)
Lemma strictly_sorted_omap (f : nat → option NodeDAO) (k n : nat) :
  (∀ i i' r r', k ≤ i < i' → i' < k + n → f i = Some r → f i' = Some r' → node_idx_gt r r') →
  StronglySorted node_idx_gt (omap f (seq k n)).
Proof.
  revert k. induction n as [|n IH]; intros k Hf; [constructor|]. cbn [seq omap list_omap].
  assert (StronglySorted node_idx_gt (omap f (seq (S k) n))) as Hs.
  { apply IH. intros i i' r r' ? ?. apply Hf; lia. }
  destruct (f k) as [r|] eqn:Hr; [|done]. constructor; [done|].
  apply Forall_forall. intros r' (i & Hi%elem_of_seq & Hr')%list_elem_of_omap.
  apply (Hf k i); [lia|lia|done|done].
Qed.
End sorting.

Section queries.
Context `{Keccak} `{BuildProfile} `{Faults} `{Base58}.
Implicit Types (t : tables) (id : Pubkey) (T : tree) (d l : nat) (i j s : N).

Definition proof_nodes d i : list Z := (λ l, heap_index d l (proof_pos d i l)) <$> seq 0 (S d).

(** The row of the node of level [l] of the proof. *)
Definition proof_row t id d i l : option NodeDAO :=
  (λ r, dao_of (node_key id d l (proof_pos d i l), r)) <$> cl_items t !! node_key id d l (proof_pos d i l).

Lemma heap_index_decreasing d l l' j j' :
  l < l' ≤ d → (j' < 2 ^ N.of_nat (d - l'))%N → (heap_index d l' j' < heap_index d l j)%Z.
Proof.
  intros Hl Hj'. unfold heap_index.
  assert (2 ^ N.of_nat (S (d - l')) ≤ 2 ^ N.of_nat (d - l))%N as Hpow by (apply N.pow_le_mono_r; lia).
  rewrite Nat2N.inj_succ, N.pow_succ_r' in Hpow. lia.
Qed.

Lemma path_rows_in t id nodes x :
  x ∈ dao_of <$> path_rows t id nodes ↔
  ∃ n r, cl_items t !! (id, n) = Some r ∧ n ∈ nodes ∧ x = dao_of ((id, n), r).
Proof.
  unfold path_rows. rewrite list_elem_of_fmap. setoid_rewrite list_elem_of_filter. split.
  - intros ([[id' n] r] & -> & [Hid Hn] & Hr%elem_of_map_to_list). simpl in *. subst id'. by exists n, r.
  - intros (n & r & Hr & Hn & ->). exists ((id, n), r). split; [done|]. split; [done|].
    by apply elem_of_map_to_list.
Qed.

Lemma path_rows_NoDup t id nodes : NoDup (dao_of <$> path_rows t id nodes).
Proof.
  unfold path_rows. apply NoDup_fmap_2_strong.
  - intros [[id1 n1] r1] [[id2 n2] r2] [[H11 _] H12]%list_elem_of_filter [[H21 _] H22]%list_elem_of_filter Heq.
    simpl in *. subst. injection Heq as Heq. apply elem_of_map_to_list in H12, H22.
    assert (n1 = n2) as -> by done. congruence.
  - apply NoDup_filter, NoDup_map_to_list.
Qed.

(** The rows that the query returns, by level. *)
Lemma select_nodes_eq t id d i :
  d ≤ 62 → (i < 2 ^ N.of_nat d)%N →
  select_nodes id (proof_nodes d i) t = omap (proof_row t id d i) (seq 0 (S d)).
Proof.
  intros Hd Hi. apply desc_by_node_idx_eq.
  - apply strictly_sorted_omap. intros l l' r r' Hl Hl' Hr Hr'. unfold proof_row in *.
    apply fmap_Some in Hr as (it & _ & ->). apply fmap_Some in Hr' as (it' & _ & ->).
    unfold node_idx_gt. simpl. apply heap_index_decreasing; [lia|]. apply proof_pos_lt; [lia|done].
  - apply path_rows_NoDup.
  - intros x. rewrite path_rows_in, list_elem_of_omap. unfold proof_nodes. split.
    + intros (n & r & Hr & (l & -> & Hl)%list_elem_of_fmap & ->). exists l. split; [done|].
      unfold proof_row, node_key. by rewrite Hr.
    + intros (l & Hl & Hrow). unfold proof_row in Hrow. apply fmap_Some in Hrow as (r & Hr & ->).
      eexists _, r. split; [done|]. split; [|done]. apply list_elem_of_fmap. by exists l.
Qed.

(** No row is newer than the root, so the bound on the sequence number excludes none. *)
Lemma select_proof_nodes_eq t id d T s i :
  represents t id d T s → select_proof_nodes id (proof_nodes d i) t = select_nodes id (proof_nodes d i) t.
Proof.
  intros HR. unfold select_proof_nodes, select_nodes. f_equal. f_equal.
  assert (root_seq t id = Some (Z.of_N s)) as Hroot.
  { unfold root_seq. pose proof (rp_root _ _ _ _ _ HR) as Hr. unfold node_key, heap_index in Hr.
    rewrite Nat.sub_diag in Hr. change (Z.of_N (2 ^ N.of_nat 0 + 0)) with 1%Z in Hr. by rewrite Hr. }
  apply filter_all. intros [[id' n] r] Hin. unfold path_rows in Hin.
  apply list_elem_of_filter in Hin as [[Hid Hn] Hr%elem_of_map_to_list]. simpl in *. subst id'.
  rewrite Hroot. simpl. apply Is_true_true, Z.leb_le.
  destruct (rp_only _ _ _ _ _ HR _ _ Hr) as (l & j & Hl & Hj & ->).
  pose proof (rp_node _ _ _ _ _ HR l j Hl Hj) as Hnode. unfold node_key in Hnode. rewrite Hr in Hnode.
  destruct Hnode as (s' & Hs' & ->). simpl. lia.
Qed.

(** What the rows of a proof hold, and what the absence of a row means. *)
Lemma proof_row_spec t id d T s i l :
  represents t id d T s → (i < 2 ^ N.of_nat d)%N → l ≤ d →
  match proof_row t id d i l with
  | Some r => nd_level r = Z.of_nat l ∧ (1 ≤ nd_node_idx r)%Z ∧
              nd_hash r = vec_to_list (tnode T l (proof_pos d i l))
  | None => tnode T l (proof_pos d i l) = empty_node l
  end.
Proof.
  intros HR Hi Hl. pose proof (rp_node _ _ _ _ _ HR l _ Hl (proof_pos_lt d i l Hl Hi)) as Hnode.
  unfold proof_row. destruct (cl_items t !! _) as [r|]; simpl; [|done].
  destruct Hnode as (s' & _ & ->). split; [done|]. split; [|done].
  unfold node_key, heap_index. simpl. pose proof (N.pow_nonzero 2 (N.of_nat (d - l))). lia.
Qed.

(** The node that the answer holds at level [l]. *)
Definition answer t id d i l : NodeDAO :=
  default (make_empty_node (Z.of_nat l) (heap_index d l (proof_pos d i l))) (proof_row t id d i l).

Lemma answer_hash t id d T s i l :
  represents t id d T s → (i < 2 ^ N.of_nat d)%N → l ≤ d → d ≤ 62 →
  nd_hash (answer t id d i l) = vec_to_list (tnode T l (proof_pos d i l)).
Proof.
  intros HR Hi Hl Hd. pose proof (proof_row_spec t id d T s i l HR Hi Hl) as Hrow. unfold answer.
  destruct (proof_row t id d i l) as [r|]; simpl; [apply Hrow|]. rewrite Hrow. do 2 f_equal.
  unfold as_u32. rewrite Z.mod_small by lia. lia.
Qed.

Lemma tproof_and_root T d i :
  (i < 2 ^ N.of_nat d)%N → (λ l, tnode T l (proof_pos d i l)) <$> seq 0 (S d) = tproof T d i ++ [troot T d].
Proof.
  intros Hi. rewrite seq_S, fmap_app. f_equal.
  - apply list_fmap_ext. intros k l [-> Hk]%lookup_seq. unfold proof_pos. by rewrite decide_True by lia.
  - simpl. unfold proof_pos. by rewrite decide_False by lia.
Qed.

(** The answer of the two loops, for any view of the rows that tells them from the
    default. *)
Lemma loops_answer {E A} `{EqDecision A} (view : NodeDAO → A) dflt t id d T s i :
  represents t id d T s → (i < 2 ^ N.of_nat d)%N → d ≤ 62 →
  (∀ r, (1 ≤ nd_node_idx r)%Z → view r ≠ dflt) →
  ∃ final, foldM (place (E:=E) view) (replicate (S d) dflt) (omap (proof_row t id d i) (seq 0 (S d))) = Ok final ∧
    length final = S d ∧
    fill_empty view dflt 0 final (proof_nodes d i) = (λ l, view (answer t id d i l)) <$> seq 0 (S d).
Proof.
  intros HR Hi Hd Hview. assert (length (proof_nodes d i) = S d) as Hlen.
  { unfold proof_nodes. by rewrite length_fmap, length_seq. }
  pose (f l := if decide (l ≤ d) then proof_row t id d i l else None).
  assert (omap (proof_row t id d i) (seq 0 (S d)) = omap f (seq 0 (S d))) as ->.
  { apply list_omap_ext, Forall_Forall2_diag, Forall_forall. intros l Hl%elem_of_seq.
    unfold f. by rewrite decide_True by lia. }
  destruct (placed_and_filled (E:=E) view dflt f (proof_nodes d i)) as (final & Hplace & Hfl & Hfill).
  - rewrite Hlen. lia.
  - intros l r. unfold f. case_decide as Hl; [|done]. intros Hr.
    pose proof (proof_row_spec t id d T s i l HR Hi Hl) as Hrow. rewrite Hr in Hrow.
    destruct Hrow as (? & ? & _). auto.
  - rewrite Hlen in *. exists final. split; [done|]. split; [done|]. apply list_eq. intros l.
    destruct (decide (l < S d)) as [Hl|Hl].
    + rewrite (Hfill l (heap_index d l (proof_pos d i l))).
      * rewrite list_lookup_fmap, lookup_seq_lt by done. simpl. unfold f, answer. by rewrite decide_True by lia.
      * unfold proof_nodes. by rewrite list_lookup_fmap, lookup_seq_lt.
    + rewrite !(proj2 (lookup_ge_None _ _)); [done|rewrite length_fmap, length_seq; lia|].
      rewrite length_fill_empty. lia.
Qed.

(** ** The answers *)

Lemma get_proof_and_root_ok (D : db) id d T s i :
  represents (tbl D) id d T s → (i < 2 ^ N.of_nat d)%N → d ≤ 62 → fails (executed D) = false →
  get_proof_and_root id (heap_index d 0 i) D =
  (Ok ((λ l, node_to_view (answer (tbl D) id d i l)) <$> seq 0 (S d)), tick D).
Proof.
  intros HR Hi Hd Hf. unfold get_proof_and_root. run_method. rewrite get_required_nodes_ok by done.
  fold (proof_nodes d i). unfold try_query. cbn beta iota. rewrite Hf. cbn [unwrap].
  rewrite (select_proof_nodes_eq _ _ d T s) by done. rewrite select_nodes_eq by done.
  assert (length (proof_nodes d i) = S d) as Hlen by (unfold proof_nodes; by rewrite length_fmap, length_seq).
  rewrite Hlen. pose proof (length_omap_seq (proof_row (tbl D) id d i) 0 (S d)) as Hle.
  rewrite decide_False by (unfold omap in *; lia).
  destruct (decide (length (omap (proof_row (tbl D) id d i) (seq 0 (S d))) = S d)) as [Heq|Hne].
  - rewrite decide_False by (unfold omap in *; lia). unfold node_list_to_view.
    rewrite (omap_seq_full _ _ _ (λ l, make_empty_node (Z.of_nat l) (heap_index d l (proof_pos d i l)))) by done.
    by rewrite <-list_fmap_compose.
  - rewrite decide_True by done.
    destruct (loops_answer (E:=ApiError) node_to_view NodeView_default (tbl D) id d T s i HR Hi Hd) as (final & Hp & _ & Hfill).
    { intros r Hr Heq. unfold node_to_view, NodeView_default in Heq. injection Heq as _ _ Hz _. lia. }
    rewrite Hp. cbn beta iota. by rewrite Hfill.
Qed.

Lemma answer_hashes (D : db) id d T s i :
  represents (tbl D) id d T s → (i < 2 ^ N.of_nat d)%N → d ≤ 62 →
  nv_hash <$> ((λ l, node_to_view (answer (tbl D) id d i l)) <$> seq 0 (S d)) =
  (λ n : Node, bs58_encode (vec_to_list n)) <$> (tproof T d i ++ [troot T d]).
Proof.
  intros HR Hi Hd. rewrite <-tproof_and_root, <-!list_fmap_compose by done. apply list_fmap_ext.
  intros k l [-> Hk]%lookup_seq. simpl. f_equal. apply (answer_hash _ _ _ T s); [done|done|lia|done].
Qed.

Lemma all_but_last_app {E A} (l : list A) x :
  (N.of_nat (length l) < 2 ^ 64)%N → all_but_last (E:=E) (l ++ [x]) = Ok l.
Proof.
  intros Hl. unfold all_but_last. rewrite length_app. simpl. rewrite wsub_ok by lia. simpl.
  unfold slice. rewrite decide_True by (rewrite length_app; simpl; lia).
  rewrite N.sub_0_r. replace (N.to_nat (N.of_nat (length l + 1) - 1)) with (length l) by lia.
  change (N.to_nat 0) with 0. by rewrite drop_0, take_app_length.
Qed.

Lemma last_of_app {E A} (l : list A) x : last_of (E:=E) (l ++ [x]) = Ok x.
Proof.
  unfold last_of. rewrite length_app. simpl. rewrite wsub_ok by lia. simpl.
  apply index_lookup. replace (N.to_nat (N.of_nat (length l + 1) - 1)) with (length l) by lia.
  by rewrite lookup_app_r, Nat.sub_diag by done.
Qed.

Lemma get_height_ok (D : db) id d T s :
  represents (tbl D) id d T s → d ≤ 62 → fails (executed D) = false →
  get_height id D = (Ok (N.of_nat d), tick D).
Proof.
  intros HR Hd Hf. unfold get_height, try_query. run_method. rewrite Hf.
  pose proof (rp_root _ _ _ _ _ HR) as Hr. unfold node_key, heap_index in Hr. rewrite Nat.sub_diag in Hr.
  change (Z.of_N (2 ^ N.of_nat 0 + 0)) with 1%Z in Hr. rewrite Hr. simpl.
  unfold as_u32. rewrite Z.mod_small by lia. do 2 f_equal. lia.
Qed.

Lemma leaf_idx_to_node_idx_ok {E} d i :
  d ≤ 62 → (i < 2 ^ N.of_nat d)%N →
  leaf_idx_to_node_idx (E:=E) (Z.of_N i) (N.of_nat d) = Ok (heap_index d 0 i).
Proof.
  intros Hd Hi. pose proof (heap_index_bounds d 0 i ltac:(lia) ltac:(by rewrite Nat.sub_0_r)) as Hb.
  unfold leaf_idx_to_node_idx, pow2_i64, heap_index in *. rewrite Nat.sub_0_r in *.
  rewrite N2Z.inj_add, N2Z.inj_pow, nat_N_Z in *. change (Z.of_N 2) with 2%Z in *.
  assert (0 < 2 ^ Z.of_nat d)%Z by lia. rewrite i64_ok by lia. cbn [mbind outcome_bind].
  rewrite i64_ok by lia. f_equal. lia.
Qed.

Lemma handle_get_asset_proof_ok (D : db) asset_query id d T s i :
  represents (tbl D) id d T s → (i < 2 ^ N.of_nat d)%N → d ≤ 30 → (∀ n, fails n = false) →
  (∀ r, asset_query id (heap_index d 0 i) = Some r → ao_index r = heap_index d 0 i ∧ ao_level r = Z.of_nat d) →
  let encode := λ n : Node, bs58_encode (vec_to_list n) in
  let hash := match asset_query id (heap_index d 0 i) with
              | Some r => bs58_encode (ao_hash r)
              | None => encode EMPTY
              end in
  (asset_proof_of asset_query id (Z.of_N i) D).1 =
  Ok (mk_AssetProof (encode (troot T d)) hash (encode <$> tproof T d i)).
Proof.
  intros HR Hi Hd Hf Hq encode hash. assert (d ≤ 62) as Hd' by lia.
  unfold asset_proof_of, expect, attempt. run_method.
  rewrite (get_height_ok D id d T s) by done. cbn beta iota.
  rewrite leaf_idx_to_node_idx_ok by done. cbn beta iota.
  rewrite (get_proof_and_root_ok (tick D) id d T s i) by done. cbn beta iota. cbn [tbl tick].
  assert (∃ D' r, get_asset asset_query id (heap_index d 0 i) (tick (tick D)) = (r, D') ∧
    match r with Ok a => av_hash a = hash | Err _ => hash = encode EMPTY | _ => False end) as (D' & r & -> & Hr).
  { unfold get_asset, try_query. run_method. rewrite Hf. eexists _, _. split; [done|]. unfold hash.
    destruct (asset_query id (heap_index d 0 i)) as [r|] eqn:Hr; [|done].
    destruct (Hq r eq_refl) as [Hix Hlev]. unfold asset_to_view, node_idx_to_leaf_idx, pow2_i64.
    rewrite Hix, Hlev. unfold as_u32. rewrite Z.mod_small by lia. rewrite Z2N.id by lia.
    pose proof (heap_index_bounds d 0 i ltac:(lia) ltac:(by rewrite Nat.sub_0_r)) as Hb. rewrite Nat.sub_0_r in Hb.
    assert (2 ^ Z.of_nat d ≤ 2 ^ 30)%Z by (apply Z.pow_le_mono_r; lia).
    assert (0 < 2 ^ Z.of_nat d)%Z by lia. rewrite i64_ok by lia. cbn [mbind outcome_bind].
    by rewrite i64_ok by lia. }
  destruct r as [a|e| |]; [|..|done|done]; cbn beta iota;
    rewrite (answer_hashes D id d T s i HR Hi Hd'), fmap_app; cbn [fmap list_fmap];
    unfold mbind, outcome_bind; rewrite last_of_app, all_but_last_app
      by (rewrite length_fmap, length_tproof; lia); cbn [fst]; by rewrite Hr.
Qed.

(** The HTTP API serves the proofs of the tree.  From a table that represents a
    tree, the answer for leaf [i] is the root of the tree and the proof of the
    leaf in it, whether the rows of its path are all there, missing in part or
    missing altogether; the hash is the asset's, or the empty leaf when the asset
    is not found. *)
Theorem handle_get_asset_proof_correct (D : db) asset_query id d T s i :
  represents (tbl D) id d T s → (i < 2 ^ N.of_nat d)%N → d ≤ 30 → (∀ n, fails n = false) →
  (∀ r, asset_query id (heap_index d 0 i) = Some r → ao_index r = heap_index d 0 i ∧ ao_level r = Z.of_nat d) →
  let encode := λ n : Node, bs58_encode (vec_to_list n) in
  let hash := match asset_query id (heap_index d 0 i) with
              | Some r => bs58_encode (ao_hash r)
              | None => encode EMPTY
              end in
  (asset_proof_of asset_query id (Z.of_N i) D).1 =
  Ok (mk_AssetProof (encode (troot T d)) hash (encode <$> tproof T d i)).
Proof. apply handle_get_asset_proof_ok. Qed.
End queries.
