(* ===== verification/ProofApiProperties.v ===== *)
(** * From the write to the served proof and back

    The proof that the other API serves for an asset, with its missing branch; and
    the whole circle: a proof served from the index is accepted by the tree
    program, canopy included. *)

From S2P Require Import Prelude Text Hashing MerkleSpec ChangeLog MerkleRoll MerkleRollSpec.
From S2P Require Import MerkleRollLemmas Solana Gummyroll GummyrollCanopy GummyrollTheorems Database.
From S2P Require Import ChangeLogStore ChangeLogStoreTheorems IndexedTree ProofApi ProofApiTheorems.

Section asset_proof.
Context `{Keccak} `{BuildProfile} `{Faults} `{Base58}.
Implicit Types (t : tables) (id : Pubkey) (T : tree) (d l : nat) (i s : N).

(** The row of the leaf of an asset. *)
Lemma select_leaf_ok t id d T s i asset_id a r :
  represents t id d T s → (i < 2 ^ N.of_nat d)%N → assets t !! asset_id = Some a →
  as_tree_id a = Some (vec_to_list id) → as_nonce a = Z.of_N i →
  cl_items t !! node_key id d 0 i = Some r →
  select_leaf asset_id t = Some (node_key id d 0 i, r).
Proof.
  intros HR Hi Ha Htree Hnonce Hr. unfold select_leaf. rewrite Ha.
  rewrite (filter_singleton_eq _ _ (node_key id d 0 i, r)); [done|apply NoDup_map_to_list|..].
  - by apply elem_of_map_to_list.
  - pose proof (rp_node _ _ _ _ _ HR 0 i ltac:(lia) ltac:(by rewrite Nat.sub_0_r)) as Hn. rewrite Hr in Hn.
    destruct Hn as (s' & _ & ->). simpl. by rewrite Hnonce, Htree.
  - intros [[id' x] r'] Hin%elem_of_map_to_list (Hleaf & Hid & Hlev). simpl in *.
    rewrite Htree in Hid. injection Hid as Hid%vec_to_list_inj2. subst id'.
    destruct (rp_only _ _ _ _ _ HR _ _ Hin) as (l & j & Hl & Hj & ->).
    pose proof (rp_node _ _ _ _ _ HR l j Hl Hj) as Hn. unfold node_key in Hn. rewrite Hin in Hn.
    destruct Hn as (s' & _ & ->). simpl in Hlev, Hleaf. assert (l = 0) as -> by lia. simpl in Hleaf.
    rewrite Hnonce in Hleaf. injection Hleaf as ->%N2Z.inj.
    pose proof Hr as Hr'. unfold node_key in Hr'. rewrite Hin in Hr'. injection Hr' as <-. done.
Qed.

Lemma answer_all t id d T s i :
  represents t id d T s → (i < 2 ^ N.of_nat d)%N → d ≤ 62 →
  nd_hash <$> (answer t id d i <$> seq 0 (S d)) = vec_to_list <$> (tproof T d i ++ [troot T d]).
Proof.
  intros HR Hi Hd. rewrite <-tproof_and_root, <-!list_fmap_compose by done. apply list_fmap_ext.
  intros k l [-> Hk]%lookup_seq. simpl. by apply (answer_hash _ _ _ T s); [|  |lia|].
Qed.

(** The rows of the whole path are in the table. *)
Definition path_complete t id d i : Prop := length (omap (proof_row t id d i) (seq 0 (S d))) = S d.

(** C36: what the JSON-RPC API answers for an asset.  While at least one node of the
    path has no row, the answer is the root and the proof of the tree.  Once every
    node has a row, it is [d] empty strings, and an empty root: the branch for this
    case was left out. *)
Theorem asset_proof_lost_when_complete (D : db) asset_id a id d T s i r :
  represents (tbl D) id d T s → (i < 2 ^ N.of_nat d)%N → 0 < d ≤ 30 → (∀ n, fails n = false) →
  assets (tbl D) !! asset_id = Some a → as_tree_id a = Some (vec_to_list id) → as_nonce a = Z.of_N i →
  cl_items (tbl D) !! node_key id d 0 i = Some r →
  let encode := λ n : Node, bs58_encode (vec_to_list n) in
  let answered root proof := (get_asset_proof asset_id D).1 =
    Ok (mk_RpcAssetProof root proof (heap_index d 0 i) (encode (tnode T 0 i)) (encode id)) in
  (¬ path_complete (tbl D) id d i → answered (encode (troot T d)) (encode <$> tproof T d i)) ∧
  (path_complete (tbl D) id d i → answered (bs58_encode []) (replicate d (bs58_encode []))).
Proof.
  intros HR Hi Hd Hf Ha Htree Hnonce Hr encode answered.
  assert (ci_hash r = vec_to_list (tnode T 0 i)) as Hhash.
  { pose proof (rp_node _ _ _ _ _ HR 0 i ltac:(lia) ltac:(by rewrite Nat.sub_0_r)) as Hn. rewrite Hr in Hn.
    by destruct Hn as (s' & _ & ->). }
  assert (length (proof_nodes d i) = S d) as Hlen by (unfold proof_nodes; by rewrite length_fmap, length_seq).
  unfold answered, get_asset_proof, get_proof_for_asset, query_or_err, try_query, path_complete.
  split; intros Hc; run_method; rewrite Hf; cbn [ok_or];
    rewrite (select_leaf_ok _ id d T s i _ a r) by done; cbn [ok_or fst snd node_key];
    rewrite get_required_nodes_ok by (first [done|lia]); fold (proof_nodes d i); rewrite Hf; cbn [ok_or tbl tick];
    rewrite select_nodes_eq by (first [done|lia]); rewrite Hlen.
  - rewrite decide_True by done.
    destruct (loops_answer (E:=DbErr) Datatypes.id SimpleChangeLog_default (tbl D) id d T s i HR Hi ltac:(lia))
      as (final & Hp & Hfl & Hfill).
    { intros x Hx Heq. unfold Datatypes.id, SimpleChangeLog_default in Heq. subst x. simpl in Hx. lia. }
    rewrite Hp. cbn beta iota. rewrite Hfill.
    pose proof (answer_all (tbl D) id d T s i HR Hi ltac:(lia)) as Hall. revert Hall.
    rewrite seq_S, !fmap_app. cbn [fmap list_fmap]. rewrite last_snoc. cbn [unwrap]. cbn beta iota.
    rewrite length_app, length_fmap, length_seq. cbn [length]. replace (d + 1 - 1) with d by lia.
    rewrite take_app_length' by (by rewrite length_fmap, length_seq).
    intros [Hproof [= Hroot]]%app_inj_2; [|done]. cbn [rp_proof].
    rewrite !length_fmap, length_seq, decide_False by lia. cbn [fst]. unfold encode.
    rewrite Hhash. f_equal. f_equal.
    + by rewrite <-Hroot.
    + transitivity (bs58_encode <$> (nd_hash <$> (answer (tbl D) id d i <$> seq 0 d))).
      * by rewrite <-!list_fmap_compose.
      * by rewrite Hproof, <-list_fmap_compose.
  - rewrite decide_False by auto. rewrite replicate_S_end, last_snoc. cbn [unwrap]. cbn beta iota.
    rewrite length_app, length_replicate. cbn [length]. replace (d + 1 - 1) with d by lia.
    rewrite take_app_length' by (by rewrite length_replicate). cbn [rp_proof].
    rewrite length_fmap, length_replicate, decide_False by lia. cbn [fst].
    rewrite Hhash. by rewrite fmap_replicate.
Qed.
End asset_proof.

Section circle.
Context `{Keccak} `{BuildProfile} `{EventCodec} `{Faults} `{Base58} (candy_wrapper_id : Pubkey).

(** What a client reads in a string of an answer. *)
Definition decode_node (s : string) : option Node := bs58_decode s ≫= list_to_array 32.

Lemma decode_encode_node (n : Node) :
  (∀ b, bs58_decode (bs58_encode b) = Some b) → decode_node (bs58_encode (vec_to_list n)) = Some n.
Proof. intros Hb. unfold decode_node. rewrite Hb. apply list_to_array_to_list. Qed.

(** C7: the whole circle.  From an index that represents the newest tree of an
    account, the API answers a request for a leaf with strings that decode to a
    root and a proof, and a [replace_leaf] with this root and with the part of this
    proof that the canopy does not hold replaces the leaf. *)
Theorem served_proof_is_accepted D asset_query acct d B p a i v s :
  acct_rep acct d B p a → represents (tbl D) (tree_id acct) d (a_tree a) s →
  (i < 2 ^ N.of_nat d)%N → (i ≤ a_count a)%N → (∀ n, fails n = false) →
  (∀ b, bs58_decode (bs58_encode b) = Some b) →
  (∀ r, asset_query (tree_id acct) (heap_index d 0 i) = Some r →
     ao_index r = heap_index d 0 i ∧ ao_level r = Z.of_nat d) →
  (∀ m T1 i1, a_hist a !! m = Some (T1, i1) →
     find_collision T1 0 (leaf_at (a_tree a) i) (tproof (a_tree a) d i) i = None) →
  nonzero_path (<[i:=v]> (a_tree a)) d i →
  ∃ ans root pv,
    (asset_proof_of asset_query (tree_id acct) (Z.of_N i) D).1 = Ok ans ∧
    decode_node (ap_root ans) = Some root ∧ mapM decode_node (ap_proof ans) = Some pv ∧
    ∀ accs, Modify_ok candy_wrapper_id accs = Ok tt → authority (header acct) = key (acc_authority accs) →
      remaining_accounts accs = take (d - p) pv →
      wrote acct d B p a i v (replace_leaf candy_wrapper_id accs root (leaf_at (a_tree a) i) v i acct).
Proof.
  intros HA HR Hi Hcount Hf Hb Hq Hnone Hnz.
  destruct (supported_sizes d B (ar_supported _ _ _ _ _ HA)) as [Hsizes HB].
  destruct (ar_data _ _ _ _ _ HA) as (roll & c & _ & Hrep & _).
  destruct (a_hist_0 d B roll a Hrep) as [i0 Hi0].
  eexists _, (troot (a_tree a) d), (tproof (a_tree a) d i).
  split; [apply (handle_get_asset_proof_ok D _ _ d (a_tree a) s i); [done|done|apply Hsizes|done|done]|].
  cbn [ap_root ap_proof]. split; [by apply decode_encode_node|]. split.
  - apply mapM_Some_2. apply Forall2_fmap_l, Forall_Forall2_diag, Forall_forall. intros n _.
    by apply decode_encode_node.
  - intros accs Haccs Hauth Hrem. by apply (replace_leaf_wrote _ accs acct d B p a i v 0 (a_tree a) i0).
Qed.
End circle.
