(* ===== verification/AssetApi.v ===== *)
(** * The asset query of the JSON-RPC API: [dapi/asset.rs], [rpc/asset.rs]

    [get_asset] reads the row of an asset, that of its metadata, and its creators,
    authorities and groups, and turns them into the answer; the content comes from
    the metadata document.

    JSON paths, the text of a value, URLs and MIME types are those of libraries:
    [JsonPath] and [Urls]; [JsonBodies] is the document that a stored body is, and
    [HashOrder] the order in which a hash map gives its values.  The percentage of a
    royalty is computed in binary64. *)

From Stdlib Require Import SpecFloat.
From S2P Require Import Prelude Text Solana Json LeafSchema Database ProofApi.

(** ** The answer ([rpc/asset.rs]) *)

Inductive Interface := NftOneZero | Nft | FungibleAsset | Custom | Identity | Executable.

Record Quality := mk_Quality { quality_schema : string }.

Inductive Context := WalletDefault | WebDesktop | WebMobile | AppMobile | AppDesktop | App | Vr.

Record File := mk_File {
  fi_uri : option string;
  fi_mime : option string;
  fi_quality : option Quality;
  fi_contexts : option (list Context);
}.

Record Content := mk_Content {
  co_schema : string;
  co_files : option (list File);
  co_metadata : option (list (gmap string json));
  co_links : option (gmap string json);
}.

Inductive Scope := Full | ScopeRoyalty | ScopeMetadata | Extension.

Definition Scope_from (s : string) : Scope :=
  if decide (s = "royalty") then ScopeRoyalty
  else if decide (s = "metadata") then ScopeMetadata
  else if decide (s = "extension") then Extension
  else Full.

Record Authority := mk_Authority {
  au_address : string;
  au_scopes : list Scope;
}.

Record Compression := mk_Compression {
  cm_eligible : bool;
  cm_compressed : bool;
}.

Record Group := mk_Group {
  group_key : string;
  group_value : string;
}.

Inductive RoyaltyModel := ModelCreators | ModelFanout | ModelSingle.

Definition RoyaltyModel_from_string (s : string) : RoyaltyModel :=
  if decide (s = "creators") then ModelCreators
  else if decide (s = "fanout") then ModelFanout
  else if decide (s = "single") then ModelSingle
  else ModelCreators.

Definition RoyaltyModel_from (t : RoyaltyTargetType) : RoyaltyModel :=
  match t with
  | RoyaltyCreators => ModelCreators
  | RoyaltyFanout => ModelFanout
  | RoyaltySingle => ModelSingle
  | RoyaltyUnknown => ModelCreators
  end.

Record Royalty := mk_Royalty {
  ry_royalty_model : RoyaltyModel;
  ry_target : option string;
  ry_percent : spec_float;
  ry_locked : bool;
}.

Record RpcCreator := mk_RpcCreator {
  rc_address : string;
  rc_share : Z;
  rc_verified : bool;
}.

Inductive OwnershipModel := OwnSingle | OwnToken.

Definition OwnershipModel_from_string (s : string) : OwnershipModel :=
  if decide (s = "single") then OwnSingle else if decide (s = "token") then OwnToken else OwnSingle.

Definition OwnershipModel_from (t : OwnerType) : OwnershipModel :=
  match t with
  | OwnerToken => OwnToken
  | OwnerSingle => OwnSingle
  | OwnerUnknown => OwnSingle
  end.

Record Ownership := mk_Ownership {
  ow_frozen : bool;
  ow_delegated : bool;
  ow_delegate : option string;
  ow_ownership_model : OwnershipModel;
  ow_owner : string;
}.

Record RpcAsset := mk_RpcAsset {
  rs_interface : Interface;
  rs_id : string;
  rs_content : option Content;
  rs_authorities : option (list Authority);
  rs_compression : option Compression;
  rs_grouping : option (list Group);
  rs_royalty : option Royalty;
  rs_creators : option (list RpcCreator);
  rs_ownership : Ownership;
}.

(** ** Content *)

(** What a path selects, [None] when it is an error; and [serde_json::to_string]. *)
Class JsonPath := {
  json_select : json → string → option (list json);
  json_to_string : json → string;
}.

Class Urls := {
  Url : Type;
  url_parse : string → option Url;
  url_path : Url → string;
  mime_from_path : string → option string;
}.

Class JsonBodies := body_json : bytes → json.

Class HashOrder := hash_values : gmap string File → list File.

(** [f64] of the amount times 0.0001. *)
Definition f64_of_Z (z : Z) : spec_float := binary_normalize 53 1024 z 0 false.
Definition f64_ten_thousandth : spec_float := S754_finite false 7378697629483821 (-66).
Definition royalty_percent (royalty_amount : Z) : spec_float :=
  SFmul 53 1024 (f64_of_Z royalty_amount) f64_ten_thousandth.

Section content.
Context `{JsonPath} `{Urls} `{JsonBodies} `{HashOrder}.

Definition to_uri (uri : string) : option Url := url_parse uri.

Definition get_mime (url : Url) : option string := mime_from_path (url_path url).

Definition get_mime_type_from_uri (uri : string) : option string := u ← to_uri uri; get_mime u.

Definition file_from_str (str : string) : File :=
  mk_File (Some str) (get_mime_type_from_uri str) None None.

Definition track_top_level_file {E} (file_map : gmap string File) (top_level_file : option json) :
    outcome E (gmap string File) :=
  match top_level_file with
  | Some v =>
      img ← as_str v;
      Ok (match file_map !! img with
          | None => <[img := file_from_str img]> file_map
          | Some _ => file_map
          end)
  | None => Ok file_map
  end.

(** [v.pop()]: the last match. *)
Definition safe_select (metadata : json) (expr : string) : option json :=
  d ← json_select metadata expr; last d.

(** One entry of [$.properties.files\[*\]]. *)
Definition add_file {E} (actual_files : gmap string File) (v : json) : outcome E (gmap string File) :=
  match v with
  | JObject _ =>
      match json_get v "uri", json_get v "type" with
      | Some u, Some m =>
          str_uri ← as_str u;
          str_mime ← as_str m;
          Ok (<[str_uri := mk_File (Some str_uri) (Some str_mime) None None]> actual_files)
      | Some u, None =>
          let str_uri := json_to_string u in
          Ok (<[str_uri := file_from_str str_uri]> actual_files)
      | None, _ => Ok actual_files
      end
  | JString str_uri => Ok (<[str_uri := file_from_str str_uri]> actual_files)
  | _ => Ok actual_files
  end.

Definition v1_content_from_json {E} (metadata : json) : outcome E Content :=
  let image := safe_select metadata "$.image" in
  let animation := safe_select metadata "$.animation_url" in
  let external_url :=
    (λ val, {["external_url" := json_nth val 0]}) <$> safe_select metadata "$.external_url" in
  actual_files ← foldM add_file ∅ (default [] (json_select metadata "$.properties.files[*]"));
  actual_files ← track_top_level_file actual_files image;
  actual_files ← track_top_level_file actual_files animation;
  Ok (mk_Content "https://schema.metaplex.com/nft1.0.json" (Some (hash_values actual_files)) None external_url).

(** The document of the column [metadata]. *)
Definition metadata_of (data : asset_data_row) : json :=
  match ad_metadata data with
  | JsonString s => JString s
  | JsonBody b => body_json b
  end.

Definition get_content (data : asset_data_row) : outcome DbErr Content :=
  if decide (ad_schema_version data = 1%Z) then v1_content_from_json (metadata_of data)
  else Err (DbErrCustom "Version Not Implemented").
End content.

(** ** The query *)

(** [DasApiError]; the errors of the server are those of libraries. *)
Inductive DasApiError :=
  | DasConfigurationError (msg : string)
  | ServerStartError
  | DatabaseConnectionError
  | PubkeyValidationError (s : string)
  | ValidationError (msg : string)
  | DatabaseError (e : DbErr).

Section queries.
Context `{JsonPath} `{Urls} `{JsonBodies} `{HashOrder} `{Faults} `{Base58} `{RowOrder}.

Definition to_authority (authority : list authority_row) : list Authority :=
  (λ a, mk_Authority (bs58_encode (aw_authority a)) [Full]) <$> authority.

Definition to_creators (creators : list creator_row) : list RpcCreator :=
  (λ a, mk_RpcCreator (bs58_encode (vec_to_list (cw_creator a))) (cw_share a) (cw_verified a)) <$> creators.

Definition to_grouping (groups : list grouping_row) : list Group :=
  (λ a, mk_Group (gw_group_key a) (gw_group_value a)) <$> groups.

(** The asset with the metadata it refers to. *)
Definition select_asset (asset_id : Pubkey) (t : tables) : option (asset_row * option asset_data_row) :=
  a ← assets t !! asset_id;
  Some (a, c ← as_chain_data_id a; asset_datas t !! c).

Definition select_authorities (asset_id : Pubkey) (t : tables) : list authority_row :=
  row_order (filter (λ r, aw_asset_id r = asset_id) (asset_authorities t)).
Definition select_creators (asset_id : Pubkey) (t : tables) : list creator_row :=
  row_order (filter (λ r, cw_asset_id r = asset_id) (asset_creators t)).
Definition select_groupings (asset_id : Pubkey) (t : tables) : list grouping_row :=
  row_order (filter (λ r, gw_asset_id r = asset_id) (asset_groupings t)).

Definition rpc_asset (asset_id : Pubkey) (asset : asset_row) (content : Content)
    (authorities : list authority_row) (creators : list creator_row) (grouping : list grouping_row) : RpcAsset :=
  mk_RpcAsset (if decide (as_specification_version asset = 1%Z) then NftOneZero else Nft)
    (bs58_encode (vec_to_list asset_id)) (Some content) (Some (to_authority authorities))
    (Some (mk_Compression (as_compressible asset) (as_compressed asset)))
    (Some (to_grouping grouping))
    (Some (mk_Royalty (RoyaltyModel_from (as_royalty_target_type asset)) (bs58_encode <$> as_royalty_target asset)
             (royalty_percent (as_royalty_amount asset)) false))
    (Some (to_creators creators))
    (mk_Ownership (as_frozen asset) (bool_decide (is_Some (as_delegate asset))) (bs58_encode <$> as_delegate asset)
       (OwnershipModel_from (as_owner_type asset)) (bs58_encode (as_owner asset))).

Definition get_asset (asset_id : Pubkey) : method db DbErr RpcAsset :=
  found ← query_or_err (select_asset asset_id);
  '(asset, data) ← lift (match found with
                         | Some (a, Some d) => Ok (a, d)
                         | _ => Err RecordNotFound
                         end);
  content ← lift (get_content data);
  authorities ← query_or_err (select_authorities asset_id);
  creators ← query_or_err (select_creators asset_id);
  grouping ← query_or_err (select_groupings asset_id);
  mret (rpc_asset asset_id asset content authorities creators grouping).

(** [validate_pubkey], and [DasApi::get_asset]. *)
Definition validate_pubkey (str_pubkey : string) : outcome DasApiError Pubkey :=
  match bs58_decode str_pubkey with
  | Some b => ok_or (list_to_array 32 b) (PubkeyValidationError str_pubkey)
  | None => Err (PubkeyValidationError str_pubkey)
  end.

(** [map_err(Into::into)]. *)
Definition into_das {A} (m : method db DbErr A) : method db DasApiError A :=
  r ← attempt m; lift (match r with inl e => Err (DatabaseError e) | inr a => Ok a end).

Definition DasApi_get_asset (asset_id : string) : method db DasApiError RpcAsset :=
  id ← lift (validate_pubkey asset_id);
  into_das (get_asset id).
End queries.
