(* ===== verification/Backfiller.v ===== *)
(** * The backfiller: [nft_ingester/src/main.rs]

    A task that watches the [backfill_items] table: a tree with several rows may
    have a gap in its sequence numbers, a tree whose [force_chk] is set was first
    seen after its first write.  What would fetch the missing events is not
    written yet; the model has the functions as they are.

    The order in which the database returns rows is not specified: it is a
    parameter, [RowOrder]. *)

From S2P Require Import Prelude Solana Database.

Record BackfillTrees := mk_BackfillTrees {
  force_chk_trees : list Pubkey;
  multi_row_trees : list Pubkey;
}.

Section defs.
Context `{Faults} `{RowOrder}.

Definition rows_of_tree_in (items : list backfill_item) (tree : Pubkey) : list backfill_item :=
  filter (λ r, bf_tree r = tree) items.

(** [SELECT DISTINCT tree .. WHERE force_chk = TRUE]; NULL is not TRUE. *)
Definition select_force_chk (items : list backfill_item) : list Pubkey :=
  row_order (remove_dups (bf_tree <$> filter (λ r, bf_force_chk r = Some true) items)).

(** [SELECT tree .. GROUP BY tree HAVING COUNT( * ) > 1]. *)
Definition select_multi_row (items : list backfill_item) : list Pubkey :=
  row_order (filter (λ tree, 1 < length (rows_of_tree_in items tree)) (remove_dups (bf_tree <$> items))).

Definition get_trees_to_backfill : d_method BackfillTrees :=
  force_chk_trees ← db_execute (λ d, (select_force_chk (backfill_items (tbl d)), d));
  multi_row_trees ← db_execute (λ d, (select_multi_row (backfill_items (tbl d)), d));
  mret (mk_BackfillTrees force_chk_trees multi_row_trees).

(** Not implemented in the source: it succeeds. *)
Definition backfill_tree_from_seq_1 (_tree : Pubkey) : d_method unit := mret tt.

Definition max_seq_of (items : list backfill_item) (tree : Pubkey) : option Z :=
  match bf_seq <$> rows_of_tree_in items tree with
  | [] => None
  | x :: l => Some (foldr Z.max x l)
  end.

Definition get_items_with_max_seq (tree : Pubkey) : d_method (list backfill_item) :=
  db_execute (λ d,
    (row_order (filter (λ r, Some (bf_seq r) = max_seq_of (backfill_items (tbl d)) tree)
       (rows_of_tree_in (backfill_items (tbl d)) tree)), d)).

(** Not implemented in the source: it returns the largest sequence number. *)
Definition fetch_and_plug_gaps (tree : Pubkey) : d_method Z :=
  items ← get_items_with_max_seq tree;
  mret (match items with r :: _ => bf_seq r | [] => 0%Z end).

Definition with_items (f : list backfill_item → list backfill_item) (d : db) : unit * db :=
  (tt, set_tables (set_backfill_items (f (backfill_items (tbl d))) (tbl d)) d).

Definition clear_flag (tree : Pubkey) (r : backfill_item) : backfill_item :=
  if decide (bf_tree r = tree)
  then mk_backfill_item (bf_id r) (bf_tree r) (bf_seq r) (bf_slot r) (Some false) else r.

Definition clear_force_chk_flag (tree : Pubkey) : d_method unit :=
  db_execute (with_items (fmap (clear_flag tree))).

Definition delete_by_id (id : Z) : d_method unit := db_execute (with_items (filter (λ r, bf_id r ≠ id))).

Definition delete_extra_tree_rows (tree : Pubkey) (seq : Z) : d_method unit :=
  db_execute (with_items (filter (λ r, ¬ (bf_tree r = tree ∧ bf_seq r ≠ seq))));;
  items ← db_execute (λ d, (row_order (filter (λ r, bf_tree r = tree ∧ bf_seq r = seq) (backfill_items (tbl d))), d));
  if decide (1 < length items) then for_each (λ r, delete_by_id (bf_id r)) (drop 1 items)
  else mret tt.

(** The bodies of the two loops; errors are printed. *)
Definition backfill_forced (tree : Pubkey) : d_method unit :=
  r ← attempt (backfill_tree_from_seq_1 tree);
  match r with
  | inl _ => mret tt
  | inr _ => _ ← attempt (E:=DbErr) (clear_force_chk_flag tree); mret tt
  end.

Definition backfill_multi (tree : Pubkey) : d_method unit :=
  r ← attempt (fetch_and_plug_gaps tree);
  match r with
  | inr max_seq => _ ← attempt (E:=DbErr) (delete_extra_tree_rows tree max_seq); mret tt
  | inl _ => mret tt
  end.

(** One turn of the loop of [backfiller]: whether it waits for a notification. *)
Definition backfiller_turn : d_method bool :=
  trees ← attempt get_trees_to_backfill;
  match trees with
  | inl _ => mret false
  | inr trees =>
      if bool_decide (length (force_chk_trees trees) = 0) && bool_decide (length (multi_row_trees trees) = 0)
      then mret true
      else
        for_each backfill_forced (force_chk_trees trees);;
        for_each backfill_multi (multi_row_trees trees);;
        mret false
  end.

(** [n] turns, stopping at the first one that waits. *)
Fixpoint backfiller_turns (n : nat) (d : db) : bool * db :=
  match n with
  | O => (false, d)
  | S n =>
      match backfiller_turn d with
      | (Ok true, d') => (true, d')
      | (_, d') => backfiller_turns n d'
      end
  end.
End defs.
