(* ===== verification/BackfillerTheorems.v ===== *)
(** * The backfiller settles

    Whatever statements fail, a turn keeps the newest row of each tree and deletes
    or unflags others only; once the database stops failing, one turn leaves a
    single unflagged row per tree, and the next one waits. *)

From S2P Require Import Prelude Solana Database Backfiller.

Section rows.
Implicit Types (items : list backfill_item) (tree : Pubkey).

Lemma elem_of_rows items tree r : r ∈ rows_of_tree_in items tree ↔ bf_tree r = tree ∧ r ∈ items.
Proof. unfold rows_of_tree_in. by rewrite list_elem_of_filter. Qed.

Lemma max_seq_None items tree : max_seq_of items tree = None ↔ rows_of_tree_in items tree = [].
Proof. unfold max_seq_of. by destruct (rows_of_tree_in items tree). Qed.

Lemma foldr_max_spec (x : Z) l :
  foldr Z.max x l ∈ x :: l ∧ ∀ y, y ∈ x :: l → (y ≤ foldr Z.max x l)%Z.
Proof.
  induction l as [|z l [Hin Hmax]]; simpl.
  - split; [by left|]. intros y Hy%list_elem_of_singleton. lia.
  - split.
    + destruct (Z.max_spec z (foldr Z.max x l)) as [[_ ->]|[_ ->]].
      * apply elem_of_cons in Hin as [->|Hin]; rewrite !elem_of_cons; auto.
      * rewrite !elem_of_cons. auto.
    + intros y. rewrite !elem_of_cons. intros [->|[->|Hy]].
      * specialize (Hmax x ltac:(by left)). lia.
      * lia.
      * specialize (Hmax y ltac:(by right)). lia.
Qed.

Lemma max_seq_Some items tree m :
  max_seq_of items tree = Some m ↔
  (∃ r, r ∈ items ∧ bf_tree r = tree ∧ bf_seq r = m) ∧ ∀ r, r ∈ items → bf_tree r = tree → (bf_seq r ≤ m)%Z.
Proof.
  assert (∀ z, z ∈ bf_seq <$> rows_of_tree_in items tree ↔ ∃ r, r ∈ items ∧ bf_tree r = tree ∧ bf_seq r = z) as Hin.
  { intros z. rewrite list_elem_of_fmap. setoid_rewrite elem_of_rows. naive_solver. }
  unfold max_seq_of. destruct (bf_seq <$> rows_of_tree_in items tree) as [|x l].
  - split; [done|]. intros [Hr _]. apply Hin in Hr. by apply not_elem_of_nil in Hr.
  - destruct (foldr_max_spec x l) as [Hm Hmax]. split.
    + intros [= <-]. split; [by apply Hin|]. intros r Hr Ht. apply Hmax, Hin. by exists r.
    + intros [Hr Hle]. f_equal. apply Hin in Hr. specialize (Hmax _ Hr).
      apply Hin in Hm as (r & Hr' & Ht & Hs). specialize (Hle _ Hr' Ht). lia.
Qed.

(** What a turn may do to the rows: ids stay distinct, the newest row of each tree
    stays, nothing else is added and no flag is set. *)
Record shrinks items items' : Prop := mk_shrinks {
  sh_ids : NoDup (bf_id <$> items) → NoDup (bf_id <$> items');
  sh_max : ∀ tree, max_seq_of items' tree = max_seq_of items tree;
  sh_flag : ∀ tree, tree ∈ bf_tree <$> filter (λ r, bf_force_chk r = Some true) items' →
                    tree ∈ bf_tree <$> filter (λ r, bf_force_chk r = Some true) items;
}.

Lemma shrinks_refl items : shrinks items items.
Proof. by split. Qed.

Lemma shrinks_trans items1 items2 items3 : shrinks items1 items2 → shrinks items2 items3 → shrinks items1 items3.
Proof. intros [H1 H2 H3] [H4 H5 H6]. split; [auto|intros t; by rewrite H5|auto]. Qed.

(** Deleting rows that are not the only newest ones of their tree. *)
Lemma shrinks_filter (P : backfill_item → Prop) `{∀ x, Decision (P x)} items :
  (∀ tree m, max_seq_of items tree = Some m → ∃ r, r ∈ items ∧ bf_tree r = tree ∧ bf_seq r = m ∧ P r) →
  shrinks items (filter P items).
Proof.
  intros Hkeep. split.
  - intros Hnd. eapply sublist_NoDup; [done|]. by rewrite sublist_filter.
  - intros tree. destruct (max_seq_of items tree) as [m|] eqn:Hm.
    + apply max_seq_Some. apply max_seq_Some in Hm as Hm'. destruct Hm' as [_ Hle]. split.
      * destruct (Hkeep tree m Hm) as (r & Hr & Ht & Hs & HP). exists r. rewrite list_elem_of_filter. auto.
      * intros r [_ Hr]%list_elem_of_filter. by apply Hle.
    + apply max_seq_None in Hm. apply max_seq_None. apply elem_of_nil_inv. intros r [Ht Hr]%elem_of_rows.
      apply list_elem_of_filter in Hr as [_ Hr]. apply (not_elem_of_nil r). rewrite <-Hm. by apply elem_of_rows.
  - intros tree (r & -> & [Hf [_ Hr]%list_elem_of_filter]%list_elem_of_filter)%list_elem_of_fmap.
    apply list_elem_of_fmap. exists r. split; [done|]. by apply list_elem_of_filter.
Qed.

(** Clearing the flag of a tree. *)
Lemma clear_flag_fields tree r :
  bf_id (clear_flag tree r) = bf_id r ∧ bf_tree (clear_flag tree r) = bf_tree r ∧
  bf_seq (clear_flag tree r) = bf_seq r ∧
  (bf_force_chk (clear_flag tree r) = Some true ↔ bf_force_chk r = Some true ∧ bf_tree r ≠ tree).
Proof. unfold clear_flag. case_decide; simpl; naive_solver. Qed.

Lemma rows_of_clear items tree tree' :
  rows_of_tree_in (clear_flag tree <$> items) tree' = clear_flag tree <$> rows_of_tree_in items tree'.
Proof.
  unfold rows_of_tree_in. induction items as [|r items IH]; [done|]. cbn [fmap list_fmap].
  rewrite !filter_cons, IH. destruct (clear_flag_fields tree r) as (_ & -> & _). by case_decide.
Qed.

Lemma shrinks_clear tree items : shrinks items (clear_flag tree <$> items).
Proof.
  split.
  - intros Hnd. rewrite <-list_fmap_compose. erewrite list_fmap_ext; [exact Hnd|].
    intros k r _. simpl. apply clear_flag_fields.
  - intros tree'. unfold max_seq_of. rewrite rows_of_clear, <-list_fmap_compose.
    erewrite (list_fmap_ext (bf_seq ∘ clear_flag tree) bf_seq); [done|]. intros k r _. simpl. apply clear_flag_fields.
  - intros t (r & -> & [Hf (r' & -> & Hr)%list_elem_of_fmap]%list_elem_of_filter)%list_elem_of_fmap.
    destruct (clear_flag_fields tree r') as (_ & -> & _ & Hiff). apply Hiff in Hf as [Hf _].
    apply list_elem_of_fmap. exists r'. split; [done|]. by apply list_elem_of_filter.
Qed.

(** Deleting the rows of a tree that are older than its newest ones. *)
Lemma shrinks_older items tree seq :
  max_seq_of items tree = Some seq →
  shrinks items (filter (λ r, ¬ (bf_tree r = tree ∧ bf_seq r ≠ seq)) items).
Proof.
  intros Hmax. apply shrinks_filter. intros t m Hm.
  pose proof Hm as Hm'. apply max_seq_Some in Hm' as [(r & Hr & Ht & Hs) _]. exists r.
  split; [done|]. split; [done|]. split; [done|]. intros [Heq Hne]. subst t. rewrite Heq in Hm. congruence.
Qed.

(** Deleting a row whose tree keeps another one of the same number. *)
Lemma shrinks_duplicate items r0 r1 :
  r0 ∈ items → r1 ∈ items → bf_tree r0 = bf_tree r1 → bf_seq r0 = bf_seq r1 → bf_id r0 ≠ bf_id r1 →
  NoDup (bf_id <$> items) →
  shrinks items (filter (λ r, bf_id r ≠ bf_id r1) items).
Proof.
  intros H0 H1 Ht Hs Hid Hnd. apply shrinks_filter. intros t m Hm.
  apply max_seq_Some in Hm as [(r & Hr & Htr & Hsr) Hle].
  destruct (decide (bf_id r = bf_id r1)) as [Heq|Hne]; [|by exists r].
  assert (r = r1) as ->; [|exists r0; split_and!; [done|congruence|congruence|done]].
  apply list_elem_of_lookup in Hr as [i Hi], H1 as [j Hj].
  assert (i = j) as ->; [|congruence]. apply (NoDup_lookup (bf_id <$> items) i j (bf_id r1)); [done|..];
    rewrite list_lookup_fmap; [by rewrite Hi, <-Heq|by rewrite Hj].
Qed.
End rows.

Section turns.
Context `{Faults} `{RowOrder} (Horder : ∀ A (l : list A), row_order l ≡ₚ l).
Implicit Types (d : db) (tree t : Pubkey) (items : list backfill_item).

Abbreviation items_of d := (backfill_items (tbl d)).

(** No statement fails from now on. *)
Definition quiet d : Prop := ∀ n, (executed d ≤ n)%N → fails n = false.

(** What every part of a turn does, whatever fails. *)
Record step d d' : Prop := mk_step {
  st_tables : tbl d' = set_backfill_items (items_of d') (tbl d);
  st_executed : (executed d ≤ executed d')%N;
  st_shrinks : NoDup (bf_id <$> items_of d) → shrinks (items_of d) (items_of d');
}.

Lemma step_refl d : step d d.
Proof. split; [by destruct d as [[]]|done|intros; apply shrinks_refl]. Qed.

Lemma step_trans d1 d2 d3 : step d1 d2 → step d2 d3 → step d1 d3.
Proof.
  intros [Ht1 He1 Hs1] [Ht2 He2 Hs2]. split; [rewrite Ht2, Ht1; done|lia|].
  intros Hnd. eapply shrinks_trans; [by apply Hs1|]. apply Hs2, (sh_ids _ _ (Hs1 Hnd)), Hnd.
Qed.

Lemma step_ids d d' : step d d' → NoDup (bf_id <$> items_of d) → NoDup (bf_id <$> items_of d').
Proof. intros Hs Hnd. by apply (sh_ids _ _ (st_shrinks _ _ Hs Hnd)). Qed.

Lemma quiet_step d d' : quiet d → step d d' → quiet d'.
Proof. intros Hq Hs n Hn. apply Hq. pose proof (st_executed _ _ Hs). lia. Qed.

Lemma step_tick d : step d (tick d).
Proof. split; [by destruct d as [[]]|simpl; lia|intros; apply shrinks_refl]. Qed.

(** Rows with the same id are the same row. *)
Lemma same_id items r r' : NoDup (bf_id <$> items) → r ∈ items → r' ∈ items → bf_id r = bf_id r' → r = r'.
Proof.
  intros Hnd [i Hi]%list_elem_of_lookup [j Hj]%list_elem_of_lookup Heq.
  assert (i = j) as ->; [|congruence].
  apply (NoDup_lookup (bf_id <$> items) i j (bf_id r)); [done|..]; rewrite list_lookup_fmap;
    [by rewrite Hi|by rewrite Hj, Heq].
Qed.

(** A statement on the rows. *)
Lemma with_items_step f d o d' :
  db_execute (with_items f) d = (o, d') →
  (NoDup (bf_id <$> items_of d) → shrinks (items_of d) (f (items_of d))) →
  step d d' ∧ (quiet d → o = Ok tt) ∧ (o = Ok tt → items_of d' = f (items_of d)) ∧ o ∈ [Ok tt; Err DbErrExec].
Proof.
  unfold db_execute, execute_as. destruct (fails (executed d)) eqn:Hf; intros [= <- <-] Hsh.
  - split; [apply step_tick|]. split; [|split; [done|by right; left]]. intros Hq. by rewrite Hq in Hf by lia.
  - split; [|split; [done|split; [done|by left]]]. split; simpl; [done|lia|done].
Qed.

Lemma query_step {A} (f : db → A) d o d' :
  db_execute (λ d, (f d, d)) d = (o, d') →
  d' = tick d ∧ (o = Err DbErrExec ∨ o = Ok (f (tick d))) ∧ (quiet d → o = Ok (f (tick d))).
Proof.
  unfold db_execute, execute_as. destruct (fails (executed d)) eqn:Hf; intros [= <- <-]; [|by auto].
  split; [done|]. split; [by left|]. intros Hq. by rewrite Hq in Hf by lia.
Qed.

(** Deleting by id rows that duplicate [r0]. *)
Lemma delete_all_step items0 r0 rs d o d' :
  NoDup (bf_id <$> items0) → items_of d `sublist_of` items0 → r0 ∈ items_of d →
  Forall (λ r, r ∈ items0 ∧ bf_tree r0 = bf_tree r ∧ bf_seq r0 = bf_seq r ∧ bf_id r0 ≠ bf_id r) rs →
  for_each (λ r, delete_by_id (bf_id r)) rs d = (o, d') →
  step d d' ∧ (quiet d → o = Ok tt) ∧
  (o = Ok tt → items_of d' = filter (λ r, bf_id r ∉ bf_id <$> rs) (items_of d)) ∧ o ∈ [Ok tt; Err DbErrExec].
Proof.
  intros Hnd. revert d. induction rs as [|r rs IH]; intros d Hsub Hr0 Hrs Hrun; simpl in Hrun.
  { injection Hrun as <- <-. split; [apply step_refl|]. split; [done|]. split; [|by left]. intros _.
    symmetry. apply filter_all. intros x _. apply not_elem_of_nil. }
  apply Forall_cons in Hrs as [(Hr & Ht & Hs & Hid) Hrs].
  unfold mbind, method_bind in Hrun. destruct (delete_by_id (bf_id r) d) as [o1 d1] eqn:Hdel.
  apply with_items_step in Hdel as (Hstep & Hq1 & Heff & Ho).
  2: { intros Hnd'. destruct (decide (r ∈ items_of d)) as [Hin|Hin]; [by apply (shrinks_duplicate _ r0 r)|].
       rewrite filter_all; [apply shrinks_refl|]. intros x Hx Heq. apply Hin.
       by rewrite <-(same_id items0 x r Hnd (elem_of_sublist _ _ _ Hx Hsub) Hr Heq). }
  apply elem_of_cons in Ho as [->|Ho%list_elem_of_singleton].
  2: { subst o1. injection Hrun as <- <-. split; [done|]. split; [|split; [done|by right; left]]. intros Hq. by apply Hq1. }
  specialize (Heff eq_refl). destruct (IH d1) as (Hstep2 & Hq2 & Heff2 & Ho2); [..|done|].
  - rewrite Heff. etrans; [|done]. apply sublist_filter.
  - rewrite Heff. by apply list_elem_of_filter.
  - done.
  - split; [by eapply step_trans|]. split; [intros Hq; apply Hq2; by eapply quiet_step|]. split; [|done].
    intros Hok. rewrite (Heff2 Hok), Heff, list_filter_filter. apply list_filter_iff. intros x.
    rewrite fmap_cons, not_elem_of_cons. naive_solver.
Qed.

(** Exactly one row is left of the tree, and the other trees are untouched. *)
Definition reduced items items' tree : Prop :=
  length (rows_of_tree_in items' tree) ≤ 1 ∧
  ∀ t, t ≠ tree → rows_of_tree_in items' t = rows_of_tree_in items t.

Lemma rows_of_filter_other (P : backfill_item → Prop) `{∀ x, Decision (P x)} items t :
  (∀ r, bf_tree r = t → P r) → rows_of_tree_in (filter P items) t = rows_of_tree_in items t.
Proof. intros HP. unfold rows_of_tree_in. rewrite list_filter_filter. apply list_filter_iff. naive_solver. Qed.

Lemma all_equal_length {A} (l : list A) x : NoDup l → (∀ y, y ∈ l → y = x) → length l ≤ 1.
Proof.
  destruct l as [|y [|z l]]; simpl; [lia|lia|]. intros [Hy _]%NoDup_cons Heq. exfalso. apply Hy.
  rewrite (Heq y), (Heq z) by (rewrite !elem_of_cons; auto). by left.
Qed.

Lemma delete_extra_step tree seq d o d' :
  NoDup (bf_id <$> items_of d) → max_seq_of (items_of d) tree = Some seq →
  delete_extra_tree_rows tree seq d = (o, d') →
  step d d' ∧ (quiet d → o = Ok tt) ∧ (o = Ok tt → reduced (items_of d) (items_of d') tree) ∧
  o ∈ [Ok tt; Err DbErrExec].
Proof.
  intros Hnd Hmax Hrun. unfold delete_extra_tree_rows in Hrun. unfold mbind, method_bind in Hrun.
  destruct (db_execute _ d) as [o1 d1] eqn:H1 in Hrun.
  apply with_items_step in H1 as (Hs1 & Hq1 & He1 & Ho1); [|by intros _; apply shrinks_older].
  apply elem_of_cons in Ho1 as [->|Ho%list_elem_of_singleton].
  2: { subst o1. injection Hrun as <- <-. split; [done|]. split; [|split; [done|by right; left]]. intros Hq. by apply Hq1. }
  specialize (He1 eq_refl). destruct (db_execute _ d1) as [o2 d2] eqn:H2 in Hrun.
  apply (query_step (λ d, row_order (filter (λ r, bf_tree r = tree ∧ bf_seq r = seq) (items_of d)))) in H2
    as (-> & Ho2 & Hq2).
  assert (step d (tick d1)) as Hst by (eapply step_trans; [done|apply step_tick]).
  destruct Ho2 as [-> | ->].
  { injection Hrun as <- <-. split; [done|]. split; [|split; [done|by right; left]]. intros Hq.
    by pose proof (Hq2 (quiet_step _ _ Hq Hs1)). }
  cbn [items_of tbl tick] in Hrun. rewrite He1 in Hrun.
  set (items := items_of d) in *. set (found := row_order _) in Hrun.
  assert (∀ r, r ∈ found ↔ r ∈ items ∧ bf_tree r = tree ∧ bf_seq r = seq) as Hfound.
  { intros r. unfold found. rewrite Horder, !list_elem_of_filter. naive_solver. }
  assert (NoDup (bf_id <$> found)) as Hndf.
  { unfold found. rewrite Horder, list_filter_filter. eapply sublist_NoDup; [exact Hnd|].
    by rewrite sublist_filter. }
  assert (∃ r0 rs, found = r0 :: rs) as (r0 & rs & Hcons).
  { apply max_seq_Some in Hmax as [(r & Hr & Ht & Hs) _].
    assert (r ∈ found) as Hin by by apply Hfound. destruct found; [by apply not_elem_of_nil in Hin|by eexists _, _]. }
  assert (∀ x, x ∈ rs → x ∈ found) as Hrs by (intros x Hx; rewrite Hcons; by right).
  assert (reduced items (filter (λ r, bf_id r ∉ bf_id <$> rs)
      (filter (λ r, ¬ (bf_tree r = tree ∧ bf_seq r ≠ seq)) items)) tree) as Hred.
  { split.
    - apply (all_equal_length _ r0).
      + unfold rows_of_tree_in. repeat apply NoDup_filter. by eapply NoDup_fmap_1.
      + intros y [Hy Hin]%elem_of_rows. rewrite !list_elem_of_filter in Hin. destruct Hin as [Hid [Hseq Hin]].
        assert (y ∈ found) as Hf.
        { apply Hfound. split; [done|]. split; [done|]. destruct (decide (bf_seq y = seq)); [done|naive_solver]. }
        rewrite Hcons in Hf. apply elem_of_cons in Hf as [->|Hf]; [done|]. destruct Hid. by apply list_elem_of_fmap_2.
    - intros t Hne. unfold rows_of_tree_in. rewrite !list_filter_filter.
      apply list_filter_iff'. intros x Hx. split; [naive_solver|]. intros Hxt.
      assert (bf_id x ∉ bf_id <$> rs); [|naive_solver].
      intros (r' & Heq & Hr')%list_elem_of_fmap. apply Hrs, Hfound in Hr' as (Hr' & Htree & _).
      apply Hne. rewrite <-Hxt, <-Htree. f_equal. by apply (same_id items). }
  destruct (decide (1 < length found)) as [Hlt|Hge].
  - rewrite Hcons in Hrun. cbn [drop] in Hrun. apply (delete_all_step items r0) in Hrun as (Hs2 & Hq & He & Ho).
    + split; [by eapply step_trans|]. split; [intros Hqd; apply Hq; by eapply quiet_step|]. split; [|done].
      intros Hok. rewrite (He Hok). cbn [items_of tbl tick]. rewrite He1. exact Hred.
    + done.
    + cbn [items_of tbl tick]. rewrite He1. apply sublist_filter.
    + cbn [items_of tbl tick]. rewrite He1. assert (r0 ∈ found) as [Hin [Ht Hsq]]%Hfound by (rewrite Hcons; left).
      apply list_elem_of_filter. split; [|done]. intros [_ ?]. done.
    + apply Forall_forall. intros r Hr. assert (r0 ∈ found) as (_ & Ht0 & Hs0)%Hfound by (rewrite Hcons; left).
      pose proof (Hrs r Hr) as (Hin & Ht & Hs)%Hfound. split; [done|]. split; [congruence|]. split; [congruence|].
      intros Heq. rewrite Hcons, fmap_cons, NoDup_cons in Hndf. destruct Hndf as [Hni _]. apply Hni.
      rewrite Heq. by apply list_elem_of_fmap_2.
  - injection Hrun as <- <-. split; [done|]. split; [done|]. split; [|by left]. intros _.
    cbn [items_of tbl tick]. rewrite He1. rewrite Hcons in Hge. destruct rs as [|r rs]; [|simpl in Hge; lia].
    rewrite filter_all in Hred by (intros x _; apply not_elem_of_nil). exact Hred.
Qed.

(** ** The two loops *)

Lemma attempt_inv {A} (m : d_method A) d o d1 :
  m d = (o, d1) → attempt (F:=DbErr) m d =
  (match o with Ok a => Ok (inr a) | Err e => Ok (inl e) | Panic => Panic | OutOfFuel => OutOfFuel end, d1).
Proof. intros Hm. unfold attempt. rewrite Hm. by destruct o. Qed.

Lemma forced_step tree d :
  ∃ d', backfill_forced tree d = (Ok tt, d') ∧ step d d' ∧
    (quiet d → items_of d' = clear_flag tree <$> items_of d).
Proof.
  unfold backfill_forced. run_method. unfold backfill_tree_from_seq_1, attempt at 1. run_method.
  destruct (clear_force_chk_flag tree d) as [o d'] eqn:Hc. rewrite (attempt_inv _ _ _ _ Hc).
  eapply with_items_step in Hc as (Hs & Hq & He & Ho); [|intros _; apply shrinks_clear].
  exists d'. apply elem_of_cons in Ho as [->|Ho%list_elem_of_singleton].
  - split; [done|]. split; [done|]. intros _. by apply He.
  - subst o. split; [done|]. split; [done|]. intros Hqd. by pose proof (Hq Hqd).
Qed.

Lemma multi_step tree m d :
  NoDup (bf_id <$> items_of d) → max_seq_of (items_of d) tree = Some m →
  ∃ d', backfill_multi tree d = (Ok tt, d') ∧ step d d' ∧
    (quiet d → reduced (items_of d) (items_of d') tree).
Proof.
  intros Hnd Hmax. unfold backfill_multi. run_method.
  unfold fetch_and_plug_gaps, get_items_with_max_seq, attempt at 1. run_method.
  destruct (db_execute _ d) as [o1 d1] eqn:H1.
  apply (query_step (λ d, row_order (filter (λ r, Some (bf_seq r) = max_seq_of (items_of d) tree)
    (rows_of_tree_in (items_of d) tree)))) in H1 as (-> & Ho1 & Hq1).
  destruct Ho1 as [-> | ->]; cbn beta iota.
  { exists (tick d). split; [done|]. split; [apply step_tick|]. intros Hq. by pose proof (Hq1 Hq). }
  cbn [tbl tick items_of]. set (found := row_order _) in *.
  assert (match found with r :: _ => bf_seq r | [] => 0%Z end = m) as ->.
  { assert (∀ r, r ∈ found ↔ r ∈ items_of d ∧ bf_tree r = tree ∧ bf_seq r = m) as Hfound.
    { intros r. unfold found. rewrite Horder, list_elem_of_filter, elem_of_rows. change (items_of (tick d)) with (items_of d).
      rewrite Hmax. naive_solver. }
    apply max_seq_Some in Hmax as [(r & Hr & Ht & Hs) _].
    destruct found as [|r' found]; [destruct (not_elem_of_nil r); by apply Hfound|].
    apply (Hfound r'). by left. }
  destruct (delete_extra_tree_rows tree m (tick d)) as [o2 d2] eqn:H2. rewrite (attempt_inv _ _ _ _ H2).
  apply delete_extra_step in H2 as (Hs & Hq & He & Ho); [|done..].
  assert (step d d2) as Hstep by (eapply step_trans; [apply step_tick|done]).
  exists d2. apply elem_of_cons in Ho as [->|Ho%list_elem_of_singleton].
  - split; [done|]. split; [done|]. intros _. by apply He.
  - subst o2. split; [done|]. split; [done|]. intros Hqd.
    by pose proof (Hq (quiet_step _ _ Hqd (step_tick d))).
Qed.

(** The trees that are flagged. *)
Definition flagged items : list Pubkey := bf_tree <$> filter (λ r, bf_force_chk r = Some true) items.

Lemma flagged_clear tree items : tree ∉ flagged (clear_flag tree <$> items).
Proof.
  unfold flagged. intros (r & Heq & [Hf (r' & -> & Hr)%list_elem_of_fmap]%list_elem_of_filter)%list_elem_of_fmap.
  destruct (clear_flag_fields tree r') as (_ & Ht & _ & Hiff). apply Hiff in Hf as [_ Hne]. congruence.
Qed.

Lemma forced_loop ts d :
  NoDup (bf_id <$> items_of d) →
  ∃ d', for_each backfill_forced ts d = (Ok tt, d') ∧ step d d' ∧
    (quiet d → (∀ t, t ∈ ts → t ∉ flagged (items_of d')) ∧
       ∀ t, length (rows_of_tree_in (items_of d') t) = length (rows_of_tree_in (items_of d) t)).
Proof.
  revert d. induction ts as [|t ts IH]; intros d Hnd; simpl.
  { exists d. split; [done|]. split; [apply step_refl|]. intros _. split; [|done].
    intros t Ht. by apply not_elem_of_nil in Ht. }
  destruct (forced_step t d) as (d1 & H1 & Hs1 & He1). unfold mbind, method_bind. rewrite H1.
  pose proof (step_ids _ _ Hs1 Hnd) as Hnd1. destruct (IH d1 Hnd1) as (d2 & H2 & Hs2 & He2). exists d2. split; [done|].
  split; [by eapply step_trans|]. intros Hq. destruct (He2 (quiet_step _ _ Hq Hs1)) as [Hflag Hlen]. split.
  - intros t' [->|Ht']%elem_of_cons; [|by apply Hflag].
    intros Hin. apply (sh_flag _ _ (st_shrinks _ _ Hs2 Hnd1)) in Hin. rewrite (He1 Hq) in Hin.
    by apply flagged_clear in Hin.
  - intros t'. by rewrite Hlen, (He1 Hq), rows_of_clear, length_fmap.
Qed.

Lemma multi_loop ts d :
  NoDup (bf_id <$> items_of d) → (∀ t, t ∈ ts → is_Some (max_seq_of (items_of d) t)) →
  ∃ d', for_each backfill_multi ts d = (Ok tt, d') ∧ step d d' ∧
    (quiet d → ∀ t, t ∈ ts ∨ length (rows_of_tree_in (items_of d) t) ≤ 1 →
       length (rows_of_tree_in (items_of d') t) ≤ 1).
Proof.
  revert d. induction ts as [|t ts IH]; intros d Hnd Hmax; simpl.
  { exists d. split; [done|]. split; [apply step_refl|]. intros _ t [Ht|?]; [by apply not_elem_of_nil in Ht|done]. }
  destruct (Hmax t ltac:(by left)) as [m Hm].
  destruct (multi_step t m d Hnd Hm) as (d1 & H1 & Hs1 & He1). unfold mbind, method_bind. rewrite H1.
  destruct (IH d1) as (d2 & H2 & Hs2 & He2).
  - by apply (step_ids d).
  - intros t' Ht'. rewrite (sh_max _ _ (st_shrinks _ _ Hs1 Hnd)). apply Hmax. by right.
  - exists d2. split; [done|]. split; [by eapply step_trans|]. intros Hq t' Ht'.
    apply He2; [by eapply quiet_step|]. destruct (He1 Hq) as [Hle Hother].
    destruct (decide (t' = t)) as [->|Hne]; [by right|]. rewrite Hother by done.
    rewrite elem_of_cons in Ht'. destruct Ht' as [[?|?]|?]; auto; done.
Qed.

(** ** Turns *)

(** Nothing to do. *)
Definition calm items : Prop := (∀ t, length (rows_of_tree_in items t) ≤ 1) ∧ flagged items = [].

Lemma select_force_chk_in items t : t ∈ select_force_chk items ↔ t ∈ flagged items.
Proof. unfold select_force_chk. by rewrite Horder, elem_of_remove_dups. Qed.

Lemma select_multi_row_in items t :
  t ∈ select_multi_row items ↔ 1 < length (rows_of_tree_in items t).
Proof.
  unfold select_multi_row. rewrite Horder, list_elem_of_filter, elem_of_remove_dups, list_elem_of_fmap.
  split; [by intros [? _]|]. intros Hlt. split; [done|].
  destruct (rows_of_tree_in items t) as [|r l] eqn:Hrows; simpl in Hlt; [lia|].
  assert (r ∈ rows_of_tree_in items t) as [Ht Hr]%elem_of_rows by (rewrite Hrows; by left). by exists r.
Qed.

Lemma calm_iff items : calm items ↔ select_force_chk items = [] ∧ select_multi_row items = [].
Proof.
  split.
  - intros [Hm Hf]. split; apply elem_of_nil_inv; intros t.
    + rewrite select_force_chk_in, Hf. apply not_elem_of_nil.
    + rewrite select_multi_row_in. specialize (Hm t). lia.
  - intros [Hf Hm]. split.
    + intros t. destruct (decide (1 < length (rows_of_tree_in items t))) as [Hlt|]; [|lia].
      apply select_multi_row_in in Hlt. rewrite Hm in Hlt. by apply not_elem_of_nil in Hlt.
    + apply elem_of_nil_inv. intros t. rewrite <-select_force_chk_in, Hf. apply not_elem_of_nil.
Qed.

(** A turn never panics, does not lose the newest rows, and runs a statement; when
    nothing fails it leaves nothing to do, and it waits when there was nothing. *)
Lemma turn_step d :
  NoDup (bf_id <$> items_of d) →
  ∃ b d', backfiller_turn d = (Ok b, d') ∧ step d d' ∧ (executed d < executed d')%N ∧
    (quiet d → calm (items_of d')) ∧ (b = true → calm (items_of d')) ∧ (quiet d → calm (items_of d) → b = true).
Proof.
  intros Hnd. unfold backfiller_turn, get_trees_to_backfill, attempt. run_method.
  destruct (db_execute _ d) as [o1 d1] eqn:H1.
  apply (query_step (λ d, select_force_chk (items_of d))) in H1 as (-> & [-> | ->] & Hq1); cbn beta iota.
  { exists false, (tick d). split; [done|]. split; [apply step_tick|]. split; [simpl; lia|].
    split; [intros Hq; by pose proof (Hq1 Hq)|]. split; [done|]. intros Hq. by pose proof (Hq1 Hq). }
  destruct (db_execute _ (tick d)) as [o2 d2] eqn:H2.
  assert (step d (tick (tick d))) as Hst by (eapply step_trans; apply step_tick).
  apply (query_step (λ d, select_multi_row (items_of d))) in H2 as (-> & [-> | ->] & Hq2); cbn beta iota.
  { exists false, (tick (tick d)). split; [done|]. split; [done|]. split; [simpl; lia|].
    pose proof (λ Hq, Hq2 (quiet_step _ _ Hq (step_tick d))) as Hno.
    split; [intros Hq; by pose proof (Hno Hq)|]. split; [done|]. intros Hq. by pose proof (Hno Hq). }
  cbn [items_of tbl tick force_chk_trees multi_row_trees]. set (items := items_of d) in *.
  destruct (bool_decide (length (select_force_chk items) = 0) && bool_decide (length (select_multi_row items) = 0)) eqn:Hb.
  { apply andb_true_iff in Hb as [?%bool_decide_eq_true ?%bool_decide_eq_true].
    assert (calm items) as Hcalm by (apply calm_iff; split; by apply nil_length_inv).
    exists true, (tick (tick d)). split; [done|]. split; [done|]. split; [simpl; lia|]. done. }
  assert (¬ calm items) as Hbusy.
  { intros [Hf Hm]%calm_iff. by rewrite Hf, Hm in Hb. }
  destruct (forced_loop (select_force_chk items) (tick (tick d)) Hnd) as (d3 & -> & Hs3 & He3).
  pose proof (step_ids _ _ Hs3 Hnd) as Hnd3.
  destruct (multi_loop (select_multi_row items) d3 Hnd3) as (d4 & -> & Hs4 & He4).
  { intros t Ht%select_multi_row_in. rewrite (sh_max _ _ (st_shrinks _ _ Hs3 Hnd)).
    destruct (max_seq_of _ t) eqn:Hm; [done|]. apply max_seq_None in Hm. cbn [items_of tbl tick] in Hm.
    fold items in Hm. rewrite Hm in Ht. simpl in Ht. lia. }
  exists false, d4. split; [done|].
  assert (step d d4) as Hst4 by (eapply step_trans; [exact Hst|by eapply step_trans]).
  split; [done|]. split; [pose proof (st_executed _ _ Hs3); pose proof (st_executed _ _ Hs4); simpl in *; lia|].
  split; [|done]. intros Hq. pose proof (quiet_step _ _ Hq Hst) as Hq2'. destruct (He3 Hq2') as [Hflag Hlen].
  split.
  - intros t. apply He4; [by eapply quiet_step|]. rewrite select_multi_row_in, Hlen.
    cbn [items_of tbl tick]. fold items. lia.
  - apply elem_of_nil_inv. intros t Hin. apply (sh_flag _ _ (st_shrinks _ _ Hs4 Hnd3)) in Hin.
    apply (Hflag t); [|done]. apply select_force_chk_in. by apply (sh_flag _ _ (st_shrinks _ _ Hs3 Hnd)) in Hin.
Qed.

Lemma turns_settle N d :
  (∀ n, (N ≤ n)%N → fails n = false) → NoDup (bf_id <$> items_of d) →
  ∃ k d', backfiller_turns k d = (true, d') ∧ step d d' ∧ calm (items_of d').
Proof.
  intros HN. remember (N.to_nat (N - executed d)) as n eqn:Hn. revert d Hn.
  induction n as [n IH] using lt_wf_ind. intros d Hn Hnd.
  destruct (turn_step d Hnd) as (b & d1 & Hrun & Hs1 & Hlt & Hcalm & Hb & _).
  destruct b.
  { exists 1, d1. simpl. rewrite Hrun. auto. }
  pose proof (step_ids _ _ Hs1 Hnd) as Hnd1.
  destruct (decide (n = 0)) as [->|Hne].
  - assert (quiet d) as Hq by (intros m Hm; apply HN; lia).
    destruct (turn_step d1 Hnd1) as (b & d2 & Hrun2 & Hs2 & _ & Hcalm2 & _ & Hwait).
    assert (quiet d1) as Hq1 by by eapply quiet_step.
    rewrite (Hwait Hq1 (Hcalm Hq)) in Hrun2. exists 2, d2. simpl. rewrite Hrun, Hrun2.
    split; [done|]. split; [by eapply step_trans|by apply Hcalm2].
  - destruct (IH (N.to_nat (N - executed d1)) ltac:(lia) d1 eq_refl Hnd1) as (k & d2 & Hk & Hs2 & Hc2).
    exists (S k), d2. simpl. rewrite Hrun, Hk. split; [done|]. split; [by eapply step_trans|done].
Qed.

(** C37: the backfiller settles, and drops the gaps.  If the database stops failing at
    some point, the loop reaches a turn that waits for a notification; then each
    tree has one row in the queue, with the largest of its sequence numbers, and no
    flag is set.  No other table changed: no missing event was fetched. *)
Theorem backfiller_settles N d :
  (∀ n, (N ≤ n)%N → fails n = false) → NoDup (bf_id <$> items_of d) →
  ∃ k d', backfiller_turns k d = (true, d') ∧ tbl d' = set_backfill_items (items_of d') (tbl d) ∧
    ∀ tree, match max_seq_of (items_of d) tree with
            | Some m => ∃ r, rows_of_tree_in (items_of d') tree = [r] ∧ bf_seq r = m ∧ bf_force_chk r ≠ Some true
            | None => rows_of_tree_in (items_of d') tree = []
            end.
Proof.
  intros HN Hnd. destruct (turns_settle N d HN Hnd) as (k & d' & Hk & Hs & [Hle Hflag]).
  exists k, d'. split; [done|]. split; [apply Hs|]. intros tree.
  rewrite <-(sh_max _ _ (st_shrinks _ _ Hs Hnd)). specialize (Hle tree).
  destruct (max_seq_of (items_of d') tree) as [m|] eqn:Hm; [|by apply max_seq_None].
  apply max_seq_Some in Hm as [(r & Hr & Ht & Hsq) _].
  assert (r ∈ rows_of_tree_in (items_of d') tree) as Hin by by apply elem_of_rows.
  destruct (rows_of_tree_in (items_of d') tree) as [|r' [|? ?]]; [by apply not_elem_of_nil in Hin| |simpl in Hle; lia].
  apply list_elem_of_singleton in Hin as <-. exists r. split; [done|]. split; [done|]. intros Hf.
  apply (not_elem_of_nil tree). rewrite <-Hflag. apply list_elem_of_fmap. exists r. split; [done|].
  by apply list_elem_of_filter.
Qed.
End turns.
