(* ===== verification/Messenger.v ===== *)
(** * The message streams: [messenger/src]

    The trait [Messenger] and its implementation over Redis streams.  The server is
    a parameter ([Redis]): the commands that the code sends, each with its answer
    and the server it leaves; a messenger is passed together with the server. *)

From S2P Require Import Prelude.

Definition ACCOUNT_STREAM : string := "ACC".
Definition SLOT_STREAM : string := "SLT".
Definition TRANSACTION_STREAM : string := "TXN".
Definition BLOCK_STREAM : string := "BLK".

Inductive MessengerError :=
  | ConfigurationError (msg : string)
  | ConnectionError (msg : string)
  | SendError (msg : string)
  | ReceiveError (msg : string).

(** [figment]'s [Dict], each value as its [into_string]. *)
Abbreviation MessengerConfig := (gmap string (option string)).

(** ** The trait

    [W] is what messengers share: the server. *)
Class Messenger (W : Type) := {
  messenger : Type;
  messenger_new : MessengerConfig → method W MessengerError messenger;
  add_stream : string → method (messenger * W) MessengerError unit;
  set_buffer_size : string → N → method (messenger * W) MessengerError unit;
  send : string → bytes → method (messenger * W) MessengerError unit;
  recv : string → method (messenger * W) MessengerError (list (Z * bytes));
}.

(** ** Redis *)

Definition GROUP_NAME : string := "plerkle".
Definition CONSUMER_NAME : string := "ingester".
Definition DATA_KEY : string := "data".
Definition REDIS_CON_STR : string := "redis_connection_str".

(** A value of a reply: [Value::Data], or one of the others. *)
Inductive redis_value :=
  | Value_Data (b : bytes)
  | Value_other.

Record StreamId := mk_StreamId {
  si_id : string;
  si_map : gmap string redis_value;
}.

Record StreamKey := mk_StreamKey {
  sk_key : string;
  sk_ids : list StreamId;
}.

Abbreviation StreamReadReply := (list StreamKey).

(** The commands of the client library; an error is its text.  [Client::open] only
    parses the address. *)
Class Redis := {
  redis : Type;
  client_open : string → bool;
  get_tokio_connection : string → method redis string unit;
  xgroup_create_mkstream : string → string → string → method redis string unit;
  xadd_maxlen : string → N → string → list (string * bytes) → method redis string unit;
  xread_group : string → string → N → string → method redis string StreamReadReply;
}.

(** [StreamMaxlen::Approx]. *)
Record RedisMessengerStream := mk_RedisMessengerStream { buffer_size : option N }.

Record RedisMessenger := mk_RedisMessenger {
  connected : bool;
  streams : gmap string RedisMessengerStream;
  stream_read_reply : StreamReadReply;
}.

(** [id.replace("-", "").parse::<i64>()]. *)
Fixpoint without_dashes (s : string) : string :=
  match s with
  | EmptyString => EmptyString
  | String c s =>
      if Ascii.eqb c (Ascii.ascii_of_N 45) then without_dashes s else String c (without_dashes s)
  end.

Fixpoint parse_decimal (acc : N) (s : string) : option N :=
  match s with
  | EmptyString => Some acc
  | String c s =>
      let n := Ascii.N_of_ascii c in
      if decide (48 ≤ n ≤ 57)%N then parse_decimal (acc * 10 + (n - 48)) s else None
  end.

(** Without a sign: a dash has been removed, and a plus is accepted once. *)
Definition parse_i64 (s : string) : option Z :=
  let digits := match s with
                | String c s' => if Ascii.eqb c (Ascii.ascii_of_N 43) then s' else s
                | EmptyString => s
                end in
  match digits with
  | EmptyString => None
  | _ =>
      n ← parse_decimal 0 digits;
      if decide (n < 2 ^ 63)%N then Some (Z.of_N n) else None
  end.

Section redis.
Context `{Redis}.

Abbreviation r_method := (method (RedisMessenger * redis) MessengerError).

(** A command of the connection of a messenger; [connection.as_mut().unwrap()]. *)
Definition command {A} (c : method redis string A) : r_method (string + A) := λ '(self, w),
  if connected self then let '(r, w') := attempt c w in (r, (self, w')) else (Panic, (self, w)).

Definition redis_messenger_new (config : MessengerConfig) : method redis MessengerError RedisMessenger :=
  uri ← lift (ok_or (u ← config !! REDIS_CON_STR; u)
                (ConfigurationError ("Connection String Missing: " ++ REDIS_CON_STR)));
  lift (rust_assert (client_open uri));;
  r ← attempt (get_tokio_connection uri);
  match r with
  | inl e => lift (Err (ConnectionError e))
  | inr _ => mret (mk_RedisMessenger true ∅ [])
  end.

Definition set_streams (s : gmap string RedisMessengerStream) (self : RedisMessenger) : RedisMessenger :=
  mk_RedisMessenger (connected self) s (stream_read_reply self).

Definition set_reply (r : StreamReadReply) (self : RedisMessenger) : RedisMessenger :=
  mk_RedisMessenger (connected self) (streams self) r.

(** The error of the server is printed. *)
Definition redis_add_stream (stream_key : string) : r_method unit :=
  modify (λ '(self, w), (set_streams (<[stream_key := mk_RedisMessengerStream None]> (streams self)) self, w));;
  _ ← command (xgroup_create_mkstream stream_key GROUP_NAME "$");
  mret tt.

Definition redis_set_buffer_size (stream_key : string) (max_buffer_size : N) : r_method unit :=
  modify (λ '(self, w),
    (match streams self !! stream_key with
     | Some _ => set_streams (<[stream_key := mk_RedisMessengerStream (Some max_buffer_size)]> (streams self)) self
     | None => self
     end, w)).

Definition redis_send (stream_key : string) (data : bytes) : r_method unit :=
  self ← gets fst;
  match streams self !! stream_key with
  | None => mret tt
  | Some stream =>
      match buffer_size stream with
      | None => mret tt
      | Some maxlen =>
          result ← command (xadd_maxlen stream_key maxlen "*" [(DATA_KEY, data)]);
          match result with
          | inl e => lift (Err (SendError e))
          | inr _ => mret tt
          end
      end
  end.

(** One entry of the reply: an entry without data is skipped. *)
Definition read_entry {E} (data_vec : list (Z * bytes)) (entry : StreamId) : outcome E (list (Z * bytes)) :=
  pid ← unwrap (parse_i64 (without_dashes (si_id entry)));
  match si_map entry !! DATA_KEY with
  | Some (Value_Data b) => Ok (data_vec ++ [(pid, b)])
  | Some Value_other | None => Ok data_vec
  end.

Definition read_key {E} (stream_key : string) (data_vec : list (Z * bytes)) (k : StreamKey) :
    outcome E (list (Z * bytes)) :=
  if decide (sk_key k = stream_key) then foldM read_entry data_vec (sk_ids k) else Ok data_vec.

Definition redis_recv (stream_key : string) : r_method (list (Z * bytes)) :=
  reply ← command (xread_group GROUP_NAME CONSUMER_NAME 1 stream_key);
  match reply with
  | inl e => lift (Err (ReceiveError e))
  | inr reply =>
      modify (λ '(self, w), (set_reply reply self, w));;
      lift (foldM (read_key stream_key) [] reply)
  end.

#[export] Instance RedisMessenger_Messenger : Messenger redis := {|
  messenger := RedisMessenger;
  messenger_new := redis_messenger_new;
  add_stream := redis_add_stream;
  set_buffer_size := redis_set_buffer_size;
  send := redis_send;
  recv := redis_recv;
|}.
End redis.
