(* ===== verification/NftApi.v ===== *)
(** * The HTTP API: [nft_api/src/main.rs]

    The handlers read the parameters of a request, which are text, answer it from the
    change-log table and build the response; the router picks the handler by the path
    and adds headers.  The routerify library is an interface: which paths a pattern of a
    route takes, and what its parameters are.  The JSON and the text of the responses
    are what the library makes of the values kept here. *)

From S2P Require Import Prelude Text Hashing MerkleSpec Solana Database ChangeLogStore Messenger ProofApi.

(** [i64::from_str]. *)
Definition i64_from_str (s : string) : option Z :=
  match s with
  | String c (String _ _ as s') =>
      if Ascii.eqb c (Ascii.ascii_of_N 45) then
        n ← parse_decimal 0 s';
        if decide (n ≤ 2 ^ 63)%N then Some (- Z.of_N n)%Z else None
      else parse_i64 s
  | _ => parse_i64 s
  end.

(** The parameters of a request. *)
Abbreviation params := (gmap string string).

(** What a response carries. *)
Inductive response_data :=
  | AssetData (asset : AssetView)
  | AssetsData (assets : list AssetView)
  | NodesData (nodes : list NodeView)
  | RootData (root : string)
  | ProofData (proof : AssetProof).

(** The calls that make a response, with the status of those that fail.  The message
    is [None] when it is that of a failed query. *)
Inductive Response :=
  | json_success_resp (data : response_data)
  | json_failed_resp_with_message (status : N) (msg : option string)
  | json_failed_resp (status : N)
  | not_found_resp.

Definition INTERNAL_SERVER_ERROR : N := 500.

(** The handlers do not return an error: they respond, or they panic. *)
Abbreviation handler := (method db Empty_set).

Section handlers.
Context `{Keccak} `{BuildProfile} `{Faults} `{Base58}.

(** [req.param(name).unwrap()]. *)
Definition param (req : params) (name : string) : handler string := lift (unwrap (req !! name)).

(** [decode_b58_param(req.param(name).unwrap()).unwrap()]. *)
Definition key_param (req : params) (name : string) : handler Pubkey :=
  text ← param req name;
  expect (lift (decode_b58_param text)).

(** [req.param(name).unwrap().parse::<i64>().unwrap()]. *)
Definition index_param (req : params) (name : string) : handler Z :=
  text ← param req name;
  lift (unwrap (i64_from_str text)).

(** The response to an error whose text is the message. *)
Definition report {A} (result : ApiError + A) (data : A → response_data) : Response :=
  match result with
  | inl _ => json_failed_resp_with_message INTERNAL_SERVER_ERROR None
  | inr a => json_success_resp (data a)
  end.

(** The response to an error that carries its own status and message. *)
Definition report_status {A} (result : ApiError + A) (data : A → response_data) : Response :=
  match result with
  | inl (ResponseError msg) => json_failed_resp_with_message INTERNAL_SERVER_ERROR msg
  | inl ParameterInvalid => json_failed_resp INTERNAL_SERVER_ERROR
  | inr a => json_success_resp (data a)
  end.

Section asset_query.
Variable asset_query : Pubkey → Z → option AssetDAO.

Definition handle_get_asset (req : params) : handler Response :=
  tree_id ← key_param req "tree_id";
  leaf_idx ← index_param req "index";
  result ← attempt (asset_of asset_query tree_id leaf_idx);
  mret (report result AssetData).

Definition handle_get_asset_proof (req : params) : handler Response :=
  tree_id ← key_param req "tree_id";
  leaf_idx ← index_param req "index";
  asset_proof ← attempt (asset_proof_of asset_query tree_id leaf_idx);
  mret (report_status asset_proof ProofData).
End asset_query.

Definition handler_get_assets_for_owner (owner_query : Pubkey → list AssetDAO) (req : params) : handler Response :=
  owner ← key_param req "owner";
  results ← attempt (assets_of owner_query owner);
  mret (report results AssetsData).

Definition handle_get_tree (req : params) : handler Response :=
  tree_id ← key_param req "tree_id";
  results ← attempt (nodes_of tree_id);
  mret (report results NodesData).

Definition handle_get_root (req : params) : handler Response :=
  tree_id ← key_param req "tree_id";
  result ← attempt (get_root tree_id);
  mret (report result RootData).

(** The index is that of a node. *)
Definition handle_get_proof (req : params) : handler Response :=
  tree_id ← key_param req "tree_id";
  index ← index_param req "index";
  proof ← attempt (proof_of tree_id index);
  mret (report_status proof NodesData).
End handlers.

(** ** The router *)

(** [routerify]: whether a pattern takes a path, and the parameters it finds in it. *)
Class Routerify := route_match : string → string → option params.

Section router.
Context `{Keccak} `{BuildProfile} `{Faults} `{Base58} `{Routerify}.
Variables (asset_query : Pubkey → Z → option AssetDAO) (owner_query : Pubkey → list AssetDAO).

Definition routes : list (string * (params → handler Response)) := [
  ("/assets/:tree_id/:index/proof", handle_get_asset_proof asset_query);
  ("/assets/:tree_id/:index", handle_get_asset asset_query);
  ("/owner/:owner/assets", handler_get_assets_for_owner owner_query);
  ("/tree/:tree_id", handle_get_tree);
  ("/root/:tree_id", handle_get_root);
  ("/proof/:tree_id/:index", handle_get_proof)]%string.

(** The headers that every response gets. *)
Definition post_headers : list (string * string) := [
  ("access-control-allow-origin", "*");
  ("access-control-allow-methods", "*");
  ("access-control-allow-headers", "*");
  ("access-control-expose-headers", "*")]%string.

(** The first route that takes the path answers the request. *)
Fixpoint first_route (rs : list (string * (params → handler Response))) (path : string) : handler Response :=
  match rs with
  | [] => mret not_found_resp
  | (pattern, h) :: rs =>
      match route_match pattern path with
      | Some req => h req
      | None => first_route rs path
      end
  end.

Definition router (path : string) : handler (Response * list (string * string)) :=
  res ← first_route routes path;
  mret (res, post_headers).
End router.

(** ** What is not answered *)

(** The segments of a pattern, and the names of its parameters. *)
Fixpoint segments (acc : string) (s : string) : list string :=
  match s with
  | EmptyString => [acc]
  | String c s => if Ascii.eqb c (Ascii.ascii_of_N 47) then acc :: segments "" s
                  else segments (acc +:+ String c "") s
  end.

Definition pattern_params (pattern : string) : list string :=
  omap (λ segment, match segment with
                   | String c name => if Ascii.eqb c (Ascii.ascii_of_N 58) then Some name else None
                   | EmptyString => None
                   end) (segments "" pattern).

Section errors.
Context `{Keccak} `{BuildProfile} `{Faults} `{Base58}.

(** The text of a parameter is what the parameter should be: a number or a key. *)
Definition readable (name text : string) : bool :=
  if decide (name = "index"%string) then bool_decide (is_Some (i64_from_str text)) else is_ok (decode_b58_param text).

Lemma key_param_unreadable req name text d :
  req !! name = Some text → is_ok (decode_b58_param text) = false → key_param req name d = (Panic, d).
Proof.
  intros Hreq Hbad. unfold key_param, param, expect, attempt. run_method. rewrite Hreq. simpl.
  unfold decode_b58_param in *. destruct (bs58_decode text) as [b|]; [|done].
  unfold ok_or in *. by destruct (list_to_array 32 b).
Qed.

Lemma key_param_state req name d : ∃ o, key_param req name d = (o, d) ∧ (o = Panic ∨ ∃ k, o = Ok k).
Proof.
  unfold key_param, param, expect, attempt. run_method. destruct (req !! name) as [text|]; simpl; [|by eauto].
  unfold decode_b58_param, ok_or. destruct (bs58_decode text) as [b|]; simpl; [|by eauto].
  destruct (list_to_array 32 b); simpl; eauto.
Qed.

Lemma index_param_unreadable req name text d :
  req !! name = Some text → i64_from_str text = None → index_param req name d = (Panic, d).
Proof. intros Hreq Hbad. unfold index_param, param. run_method. rewrite Hreq. simpl. by rewrite Hbad. Qed.
Lemma bind_panic {A C} (m : handler A) (k : A → handler C) d :
  m d = (Panic, d) → (m ≫= k) d = (Panic, d).
Proof. intros Hm. unfold mbind, method_bind. by rewrite Hm. Qed.

Lemma key_param_bind {C} req name (k : Pubkey → handler C) d :
  (∀ key, k key d = (Panic, d)) → (key_param req name ≫= k) d = (Panic, d).
Proof.
  intros Hk. destruct (key_param_state req name d) as (o & Ho & [->|[key ->]]); unfold mbind, method_bind; by rewrite Ho.
Qed.

End errors.

(** ** The errors of the answers

    A computation fails only with errors that satisfy [P]. *)
Class Errs {E A} (P : E → Prop) (o : outcome E A) : Prop := errs e : o = Err e → P e.
Class MErrs {S E A} (P : E → Prop) (m : method S E A) : Prop := m_errs d e d' : m d = (Err e, d') → P e.

Section instances.
Context `{BuildProfile}.
Context {S E : Type} (P : E → Prop).

#[export] Instance errs_ok {A} (a : A) : Errs P (Ok a).
Proof. by intros e. Qed.

#[export] Instance errs_panic {A} : Errs P (A:=A) Panic.
Proof. by intros e. Qed.

#[export] Instance errs_out_of_fuel {A} : Errs P (A:=A) OutOfFuel.
Proof. by intros e. Qed.

#[export] Instance errs_if {A Q} `{Decision Q} (x y : outcome E A) :
  Errs P x → Errs P y → Errs P (if decide Q then x else y).
Proof. by case_decide. Qed.

#[export] Instance errs_bind {A C} (o : outcome E A) (k : A → outcome E C) :
  Errs P o → (∀ a, Errs P (k a)) → Errs P (o ≫= k).
Proof. intros Ho Hk. destruct o as [a|e| |]; [apply Hk| |done|done]. intros e' [= <-]. by apply Ho. Qed.

#[export] Instance errs_overflow {A} (a : A) : Errs P (on_overflow a).
Proof. unfold on_overflow. by destruct overflow_checks. Qed.

#[export] Instance errs_i64 z : Errs P (i64 z).
Proof. unfold i64. apply _. Qed.

#[export] Instance errs_unwrap {A} (o : option A) : Errs P (unwrap o).
Proof. by destruct o. Qed.

#[export] Instance errs_index_set {A} (l : list A) i x : Errs P (index_set l i x).
Proof. unfold index_set. apply _. Qed.

#[export] Instance errs_index {A} (l : list A) i : Errs P (Prelude.index l i).
Proof. unfold Prelude.index. apply _. Qed.

#[export] Instance errs_slice {A} (l : list A) a b : Errs P (slice l a b).
Proof. unfold slice. apply _. Qed.

#[export] Instance errs_wsub w a b : Errs P (wsub w a b).
Proof. unfold wsub. apply _. Qed.

#[export] Instance errs_foldM {A C} (f : A → C → outcome E A) a l :
  (∀ a c, Errs P (f a c)) → Errs P (foldM f a l).
Proof. intros Hf. revert a. induction l as [|c l IH]; intros a; simpl; apply _. Qed.

#[export] Instance m_errs_lift {A} (o : outcome E A) : Errs P o → MErrs (S:=S) P (lift o).
Proof. intros Ho d e d' [= -> _]. by apply Ho. Qed.

#[export] Instance m_errs_if {A Q} `{Decision Q} (x y : method S E A) :
  MErrs P x → MErrs P y → MErrs P (if decide Q then x else y).
Proof. by case_decide. Qed.

#[export] Instance m_errs_ret {A} (a : A) : MErrs (S:=S) P (mret a).
Proof. by intros d e d'. Qed.

#[export] Instance m_errs_bind {A C} (m : method S E A) (k : A → method S E C) :
  MErrs P m → (∀ a, MErrs P (k a)) → MErrs P (m ≫= k).
Proof.
  intros Hm Hk d e d'. unfold mbind, method_bind. destruct (m d) as [[a|e1| |] d1] eqn:Hrun; [apply Hk| |done|done].
  intros [= <- <-]. by eapply Hm.
Qed.

(** After [attempt], an error that is handed on was an error of the computation. *)
Lemma m_errs_attempt {A C} (m : method S E A) (k : E + A → method S E C) :
  MErrs P m → (∀ e, P e → MErrs P (k (inl e))) → (∀ a, MErrs P (k (inr a))) → MErrs P (attempt m ≫= k).
Proof.
  intros Hm Hl Hr d e d'. unfold attempt, mbind, method_bind.
  destruct (m d) as [[a|e1| |] d1] eqn:Hrun; [apply Hr|apply Hl; by eapply Hm|done|done].
Qed.
End instances.

Section responses.
Context `{Keccak} `{BuildProfile} `{Faults} `{Base58}.
Variables (asset_query : Pubkey → Z → option AssetDAO) (owner_query : Pubkey → list AssetDAO).

Abbreviation no_parameter_error := (λ e : ApiError, e ≠ ParameterInvalid).

#[local] Instance errs_response msg {A} : Errs (A:=A) no_parameter_error (Err (ResponseError msg)).
Proof. by intros e [= <-]. Qed.

#[local] Instance m_errs_query {A} (f : tables → A) : MErrs no_parameter_error (try_query f).
Proof. by intros d e d'. Qed.

Lemma required_nodes_errs fuel idx l : Errs no_parameter_error (required_nodes_loop fuel idx l).
Proof. revert idx l. induction fuel as [|fuel IH]; intros idx l; simpl; apply _. Qed.

#[local] Instance m_errs_proof_and_root tree_id i : MErrs no_parameter_error (get_proof_and_root tree_id i).
Proof.
  unfold get_proof_and_root. apply m_errs_bind; [|intros nodes].
  - apply m_errs_lift, errs_bind; [apply required_nodes_errs|apply _].
  - unfold place. apply _.
Qed.

#[local] Instance m_errs_proof_of tree_id i : MErrs no_parameter_error (proof_of tree_id i).
Proof. unfold proof_of, all_but_last. apply _. Qed.

#[local] Instance m_errs_expect {A} (m : method db ApiError A) : MErrs no_parameter_error (expect (F:=ApiError) m).
Proof.
  intros d e d'. unfold expect, attempt, lift, mbind, method_bind. by destruct (m d) as [[]].
Qed.

#[local] Instance m_errs_asset_proof_of tree_id i : MErrs no_parameter_error (asset_proof_of asset_query tree_id i).
Proof.
  unfold asset_proof_of, leaf_idx_to_node_idx, pow2_i64.
  apply m_errs_bind; [apply _|intros h]. apply m_errs_bind; [apply _|intros idx].
  apply m_errs_attempt; [apply _|intros e He|intros p].
  - intros d e' d'. unfold attempt, mbind, method_bind, lift.
    destruct (get_asset asset_query tree_id idx d) as [[] d1]; intros [=]; congruence.
  - assert (∀ hash, Errs (E:=ApiError) no_parameter_error (root ← last_of (nv_hash <$> p); init ← all_but_last (nv_hash <$> p);
      Ok (mk_AssetProof root hash init))) as Htail by (intros hash; unfold last_of, all_but_last; apply _).
    intros d e' d'. unfold attempt, method_bind, lift. unfold mbind at 1, method_bind.
    destruct (get_asset asset_query tree_id idx d) as [[a|e1| |] d1]; try done; intros [= Hp _]; exact (Htail _ _ Hp).
Qed.

(** The two responses to an error: a response without a message is never sent. *)
Lemma report_status_message {A} (m : method db ApiError A) (data : A → response_data) d r d' :
  MErrs no_parameter_error m → (result ← attempt (F:=Empty_set) m; mret (report_status result data)) d = (Ok r, d') →
  r ≠ json_failed_resp INTERNAL_SERVER_ERROR.
Proof.
  intros Hm. unfold attempt, mbind, method_bind, mret, method_ret.
  destruct (m d) as [[a|[|msg]| |] d1] eqn:Hrun; intros [= <- <-]; try done. by apply m_errs in Hrun.
Qed.

Lemma report_message {A} (m : method db ApiError A) (data : A → response_data) d r d' :
  (result ← attempt (F:=Empty_set) m; mret (report result data)) d = (Ok r, d') →
  r ≠ json_failed_resp INTERNAL_SERVER_ERROR.
Proof.
  unfold attempt, mbind, method_bind, mret, method_ret. by destruct (m d) as [[a|e| |] d1]; intros [= <- <-].
Qed.

(** The parameters of a request are read before it is answered. *)
Lemma handler_result {A C} (m : handler A) (k : A → handler C) d r d' :
  (m ≫= k) d = (Ok r, d') → ∃ a d1, m d = (Ok a, d1) ∧ k a d1 = (Ok r, d').
Proof. unfold mbind, method_bind. destruct (m d) as [[a|[]| |] d1]; [by eauto|done..]. Qed.

Lemma key_unreadable {C} name text req (k : Pubkey → handler C) d :
  name ≠ "index"%string → req !! name = Some text → readable name text = false → (key_param req name ≫= k) d = (Panic, d).
Proof.
  intros Hname Hreq Hbad. apply bind_panic, (key_param_unreadable _ _ text); [done|].
  unfold readable in Hbad. by rewrite decide_False in Hbad by done.
Qed.

Lemma key_and_index_unreadable {C} key name text req (k : Pubkey → Z → handler C) d :
  name = key ∨ name = "index"%string → key ≠ "index"%string → req !! name = Some text → readable name text = false →
  (tree_id ← key_param req key; i ← index_param req "index"; k tree_id i) d = (Panic, d).
Proof.
  intros [->| ->] Hkey Hreq Hbad; [by eapply key_unreadable|]. apply key_param_bind. intros tree_id.
  apply bind_panic, (index_param_unreadable _ _ text); [done|].
  unfold readable in Hbad. rewrite decide_True in Hbad by done. by apply bool_decide_eq_false, eq_None_not_Some in Hbad.
Qed.

(** A route is one of the six; its parameters are read first. *)
Local Ltac route_of H := repeat (apply elem_of_cons in H as [[= -> ->]|H]); [..|by apply not_elem_of_nil in H].
Local Ltac read_parameter H :=
  match type of H with
  | ((key_param _ _ ≫= _) _ = _) => apply handler_result in H as (? & ? & _ & H)
  | ((index_param _ _ ≫= _) _ = _) => apply handler_result in H as (? & ? & _ & H)
  end.

(** C32: what the API does with the text of a request.  Whichever route takes a request,
    a parameter that is not a key or a number, as its name demands, panics before any
    query is made, so that nothing is sent: [ParameterInvalid] never reaches the
    response that the handlers keep for it, and every response to an error has the
    status 500 and a message. *)
Theorem bad_parameter_unanswered pattern h req d :
  (pattern, h) ∈ routes asset_query owner_query →
  (∀ name text, name ∈ pattern_params pattern → req !! name = Some text → readable name text = false →
     h req d = (Panic, d)) ∧
  ∀ r d', h req d = (Ok r, d') → r ≠ json_failed_resp INTERNAL_SERVER_ERROR.
Proof.
  intros Hin. split.
  - intros name text Hname Hreq Hbad. route_of Hin;
      match type of Hname with _ ∈ ?l => let l' := eval vm_compute in l in change l with l' in Hname end;
      rewrite ?elem_of_cons, elem_of_nil in Hname;
      (destruct Hname as [->|Hname]; [by eapply key_unreadable|]); [destruct Hname as [->|[]] || done..].
    all: (apply (key_and_index_unreadable "tree_id" "index" text); [by right|done..]).
  - intros r d' Hrun. route_of Hin;
      unfold handle_get_asset_proof, handle_get_asset, handler_get_assets_for_owner, handle_get_tree, handle_get_root,
        handle_get_proof in Hrun; repeat read_parameter Hrun;
      first [eapply report_message; exact Hrun|eapply report_status_message; [|exact Hrun]; apply _].
Qed.
End responses.
