(* ===== verification/ProgramLogs.v ===== *)
(** * Logs and instructions of a transaction: [nft_ingester/src/utils] and [events]

    A transaction arrives with its instructions and one list of log lines.  The
    ingester cuts the lines into one group per top-level instruction, pairs each
    group with its instruction, and reads the events that the lines carry.

    The two regular expressions, base64 and the decoding of events are those of
    libraries: [LogSyntax] and [EventDecoder].  A flatbuffers table is the record
    of its fields, a vector of it a list whose [get] panics out of range. *)

From S2P Require Import Prelude Text Solana Gummyroll LeafSchema Database.

(** What the regular expressions capture in a line: the base64 text of
    [Program data: ..], and the program and the depth of [Program .. invoke \[..\]]. *)
Class LogSyntax := {
  program_data : string → option string;
  program_invoke : string → option (string * string);
  base64_decode : string → option bytes;
}.

(** An event type: its discriminator and its Borsh decoding. *)
Class EventDecoder (T : Type) := {
  discriminator : bytes;
  deserialize : bytes → option T;
}.
Arguments discriminator T {_}.

(** [str::parse::<u8>]. *)
Definition digit_of (c : Ascii.ascii) : option N :=
  let n := Ascii.N_of_ascii c in if decide (48 ≤ n ≤ 57)%N then Some (n - 48)%N else None.

Fixpoint parse_digits (acc : N) (s : string) : option N :=
  match s with
  | EmptyString => Some acc
  | String c s =>
      d ← digit_of c;
      if decide (acc * 10 + d < 256)%N then parse_digits (acc * 10 + d) s else None
  end.

Definition parse_u8 (s : string) : option N :=
  match s with
  | EmptyString => None
  | String c s' =>
      if Ascii.eqb c (Ascii.ascii_of_N 43) then
        match s' with EmptyString => None | _ => parse_digits 0 s' end
      else parse_digits 0 s
  end.

(** [Pubkey::new]: the slice must have 32 bytes. *)
Definition Pubkey_new {E} (b : bytes) : outcome E Pubkey := unwrap (list_to_array 32 b).

Section logs.
Context `{LogSyntax} `{Base58}.

(** [filter_events_from_logs]. *)
Definition filter_events_from_logs (log_messages : list string) : outcome unit (list string) :=
  let events := omap program_data log_messages in
  if decide (length events = 0) then Err tt else Ok events.

(** The program and the depth of an invocation line, when both can be read. *)
Definition read_invoke {E} (log : string) : outcome E (option (Pubkey * N)) :=
  match program_invoke log with
  | None => Ok None
  | Some (prog, l) =>
      program ← (match bs58_decode prog with
                 | Some bytes => key ← Pubkey_new bytes; Ok (Some key)
                 | None => Ok None
                 end);
      Ok (match program, parse_u8 l with
          | Some program, Some level => Some (program, level)
          | _, _ => None
          end)
  end.

Abbreviation program_log := (Pubkey * list string * N)%type.

(** [program_logs.last_mut().unwrap().1.push(log)]. *)
Definition push_line {E} (program_logs : list program_log) (log : string) : outcome E (list program_log) :=
  match last program_logs with
  | None => Panic
  | Some (key, lines, level) =>
      index_set program_logs (N.of_nat (length program_logs - 1)) (key, lines ++ [log], level)
  end.

Definition parse_log {E} (program_logs : list program_log) (log : string) : outcome E (list program_log) :=
  cap ← read_invoke log;
  match cap with
  | Some (key, level) =>
      if (level =? 1)%N then Ok (program_logs ++ [(key, [], level)]) else push_line program_logs log
  | None => push_line program_logs log
  end.

Definition parse_logs (log_messages : option (list string)) : outcome unit (list program_log) :=
  match log_messages with
  | Some logs => foldM parse_log [] logs
  | None => Err tt
  end.

(** [events::handle_event]. *)
Definition handle_event {T} `{EventDecoder T} (data : string) : outcome IngesterError T :=
  match base64_decode data with
  | None => Err ChangeLogEventMalformed
  | Some borsh_bytes =>
      '(disc, slice) ← split_at borsh_bytes 8;
      if decide (disc ≠ discriminator T) then Err ChangeLogEventMalformed
      else ok_or (deserialize slice) ChangeLogEventMalformed
  end.

(** The loops that try to read each captured text as an event. *)
Fixpoint readable_events {T} `{EventDecoder T} (events : list string) : outcome IngesterError (list T) :=
  match events with
  | [] => Ok []
  | event :: events =>
      match handle_event event with
      | Ok e => l ← readable_events events; Ok (e :: l)
      | Err _ => readable_events events
      | Panic => Panic
      | OutOfFuel => OutOfFuel
      end
  end.

(** [get_gummy_roll_events]: all of them. *)
Definition get_gummy_roll_events `{EventDecoder ChangeLogEvent} (logs : list string) :
    outcome IngesterError (list ChangeLogEvent) :=
  match filter_events_from_logs logs with
  | Ok events => readable_events events
  | _ => Err ChangeLogEventMalformed
  end.

(** [get_bubblegum_event]: the last one. *)
Definition get_bubblegum_event {T} `{EventDecoder T} (logs : list string) : outcome IngesterError T :=
  match filter_events_from_logs logs with
  | Ok events => l ← readable_events events; ok_or (last l) CompressedAssetEventMalformed
  | _ => Err CompressedAssetEventMalformed
  end.
End logs.

(** ** Instructions ([utils/instructions.rs]) *)

Record CompiledInstruction := mk_CompiledInstruction {
  cx_program_id_index : N;
  cx_accounts : option (list N);
  cx_data : option bytes;
}.

Record InnerInstructions := mk_InnerInstructions {
  ii_index : N;
  ii_instructions : option (list CompiledInstruction);
}.

(** [TransactionInfo]; a key is a table with an optional byte vector. *)
Record TransactionInfo := mk_TransactionInfo {
  ti_is_vote : bool;
  ti_account_keys : option (list (option bytes));
  ti_log_messages : option (list string);
  ti_inner_instructions : option (list InnerInstructions);
  ti_outer_instructions : option (list CompiledInstruction);
  ti_slot : N;
}.

Definition IxPair : Type := option bytes * CompiledInstruction.

(** [get_inner_ixs]: the index is compared modulo 256. *)
Definition get_inner_ixs (inner_ixs : option (list InnerInstructions)) (outer_index : nat) :
    option InnerInstructions :=
  match inner_ixs with
  | Some inner_ix_list => head (filter (λ ixs, ii_index ixs = wrap 8 (N.of_nat outer_index)) inner_ix_list)
  | None => None
  end.

Definition ix_pair {E} (keys : list (option bytes)) (ix : CompiledInstruction) : outcome E IxPair :=
  program_id ← Prelude.index keys (cx_program_id_index ix);
  Ok (program_id, ix).

Definition order_instruction {E} (keys : list (option bytes)) (inner_ix_list : option (list InnerInstructions))
    (ordered_ixs : list (IxPair * option (list IxPair))) (i_instruction : nat * CompiledInstruction) :
    outcome E (list (IxPair * option (list IxPair))) :=
  let '(i, instruction) := i_instruction in
  outer ← ix_pair keys instruction;
  inner ← (match get_inner_ixs inner_ix_list i with
           | Some inner_ixs =>
               ixs ← unwrap (ii_instructions inner_ixs);
               inner_list ← foldM (λ l ix, p ← ix_pair keys ix; Ok (l ++ [p])) [] ixs;
               Ok (Some inner_list)
           | None => Ok None
           end);
  Ok (ordered_ixs ++ [(outer, inner)]).

Definition order_instructions {E} (transaction_info : TransactionInfo) :
    outcome E (list (IxPair * option (list IxPair))) :=
  match ti_outer_instructions transaction_info, ti_account_keys transaction_info with
  | Some outer_instructions, Some keys =>
      foldM (order_instruction keys (ti_inner_instructions transaction_info)) []
        (imap pair outer_instructions)
  | _, _ => Ok []
  end.

(** [pubkey_from_fb_table] and [bytes_from_fb_table]. *)
Definition bytes_from_fb_table {E} (keys : list (option bytes)) (i : N) : outcome E bytes :=
  pubkey ← Prelude.index keys i; unwrap pubkey.

Definition pubkey_from_fb_table {E} (keys : list (option bytes)) (i : N) : outcome E Pubkey :=
  key ← bytes_from_fb_table keys i; Pubkey_new key.

Definition string_from_fb_table `{Base58} {E} (keys : list (option bytes)) (i : N) : outcome E string :=
  key ← pubkey_from_fb_table keys i; Ok (bs58_encode (vec_to_list key)).

(** ** Handlers ([parsers/mod.rs]) and the two streams ([main.rs]) *)

Record InstructionBundle := mk_InstructionBundle {
  ib_message_id : Z;
  ib_instruction : CompiledInstruction;
  ib_inner_ix : option (list IxPair);
  ib_keys : list (option bytes);
  ib_instruction_logs : list string;
  ib_slot : N;
}.

(** [AccountInfo], of the stream of accounts. *)
Record AccountInfoFb := mk_AccountInfoFb {
  af_pubkey : option bytes;
  af_lamports : N;
  af_owner : option bytes;
  af_executable : bool;
  af_rent_epoch : N;
  af_data : option bytes;
  af_write_version : N;
  af_slot : N;
  af_is_startup : bool;
}.

(** [dyn ProgramHandler]. *)
Record ProgramHandler := mk_ProgramHandler {
  ph_id : Pubkey;
  responds_to_account : bool;
  responds_to_instruction : bool;
  handle_instruction : InstructionBundle → i_method unit;
  handle_account : AccountInfoFb → i_method unit;
}.

(** The registered parsers, by program. *)
Record ProgramHandlerManager := mk_ProgramHandlerManager {
  registered_parsers : gmap Pubkey ProgramHandler;
}.

Definition ProgramHandlerManager_new : ProgramHandlerManager := mk_ProgramHandlerManager ∅.

Definition register_parser (manager : ProgramHandlerManager) (parser : ProgramHandler) : ProgramHandlerManager :=
  mk_ProgramHandlerManager (<[ph_id parser := parser]> (registered_parsers manager)).

Definition match_program {E} (manager : ProgramHandlerManager) (program_id : bytes) :
    outcome E (option ProgramHandler) :=
  key ← Pubkey_new program_id; Ok (registered_parsers manager !! key).

(** [root_as_transaction_info] and [root_as_account_info]: [None] for a malformed buffer. *)
Class Flatbuffers := {
  root_as_transaction_info : bytes → option TransactionInfo;
  root_as_account_info : bytes → option AccountInfoFb;
}.

Section streams.
Context `{LogSyntax} `{Base58} `{Flatbuffers}.

(** One instruction with its logs; the error of a handler is printed. *)
Definition dispatch (manager : ProgramHandlerManager) (message_id : Z) (keys : list (option bytes)) (slot : N)
    (ix_log : (IxPair * option (list IxPair)) * (Pubkey * list string * N)) : i_method unit :=
  let '(((program, instruction), inner_ix), (log_key, lines, _)) := ix_log in
  program_key ← lift (unwrap program);
  lift (rust_assert (bool_decide (program_key = vec_to_list log_key)));;
  parser ← lift (match_program manager program_key);
  match parser with
  | Some p =>
      if responds_to_instruction p then
        _ ← attempt (handle_instruction p (mk_InstructionBundle message_id instruction inner_ix keys lines slot));
        mret tt
      else mret tt
  | None => mret tt
  end.

Definition handle_one_transaction (manager : ProgramHandlerManager) (message : Z * bytes) : i_method unit :=
  let '(message_id, data) := message in
  match root_as_transaction_info data with
  | None => mret tt
  | Some transaction =>
      match ti_account_keys transaction with
      | None => mret tt
      | Some keys =>
          instructions ← lift (order_instructions transaction);
          parsed_logs ← lift (match parse_logs (ti_log_messages transaction) with
                              | Ok l => Ok l
                              | _ => Panic
                              end);
          for_each (dispatch manager message_id keys (ti_slot transaction)) (zip instructions parsed_logs)
      end
  end.

Definition handle_transaction (manager : ProgramHandlerManager) (data : list (Z * bytes)) : i_method unit :=
  for_each (handle_one_transaction manager) data.

(** The future of the handler is not awaited: it is dropped before it runs. *)
Definition handle_one_account (manager : ProgramHandlerManager) (message : Z * bytes) : i_method unit :=
  let '(_, data) := message in
  match root_as_account_info data with
  | None => mret tt
  | Some account_update =>
      program_id ← lift (unwrap (af_owner account_update));
      parser ← lift (match_program manager program_id);
      match parser with
      | Some p =>
          if responds_to_account p then let _future := handle_account p account_update in mret tt
          else mret tt
      | None => mret tt
      end
  end.

Definition handle_accounts (manager : ProgramHandlerManager) (data : list (Z * bytes)) : i_method unit :=
  for_each (handle_one_account manager) data.
End streams.
