(* ===== verification/ProgramLogsTheorems.v ===== *)
(** * The groups of log lines, and what reaches the handlers *)

From S2P Require Import Prelude Text Solana Gummyroll LeafSchema Database ProgramLogs.

Section logs.
Context `{LogSyntax} `{Base58}.
Abbreviation program_log := (Pubkey * list string * N)%type.

(** A line that starts a top-level invocation, and a line that does not. *)
Definition starts (log : string) (key : Pubkey) : Prop :=
  read_invoke (E:=unit) log = Ok (Some (key, 1%N)).

Definition continues (log : string) : Prop :=
  match read_invoke (E:=unit) log with
  | Ok (Some (_, level)) => level ≠ 1%N
  | Ok None => True
  | _ => False
  end.

(** The groups [groups], each under its line of [heads], are the lines [logs]. *)
Definition grouped (heads : list string) (groups : list program_log) (logs : list string) : Prop :=
  Forall2 (λ h g, starts h g.1.1 ∧ g.2 = 1%N ∧ Forall continues g.1.2) heads groups ∧
  logs = concat (zip_with (λ h g, h :: g.1.2) heads groups).

Lemma last_snoc_set {E} (l : list program_log) x y :
  index_set (E:=E) (l ++ [x]) (N.of_nat (length (l ++ [x]) - 1)) y = Ok (l ++ [y]).
Proof.
  rewrite length_app. cbn [length]. replace (length l + 1 - 1) with (length l) by lia.
  rewrite index_set_lt by (rewrite length_app; simpl; lia). rewrite Nat2N.id. f_equal.
  rewrite insert_app_r_alt, Nat.sub_diag by done. done.
Qed.

Lemma parse_continues acc key lines log :
  continues log →
  parse_log (E:=unit) (acc ++ [(key, lines, 1%N)]) log = Ok (acc ++ [(key, lines ++ [log], 1%N)]).
Proof.
  intros Hc. unfold parse_log, continues in *. destruct (read_invoke log) as [[[k l]|]|e| |]; try done; simpl.
  - rewrite (proj2 (N.eqb_neq _ _)) by done. unfold push_line. rewrite last_snoc. apply last_snoc_set.
  - unfold push_line. rewrite last_snoc. apply last_snoc_set.
Qed.

Lemma parse_lines acc key lines logs :
  Forall continues logs →
  foldM (parse_log (E:=unit)) (acc ++ [(key, lines, 1%N)]) logs = Ok (acc ++ [(key, lines ++ logs, 1%N)]).
Proof.
  intros Hl. revert lines. induction Hl as [|log logs Hc Hl IH]; intros lines; simpl.
  - by rewrite app_nil_r.
  - rewrite parse_continues by done. simpl. rewrite IH. by rewrite <-app_assoc.
Qed.

Lemma parse_groups heads groups logs acc :
  grouped heads groups logs → foldM (parse_log (E:=unit)) acc logs = Ok (acc ++ groups).
Proof.
  intros [Hg ->]. revert acc. induction Hg as [|h [[key lines] level] heads groups (Hs & Hlev & Hl) Hg IH]; intros acc.
  - by rewrite app_nil_r.
  - simpl in *. subst level. cbn [zip_with concat foldM]. cbn [fst snd] in *.
    assert (parse_log (E:=unit) acc h = Ok (acc ++ [(key, [], 1%N)])) as -> by (unfold parse_log; by rewrite Hs).
    cbn [mbind outcome_bind app]. rewrite foldM_app, parse_lines by done. cbn [mbind outcome_bind].
    rewrite IH. by rewrite <-app_assoc.
Qed.

Lemma parse_logs_grouped logs groups :
  foldM (parse_log (E:=unit)) [] logs = Ok groups → ∃ heads, grouped heads groups logs.
Proof.
  revert groups. induction logs as [|log logs IH] using rev_ind; intros groups Hrun.
  { injection Hrun as <-. exists []. by split. }
  rewrite foldM_app in Hrun. apply bind_Ok_inv in Hrun as (gs & Hgs & Hrun).
  destruct (IH _ Hgs) as (heads & Hg & Hlogs). simpl in Hrun. apply bind_Ok_inv in Hrun as (g' & Hlog & [= <-]).
  unfold parse_log in Hlog. apply bind_Ok_inv in Hlog as (cap & Hcap & Hlog).
  assert (continues log → push_line gs log = Ok (E:=unit) g' →
    ∃ heads, grouped heads g' (logs ++ [log])) as Hpush.
  { clear Hlog. rewrite Hlogs. clear Hlogs. intros Hc Hlog. unfold push_line in Hlog.
    destruct gs as [|[[key lines] level] gs' _] using rev_ind; [done|]. clear IH.
    rewrite last_snoc, last_snoc_set in Hlog. injection Hlog as <-.
    apply Forall2_app_inv_r in Hg as (heads1 & heads2 & Hg1 & Hg2 & ->).
    apply Forall2_cons_inv_r in Hg2 as (h & hs & (Hs & Hlev & Hl) & Hnil & ->).
    apply Forall2_nil_inv_r in Hnil as ->. exists (heads1 ++ [h]). simpl in *. split.
    - apply Forall2_app; [done|]. constructor; [|done]. simpl. split; [done|]. split; [done|].
      apply Forall_app. split; [done|by constructor].
    - pose proof (Forall2_length _ _ _ Hg1). rewrite !zip_with_app by done. rewrite !concat_app. simpl.
      rewrite !app_nil_r, <-app_assoc. simpl. done. }
  destruct cap as [[key level]|].
  - destruct (N.eqb_spec level 1) as [->|Hne].
    + injection Hlog as <-. exists (heads ++ [log]). split.
      * apply Forall2_app; [apply Hg|]. by constructor.
      * pose proof (Forall2_length _ _ _ Hg). rewrite zip_with_app by done. by rewrite concat_app, <-Hlogs.
    + refine (Hpush _ Hlog). unfold continues. by rewrite Hcap.
  - refine (Hpush _ Hlog). unfold continues. by rewrite Hcap.
Qed.

Lemma read_invoke_error log e : read_invoke (E:=unit) log ≠ Err e.
Proof.
  unfold read_invoke. destruct (program_invoke log) as [[p l]|]; [|done].
  destruct (bs58_decode p); [|done]. unfold Pubkey_new. by destruct (list_to_array 32 _).
Qed.

(** C38: cutting the log is the inverse of writing it out.  The parser returns some
    groups exactly when the lines are those of the groups, each after the line of
    its invocation: no line is lost, moved or added, and each group starts at a
    top-level invocation of its program and contains none. *)
Theorem parse_logs_roundtrip logs groups :
  parse_logs (Some logs) = Ok groups ↔ ∃ heads, grouped heads groups logs.
Proof.
  split; [apply parse_logs_grouped|]. intros [heads Hg]. apply (parse_groups _ _ _ [] Hg).
Qed.
End logs.

(** ** From the transaction to the handlers *)
Section dispatch.
Context `{LogSyntax} `{Base58} `{Flatbuffers} `{Faults}.

(** What a handler does with one top-level instruction: its own lines, and the
    instructions it invoked. *)
Definition handle_instruction_of (manager : ProgramHandlerManager) (message_id : Z) (keys : list (option bytes))
    (slot : N) (run : Pubkey * CompiledInstruction * option (list IxPair) * list string) : i_method unit :=
  let '(key, instruction, inner_ix, lines) := run in
  match registered_parsers manager !! key with
  | Some p =>
      if responds_to_instruction p
      then _ ← attempt (handle_instruction p (mk_InstructionBundle message_id instruction inner_ix keys lines slot)); mret tt
      else mret tt
  | None => mret tt
  end.

Lemma dispatch_eq manager message_id keys slot key ix inner lines level d :
  dispatch manager message_id keys slot (((Some (vec_to_list key), ix), inner), (key, lines, level)) d =
  handle_instruction_of manager message_id keys slot (key, ix, inner, lines) d.
Proof.
  unfold dispatch, handle_instruction_of, match_program, Pubkey_new. run_method.
  cbn [unwrap]. rewrite bool_decide_true by done. cbn [rust_assert]. cbn beta iota.
  rewrite list_to_array_to_list. cbn. by destruct (registered_parsers manager !! key).
Qed.

(** The instructions that the [i]-th instruction invoked: those of the first entry for
    its index, each with the key of its program. *)
Definition inner_entry (l : list InnerInstructions) (i : nat) : option InnerInstructions :=
  snd <$> list_find (λ entry, ii_index entry = N.of_nat i) l.

Definition inner_of (keys : list (option bytes)) (inner_ix_list : option (list InnerInstructions)) (i : nat) :
    option (list IxPair) :=
  l ← inner_ix_list;
  entry ← inner_entry l i;
  Some ((λ ix, (default None (keys !! N.to_nat (cx_program_id_index ix)), ix)) <$> default [] (ii_instructions entry)).

(** The code finds it as long as the index of the instruction fits its byte. *)
Lemma get_inner_ixs_entry inner i :
  i < 256 → get_inner_ixs inner i = l ← inner; inner_entry l i.
Proof.
  intros Hi. destruct inner as [l|]; [|done]. unfold get_inner_ixs, inner_entry. cbn [mbind option_bind].
  rewrite N.mod_small by lia. induction l as [|entry l IH]; [done|]. rewrite filter_cons. cbn [list_find].
  case_decide; [done|]. rewrite IH. by destruct (list_find _ l) as [[k e]|].
Qed.

(** The indices that the code looks up in the keys are in range. *)
Definition inner_ok (keys : list (option bytes)) (inner_ix_list : option (list InnerInstructions)) : Prop :=
  ∀ l, inner_ix_list = Some l → Forall (λ ixs, ∃ js, ii_instructions ixs = Some js ∧
    Forall (λ ix, N.to_nat (cx_program_id_index ix) < length keys) js) l.

Lemma ix_pair_ok {E} (keys : list (option bytes)) ix :
  N.to_nat (cx_program_id_index ix) < length keys →
  ix_pair (E:=E) keys ix = Ok (default None (keys !! N.to_nat (cx_program_id_index ix)), ix).
Proof.
  intros Hlt. unfold ix_pair. apply lookup_lt_is_Some_2 in Hlt as [k Hk]. rewrite (index_lookup _ _ _ Hk), Hk. done.
Qed.

Lemma order_instruction_ok {E} keys inner acc i ix :
  inner_ok keys inner → i < 256 → N.to_nat (cx_program_id_index ix) < length keys →
  order_instruction (E:=E) keys inner acc (i, ix) =
  Ok (acc ++ [((default None (keys !! N.to_nat (cx_program_id_index ix)), ix), inner_of keys inner i)]).
Proof.
  intros Hin Hi Hix. unfold order_instruction, inner_of. rewrite ix_pair_ok, get_inner_ixs_entry by done. cbn [mbind outcome_bind].
  destruct inner as [l|]; [|done]. cbn [mbind option_bind]. destruct (inner_entry l i) as [x|] eqn:Hx; [|done].
  unfold inner_entry in Hx. apply fmap_Some in Hx as ([k x'] & (Hx%list_elem_of_lookup_2 & _)%list_find_Some & ->). cbn [snd].
  pose proof (Hin l eq_refl) as Hall. rewrite Forall_forall in Hall. destruct (Hall _ Hx) as (js & Hjs & His).
  rewrite Hjs. cbn [unwrap]. cbn [mbind outcome_bind].
  rewrite (foldM_snoc _ (λ ix, (default None (keys !! N.to_nat (cx_program_id_index ix)), ix) : IxPair)).
  - cbn. by rewrite Hjs.
  - intros acc' ix' Hix'. rewrite Forall_forall in His. rewrite ix_pair_ok by by apply His. done.
Qed.

Lemma order_instructions_ok {E} t keys ixs :
  ti_account_keys t = Some keys → ti_outer_instructions t = Some ixs →
  inner_ok keys (ti_inner_instructions t) → length ixs ≤ 256 →
  Forall (λ ix, N.to_nat (cx_program_id_index ix) < length keys) ixs →
  order_instructions (E:=E) t =
  Ok (imap (λ i ix, ((default None (keys !! N.to_nat (cx_program_id_index ix)), ix),
                     inner_of keys (ti_inner_instructions t) i)) ixs).
Proof.
  intros Hk Ho Hin Hlen Hix. unfold order_instructions. rewrite Ho, Hk.
  rewrite (foldM_snoc _ (λ p : nat * CompiledInstruction,
    ((default None (keys !! N.to_nat (cx_program_id_index p.2)), p.2), inner_of keys (ti_inner_instructions t) p.1) : IxPair * option (list IxPair))).
  - rewrite app_nil_l. f_equal. by rewrite fmap_imap.
  - intros acc [i ix] (k & Hk')%list_elem_of_lookup. rewrite list_lookup_imap in Hk'.
    destruct (ixs !! k) as [ix'|] eqn:Hix'; [|done]. injection Hk' as <- <-.
    apply order_instruction_ok; [done|apply lookup_lt_Some in Hix'; cbn; lia|]. rewrite Forall_forall in Hix. apply Hix. by eapply list_elem_of_lookup_2.
Qed.

Lemma for_each_ext {S E A B} (f : A → method S E unit) (g : B → method S E unit) (l1 : list A) (l2 : list B) s :
  Forall2 (λ a b, ∀ s, f a s = g b s) l1 l2 → for_each f l1 s = for_each g l2 s.
Proof.
  intros Hl. revert s. induction Hl as [|a b l1 l2 Hab Hl IH]; intros s; [done|].
  simpl. unfold mbind, method_bind. rewrite Hab. destruct (g b s) as [[]?]; auto.
Qed.

(** C39: each instruction reaches the handler of its program with its own logs.  For
    a transaction of at most 256 top-level instructions, with the key indices in range,
    whose log lines are cut into groups that match its top-level instructions one to
    one - as many, of the same programs in the same order -, the stream runs the
    handler of each program, in order, on the instruction, the instructions it invoked
    - those of the first entry for its index - and the lines of its group. *)
Theorem transaction_reaches_handlers manager message_id data t keys ixs groups (d : db) :
  root_as_transaction_info data = Some t → ti_account_keys t = Some keys →
  ti_outer_instructions t = Some ixs → inner_ok keys (ti_inner_instructions t) → length ixs ≤ 256 →
  parse_logs (ti_log_messages t) = Ok groups →
  Forall2 (λ ix g, keys !! N.to_nat (cx_program_id_index ix) = Some (Some (vec_to_list g.1.1))) ixs groups →
  handle_one_transaction manager (message_id, data) d =
  for_each (handle_instruction_of manager message_id keys (ti_slot t))
    (imap (λ i '(ix, g), (g.1.1, ix, inner_of keys (ti_inner_instructions t) i, g.1.2)) (zip ixs groups)) d.
Proof.
  intros Ht Hk Ho Hin Hlen Hlogs Hall. unfold handle_one_transaction. rewrite Ht, Hk. run_method.
  assert (Forall (λ ix, N.to_nat (cx_program_id_index ix) < length keys) ixs) as Hix.
  { apply (Forall2_Forall_l _ _ _ groups Hall). eapply Forall_true. intros g ix Hg. by eapply lookup_lt_Some. }
  rewrite (order_instructions_ok t keys ixs) by done. cbn beta iota. rewrite Hlogs. cbn beta iota.
  apply for_each_ext. apply Forall2_same_length_lookup. split.
  - rewrite length_zip_with, !length_imap, length_zip_with. done.
  - intros i x y Hx Hy. rewrite lookup_zip_with, list_lookup_imap in Hx.
    rewrite list_lookup_imap, lookup_zip_with in Hy.
    destruct (ixs !! i) as [ix|] eqn:Hi; [|done]. destruct (groups !! i) as [[[key lines] level]|] eqn:Hg; [|done].
    simpl in Hx, Hy. injection Hx as <-. injection Hy as <-.
    rewrite Forall2_lookup in Hall. specialize (Hall i). rewrite Hi, Hg in Hall. inversion Hall as [? ? Hkey|]; subst.
    simpl in Hkey. intros s. rewrite Hkey. exact (dispatch_eq manager message_id keys (ti_slot t) key ix _ lines level s).
Qed.
End dispatch.

(** ** Lines that are not events *)
Section malformed.
Context `{LogSyntax} {T : Type} `{EventDecoder T}.

Lemma handle_event_short data (b : bytes) :
  base64_decode data = Some b → length b < 8 → handle_event (T:=T) data = Panic.
Proof. intros Hd Hl. unfold handle_event. rewrite Hd. unfold split_at. by rewrite decide_False by lia. Qed.

Lemma readable_events_short events data (b : bytes) :
  data ∈ events → base64_decode data = Some b → length b < 8 → readable_events (T:=T) events = Panic.
Proof.
  intros Hin Hd Hl. induction events as [|e events IH]; [by apply not_elem_of_nil in Hin|]. simpl.
  apply elem_of_cons in Hin as [<-|Hin]; [by rewrite (handle_event_short data b)|].
  specialize (IH Hin). unfold handle_event. destruct (base64_decode e) as [b'|]; [|done].
  unfold split_at. case_decide; [|done]. cbn [mbind outcome_bind]. case_decide; [done|].
  destruct (deserialize _); simpl; by rewrite IH.
Qed.
End malformed.

(** A line that carries fewer than eight bytes stops the stream.  When any program
    that an instruction invokes logs such data, the readers of both kinds of events
    panic instead of skipping the line, whatever the other lines hold. *)
Theorem short_data_panics `{LogSyntax} `{EventDecoder ChangeLogEvent} `{EventDecoder LeafSchemaEvent}
    (logs : list string) line data (b : bytes) :
  line ∈ logs → program_data line = Some data → base64_decode data = Some b → length b < 8 →
  get_gummy_roll_events logs = Panic ∧ get_bubblegum_event (T:=LeafSchemaEvent) logs = Panic.
Proof.
  intros Hin Hdata Hb Hl.
  assert (data ∈ omap program_data logs) as Hev by (apply list_elem_of_omap; by exists line).
  assert (filter_events_from_logs logs = Ok (omap program_data logs)) as Hf.
  { unfold filter_events_from_logs. rewrite decide_False; [done|].
    intros Hz%nil_length_inv. rewrite Hz in Hev. by apply not_elem_of_nil in Hev. }
  unfold get_gummy_roll_events, get_bubblegum_event. rewrite Hf.
  rewrite !(readable_events_short _ data b) by done. done.
Qed.
