(* ===== verification/Plerkle.v ===== *)
(** * The validator plugin: [plerkle/src]

    The plugin filters what the validator reports by its selectors, serializes it,
    and spawns for each message a task that sends it over a channel of 32 slots to
    the one worker, which sends it to a message stream.

    The types of the validator's interface are the records of the fields that the
    code reads.  JSON, the environment and the flatbuffers builder are those of
    libraries: [JsonParser], [PluginEnv] and [FlatBufferBuilder].  The tasks and the
    worker run concurrently: [Pipeline] of [PlerkleTheorems] gives their steps. *)

From S2P Require Import Prelude Text Solana Json Messenger ProgramLogs.

(** ** Selectors *)

Record AccountsSelector := mk_AccountsSelector {
  accounts : gset bytes;
  owners : gset bytes;
  select_all_accounts : bool;
}.

Record TransactionSelector := mk_TransactionSelector {
  mentioned_addresses : gset bytes;
  select_all_transactions : bool;
  select_all_vote_transactions : bool;
}.

(** A key of a list of strings. *)
Definition any_key (keys : list string) (l : list string) : bool := existsb (λ key, bool_decide (key ∈ keys)) l.

Section selectors.
Context `{Base58} {E : Type}.

(** [.map(|key| bs58::decode(key).into_vec().unwrap()).collect()]. *)
Definition decode_keys (l : list string) : outcome E (gset bytes) :=
  foldM (λ s key, b ← unwrap (bs58_decode key); Ok ({[b]} ∪ s)) ∅ l.

Definition AccountsSelector_default : AccountsSelector := mk_AccountsSelector ∅ ∅ true.

Definition AccountsSelector_new (accounts owners : list string) : outcome E AccountsSelector :=
  if any_key ["*"] accounts then Ok (mk_AccountsSelector ∅ ∅ true)
  else
    accounts ← decode_keys accounts;
    owners ← decode_keys owners;
    Ok (mk_AccountsSelector accounts owners false).

Definition is_account_selected (self : AccountsSelector) (account owner : bytes) : bool :=
  select_all_accounts self || bool_decide (account ∈ accounts self) || bool_decide (owner ∈ owners self).

Definition AccountsSelector_is_enabled (self : AccountsSelector) : bool :=
  select_all_accounts self || negb (bool_decide (accounts self = ∅)) || negb (bool_decide (owners self = ∅)).

Definition TransactionSelector_default : TransactionSelector := mk_TransactionSelector ∅ false false.

Definition TransactionSelector_new (mentioned : list string) : outcome E TransactionSelector :=
  if any_key ["*"; "all"] mentioned then Ok (mk_TransactionSelector ∅ true true)
  else if any_key ["all_votes"] mentioned then Ok (mk_TransactionSelector ∅ false true)
  else
    mentioned_addresses ← decode_keys mentioned;
    Ok (mk_TransactionSelector mentioned_addresses false false).

Definition TransactionSelector_is_enabled (self : TransactionSelector) : bool :=
  select_all_transactions self || select_all_vote_transactions self
  || negb (bool_decide (mentioned_addresses self = ∅)).

Definition is_transaction_selected (self : TransactionSelector) (is_vote : bool) (mentioned : list Pubkey) : bool :=
  if negb (TransactionSelector_is_enabled self) then false
  else if select_all_transactions self || (select_all_vote_transactions self && is_vote) then true
  else existsb (λ address, bool_decide (vec_to_list address ∈ mentioned_addresses self)) mentioned.
End selectors.

(** ** The configuration *)

(** [as_str().unwrap()] of each value of an array; no array gives no string. *)
Definition strings_of {E} (v : json) : outcome E (list string) :=
  match v with
  | JArray l => foldM (λ acc v, s ← as_str v; Ok (acc ++ [s])) [] l
  | _ => Ok []
  end.

Definition create_accounts_selector_from_config `{Base58} {E} (config : json) : outcome E AccountsSelector :=
  match json_index config "accounts_selector" with
  | JNull => Ok AccountsSelector_default
  | accounts_selector =>
      accounts ← strings_of (json_index accounts_selector "accounts");
      owners ← strings_of (json_index accounts_selector "owners");
      AccountsSelector_new accounts owners
  end.

Definition create_transaction_selector_from_config `{Base58} {E} (config : json) :
    outcome E TransactionSelector :=
  match json_index config "transaction_selector" with
  | JNull => Ok TransactionSelector_default
  | transaction_selector =>
      accounts ← strings_of (json_index transaction_selector "mentions");
      TransactionSelector_new accounts
  end.

(** ** What the validator reports *)

Record ReplicaAccountInfo := mk_ReplicaAccountInfo {
  ra_pubkey : bytes;
  ra_lamports : N;
  ra_owner : bytes;
  ra_executable : bool;
  ra_rent_epoch : N;
  ra_data : bytes;
  ra_write_version : N;
}.

(** The compiled instruction of a message. *)
Record compiled_instruction := mk_compiled_instruction {
  ci_program_id_index : N;
  ci_accounts : list N;
  ci_data : bytes;
}.

(** The fields of the transaction, its message and its status. *)
Record ReplicaTransactionInfo := mk_ReplicaTransactionInfo {
  rt_is_vote : bool;
  rt_account_keys : list Pubkey;
  rt_instructions : list compiled_instruction;
  rt_is_err : bool;
  rt_log_messages : option (list string);
  rt_inner_instructions : option (list (N * list compiled_instruction));
}.

Inductive SlotStatus := Processed | Rooted | Confirmed.

Inductive RewardType := Fee | Rent | Staking | Voting.

Record Reward := mk_Reward {
  rw_pubkey : string;
  rw_lamports : Z;
  rw_post_balance : N;
  rw_reward_type : option RewardType;
  rw_commission : option N;
}.

Record ReplicaBlockInfo := mk_ReplicaBlockInfo {
  rb_slot : N;
  rb_blockhash : string;
  rb_rewards : list Reward;
  rb_block_time : option Z;
  rb_block_height : option N;
}.

(** ** Serialization ([serializer.rs])

    A flatbuffers table is the record of its fields, as in [ProgramLogs]. *)

Inductive FbStatus := FbProcessed | FbRooted | FbConfirmed.
Inductive FbRewardType := FbFee | FbRent | FbStaking | FbVoting.

Record SlotStatusInfo := mk_SlotStatusInfo {
  ss_slot : N;
  ss_parent : option N;
  ss_status : FbStatus;
}.

Record FbReward := mk_FbReward {
  fr_pubkey : option bytes;
  fr_lamports : Z;
  fr_post_balance : N;
  fr_reward_type : option FbRewardType;
  fr_commission : option N;
}.

Record BlockInfo := mk_BlockInfo {
  bi_slot : N;
  bi_blockhash : option string;
  bi_rewards : option (list FbReward);
  bi_block_time : option Z;
  bi_block_height : option N;
}.

(** The bytes of a finished buffer whose root is a table. *)
Class FlatBufferBuilder := {
  finish_account_info : AccountInfoFb → bytes;
  finish_slot_status : SlotStatusInfo → bytes;
  finish_transaction_info : TransactionInfo → bytes;
  finish_block_info : BlockInfo → bytes;
}.

(** [if v.len() > 0 { Some(..) } else { None }]. *)
Definition some_if_any {A B} (f : A → B) (l : list A) : option (list B) :=
  if decide (0 < length l) then Some (f <$> l) else None.

Definition account_table (account : ReplicaAccountInfo) (slot : N) (is_startup : bool) : AccountInfoFb :=
  mk_AccountInfoFb (Some (ra_pubkey account)) (ra_lamports account) (Some (ra_owner account))
    (ra_executable account) (ra_rent_epoch account) (Some (ra_data account)) (ra_write_version account)
    slot is_startup.

Definition fb_status (status : SlotStatus) : FbStatus :=
  match status with
  | Confirmed => FbConfirmed
  | Processed => FbProcessed
  | Rooted => FbRooted
  end.

Definition slot_status_table (slot : N) (parent : option N) (status : SlotStatus) : SlotStatusInfo :=
  mk_SlotStatusInfo slot parent (fb_status status).

Definition fb_instruction (ix : compiled_instruction) : CompiledInstruction :=
  mk_CompiledInstruction (ci_program_id_index ix) (Some (ci_accounts ix)) (Some (ci_data ix)).

Definition fb_inner_instructions (inner : N * list compiled_instruction) : InnerInstructions :=
  mk_InnerInstructions inner.1 (Some (fb_instruction <$> inner.2)).

Definition transaction_table (transaction_info : ReplicaTransactionInfo) (slot : N) : TransactionInfo :=
  mk_TransactionInfo (rt_is_vote transaction_info)
    (some_if_any (λ key : Pubkey, Some (vec_to_list key)) (rt_account_keys transaction_info))
    (rt_log_messages transaction_info)
    (option_map (map fb_inner_instructions) (rt_inner_instructions transaction_info))
    (some_if_any fb_instruction (rt_instructions transaction_info))
    slot.

Definition fb_reward_type (t : RewardType) : FbRewardType :=
  match t with
  | Fee => FbFee
  | Rent => FbRent
  | Staking => FbStaking
  | Voting => FbVoting
  end.

Definition fb_reward (reward : Reward) : FbReward :=
  mk_FbReward (Some (String.list_byte_of_string (rw_pubkey reward))) (rw_lamports reward)
    (rw_post_balance reward) (fb_reward_type <$> rw_reward_type reward) (rw_commission reward).

Definition block_table (block_info : ReplicaBlockInfo) : BlockInfo :=
  mk_BlockInfo (rb_slot block_info) (Some (rb_blockhash block_info))
    (some_if_any fb_reward (rb_rewards block_info)) (rb_block_time block_info) (rb_block_height block_info).

Section serializer.
Context `{FlatBufferBuilder}.

Definition serialize_account (account : ReplicaAccountInfo) (slot : N) (is_startup : bool) : bytes :=
  finish_account_info (account_table account slot is_startup).

Definition serialize_slot_status (slot : N) (parent : option N) (status : SlotStatus) : bytes :=
  finish_slot_status (slot_status_table slot parent status).

Definition serialize_transaction (transaction_info : ReplicaTransactionInfo) (slot : N) : bytes :=
  finish_transaction_info (transaction_table transaction_info slot).

Definition serialize_block (block_info : ReplicaBlockInfo) : bytes :=
  finish_block_info (block_table block_info).
End serializer.

(** ** The plugin ([geyser_plugin_nft.rs]) *)

Inductive PlerkleError :=
  | GeneralPluginConfigError (msg : string)
  | DataStoreConnectionError (msg : string)
  | DataSchemaError (msg : string)
  | PlerkleConfigurationError (msg : string)
  | EventError
  | EventStreamError (msg : string).

(** The errors of the validator's interface that the plugin returns. *)
Inductive GeyserPluginError :=
  | ConfigFileOpenError
  | ConfigFileReadError
  | Custom (e : PlerkleError).

Record SerializedData := mk_SerializedData {
  sd_stream : string;
  sd_builder : bytes;
}.

Record Plerkle := mk_Plerkle {
  runtime : bool;
  accounts_selector : option AccountsSelector;
  transaction_selector : option TransactionSelector;
  sender : bool;
}.

Record PluginConfig := mk_PluginConfig {
  messenger_config : MessengerConfig;
  config_reload_ttl : option Z;
}.

(** What [on_load] reads of its surroundings: the contents of the configuration
    file, whether the runtime can be built, and the environment. *)
Record PluginEnv := mk_PluginEnv {
  env_contents : option string;
  env_runtime : bool;
  env_config : option PluginConfig;
}.

Class JsonParser := json_from_str : string → option json.

(** The worker: not spawned, connecting, serving with its messenger, or gone. *)
Inductive worker_state (M : Type) :=
  | NoWorker
  | Starting (config : MessengerConfig)
  | Running (m : M)
  | Stopped.
Arguments NoWorker {M}.
Arguments Starting {M} config.
Arguments Running {M} m.
Arguments Stopped {M}.

(** The plugin with the tasks it spawned, the channel and the worker. *)
Record system (W : Type) `{Messenger W} := mk_system {
  plugin : Plerkle;
  spawned : list SerializedData;
  channel : list SerializedData;
  worker : worker_state messenger;
  server : W;
}.
Arguments mk_system {W _}.
Arguments plugin {W _}.
Arguments spawned {W _}.
Arguments channel {W _}.
Arguments worker {W _}.
Arguments server {W _}.

Definition Plerkle_new : Plerkle := mk_Plerkle false None None false.

Section plugin.
Context {W : Type} `{Messenger W} `{Base58} `{JsonParser} `{FlatBufferBuilder}.

Abbreviation p_method := (method (system W) GeyserPluginError).

Definition set_plugin (p : Plerkle) (s : system W) : system W :=
  mk_system p (spawned s) (channel s) (worker s) (server s).

Definition update_plugin (f : Plerkle → Plerkle) : p_method unit := modify (λ s, set_plugin (f (plugin s)) s).

(** [runtime.spawn] of the task that sends [data]. *)
Definition spawn_send (data : SerializedData) : p_method unit :=
  modify (λ s, mk_system (plugin s) (spawned s ++ [data]) (channel s) (worker s) (server s)).

Definition spawn_worker (config : MessengerConfig) : p_method unit :=
  modify (λ s, mk_system (plugin s) (spawned s) (channel s) (Starting config) (server s)).

Definition get_runtime : p_method unit :=
  self ← gets plugin;
  if runtime self then mret tt
  else lift (Err (Custom (GeneralPluginConfigError "No runtime contained in struct"))).

Definition get_sender_clone : p_method unit :=
  self ← gets plugin;
  if sender self then mret tt
  else lift (Err (Custom (GeneralPluginConfigError "No Sender channel contained in struct"))).

Definition txn_contains_program (keys : list Pubkey) (program : Pubkey) : bool :=
  existsb (λ p, bool_decide (p = program)) keys.

Definition on_load (env : PluginEnv) : p_method unit :=
  contents ← lift (ok_or (env_contents env) ConfigFileOpenError);
  config ← lift (ok_or (json_from_str contents) ConfigFileReadError);
  accounts ← lift (create_accounts_selector_from_config config);
  transactions ← lift (create_transaction_selector_from_config config);
  update_plugin (λ p, mk_Plerkle (runtime p) (Some accounts) (Some transactions) (sender p));;
  (if env_runtime env then mret tt else lift (Err ConfigFileReadError));;
  update_plugin (λ p, mk_Plerkle (runtime p) (accounts_selector p) (transaction_selector p) true);;
  config ← lift (ok_or (env_config env) ConfigFileReadError);
  spawn_worker (messenger_config config);;
  update_plugin (λ p, mk_Plerkle true (accounts_selector p) (transaction_selector p) (sender p)).

(** A message: runtime and sender, then the task. *)
Definition send_to (stream : string) (data : bytes) : p_method unit :=
  get_runtime;; get_sender_clone;; spawn_send (mk_SerializedData stream data).

Definition update_account (account : ReplicaAccountInfo) (slot : N) (is_startup : bool) : p_method unit :=
  self ← gets plugin;
  match accounts_selector self with
  | Some selector =>
      if is_account_selected selector (ra_pubkey account) (ra_owner account)
      then send_to ACCOUNT_STREAM (serialize_account account slot is_startup) else mret tt
  | None => mret tt
  end.

Definition update_slot_status (slot : N) (parent : option N) (status : SlotStatus) : p_method unit :=
  send_to SLOT_STREAM (serialize_slot_status slot parent status).

Definition notify_transaction (transaction_info : ReplicaTransactionInfo) (slot : N) : p_method unit :=
  if rt_is_vote transaction_info || rt_is_err transaction_info then mret tt
  else
    self ← gets plugin;
    match transaction_selector self with
    | Some selector =>
        if is_transaction_selected selector (rt_is_vote transaction_info) (rt_account_keys transaction_info)
        then send_to TRANSACTION_STREAM (serialize_transaction transaction_info slot) else mret tt
    | None => mret tt
    end.

Definition notify_block_metadata (block_info : ReplicaBlockInfo) : p_method unit :=
  send_to BLOCK_STREAM (serialize_block block_info).

Definition on_unload : p_method unit := mret tt.
Definition notify_end_of_startup : p_method unit := mret tt.

Definition account_data_notifications_enabled (self : Plerkle) : bool :=
  match accounts_selector self with Some selector => AccountsSelector_is_enabled selector | None => false end.

Definition transaction_notifications_enabled (self : Plerkle) : bool :=
  match transaction_selector self with Some selector => TransactionSelector_is_enabled selector | None => false end.

(** What the worker does before its loop: the four streams and their buffers. *)
Definition add_streams : method (messenger * W) MessengerError unit :=
  for_each add_stream [ACCOUNT_STREAM; SLOT_STREAM; TRANSACTION_STREAM; BLOCK_STREAM];;
  for_each (λ k, set_buffer_size k 5000) [ACCOUNT_STREAM; SLOT_STREAM; TRANSACTION_STREAM; BLOCK_STREAM].

(** The worker of a configuration: serving, or gone when there is no connection. *)
Definition start_worker (config : MessengerConfig) (w : W) : worker_state messenger * W :=
  match messenger_new config w with
  | (Ok m, w) =>
      match add_streams (m, w) with
      | (Ok _, (m, w)) => (Running m, w)
      | (_, (_, w)) => (Stopped, w)
      end
  | (_, w) => (Stopped, w)
  end.

(** A turn of its loop: the result of the send is ignored. *)
Definition serve (m : messenger) (data : SerializedData) (w : W) : worker_state messenger * W :=
  match send (sd_stream data) (sd_builder data) (m, w) with
  | (Ok _, (m, w)) | (Err _, (m, w)) => (Running m, w)
  | (_, (_, w)) => (Stopped, w)
  end.
End plugin.
