(* ===== verification/FlatBuffers.v ===== *)
(** * Tables of flatbuffers: what the generated code uses of the library

    A table holds values under even offsets of its vtable.  The generated code writes
    a table slot by slot, reads its slots by offset and type, and lists for the
    verifier what it expects.  The [flatbuffers] crate is a parameter: a table, once
    written, never changes, so an offset into the buffer ([WIPOffset]) stands for the
    object it points to. *)

From S2P Require Import Prelude.

(** The builders, accessors and verifiers of the generated code, to unfold. *)
Create HintDb tables.

(** The types of the slots; an enum of the schema is its integer. *)
Inductive field_type := TBool | TU8 | TI8 | TU64 | TI64 | TBytes | TString | TStrings | TTables.

(** A value of a slot, over the type of tables. *)
Definition slot_value (T : Type) (ty : field_type) : Type :=
  match ty with
  | TBool => bool
  | TU8 | TU64 => N
  | TI8 | TI64 => Z
  | TBytes => bytes
  | TString => string
  | TStrings => list string
  | TTables => list T
  end.

(** The values of the machine types. *)
Definition fits {T} (ty : field_type) : slot_value T ty → Prop :=
  match ty with
  | TU8 => λ n, (n < 2 ^ 8)%N
  | TU64 => λ n, (n < 2 ^ 64)%N
  | TI8 => λ z, (- 2 ^ 7 ≤ z < 2 ^ 7)%Z
  | TI64 => λ z, (- 2 ^ 63 ≤ z < 2 ^ 63)%Z
  | _ => λ _, True
  end.

(** [visit_field::<T>(name, offset, required)]; for a vector of tables, with what the
    verifier of these visits. *)
Inductive visit := Visit (name : string) (vt : N) (ty : field_type) (inner : list visit) (required : bool).

Definition visit_required (v : visit) : bool := let '(Visit _ _ _ _ r) := v in r.

Class FlatBuffersLibrary := {
  fb_table : Type;
  start_table : fb_table;
  push_slot_always : ∀ ty, N → slot_value fb_table ty → fb_table → fb_table;
  push_slot : ∀ ty, N → slot_value fb_table ty → slot_value fb_table ty → fb_table → fb_table;
  table_get : ∀ ty, N → fb_table → option (slot_value fb_table ty);
  fbb_finish : fb_table → bytes;
  fb_root : list visit → bytes → option fb_table;
}.

Section builder.
Context `{FlatBuffersLibrary}.

(** [if let Some(x) = arg { builder.add(x); }]. *)
Definition add_if {A} (add : A → fb_table → fb_table) (arg : option A) (builder : fb_table) : fb_table :=
  match arg with Some x => add x builder | None => builder end.

(** [get(offset, Some(default)).unwrap()]. *)
Definition get_or (ty : field_type) (vt : N) (d : slot_value fb_table ty) (t : fb_table) : slot_value fb_table ty :=
  default d (table_get ty vt t).
End builder.

(** What the library promises.  [push_slot] leaves out a value that is the default;
    a slot that is not set reads as absent; a buffer that was finished from a table
    that conforms passes the verifier, within the limits it sets on the depth, the
    number of tables and the size of a buffer. *)
Class FlatBuffersLaws `{FlatBuffersLibrary} := {
  conforms : list visit → fb_table → Prop;
  verifiable : bytes → Prop;
  get_start : ∀ ty vt, table_get ty vt start_table = None;
  get_pushed : ∀ ty vt x t, fits ty x → table_get ty vt (push_slot_always ty vt x t) = Some x;
  get_other : ∀ ty vt x t ty' vt', vt ≠ vt' →
    table_get ty' vt' (push_slot_always ty vt x t) = table_get ty' vt' t;
  push_default : ∀ ty vt d t, push_slot ty vt d d t = t;
  push_other : ∀ ty vt x d t, x ≠ d → push_slot ty vt x d t = push_slot_always ty vt x t;
  conforms_start : ∀ fields, Forall (λ v, visit_required v = false) fields → conforms fields start_table;
  conforms_push : ∀ fields name vt ty inner required x t,
    Visit name vt ty inner required ∈ fields → fits ty x →
    (match ty as ty return slot_value fb_table ty → Prop with
     | TTables => λ l, Forall (conforms inner) l
     | _ => λ _, True
     end x) →
    conforms fields t → conforms fields (push_slot_always ty vt x t);
  root_finish : ∀ fields t, conforms fields t → verifiable (fbb_finish t) → fb_root fields (fbb_finish t) = Some t;
}.
