(* ===== verification/TransactionTable.v ===== *)
(** * The tables of a transaction: [plerkle_serialization/src/transaction_info_generated.rs]

    For each table the offsets of its slots, its builder, its accessors and what its
    verifier visits; the record of its fields is the one of [ProgramLogs]. *)

From S2P Require Import Prelude Solana Database ProgramLogs FlatBuffers.

Section tables.
Context `{FlatBuffersLibrary}.

(** ** [Pubkey] *)
Definition Pubkey_VT_KEY : N := 4.

Record PubkeyArgs := mk_PubkeyArgs { pka_key : option bytes }.
Definition PubkeyArgs_default : PubkeyArgs := mk_PubkeyArgs None.

Definition PubkeyBuilder_new : fb_table := start_table.
Definition PubkeyBuilder_add_key (key : bytes) (b : fb_table) : fb_table :=
  push_slot_always TBytes Pubkey_VT_KEY key b.

Definition Pubkey_create (args : PubkeyArgs) : fb_table :=
  let builder := PubkeyBuilder_new in
  let builder := add_if PubkeyBuilder_add_key (pka_key args) builder in
  builder.

Definition Pubkey_key (t : fb_table) : option bytes := table_get TBytes Pubkey_VT_KEY t.

Definition Pubkey_verifier : list visit := [Visit "key" Pubkey_VT_KEY TBytes [] false].

(** ** [CompiledInstruction] *)
Definition CompiledInstruction_VT_PROGRAM_ID_INDEX : N := 4.
Definition CompiledInstruction_VT_ACCOUNTS : N := 6.
Definition CompiledInstruction_VT_DATA : N := 8.

Record CompiledInstructionArgs := mk_CompiledInstructionArgs {
  cia_program_id_index : N;
  cia_accounts : option bytes;
  cia_data : option bytes;
}.
Definition CompiledInstructionArgs_default : CompiledInstructionArgs := mk_CompiledInstructionArgs 0 None None.

Definition CompiledInstructionBuilder_new : fb_table := start_table.
Definition CompiledInstructionBuilder_add_program_id_index (program_id_index : N) (b : fb_table) : fb_table :=
  push_slot TU8 CompiledInstruction_VT_PROGRAM_ID_INDEX program_id_index 0%N b.
Definition CompiledInstructionBuilder_add_accounts (accounts : bytes) (b : fb_table) : fb_table :=
  push_slot_always TBytes CompiledInstruction_VT_ACCOUNTS accounts b.
Definition CompiledInstructionBuilder_add_data (data : bytes) (b : fb_table) : fb_table :=
  push_slot_always TBytes CompiledInstruction_VT_DATA data b.

Definition CompiledInstruction_create (args : CompiledInstructionArgs) : fb_table :=
  let builder := CompiledInstructionBuilder_new in
  let builder := add_if CompiledInstructionBuilder_add_data (cia_data args) builder in
  let builder := add_if CompiledInstructionBuilder_add_accounts (cia_accounts args) builder in
  let builder := CompiledInstructionBuilder_add_program_id_index (cia_program_id_index args) builder in
  builder.

Definition CompiledInstruction_program_id_index (t : fb_table) : N :=
  get_or TU8 CompiledInstruction_VT_PROGRAM_ID_INDEX 0%N t.
Definition CompiledInstruction_accounts (t : fb_table) : option bytes :=
  table_get TBytes CompiledInstruction_VT_ACCOUNTS t.
Definition CompiledInstruction_data (t : fb_table) : option bytes := table_get TBytes CompiledInstruction_VT_DATA t.

Definition CompiledInstruction_verifier : list visit :=
  [Visit "program_id_index" CompiledInstruction_VT_PROGRAM_ID_INDEX TU8 [] false;
   Visit "accounts" CompiledInstruction_VT_ACCOUNTS TBytes [] false;
   Visit "data" CompiledInstruction_VT_DATA TBytes [] false].

(** ** [InnerInstructions] *)
Definition InnerInstructions_VT_INDEX : N := 4.
Definition InnerInstructions_VT_INSTRUCTIONS : N := 6.

Record InnerInstructionsArgs := mk_InnerInstructionsArgs {
  iia_index : N;
  iia_instructions : option (list fb_table);
}.
Definition InnerInstructionsArgs_default : InnerInstructionsArgs := mk_InnerInstructionsArgs 0 None.

Definition InnerInstructionsBuilder_new : fb_table := start_table.
Definition InnerInstructionsBuilder_add_index (index : N) (b : fb_table) : fb_table :=
  push_slot TU8 InnerInstructions_VT_INDEX index 0%N b.
Definition InnerInstructionsBuilder_add_instructions (instructions : list fb_table) (b : fb_table) : fb_table :=
  push_slot_always TTables InnerInstructions_VT_INSTRUCTIONS instructions b.

Definition InnerInstructions_create (args : InnerInstructionsArgs) : fb_table :=
  let builder := InnerInstructionsBuilder_new in
  let builder := add_if InnerInstructionsBuilder_add_instructions (iia_instructions args) builder in
  let builder := InnerInstructionsBuilder_add_index (iia_index args) builder in
  builder.

Definition InnerInstructions_index (t : fb_table) : N := get_or TU8 InnerInstructions_VT_INDEX 0%N t.
Definition InnerInstructions_instructions (t : fb_table) : option (list fb_table) :=
  table_get TTables InnerInstructions_VT_INSTRUCTIONS t.

Definition InnerInstructions_verifier : list visit :=
  [Visit "index" InnerInstructions_VT_INDEX TU8 [] false;
   Visit "instructions" InnerInstructions_VT_INSTRUCTIONS TTables CompiledInstruction_verifier false].

(** ** [TransactionInfo] *)
Definition TransactionInfo_VT_IS_VOTE : N := 4.
Definition TransactionInfo_VT_ACCOUNT_KEYS : N := 6.
Definition TransactionInfo_VT_LOG_MESSAGES : N := 8.
Definition TransactionInfo_VT_INNER_INSTRUCTIONS : N := 10.
Definition TransactionInfo_VT_OUTER_INSTRUCTIONS : N := 12.
Definition TransactionInfo_VT_SLOT : N := 14.

Record TransactionInfoArgs := mk_TransactionInfoArgs {
  tia_is_vote : bool;
  tia_account_keys : option (list fb_table);
  tia_log_messages : option (list string);
  tia_inner_instructions : option (list fb_table);
  tia_outer_instructions : option (list fb_table);
  tia_slot : N;
}.
Definition TransactionInfoArgs_default : TransactionInfoArgs :=
  mk_TransactionInfoArgs false None None None None 0.

Definition TransactionInfoBuilder_new : fb_table := start_table.
Definition TransactionInfoBuilder_add_is_vote (is_vote : bool) (b : fb_table) : fb_table :=
  push_slot TBool TransactionInfo_VT_IS_VOTE is_vote false b.
Definition TransactionInfoBuilder_add_account_keys (account_keys : list fb_table) (b : fb_table) : fb_table :=
  push_slot_always TTables TransactionInfo_VT_ACCOUNT_KEYS account_keys b.
Definition TransactionInfoBuilder_add_log_messages (log_messages : list string) (b : fb_table) : fb_table :=
  push_slot_always TStrings TransactionInfo_VT_LOG_MESSAGES log_messages b.
Definition TransactionInfoBuilder_add_inner_instructions (inner_instructions : list fb_table) (b : fb_table) :
    fb_table :=
  push_slot_always TTables TransactionInfo_VT_INNER_INSTRUCTIONS inner_instructions b.
Definition TransactionInfoBuilder_add_outer_instructions (outer_instructions : list fb_table) (b : fb_table) :
    fb_table :=
  push_slot_always TTables TransactionInfo_VT_OUTER_INSTRUCTIONS outer_instructions b.
Definition TransactionInfoBuilder_add_slot (slot : N) (b : fb_table) : fb_table :=
  push_slot TU64 TransactionInfo_VT_SLOT slot 0%N b.

Definition TransactionInfo_create (args : TransactionInfoArgs) : fb_table :=
  let builder := TransactionInfoBuilder_new in
  let builder := TransactionInfoBuilder_add_slot (tia_slot args) builder in
  let builder := add_if TransactionInfoBuilder_add_outer_instructions (tia_outer_instructions args) builder in
  let builder := add_if TransactionInfoBuilder_add_inner_instructions (tia_inner_instructions args) builder in
  let builder := add_if TransactionInfoBuilder_add_log_messages (tia_log_messages args) builder in
  let builder := add_if TransactionInfoBuilder_add_account_keys (tia_account_keys args) builder in
  let builder := TransactionInfoBuilder_add_is_vote (tia_is_vote args) builder in
  builder.

Definition TransactionInfo_is_vote (t : fb_table) : bool := get_or TBool TransactionInfo_VT_IS_VOTE false t.
Definition TransactionInfo_account_keys (t : fb_table) : option (list fb_table) :=
  table_get TTables TransactionInfo_VT_ACCOUNT_KEYS t.
Definition TransactionInfo_log_messages (t : fb_table) : option (list string) :=
  table_get TStrings TransactionInfo_VT_LOG_MESSAGES t.
Definition TransactionInfo_inner_instructions (t : fb_table) : option (list fb_table) :=
  table_get TTables TransactionInfo_VT_INNER_INSTRUCTIONS t.
Definition TransactionInfo_outer_instructions (t : fb_table) : option (list fb_table) :=
  table_get TTables TransactionInfo_VT_OUTER_INSTRUCTIONS t.
Definition TransactionInfo_slot (t : fb_table) : N := get_or TU64 TransactionInfo_VT_SLOT 0%N t.

Definition TransactionInfo_verifier : list visit :=
  [Visit "is_vote" TransactionInfo_VT_IS_VOTE TBool [] false;
   Visit "account_keys" TransactionInfo_VT_ACCOUNT_KEYS TTables Pubkey_verifier false;
   Visit "log_messages" TransactionInfo_VT_LOG_MESSAGES TStrings [] false;
   Visit "inner_instructions" TransactionInfo_VT_INNER_INSTRUCTIONS TTables InnerInstructions_verifier false;
   Visit "outer_instructions" TransactionInfo_VT_OUTER_INSTRUCTIONS TTables CompiledInstruction_verifier false;
   Visit "slot" TransactionInfo_VT_SLOT TU64 [] false].

(** [root_as_transaction_info] and [finish_transaction_info_buffer]. *)
Definition root_as_transaction_table (buf : bytes) : option fb_table := fb_root TransactionInfo_verifier buf.
Definition finish_transaction_info_buffer (root : fb_table) : bytes := fbb_finish root.
End tables.

#[export] Hint Unfold PubkeyBuilder_new PubkeyBuilder_add_key Pubkey_create Pubkey_key
  Pubkey_verifier CompiledInstructionBuilder_new CompiledInstructionBuilder_add_program_id_index
  CompiledInstructionBuilder_add_accounts CompiledInstructionBuilder_add_data
  CompiledInstruction_create CompiledInstruction_program_id_index CompiledInstruction_accounts
  CompiledInstruction_data CompiledInstruction_verifier InnerInstructionsBuilder_new
  InnerInstructionsBuilder_add_index InnerInstructionsBuilder_add_instructions
  InnerInstructions_create InnerInstructions_index InnerInstructions_instructions
  InnerInstructions_verifier TransactionInfoBuilder_new TransactionInfoBuilder_add_is_vote
  TransactionInfoBuilder_add_account_keys TransactionInfoBuilder_add_log_messages
  TransactionInfoBuilder_add_inner_instructions TransactionInfoBuilder_add_outer_instructions
  TransactionInfoBuilder_add_slot TransactionInfo_create TransactionInfo_is_vote
  TransactionInfo_account_keys TransactionInfo_log_messages TransactionInfo_inner_instructions
  TransactionInfo_outer_instructions TransactionInfo_slot TransactionInfo_verifier : tables.
