(* ===== verification/ReplicaTables.v ===== *)
(** * The tables of accounts, slots and blocks: [plerkle_serialization/src]

    As in [TransactionTable], for [account_info_generated.rs],
    [slot_status_info_generated.rs] and [block_info_generated.rs]. *)

From S2P Require Import Prelude Solana Database ProgramLogs FlatBuffers.

(** [Status] and [RewardType]: transparent integers with named constants. *)
Definition Status_Processed : Z := 0.
Definition Status_Rooted : Z := 1.
Definition Status_Confirmed : Z := 2.
Definition Status_ENUM_MIN : Z := 0.
Definition Status_ENUM_MAX : Z := 2.
Definition Status_ENUM_VALUES : list Z := [Status_Processed; Status_Rooted; Status_Confirmed].

Definition Status_variant_name (self : Z) : option string :=
  if decide (self = Status_Processed) then Some "Processed"
  else if decide (self = Status_Rooted) then Some "Rooted"
  else if decide (self = Status_Confirmed) then Some "Confirmed"
  else None.

Definition RewardType_Fee : N := 0.
Definition RewardType_Rent : N := 1.
Definition RewardType_Staking : N := 2.
Definition RewardType_Voting : N := 3.
Definition RewardType_ENUM_MIN : N := 0.
Definition RewardType_ENUM_MAX : N := 3.
Definition RewardType_ENUM_VALUES : list N := [RewardType_Fee; RewardType_Rent; RewardType_Staking; RewardType_Voting].

Definition RewardType_variant_name (self : N) : option string :=
  if decide (self = RewardType_Fee) then Some "Fee"
  else if decide (self = RewardType_Rent) then Some "Rent"
  else if decide (self = RewardType_Staking) then Some "Staking"
  else if decide (self = RewardType_Voting) then Some "Voting"
  else None.

Section tables.
Context `{FlatBuffersLibrary}.

(** ** [AccountInfo] *)
Definition AccountInfo_VT_PUBKEY : N := 4.
Definition AccountInfo_VT_LAMPORTS : N := 6.
Definition AccountInfo_VT_OWNER : N := 8.
Definition AccountInfo_VT_EXECUTABLE : N := 10.
Definition AccountInfo_VT_RENT_EPOCH : N := 12.
Definition AccountInfo_VT_DATA : N := 14.
Definition AccountInfo_VT_WRITE_VERSION : N := 16.
Definition AccountInfo_VT_SLOT : N := 18.
Definition AccountInfo_VT_IS_STARTUP : N := 20.

Record AccountInfoArgs := mk_AccountInfoArgs {
  aia_pubkey : option bytes;
  aia_lamports : N;
  aia_owner : option bytes;
  aia_executable : bool;
  aia_rent_epoch : N;
  aia_data : option bytes;
  aia_write_version : N;
  aia_slot : N;
  aia_is_startup : bool;
}.
Definition AccountInfoArgs_default : AccountInfoArgs :=
  mk_AccountInfoArgs None 0%N None false 0%N None 0%N 0%N false.

Definition AccountInfoBuilder_new : fb_table := start_table.
Definition AccountInfoBuilder_add_pubkey (pubkey : bytes) (b : fb_table) : fb_table :=
  push_slot_always TBytes AccountInfo_VT_PUBKEY pubkey b.
Definition AccountInfoBuilder_add_lamports (lamports : N) (b : fb_table) : fb_table :=
  push_slot TU64 AccountInfo_VT_LAMPORTS lamports 0%N b.
Definition AccountInfoBuilder_add_owner (owner : bytes) (b : fb_table) : fb_table :=
  push_slot_always TBytes AccountInfo_VT_OWNER owner b.
Definition AccountInfoBuilder_add_executable (executable : bool) (b : fb_table) : fb_table :=
  push_slot TBool AccountInfo_VT_EXECUTABLE executable false b.
Definition AccountInfoBuilder_add_rent_epoch (rent_epoch : N) (b : fb_table) : fb_table :=
  push_slot TU64 AccountInfo_VT_RENT_EPOCH rent_epoch 0%N b.
Definition AccountInfoBuilder_add_data (data : bytes) (b : fb_table) : fb_table :=
  push_slot_always TBytes AccountInfo_VT_DATA data b.
Definition AccountInfoBuilder_add_write_version (write_version : N) (b : fb_table) : fb_table :=
  push_slot TU64 AccountInfo_VT_WRITE_VERSION write_version 0%N b.
Definition AccountInfoBuilder_add_slot (slot : N) (b : fb_table) : fb_table :=
  push_slot TU64 AccountInfo_VT_SLOT slot 0%N b.
Definition AccountInfoBuilder_add_is_startup (is_startup : bool) (b : fb_table) : fb_table :=
  push_slot TBool AccountInfo_VT_IS_STARTUP is_startup false b.

Definition AccountInfo_create (args : AccountInfoArgs) : fb_table :=
  let builder := AccountInfoBuilder_new in
  let builder := AccountInfoBuilder_add_slot (aia_slot args) builder in
  let builder := AccountInfoBuilder_add_write_version (aia_write_version args) builder in
  let builder := AccountInfoBuilder_add_rent_epoch (aia_rent_epoch args) builder in
  let builder := AccountInfoBuilder_add_lamports (aia_lamports args) builder in
  let builder := add_if AccountInfoBuilder_add_data (aia_data args) builder in
  let builder := add_if AccountInfoBuilder_add_owner (aia_owner args) builder in
  let builder := add_if AccountInfoBuilder_add_pubkey (aia_pubkey args) builder in
  let builder := AccountInfoBuilder_add_is_startup (aia_is_startup args) builder in
  let builder := AccountInfoBuilder_add_executable (aia_executable args) builder in
  builder.

Definition AccountInfo_pubkey (t : fb_table) : option bytes := table_get TBytes AccountInfo_VT_PUBKEY t.
Definition AccountInfo_lamports (t : fb_table) : N := get_or TU64 AccountInfo_VT_LAMPORTS 0%N t.
Definition AccountInfo_owner (t : fb_table) : option bytes := table_get TBytes AccountInfo_VT_OWNER t.
Definition AccountInfo_executable (t : fb_table) : bool := get_or TBool AccountInfo_VT_EXECUTABLE false t.
Definition AccountInfo_rent_epoch (t : fb_table) : N := get_or TU64 AccountInfo_VT_RENT_EPOCH 0%N t.
Definition AccountInfo_data (t : fb_table) : option bytes := table_get TBytes AccountInfo_VT_DATA t.
Definition AccountInfo_write_version (t : fb_table) : N := get_or TU64 AccountInfo_VT_WRITE_VERSION 0%N t.
Definition AccountInfo_slot (t : fb_table) : N := get_or TU64 AccountInfo_VT_SLOT 0%N t.
Definition AccountInfo_is_startup (t : fb_table) : bool := get_or TBool AccountInfo_VT_IS_STARTUP false t.

Definition AccountInfo_verifier : list visit :=
  [Visit "pubkey" AccountInfo_VT_PUBKEY TBytes [] false;
   Visit "lamports" AccountInfo_VT_LAMPORTS TU64 [] false;
   Visit "owner" AccountInfo_VT_OWNER TBytes [] false;
   Visit "executable" AccountInfo_VT_EXECUTABLE TBool [] false;
   Visit "rent_epoch" AccountInfo_VT_RENT_EPOCH TU64 [] false;
   Visit "data" AccountInfo_VT_DATA TBytes [] false;
   Visit "write_version" AccountInfo_VT_WRITE_VERSION TU64 [] false;
   Visit "slot" AccountInfo_VT_SLOT TU64 [] false;
   Visit "is_startup" AccountInfo_VT_IS_STARTUP TBool [] false].

Definition root_as_account_table (buf : bytes) : option fb_table := fb_root AccountInfo_verifier buf.
Definition finish_account_info_buffer (root : fb_table) : bytes := fbb_finish root.

(** ** [SlotStatusInfo] *)
Definition SlotStatusInfo_VT_SLOT : N := 4.
Definition SlotStatusInfo_VT_PARENT : N := 6.
Definition SlotStatusInfo_VT_STATUS : N := 8.

Record SlotStatusInfoArgs := mk_SlotStatusInfoArgs {
  ssa_slot : N;
  ssa_parent : option N;
  ssa_status : Z;
}.
Definition SlotStatusInfoArgs_default : SlotStatusInfoArgs :=
  mk_SlotStatusInfoArgs 0%N None Status_Processed.

Definition SlotStatusInfoBuilder_new : fb_table := start_table.
Definition SlotStatusInfoBuilder_add_slot (slot : N) (b : fb_table) : fb_table :=
  push_slot TU64 SlotStatusInfo_VT_SLOT slot 0%N b.
Definition SlotStatusInfoBuilder_add_parent (parent : N) (b : fb_table) : fb_table :=
  push_slot_always TU64 SlotStatusInfo_VT_PARENT parent b.
Definition SlotStatusInfoBuilder_add_status (status : Z) (b : fb_table) : fb_table :=
  push_slot TI8 SlotStatusInfo_VT_STATUS status Status_Processed b.

Definition SlotStatusInfo_create (args : SlotStatusInfoArgs) : fb_table :=
  let builder := SlotStatusInfoBuilder_new in
  let builder := add_if SlotStatusInfoBuilder_add_parent (ssa_parent args) builder in
  let builder := SlotStatusInfoBuilder_add_slot (ssa_slot args) builder in
  let builder := SlotStatusInfoBuilder_add_status (ssa_status args) builder in
  builder.

Definition SlotStatusInfo_slot (t : fb_table) : N := get_or TU64 SlotStatusInfo_VT_SLOT 0%N t.
Definition SlotStatusInfo_parent (t : fb_table) : option N := table_get TU64 SlotStatusInfo_VT_PARENT t.
Definition SlotStatusInfo_status (t : fb_table) : Z := get_or TI8 SlotStatusInfo_VT_STATUS Status_Processed t.

Definition SlotStatusInfo_verifier : list visit :=
  [Visit "slot" SlotStatusInfo_VT_SLOT TU64 [] false;
   Visit "parent" SlotStatusInfo_VT_PARENT TU64 [] false;
   Visit "status" SlotStatusInfo_VT_STATUS TI8 [] false].

Definition root_as_slot_status_info (buf : bytes) : option fb_table := fb_root SlotStatusInfo_verifier buf.
Definition finish_slot_status_info_buffer (root : fb_table) : bytes := fbb_finish root.

(** ** [Reward] *)
Definition Reward_VT_PUBKEY : N := 4.
Definition Reward_VT_LAMPORTS : N := 6.
Definition Reward_VT_POST_BALANCE : N := 8.
Definition Reward_VT_REWARD_TYPE : N := 10.
Definition Reward_VT_COMMISSION : N := 12.

Record RewardArgs := mk_RewardArgs {
  rwa_pubkey : option bytes;
  rwa_lamports : Z;
  rwa_post_balance : N;
  rwa_reward_type : option N;
  rwa_commission : option N;
}.
Definition RewardArgs_default : RewardArgs :=
  mk_RewardArgs None 0%Z 0%N None None.

Definition RewardBuilder_new : fb_table := start_table.
Definition RewardBuilder_add_pubkey (pubkey : bytes) (b : fb_table) : fb_table :=
  push_slot_always TBytes Reward_VT_PUBKEY pubkey b.
Definition RewardBuilder_add_lamports (lamports : Z) (b : fb_table) : fb_table :=
  push_slot TI64 Reward_VT_LAMPORTS lamports 0%Z b.
Definition RewardBuilder_add_post_balance (post_balance : N) (b : fb_table) : fb_table :=
  push_slot TU64 Reward_VT_POST_BALANCE post_balance 0%N b.
Definition RewardBuilder_add_reward_type (reward_type : N) (b : fb_table) : fb_table :=
  push_slot_always TU8 Reward_VT_REWARD_TYPE reward_type b.
Definition RewardBuilder_add_commission (commission : N) (b : fb_table) : fb_table :=
  push_slot_always TU8 Reward_VT_COMMISSION commission b.

Definition Reward_create (args : RewardArgs) : fb_table :=
  let builder := RewardBuilder_new in
  let builder := RewardBuilder_add_post_balance (rwa_post_balance args) builder in
  let builder := RewardBuilder_add_lamports (rwa_lamports args) builder in
  let builder := add_if RewardBuilder_add_pubkey (rwa_pubkey args) builder in
  let builder := add_if RewardBuilder_add_commission (rwa_commission args) builder in
  let builder := add_if RewardBuilder_add_reward_type (rwa_reward_type args) builder in
  builder.

Definition Reward_pubkey (t : fb_table) : option bytes := table_get TBytes Reward_VT_PUBKEY t.
Definition Reward_lamports (t : fb_table) : Z := get_or TI64 Reward_VT_LAMPORTS 0%Z t.
Definition Reward_post_balance (t : fb_table) : N := get_or TU64 Reward_VT_POST_BALANCE 0%N t.
Definition Reward_reward_type (t : fb_table) : option N := table_get TU8 Reward_VT_REWARD_TYPE t.
Definition Reward_commission (t : fb_table) : option N := table_get TU8 Reward_VT_COMMISSION t.

Definition Reward_verifier : list visit :=
  [Visit "pubkey" Reward_VT_PUBKEY TBytes [] false;
   Visit "lamports" Reward_VT_LAMPORTS TI64 [] false;
   Visit "post_balance" Reward_VT_POST_BALANCE TU64 [] false;
   Visit "reward_type" Reward_VT_REWARD_TYPE TU8 [] false;
   Visit "commission" Reward_VT_COMMISSION TU8 [] false].

(** ** [BlockInfo] *)
Definition BlockInfo_VT_SLOT : N := 4.
Definition BlockInfo_VT_BLOCKHASH : N := 6.
Definition BlockInfo_VT_REWARDS : N := 8.
Definition BlockInfo_VT_BLOCK_TIME : N := 10.
Definition BlockInfo_VT_BLOCK_HEIGHT : N := 12.

Record BlockInfoArgs := mk_BlockInfoArgs {
  bia_slot : N;
  bia_blockhash : option string;
  bia_rewards : option (list fb_table);
  bia_block_time : option Z;
  bia_block_height : option N;
}.
Definition BlockInfoArgs_default : BlockInfoArgs :=
  mk_BlockInfoArgs 0%N None None None None.

Definition BlockInfoBuilder_new : fb_table := start_table.
Definition BlockInfoBuilder_add_slot (slot : N) (b : fb_table) : fb_table :=
  push_slot TU64 BlockInfo_VT_SLOT slot 0%N b.
Definition BlockInfoBuilder_add_blockhash (blockhash : string) (b : fb_table) : fb_table :=
  push_slot_always TString BlockInfo_VT_BLOCKHASH blockhash b.
Definition BlockInfoBuilder_add_rewards (rewards : list fb_table) (b : fb_table) : fb_table :=
  push_slot_always TTables BlockInfo_VT_REWARDS rewards b.
Definition BlockInfoBuilder_add_block_time (block_time : Z) (b : fb_table) : fb_table :=
  push_slot_always TI64 BlockInfo_VT_BLOCK_TIME block_time b.
Definition BlockInfoBuilder_add_block_height (block_height : N) (b : fb_table) : fb_table :=
  push_slot_always TU64 BlockInfo_VT_BLOCK_HEIGHT block_height b.

Definition BlockInfo_create (args : BlockInfoArgs) : fb_table :=
  let builder := BlockInfoBuilder_new in
  let builder := add_if BlockInfoBuilder_add_block_height (bia_block_height args) builder in
  let builder := add_if BlockInfoBuilder_add_block_time (bia_block_time args) builder in
  let builder := BlockInfoBuilder_add_slot (bia_slot args) builder in
  let builder := add_if BlockInfoBuilder_add_rewards (bia_rewards args) builder in
  let builder := add_if BlockInfoBuilder_add_blockhash (bia_blockhash args) builder in
  builder.

Definition BlockInfo_slot (t : fb_table) : N := get_or TU64 BlockInfo_VT_SLOT 0%N t.
Definition BlockInfo_blockhash (t : fb_table) : option string := table_get TString BlockInfo_VT_BLOCKHASH t.
Definition BlockInfo_rewards (t : fb_table) : option (list fb_table) := table_get TTables BlockInfo_VT_REWARDS t.
Definition BlockInfo_block_time (t : fb_table) : option Z := table_get TI64 BlockInfo_VT_BLOCK_TIME t.
Definition BlockInfo_block_height (t : fb_table) : option N := table_get TU64 BlockInfo_VT_BLOCK_HEIGHT t.

Definition BlockInfo_verifier : list visit :=
  [Visit "slot" BlockInfo_VT_SLOT TU64 [] false;
   Visit "blockhash" BlockInfo_VT_BLOCKHASH TString [] false;
   Visit "rewards" BlockInfo_VT_REWARDS TTables Reward_verifier false;
   Visit "block_time" BlockInfo_VT_BLOCK_TIME TI64 [] false;
   Visit "block_height" BlockInfo_VT_BLOCK_HEIGHT TU64 [] false].

Definition root_as_block_info (buf : bytes) : option fb_table := fb_root BlockInfo_verifier buf.
Definition finish_block_info_buffer (root : fb_table) : bytes := fbb_finish root.
End tables.

#[export] Hint Unfold AccountInfoBuilder_new AccountInfoBuilder_add_pubkey
  AccountInfoBuilder_add_lamports AccountInfoBuilder_add_owner AccountInfoBuilder_add_executable
  AccountInfoBuilder_add_rent_epoch AccountInfoBuilder_add_data AccountInfoBuilder_add_write_version
  AccountInfoBuilder_add_slot AccountInfoBuilder_add_is_startup AccountInfo_create AccountInfo_pubkey
  AccountInfo_lamports AccountInfo_owner AccountInfo_executable AccountInfo_rent_epoch
  AccountInfo_data AccountInfo_write_version AccountInfo_slot AccountInfo_is_startup
  AccountInfo_verifier SlotStatusInfoBuilder_new SlotStatusInfoBuilder_add_slot
  SlotStatusInfoBuilder_add_parent SlotStatusInfoBuilder_add_status SlotStatusInfo_create
  SlotStatusInfo_slot SlotStatusInfo_parent SlotStatusInfo_status SlotStatusInfo_verifier
  RewardBuilder_new RewardBuilder_add_pubkey RewardBuilder_add_lamports
  RewardBuilder_add_post_balance RewardBuilder_add_reward_type RewardBuilder_add_commission
  Reward_create Reward_pubkey Reward_lamports Reward_post_balance Reward_reward_type
  Reward_commission Reward_verifier BlockInfoBuilder_new BlockInfoBuilder_add_slot
  BlockInfoBuilder_add_blockhash BlockInfoBuilder_add_rewards BlockInfoBuilder_add_block_time
  BlockInfoBuilder_add_block_height BlockInfo_create BlockInfo_slot BlockInfo_blockhash
  BlockInfo_rewards BlockInfo_block_time BlockInfo_block_height BlockInfo_verifier : tables.
