(* ===== verification/Pipeline.v ===== *)
(** * From the validator to the ingester

    The steps of the running plugin: the validator's calls, the spawned tasks in
    any order, the worker; and the loops of the ingester over its streams
    ([service_transaction_stream], [service_account_stream]).  [run] is the
    history of a plugin since it was loaded; a [recorder] sees what it sends. *)

From S2P Require Import Prelude Text Solana Json Messenger Database ProgramLogs Plerkle.

(** The calls of the validator once the plugin is loaded. *)
Inductive callback :=
  | UpdateAccount (account : ReplicaAccountInfo) (slot : N) (is_startup : bool)
  | UpdateSlotStatus (slot : N) (parent : option N) (status : SlotStatus)
  | NotifyTransaction (transaction_info : ReplicaTransactionInfo) (slot : N)
  | NotifyBlockMetadata (block_info : ReplicaBlockInfo)
  | NotifyEndOfStartup
  | OnUnload.

Section pipeline.
Context {W : Type} `{Messenger W} `{Base58} `{JsonParser} `{FlatBufferBuilder}.
Implicit Types (s : system W) (p : Plerkle).

Definition call (c : callback) : method (system W) GeyserPluginError unit :=
  match c with
  | UpdateAccount account slot is_startup => update_account account slot is_startup
  | UpdateSlotStatus slot parent status => update_slot_status slot parent status
  | NotifyTransaction transaction_info slot => notify_transaction transaction_info slot
  | NotifyBlockMetadata block_info => notify_block_metadata block_info
  | NotifyEndOfStartup => notify_end_of_startup
  | OnUnload => on_unload
  end.

(** The message that a call is to lead to. *)
Definition selected p (c : callback) : option SerializedData :=
  match c with
  | UpdateAccount account slot is_startup =>
      selector ← accounts_selector p;
      if is_account_selected selector (ra_pubkey account) (ra_owner account)
      then Some (mk_SerializedData ACCOUNT_STREAM (serialize_account account slot is_startup)) else None
  | UpdateSlotStatus slot parent status =>
      Some (mk_SerializedData SLOT_STREAM (serialize_slot_status slot parent status))
  | NotifyTransaction transaction_info slot =>
      selector ← transaction_selector p;
      if negb (rt_is_vote transaction_info) && negb (rt_is_err transaction_info) &&
         is_transaction_selected selector false (rt_account_keys transaction_info)
      then Some (mk_SerializedData TRANSACTION_STREAM (serialize_transaction transaction_info slot)) else None
  | NotifyBlockMetadata block_info =>
      Some (mk_SerializedData BLOCK_STREAM (serialize_block block_info))
  | NotifyEndOfStartup | OnUnload => None
  end.

(** ** Steps

    A spawned task waits for a free slot of the channel and then puts its message
    there; when the receiver is gone its send fails at once. *)
Inductive internal : system W → system W → Prop :=
  | step_connect s config wk w :
      worker s = Starting config → start_worker config (server s) = (wk, w) →
      internal s (mk_system (plugin s) (spawned s) (channel s) wk w)
  | step_deliver s i d :
      spawned s !! i = Some d → length (channel s) < 32 → worker s ≠ Stopped →
      internal s (mk_system (plugin s) (delete i (spawned s)) (channel s ++ [d]) (worker s) (server s))
  | step_drop s i d :
      spawned s !! i = Some d → worker s = Stopped →
      internal s (mk_system (plugin s) (delete i (spawned s)) (channel s) (worker s) (server s))
  | step_serve s m d rest wk w :
      worker s = Running m → channel s = d :: rest → serve m d (server s) = (wk, w) →
      internal s (mk_system (plugin s) (spawned s) rest wk w).

(** A run, with the validator's calls. *)
Inductive run : system W → list callback → system W → Prop :=
  | run_refl s : run s [] s
  | run_call s cs s' c r s'' : run s cs s' → call c s' = (r, s'') → run s (cs ++ [c]) s''
  | run_internal s cs s' s'' : run s cs s' → internal s' s'' → run s cs s''.

(** The messages that calls are to lead to. *)
Definition accepted p (cs : list callback) : list SerializedData := omap (selected p) cs.

Definition fresh (w : W) : system W := mk_system Plerkle_new [] [] NoWorker w.

Definition loaded (env : PluginEnv) (w : W) s : Prop := on_load env (fresh w) = (Ok tt, s).

(** What is still on its way; a delivery moves a message from the tasks to the
    channel. *)
Definition in_flight s : list SerializedData := channel s ++ spawned s.

Definition work s : nat :=
  2 * length (spawned s) + length (channel s) + match worker s with Starting _ => 1 | _ => 0 end.
End pipeline.

(** ** A recorder

    The plugin is generic in its messenger.  Over any messenger there is one that
    keeps a record of the calls of [send] it gets, each with what it returned: what
    the plugin sends is what a recorder sees. *)
Definition observed (W : Type) : Type := W * list (SerializedData * outcome MessengerError unit).

Section recorder.
Context {W : Type} `{Messenger W}.

(** A call that is not recorded. *)
Definition unrecorded {M E A} (f : method (M * W) E A) : method (M * observed W) E A := λ '(m, (w, sends)),
  let '(r, (m, w)) := f (m, w) in (r, (m, (w, sends))).

Definition recorded_send (stream : string) (data : bytes) : method (messenger * observed W) MessengerError unit :=
  λ '(m, (w, sends)),
  let '(r, (m, w)) := send stream data (m, w) in (r, (m, (w, sends ++ [(mk_SerializedData stream data, r)]))).

#[export] Instance recorder : Messenger (observed W) := {|
  messenger := messenger;
  messenger_new config := λ '(w, sends), let '(r, w) := messenger_new config w in (r, (w, sends));
  add_stream k := unrecorded (add_stream k);
  set_buffer_size k n := unrecorded (set_buffer_size k n);
  send := recorded_send;
  recv k := unrecorded (recv k);
|}.
End recorder.

(** What the messenger of a system was called to send. *)
Definition sends `{Messenger W} (s : system (observed W)) : list (SerializedData * outcome MessengerError unit) :=
  (server s).2.

Definition sent `{Messenger W} (s : system (observed W)) : list SerializedData := (sends s).*1.

(** The message stream took every message. *)
Definition all_sent_ok `{Messenger W} (s : system (observed W)) : Prop := Forall (λ e, e.2 = Ok tt) (sends s).

(** ** The streams of the ingester *)
Section ingester.
Context {W : Type} `{Messenger W} `{LogSyntax} `{Base58} `{Flatbuffers}.

(** A turn of [service_transaction_stream]: a failed [recv] is tried again. *)
Definition service_turn (stream : string) (handle : list (Z * bytes) → i_method unit) :
    method ((messenger * W) * db) MessengerError unit := λ '(mw, d),
  match recv stream mw with
  | (Ok data, mw) => let '(r, d) := attempt (handle data) d in (r;; Ok tt, (mw, d))
  | (Err _, mw) => (Ok tt, (mw, d))
  | (Panic, mw) => (Panic, (mw, d))
  | (OutOfFuel, mw) => (OutOfFuel, (mw, d))
  end.

Definition service_transaction_stream (manager : ProgramHandlerManager) : method ((messenger * W) * db) MessengerError unit :=
  service_turn TRANSACTION_STREAM (handle_transaction manager).

Definition service_account_stream (manager : ProgramHandlerManager) : method ((messenger * W) * db) MessengerError unit :=
  service_turn ACCOUNT_STREAM (handle_accounts manager).
End ingester.
