(* ===== verification/PlerkleTheorems.v ===== *)
(** * The plugin delivers what it selects

    Its selectors, its calls, and the history of a loaded plugin: however the
    tasks are scheduled, the messenger is called once for every selected message and
    for nothing else, and the plugin comes to rest with nothing left. *)

From S2P Require Import Prelude Text Solana Json Messenger Database ProgramLogs Plerkle Pipeline.

Section selectors.
Context `{Base58} {E : Type}.

Lemma any_key_spec keys l : any_key keys l = true ↔ ∃ key : string, key ∈ l ∧ key ∈ keys.
Proof.
  unfold any_key. rewrite existsb_exists. split.
  - intros (key & Hin & Hk%bool_decide_eq_true). exists key. by rewrite list_elem_of_In.
  - intros (key & Hin & Hk). exists key. rewrite <-list_elem_of_In. split; [done|]. by apply bool_decide_eq_true.
Qed.

Lemma decode_keys_spec l s :
  decode_keys (E:=E) l = Ok s →
  (∀ key : string, key ∈ l → is_Some (bs58_decode key)) ∧ ∀ b : bytes, b ∈ s ↔ ∃ key : string, key ∈ l ∧ bs58_decode key = Some b.
Proof.
  unfold decode_keys. assert (∀ s0 s : gset bytes, foldM (E:=E) (λ s (key : string), b ← unwrap (bs58_decode key); Ok ({[b]} ∪ s)) s0 l = Ok s →
    (∀ key : string, key ∈ l → is_Some (bs58_decode key)) ∧
    ∀ b : bytes, b ∈ s ↔ b ∈ s0 ∨ ∃ key : string, key ∈ l ∧ bs58_decode key = Some b) as Hgen.
  { clear s. induction l as [|key l IH]; intros s0 s; cbn [foldM].
    - intros [= <-]. split; [intros key Hin; by apply not_elem_of_nil in Hin|]. intros b. split; [by left|].
      intros [?|(key & Hin & _)]; [done|by apply not_elem_of_nil in Hin].
    - destruct (bs58_decode key) as [b0|] eqn:Hkey; [|done]. cbn [unwrap mbind outcome_bind]. intros Hrun.
      destruct (IH _ _ Hrun) as [Hall Hmem]. split.
      + intros key' [->|Hin]%elem_of_cons; [by rewrite Hkey|by apply Hall].
      + intros b. rewrite Hmem. set_solver. }
  intros Hrun. destruct (Hgen ∅ s Hrun) as [Hall Hmem]. split; [done|]. intros b. rewrite Hmem. set_solver.
Qed.
End selectors.

(** [run_method] for the methods of the plugin. *)
Ltac run_plugin := unfold gets, update_plugin, spawn_send, spawn_worker; run_method.

Section plugin.
Context {W : Type} `{Messenger W} `{Base58} `{JsonParser} `{FlatBufferBuilder}.
Implicit Types (s : system W) (p : Plerkle).

Lemma send_to_ok s stream data :
  runtime (plugin s) = true → sender (plugin s) = true →
  send_to stream data s =
    (Ok tt, mk_system (plugin s) (spawned s ++ [mk_SerializedData stream data]) (channel s) (worker s) (server s)).
Proof. intros Hr Hs. unfold send_to, get_runtime, get_sender_clone. run_plugin. by rewrite Hr, Hs. Qed.

(** A call of a loaded plugin spawns the task of its message, if it has one. *)
Lemma call_ok s c :
  runtime (plugin s) = true → sender (plugin s) = true →
  call c s = (Ok tt, mk_system (plugin s) (spawned s ++ option_list (selected (plugin s) c))
                       (channel s) (worker s) (server s)).
Proof.
  intros Hr Hs. destruct c as [a slot st|slot par st|t slot|b| |]; cbn [call selected].
  - unfold update_account. run_plugin. destruct (accounts_selector (plugin s)) as [sel|]; cbn [mbind option_bind].
    + destruct (is_account_selected _ _ _); [by apply send_to_ok|]. destruct s; cbn. by rewrite app_nil_r.
    + destruct s; cbn. by rewrite app_nil_r.
  - by apply send_to_ok.
  - unfold notify_transaction. destruct (rt_is_vote t) eqn:Hv, (rt_is_err t) eqn:He; cbn [orb negb andb];
      try (destruct (transaction_selector (plugin s)), s; cbn; by rewrite app_nil_r).
    run_plugin. destruct (transaction_selector (plugin s)) as [sel|]; cbn [mbind option_bind].
    + destruct (is_transaction_selected _ _ _); [by apply send_to_ok|]. destruct s; cbn. by rewrite app_nil_r.
    + destruct s; cbn. by rewrite app_nil_r.
  - by apply send_to_ok.
  - destruct s; cbn. by rewrite app_nil_r.
  - destruct s; cbn. by rewrite app_nil_r.
Qed.

(** What a successful [on_load] leaves. *)
Lemma loaded_inv env w s :
  loaded env w s → runtime (plugin s) = true ∧ sender (plugin s) = true ∧ spawned s = [] ∧ channel s = [] ∧
    server s = w ∧ ∃ config, worker s = Starting config.
Proof.
  unfold loaded, on_load, fresh. run_plugin.
  destruct (env_contents env) as [contents|]; [|done]. cbn [ok_or].
  destruct (json_from_str contents) as [config|]; [|done]. cbn [ok_or].
  destruct (create_accounts_selector_from_config config); try done.
  destruct (create_transaction_selector_from_config config); try done.
  destruct (env_runtime env); [|done]. destruct (env_config env) as [pc|]; [|done].
  cbn. intros [= <-]. repeat split; try done. by eexists.
Qed.

Lemma internal_plugin s s' : internal s s' → plugin s' = plugin s.
Proof. by destruct 1. Qed.

Lemma accepted_app p cs1 cs2 : accepted p (cs1 ++ cs2) = accepted p cs1 ++ accepted p cs2.
Proof. apply omap_app. Qed.

Lemma delete_perm {A} (l : list A) i x : l !! i = Some x → l ≡ₚ x :: delete i l.
Proof. apply delete_Permutation. Qed.

Lemma start_worker_not_stopped config w wk w' :
  start_worker (W:=W) config w = (wk, w') → wk = Stopped ∨ ∃ m, wk = Running m.
Proof.
  unfold start_worker. destruct (messenger_new _ _) as [[m|e| |] w1]; try (intros [= <- <-]; by left).
  destruct (add_streams _) as [[[]|e| |] [m' w2]]; intros [= <- <-]; try (by left). right. by eexists.
Qed.

(** The plugin of a run is the one that was loaded. *)
Lemma run_plugin_kept env w s0 cs s :
  loaded env w s0 → run s0 cs s → plugin s = plugin s0 ∧ runtime (plugin s) = true ∧ sender (plugin s) = true.
Proof.
  intros Hload Hrun. apply loaded_inv in Hload as (Hr & Hs & _).
  induction Hrun as [s0|s0 cs s1 c r s2 _ IH Hcall|s0 cs s1 s2 _ IH Hint]; [done|..].
  - destruct (IH Hr Hs) as (Hp & Hr' & Hs'). rewrite (call_ok s1 c) in Hcall by done. injection Hcall as <- <-. done.
  - rewrite (internal_plugin _ _ Hint). by apply IH.
Qed.

(** Every internal step is work done. *)
Lemma internal_work s s' : internal s s' → work s' < work s.
Proof.
  destruct 1 as [s config wk w Hwk Hst|s i d Hd Hfull Hwk|s i d Hd Hwk|s m d rest wk w Hwk Hch Hserve];
    unfold work; cbn [spawned channel worker].
  - rewrite Hwk. destruct (start_worker_not_stopped _ _ _ _ Hst) as [->|[m ->]]; lia.
  - pose proof (lookup_lt_Some _ _ _ Hd). rewrite length_delete, length_app by (by eexists). simpl. lia.
  - pose proof (lookup_lt_Some _ _ _ Hd). rewrite length_delete by (by eexists). lia.
  - rewrite Hwk, Hch. unfold serve in Hserve. simpl.
    destruct (send _ _ _) as [[[]|e| |] [m' w']]; injection Hserve as <- <-; lia.
Qed.

Lemma internal_runs_end n s s' : nsteps internal n s s' → n + work s' ≤ work s.
Proof. induction 1 as [|n s s1 s2 Hstep _ IH]; [lia|]. apply internal_work in Hstep. lia. Qed.

Lemma run_nsteps s0 cs n s s' : run s0 cs s → nsteps internal n s s' → run s0 cs s'.
Proof. intros Hrun. induction 1 as [|n s s1 s2 Hstep _ IH]; [done|]. apply IH. by eapply run_internal. Qed.

(** A plugin that can do nothing has nothing left to do. *)
Lemma rest_is_empty s :
  worker s ≠ NoWorker → (∀ s', ¬ internal s s') → spawned s = [] ∧ (worker s ≠ Stopped → channel s = []).
Proof.
  intros Hwk Hrest. destruct (worker s) as [|config|m|] eqn:Hw; [done| | |].
  - destruct (start_worker config (server s)) as [wk w] eqn:Hst. exfalso. eapply Hrest. by eapply step_connect.
  - destruct (channel s) as [|d rest] eqn:Hch.
    + destruct (spawned s) as [|d rest] eqn:Hsp; [done|]. exfalso. eapply Hrest.
      apply (step_deliver s 0 d); [by rewrite Hsp|by rewrite Hch; simpl; lia|by rewrite Hw].
    + destruct (serve m d (server s)) as [wk w] eqn:Hserve. exfalso. eapply Hrest. by eapply step_serve.
  - destruct (spawned s) as [|d rest] eqn:Hsp; [done|]. exfalso. eapply Hrest.
    apply (step_drop s 0 d); [by rewrite Hsp|done].
Qed.

(** Which transactions reach the message stream.  With the selector made from
    the addresses of the configuration, [notify_transaction] spawns the task of a
    transaction exactly when it is no vote, did not fail, and the configuration
    has a wildcard or, without the word [all_votes], an address that it mentions.
    In particular a configuration of [all_votes] selects no transaction: the
    votes it is for are dropped before the selector is asked. *)
Theorem transaction_filter s mentions sel t slot :
  runtime (plugin s) = true → sender (plugin s) = true →
  TransactionSelector_new (E:=GeyserPluginError) mentions = Ok sel → transaction_selector (plugin s) = Some sel →
  ∃ b : bool, notify_transaction t slot s =
    (Ok tt, if b then (mk_system (plugin s)
                        (spawned s ++ [mk_SerializedData TRANSACTION_STREAM (serialize_transaction t slot)])
                        (channel s) (worker s) (server s)) else s) ∧
  (b = true ↔ rt_is_vote t = false ∧ rt_is_err t = false ∧
    ("*" ∈ mentions ∨ "all" ∈ mentions ∨
     ("all_votes" ∉ mentions ∧ ∃ key address, key ∈ mentions ∧ address ∈ rt_account_keys t ∧
        bs58_decode key = Some (vec_to_list address)))).
Proof.
  intros Hr Hs Hnew Hsel. exists (bool_decide (is_Some (selected (plugin s) (NotifyTransaction t slot)))). split.
  { change (notify_transaction t slot s) with (call (NotifyTransaction t slot) s). rewrite (call_ok s) by done.
    cbn [selected]. rewrite Hsel. cbn [mbind option_bind]. destruct (_ && _); [done|].
    destruct s; cbn. by rewrite app_nil_r. }
  rewrite bool_decide_eq_true. cbn [selected]. rewrite Hsel. cbn [mbind option_bind].
  assert (is_transaction_selected sel false (rt_account_keys t) = true ↔
    ("*" ∈ mentions ∨ "all" ∈ mentions ∨
     ("all_votes" ∉ mentions ∧ ∃ key address, key ∈ mentions ∧ address ∈ rt_account_keys t ∧
        bs58_decode key = Some (vec_to_list address)))) as Hiff.
  { revert Hnew. unfold TransactionSelector_new. destruct (any_key ["*"; "all"] mentions) eqn:Hwild.
    { intros [= <-]. apply any_key_spec in Hwild as (key & Hin & Hk). cbn. split; [|done]. intros _.
      apply elem_of_cons in Hk as [->|Hk]; [by left|]. apply list_elem_of_singleton in Hk as ->. by right; left. }
    assert ("*" ∉ mentions ∧ "all" ∉ mentions) as [Hstar Hall].
    { split; intros Hin; (assert (any_key ["*"; "all"] mentions = true) as Ht; [|congruence]);
        apply any_key_spec; eexists; (split; [exact Hin|set_solver]). }
    destruct (any_key ["all_votes"] mentions) eqn:Hvotes.
    { intros [= <-]. apply any_key_spec in Hvotes as (key & Hin & ->%list_elem_of_singleton). cbn.
      split; [|naive_solver]. rewrite existsb_exists. intros (a & _ & Ha%bool_decide_eq_true). set_solver. }
    assert ("all_votes" ∉ mentions) as Hnv.
    { intros Hin. assert (any_key ["all_votes"] mentions = true) as Ht; [|congruence].
      apply any_key_spec. eexists; split; [exact Hin|set_solver]. }
    destruct (decode_keys mentions) as [keys|e| |] eqn:Hdec; try done. intros [= <-].
    destruct (decode_keys_spec _ _ Hdec) as [_ Hmem].
    unfold is_transaction_selected, TransactionSelector_is_enabled. cbn.
    assert (existsb (λ address : Pubkey, bool_decide (vec_to_list address ∈ keys)) (rt_account_keys t) = true ↔
      ∃ key address, key ∈ mentions ∧ address ∈ rt_account_keys t ∧ bs58_decode key = Some (vec_to_list address)) as Hex.
    { rewrite existsb_exists. split.
      - intros (a & Ha & (key & Hin & Hk)%bool_decide_eq_true%Hmem). exists key, a. by apply list_elem_of_In in Ha.
      - intros (key & a & Hin & Ha & Hk). exists a. rewrite <-list_elem_of_In. split; [done|].
        apply bool_decide_eq_true, Hmem. by exists key. }
    destruct (decide (keys = ∅)) as [->|Hne].
    - rewrite bool_decide_true by done. cbn. split; [done|]. intros [?|[?|[_ (key & a & Hin & _ & Hk)]]]; [done..|].
      assert (vec_to_list a ∈ (∅ : gset bytes)) as He by (apply Hmem; by exists key). set_solver.
    - rewrite bool_decide_false by done. cbn. rewrite Hex. naive_solver. }
  destruct (rt_is_vote t), (rt_is_err t), (is_transaction_selected sel false (rt_account_keys t)); cbn;
    rewrite ?is_Some_alt; naive_solver.
Qed.
End plugin.

(** ** What a recorder sees *)
Section recorded.
Context {W : Type} `{Messenger W} `{Base58} `{JsonParser} `{FlatBufferBuilder}.
Implicit Types (s : system (observed W)) (m : messenger) (w : W).

(** A recorder changes nothing else. *)
Lemma for_each_unrecorded {M E A} (f : A → method (M * W) E unit) l (x : M) w log :
  for_each (λ a, unrecorded (f a)) l (x, (w, log)) =
  let '(r, (x', w')) := for_each f l (x, w) in (r, (x', (w', log))).
Proof.
  revert x w. induction l as [|a l IH]; intros x w; [done|]. cbn [for_each].
  unfold mbind, method_bind, unrecorded at 1. destruct (f a (x, w)) as [[[]|e| |] [x1 w1]]; [|done..]. apply IH.
Qed.

Lemma start_worker_recorded config w log :
  start_worker (W:=observed W) config (w, log) =
  let '(wk, w') := start_worker (W:=W) config w in (wk, (w', log)).
Proof.
  unfold start_worker. cbn [messenger_new recorder]. destruct (messenger_new config w) as [[m|e| |] w1]; [|done..].
  unfold add_streams. unfold mbind, method_bind. cbn [messenger add_stream set_buffer_size recorder].
  rewrite for_each_unrecorded. destruct (for_each add_stream _ (m, w1)) as [[[]|e| |] [m2 w2]]; [|done..].
  rewrite for_each_unrecorded. by destruct (for_each _ _ (m2, w2)) as [[[]|e| |] [m3 w3]].
Qed.

Lemma serve_recorded m d w log :
  serve (W:=observed W) m d (w, log) =
  let '(wk, w') := serve (W:=W) m d w in (wk, (w', log ++ [(d, (send (sd_stream d) (sd_builder d) (m, w)).1)])).
Proof.
  destruct d as [stream data]. unfold serve. cbn [sd_stream sd_builder send recorder recorded_send].
  by destruct (send stream data (m, w)) as [[[]|e| |] [m' w']].
Qed.

(** A call of the messenger that did not return. *)
Definition crashed (o : outcome MessengerError unit) : Prop := o = Panic ∨ o = OutOfFuel.

Lemma serve_stops m d w log wk x :
  serve (W:=observed W) m d (w, log) = (wk, x) →
  ∃ o, x.2 = log ++ [(d, o)] ∧ ((∃ m', wk = Running m') ∨ (wk = Stopped ∧ crashed o)).
Proof.
  rewrite serve_recorded. unfold serve, crashed. destruct (send _ _ _) as [[[]|e| |] [m' w']]; intros [= <- <-];
    eexists; (split; [done|]); eauto.
Qed.

Record run_ok p (cs : list callback) s : Prop := mk_run_ok {
  ro_bound : length (channel s) ≤ 32;
  ro_part : sent s ++ in_flight s ⊆+ accepted p cs;
  ro_all : worker s ≠ Stopped → accepted p cs ≡ₚ sent s ++ in_flight s;
  ro_worker : worker s ≠ NoWorker;
  ro_starting : ∀ config, worker s = Starting config → sends s = [];
  ro_stopped : worker s = Stopped → sends s = [] ∨ ∃ d o, last (sends s) = Some (d, o) ∧ crashed o;
}.

(** An internal step moves messages, or loses them when the worker is gone. *)
Lemma run_ok_internal p cs s s' : run_ok p cs s → internal s s' → run_ok p cs s'.
Proof.
  intros [Hb Hpart Hall Hno Hs0 Hs1] Hstep. unfold in_flight, sent, sends in *.
  destruct Hstep as [s config wk [w' log'] Hwk Hst|s i d Hd Hfull Hwk|s i d Hd Hwk|s m d rest wk [w' log'] Hwk Hch Hserve].
  - destruct (server s) as [w log] eqn:Hsrv. specialize (Hs0 _ Hwk). cbn [snd] in Hs0. subst log.
    rewrite start_worker_recorded in Hst. destruct (start_worker config w) as [wk1 w1] eqn:Hst1. injection Hst as <- <- <-.
    apply start_worker_not_stopped in Hst1. cbn [snd] in *.
    split; unfold in_flight, sent, sends; cbn [channel spawned worker server snd]; try done.
    + intros _. apply Hall. by rewrite Hwk.
    + by destruct Hst1 as [->|[m ->]].
    + intros _. by left.
  - assert (channel s ++ spawned s ≡ₚ (channel s ++ [d]) ++ delete i (spawned s)) as Hperm.
    { rewrite <-app_assoc. simpl. by rewrite <-(delete_perm _ _ _ Hd). }
    split; unfold in_flight, sent, sends; cbn [channel spawned worker server]; try done.
    + rewrite length_app. simpl. lia.
    + by rewrite <-Hperm.
    + intros Hn. by rewrite <-Hperm; apply Hall.
  - split; unfold in_flight, sent, sends; cbn [channel spawned worker server]; try done.
    etrans; [|exact Hpart]. apply submseteq_app; [done|]. apply submseteq_app; [done|]. apply submseteq_delete.
  - destruct (server s) as [w log] eqn:Hsrv. cbn [snd] in *. apply serve_stops in Hserve as (o & Hlog & Hwk').
    cbn [snd] in Hlog. subst log'. rewrite Hch in *.
    split; unfold in_flight, sent, sends; cbn [channel spawned worker server snd];
      rewrite ?fmap_app, <-?app_assoc; cbn [fmap list_fmap app fst]; try done.
    + simpl in Hb. lia.
    + intros _. apply Hall. by rewrite Hwk.
    + by destruct Hwk' as [[m' ->]|[-> _]].
    + intros config ->. by destruct Hwk' as [[m' ?]|[? _]].
    + intros ->. right. exists d, o. rewrite last_snoc. split; [done|]. by destruct Hwk' as [[m' ?]|[_ ?]].
Qed.

Lemma run_inv env w s0 cs s : loaded (W:=observed W) env (w, []) s0 → run s0 cs s → run_ok (plugin s0) cs s.
Proof.
  intros Hload Hrun. pose proof (loaded_inv _ _ _ Hload) as (_ & _ & Hsp & Hch & Hsrv & config & Hwk).
  revert Hload Hsp Hch Hsrv Hwk.
  induction Hrun as [s0|s0 cs s1 c r s2 Hrun IH Hcall|s0 cs s1 s2 Hrun IH Hint]; intros Hload Hsp Hch Hsrv Hwk.
  - split; unfold in_flight, sent, sends; rewrite ?Hsp, ?Hch, ?Hsrv; cbn; first [done|lia|congruence|by left].
  - specialize (IH Hload Hsp Hch Hsrv Hwk). destruct IH as [Hb Hpart Hall Hno Hs0 Hs1].
    destruct (run_plugin_kept _ _ _ _ _ Hload Hrun) as (Hp & Hr & Hs).
    rewrite (call_ok s1 c) in Hcall by done. injection Hcall as <- <-.
    assert (accepted (plugin s0) [c] = option_list (selected (plugin s1) c)) as Hc
      by (rewrite Hp; cbn; by destruct (selected _ _)).
    unfold in_flight, sent, sends in *.
    split; unfold in_flight, sent, sends; cbn [channel spawned worker server plugin]; rewrite ?accepted_app, ?Hc; try done.
    + rewrite !app_assoc in *. by apply submseteq_app.
    + intros Hn. rewrite (Hall Hn). by rewrite !app_assoc.
  - eapply run_ok_internal; [|exact Hint]. by apply IH.
Qed.

(** C20: the plugin hands every message it selects to its messenger, once, and nothing
    else, however its tasks are scheduled.  At any point of a run of a loaded plugin the
    channel keeps its bound, and what the messenger was called to send, what is in the
    channel and what waits in a task are part of what the selectors accepted of the
    validator's calls: exactly that, as long as the worker lives.  The worker is gone
    only when it could not start, or when the messenger panicked at its last call: a
    send that returns an error does not stop it, and is not repeated, so that its
    message is lost.  When the validator stops calling, every run of the plugin ends
    within the work that is left, and where it can go no further nothing is left,
    unless the worker is gone: the messenger was called once for each message that was
    accepted. *)
Theorem plugin_delivers_selected env w s0 cs s :
  loaded (W:=observed W) env (w, []) s0 → run s0 cs s →
  length (channel s) ≤ 32 ∧
  sent s ++ in_flight s ⊆+ accepted (plugin s0) cs ∧
  (worker s ≠ Stopped → accepted (plugin s0) cs ≡ₚ sent s ++ in_flight s) ∧
  (worker s = Stopped → sends s = [] ∨ ∃ d o, last (sends s) = Some (d, o) ∧ crashed o) ∧
  ∀ n s', nsteps internal n s s' →
    n ≤ work s ∧
    ((∀ s'', ¬ internal s' s'') →
       worker s' = Stopped ∨ (in_flight s' = [] ∧ accepted (plugin s0) cs ≡ₚ sent s')).
Proof.
  intros Hload Hrun. destruct (run_inv _ _ _ _ _ Hload Hrun) as [Hb Hpart Hall _ _ Hstop].
  do 4 (split; [done|]). intros n s' Hsteps. split; [apply internal_runs_end in Hsteps; lia|]. intros Hrest.
  destruct (run_inv _ _ _ _ _ Hload (run_nsteps _ _ _ _ _ Hrun Hsteps)) as [_ _ Hall' Hno _ _].
  destruct (rest_is_empty s' Hno Hrest) as [Hsp Hch].
  destruct (worker s') as [|config|m|] eqn:Hw; [| | |by left]; right;
    (assert (in_flight s' = []) as Hfl by (unfold in_flight; rewrite Hsp, Hch; done); split; [done|];
     rewrite (Hall' ltac:(done)), Hfl; by rewrite app_nil_r).
Qed.
End recorded.
