(* ===== verification/PipelineTheorems.v ===== *)
(** * The ingester reads what the validator reported

    [RedisLaws] and [FlatbuffersSpec] state what Redis streams and flatbuffers
    promise; with them the messages that the plugin sends are, for the ingester,
    the transactions of the validator: its instructions in order, each with its
    program and the instructions it invoked. *)

From S2P Require Import Prelude Text Solana Json Messenger Database ProgramLogs Plerkle Pipeline PlerkleTheorems.

(** What Redis documents of streams and consumer groups.  [undelivered w key group] is
    [None] while the group does not exist, and else the entries of the stream after
    the last one that the group was given.  A group that is created at [$] has been
    given everything that the stream holds; creating a group that exists is refused.
    An entry is added last, under an id that the server chooses; trimming to a length
    keeps at least as many of the newest entries.  A read of one new entry gives the
    first one.  A command that fails may have taken effect or not. *)
Class RedisLaws `{Redis} := {
  undelivered : redis → string → string → option (list (string * list (string * bytes)));
  connect_undelivered uri w r w' k g : get_tokio_connection uri w = (r, w') → undelivered w' k g = undelivered w k g;
  group_created key g w w' : xgroup_create_mkstream key g "$" w = (Ok tt, w') → undelivered w' key g = Some [];
  group_refused key g w r w' : xgroup_create_mkstream key g "$" w = (r, w') → r ≠ Ok tt →
    undelivered w' key g = undelivered w key g ∨ (undelivered w key g = None ∧ undelivered w' key g = Some []);
  group_other key g id w r w' k g' : xgroup_create_mkstream key g id w = (r, w') → (k, g') ≠ (key, g) →
    undelivered w' k g' = undelivered w k g';
  xadd_undelivered key maxlen fields w w' g l : xadd_maxlen key maxlen "*" fields w = (Ok tt, w') →
    undelivered w key g = Some l → (N.of_nat (length l) < maxlen)%N →
    ∃ id, undelivered w' key g = Some (l ++ [(id, fields)]);
  xadd_other key maxlen id fields w r w' k g : xadd_maxlen key maxlen id fields w = (r, w') → k ≠ key →
    undelivered w' k g = undelivered w k g;
  xread_undelivered key g c w id fields l reply w' :
    undelivered w key g = Some ((id, fields) :: l) → NoDup fields.*1 →
    xread_group g c 1 key w = (Ok reply, w') →
    reply = [mk_StreamKey key [mk_StreamId id (Value_Data <$> list_to_map fields)]] ∧ undelivered w' key g = Some l;
}.

(** A server that stays up: a group that was asked for is there, and a read that has
    something to give returns. *)
Class RedisUp `{RedisLaws} : Prop := {
  group_up key g w r w' : xgroup_create_mkstream key g "$" w = (r, w') → is_Some (undelivered w' key g);
  read_up key g c w e l : undelivered w key g = Some (e :: l) → ∃ reply w', xread_group g c 1 key w = (Ok reply, w');
}.

(** The widths of the fields of a table. *)
Definition instruction_ok (ix : CompiledInstruction) : Prop :=
  (cx_program_id_index ix < 2 ^ 8)%N ∧ (∀ l, cx_accounts ix = Some l → Forall (λ a, a < 2 ^ 8)%N l).

Definition transaction_info_ok (t : TransactionInfo) : Prop :=
  (ti_slot t < 2 ^ 64)%N ∧
  (∀ l, ti_outer_instructions t = Some l → Forall instruction_ok l) ∧
  (∀ l, ti_inner_instructions t = Some l → Forall (λ i, (ii_index i < 2 ^ 8)%N ∧
     ∀ l, ii_instructions i = Some l → Forall instruction_ok l) l).

(** A finished buffer reads back as its table, within the limits that the verifier
    sets on the size of buffers. *)
Class FlatbuffersSpec `{Flatbuffers} `{FlatBufferBuilder} := {
  within_limits : bytes → Prop;
  root_as_finish : ∀ t, transaction_info_ok t → within_limits (finish_transaction_info t) →
    root_as_transaction_info (finish_transaction_info t) = Some t;
}.

(** What the validator reports fits the fields. *)
Definition compiled_ok (ix : compiled_instruction) : Prop :=
  (ci_program_id_index ix < 2 ^ 8)%N ∧ Forall (λ a, a < 2 ^ 8)%N (ci_accounts ix).

Definition reported_ok (t : ReplicaTransactionInfo) (slot : N) : Prop :=
  (slot < 2 ^ 64)%N ∧ Forall compiled_ok (rt_instructions t) ∧
  ∀ l, rt_inner_instructions t = Some l → Forall (λ i : N * list compiled_instruction, (i.1 < 2 ^ 8)%N ∧ Forall compiled_ok i.2) l.

Lemma fb_instruction_ok ix : compiled_ok ix → instruction_ok (fb_instruction ix).
Proof. intros [Hi Ha]. split; [done|]. intros l [= <-]. done. Qed.

Lemma transaction_table_ok t slot : reported_ok t slot → transaction_info_ok (transaction_table t slot).
Proof.
  intros (Hslot & Hix & Hinner). split; [done|]. split.
  - intros l. cbn. unfold some_if_any. case_decide; [|done]. intros [= <-].
    apply Forall_fmap. eapply Forall_impl; [exact Hix|]. apply fb_instruction_ok.
  - intros l. cbn. destruct (rt_inner_instructions t) as [inner|] eqn:Hi; [|done]. intros [= <-].
    apply Forall_fmap. eapply Forall_impl; [by apply Hinner|]. intros [i ixs] [H1 H2]. split; [done|].
    intros l [= <-]. apply Forall_fmap. eapply Forall_impl; [exact H2|]. apply fb_instruction_ok.
Qed.

(** ** The instructions of a reported transaction *)

Definition key_of (t : ReplicaTransactionInfo) (ix : compiled_instruction) : option bytes :=
  (λ k : Pubkey, vec_to_list k) <$> rt_account_keys t !! N.to_nat (ci_program_id_index ix).

Definition reported_pair (t : ReplicaTransactionInfo) (ix : compiled_instruction) : IxPair :=
  (key_of t ix, fb_instruction ix).

(** The instructions that instruction [i] invoked. *)
Definition invoked (t : ReplicaTransactionInfo) (i : nat) : option (list compiled_instruction) :=
  inner ← rt_inner_instructions t;
  snd <$> head (filter (λ p : N * list compiled_instruction, p.1 = N.of_nat i) inner).

Definition reported_instructions (t : ReplicaTransactionInfo) : list (IxPair * option (list IxPair)) :=
  imap (λ i ix, (reported_pair t ix, option_map (map (reported_pair t)) (invoked t i))) (rt_instructions t).

(** Every instruction names a program among the keys of the transaction. *)
Definition programs_present (t : ReplicaTransactionInfo) : Prop :=
  Forall (λ ix, is_Some (key_of t ix)) (rt_instructions t) ∧
  ∀ l, rt_inner_instructions t = Some l → Forall (λ i : N * list compiled_instruction, Forall (λ ix, is_Some (key_of t ix)) i.2) l.

Section instructions.
Context {E : Type}.

Lemma ix_pair_reported t ix :
  is_Some (key_of t ix) →
  ix_pair (E:=E) ((λ key : Pubkey, Some (vec_to_list key)) <$> rt_account_keys t) (fb_instruction ix) =
    Ok (reported_pair t ix).
Proof.
  unfold reported_pair, ix_pair, key_of. intros [k Hk]. rewrite Hk.
  rewrite fmap_Some in Hk. destruct Hk as (key & Hkey & ->).
  rewrite (index_lookup _ _ (Some (vec_to_list key))); [done|].
  by rewrite list_lookup_fmap; cbn [fb_instruction cx_program_id_index]; rewrite Hkey.
Qed.

Lemma filter_inner i inner :
  (N.of_nat i < 2 ^ 8)%N →
  head (filter (λ ixs, ii_index ixs = wrap 8 (N.of_nat i)) (map fb_inner_instructions inner)) =
  fb_inner_instructions <$> head (filter (λ p : N * list compiled_instruction, p.1 = N.of_nat i) inner).
Proof.
  intros Hi. rewrite N.mod_small by done. induction inner as [|[j ixs] inner IH]; [done|].
  cbn [map]. rewrite !filter_cons. cbn [fb_inner_instructions ii_index fst]. by case_decide.
Qed.

Lemma order_reported_ok t i ix acc :
  (N.of_nat i < 2 ^ 8)%N → programs_present t → is_Some (key_of t ix) →
  order_instruction (E:=E) ((λ key : Pubkey, Some (vec_to_list key)) <$> rt_account_keys t)
    (option_map (map fb_inner_instructions) (rt_inner_instructions t)) acc (i, fb_instruction ix) =
  Ok (acc ++ [(reported_pair t ix, option_map (map (reported_pair t)) (invoked t i))]).
Proof.
  intros Hi [_ Hinner] Hix. unfold order_instruction. rewrite (ix_pair_reported t ix Hix). cbn [mbind outcome_bind].
  unfold invoked, get_inner_ixs. destruct (rt_inner_instructions t) as [inner|]; [|done].
  cbn [option_map mbind option_bind]. rewrite filter_inner by done.
  destruct (head (filter _ inner)) as [[j ixs]|] eqn:Hhead; [|done].
  cbn [fmap option_fmap option_map fb_inner_instructions ii_instructions unwrap snd].
  assert (Forall (λ ix, is_Some (key_of t ix)) ixs) as Hixs.
  { specialize (Hinner inner eq_refl). rewrite Forall_forall in Hinner. apply (Hinner (j, ixs)).
    apply head_Some_elem_of in Hhead. by apply list_elem_of_filter in Hhead as [_ ?]. }
  assert (∀ l acc', Forall (λ ix, is_Some (key_of t ix)) l →
    foldM (E:=E) (λ l ix, p ← ix_pair ((λ key : Pubkey, Some (vec_to_list key)) <$> rt_account_keys t) ix; Ok (l ++ [p]))
      acc' (fb_instruction <$> l) = Ok (acc' ++ map (reported_pair t) l)) as Hfold.
  { induction l as [|ix' l IH]; intros acc' Hl; [by rewrite app_nil_r|]. apply Forall_cons in Hl as [Hix' Hl].
    cbn [fmap list_fmap foldM]. rewrite (ix_pair_reported t ix' Hix'). cbn [mbind outcome_bind].
    rewrite IH by done. by rewrite <-app_assoc. }
  cbn [mbind outcome_bind]. by rewrite Hfold.
Qed.

(** What the plugin serializes, the ingester reads in order.  For a transaction
    with keys and at most 256 instructions, each of a program among the keys,
    [order_instructions] of its table gives the transaction's instructions in
    order, each with its program and with the instructions it invoked. *)
Theorem instructions_roundtrip t slot :
  0 < length (rt_account_keys t) → length (rt_instructions t) ≤ 256 → programs_present t →
  order_instructions (E:=E) (transaction_table t slot) = Ok (reported_instructions t).
Proof.
  intros Hkeys Hlen Hprogs. unfold order_instructions, transaction_table. cbn [ti_outer_instructions ti_account_keys ti_inner_instructions].
  unfold some_if_any. rewrite (decide_True (P:=0 < length (rt_account_keys t))) by done.
  unfold reported_instructions. case_decide as Hix; last first.
  { destruct (rt_instructions t); [done|simpl in Hix; lia]. }
  pose proof (proj1 Hprogs) as Hpres.
  assert (∀ l k acc, k + length l ≤ 256 → Forall (λ ix, is_Some (key_of t ix)) l →
    foldM (E:=E) (order_instruction ((λ key : Pubkey, Some (vec_to_list key)) <$> rt_account_keys t)
      (option_map (map fb_inner_instructions) (rt_inner_instructions t))) acc
      (imap (λ i ix, (k + i, ix)) (fb_instruction <$> l)) =
    Ok (acc ++ imap (λ i ix, (reported_pair t ix, option_map (map (reported_pair t)) (invoked t (k + i)))) l)) as Hgen.
  { induction l as [|ix l IH]; intros k acc Hk Hl; [by rewrite app_nil_r|]. apply Forall_cons in Hl as [Hix' Hl].
    cbn [fmap list_fmap imap foldM]. rewrite Nat.add_0_r. rewrite (order_reported_ok t k ix acc); [|simpl in Hk; lia|done|done].
    cbn [mbind outcome_bind]. pose proof (IH (S k) (acc ++ [(reported_pair t ix, option_map (map (reported_pair t)) (invoked t k))])) as IHk.
    rewrite (imap_ext _ (λ i ix, (S k + i, ix))) by (intros i x _; unfold compose; f_equal; lia).
    rewrite IHk by (first [done|simpl in Hk; lia]). rewrite <-app_assoc. simpl. do 3 f_equal.
    apply imap_ext. intros i x _. unfold compose. by replace (k + S i) with (S (k + i)) by lia. }
  exact (Hgen (rt_instructions t) 0 [] ltac:(simpl; lia) Hpres).
Qed.
End instructions.

(** ** What a table of a transaction says *)

Definition reads_instruction (fb : CompiledInstruction) (ix : compiled_instruction) : Prop :=
  cx_program_id_index fb = ci_program_id_index ix ∧ cx_accounts fb = Some (ci_accounts ix) ∧
  cx_data fb = Some (ci_data ix).

Definition reads_inner (fb : InnerInstructions) (inner : N * list compiled_instruction) : Prop :=
  ii_index fb = inner.1 ∧ ∃ l, ii_instructions fb = Some l ∧ Forall2 reads_instruction l inner.2.

(** Each field is that of the reported transaction; a list that is absent is empty. *)
Record reads_transaction (fb : TransactionInfo) (t : ReplicaTransactionInfo) (slot : N) : Prop := mk_reads_transaction {
  rd_is_vote : ti_is_vote fb = rt_is_vote t;
  rd_keys : default [] (ti_account_keys fb) = (λ key : Pubkey, Some (vec_to_list key)) <$> rt_account_keys t;
  rd_logs : ti_log_messages fb = rt_log_messages t;
  rd_inner : option_Forall2 (Forall2 reads_inner) (ti_inner_instructions fb) (rt_inner_instructions t);
  rd_outer : Forall2 reads_instruction (default [] (ti_outer_instructions fb)) (rt_instructions t);
  rd_slot : ti_slot fb = slot;
}.

Lemma some_if_any_default {A B} (f : A → B) l : default [] (some_if_any f l) = f <$> l.
Proof. unfold some_if_any. case_decide; [done|]. destruct l; [done|simpl in *; lia]. Qed.

Lemma fb_instructions_read l : Forall2 reads_instruction (fb_instruction <$> l) l.
Proof. apply Forall2_fmap_l, Forall_Forall2_diag, Forall_true. by intros ix. Qed.

Lemma transaction_table_reads t slot : reads_transaction (transaction_table t slot) t slot.
Proof.
  split; cbn; try done; [by rewrite some_if_any_default| |by rewrite some_if_any_default; apply fb_instructions_read].
  destruct (rt_inner_instructions t) as [l|]; cbn; constructor.
  apply Forall2_fmap_l, Forall_Forall2_diag, Forall_true. intros [i ixs]. split; [done|].
  eexists. split; [done|]. apply fb_instructions_read.
Qed.

(** ** Over Redis *)

(** The transactions that the plugin selects of the validator's calls. *)
Definition reported_of `{Base58} (p : Plerkle) (c : callback) : option (ReplicaTransactionInfo * N) :=
  match c with
  | NotifyTransaction t slot =>
      selector ← transaction_selector p;
      if negb (rt_is_vote t) && negb (rt_is_err t) && is_transaction_selected selector false (rt_account_keys t)
      then Some (t, slot) else None
  | _ => None
  end.

Definition reported_transactions `{Base58} (p : Plerkle) (cs : list callback) : list (ReplicaTransactionInfo * N) :=
  omap (reported_of p) cs.

(** [n] times [recv] on a stream. *)
Fixpoint receive {W} `{Messenger W} (stream : string) (n : nat) : method (messenger * W) MessengerError (list (Z * bytes)) :=
  match n with
  | O => mret []
  | S n => l ← recv stream; l' ← receive stream n; mret (l ++ l')
  end.

Section over_redis.
Context `{RedisUp} `{Base58} `{JsonParser} `{FlatBufferBuilder}.
Implicit Types (s : system (observed redis)) (m : RedisMessenger) (w : redis).

(** What the group of the ingester has not been given of a stream. *)
Definition waiting w (k : string) : option (list (string * list (string * bytes))) := undelivered w k GROUP_NAME.

(** Nothing waits on a stream: there is no group yet, or it has been given everything. *)
Definition quiet w k : Prop := waiting w k = None ∨ waiting w k = Some [].

(** The fields of the entry of a message. *)
Definition entry_fields (b : bytes) : list (string * bytes) := [(DATA_KEY, b)].

(** What the messages of a stream are. *)
Definition on_stream (k : string) (l : list SerializedData) : list bytes :=
  sd_builder <$> filter (λ d, sd_stream d = k) l.

Lemma on_stream_app k l1 l2 : on_stream k (l1 ++ l2) = on_stream k l1 ++ on_stream k l2.
Proof. unfold on_stream. by rewrite filter_app, fmap_app. Qed.

Lemma on_stream_submseteq k l1 l2 : l1 ⊆+ l2 → length (on_stream k l1) ≤ length (on_stream k l2).
Proof.
  intros [l Hl]%submseteq_Permutation. unfold on_stream. rewrite !length_fmap, Hl, filter_app, length_app. lia.
Qed.

(** A messenger that is ready to send to a stream. *)
Definition ready (k : string) m : Prop :=
  connected m = true ∧ streams m !! k = Some (mk_RedisMessengerStream (Some 5000%N)).

Lemma attempt_snd {S E F A} (c : method S E A) (σ : S) : (attempt (F:=F) c σ).2 = (c σ).2.
Proof. unfold attempt. by destruct (c σ) as [[?|?| |] ?]. Qed.

Lemma command_inv {A} (c : method redis string A) m w r m' w' :
  command c (m, w) = (r, (m', w')) → m' = m ∧ ((connected m = false ∧ w' = w) ∨ ∃ r', c w = (r', w')).
Proof.
  unfold command. destruct (connected m); [|intros [= <- <- <-]; auto].
  destruct (attempt c w) as [r1 w1] eqn:Hatt. intros [= <- <- <-]. split; [done|]. right.
  pose proof (attempt_snd (F:=MessengerError) c w) as Hs. rewrite Hatt in Hs. simpl in Hs. subst w1.
  destruct (c w); eauto.
Qed.

Lemma group_waiting k w r w' k' :
  xgroup_create_mkstream k GROUP_NAME "$" w = (r, w') →
  (quiet w k' → quiet w' k') ∧ (k' = k ∨ is_Some (waiting w k') → is_Some (waiting w' k')).
Proof.
  intros Hg. unfold quiet, waiting. destruct (decide (k' = k)) as [->|Hne].
  - split; [|intros _; by eapply group_up]. destruct (decide (r = Ok tt)) as [->|Hr].
    + apply group_created in Hg. by right.
    + destruct (group_refused _ _ _ _ _ Hg Hr) as [->|[_ ->]]; [done|by right].
  - rewrite (group_other _ _ _ _ _ _ _ _ Hg) by congruence. split; [done|]. by intros [|].
Qed.

(** After [add_stream] the group is there, and nothing waits that did not. *)
Lemma add_stream_ok k m w r m' w' :
  redis_add_stream k (m, w) = (r, (m', w')) →
  connected m' = connected m ∧ streams m' = <[k := mk_RedisMessengerStream None]> (streams m) ∧
  ∀ k', (quiet w k' → quiet w' k') ∧
    (connected m = true → k' = k ∨ is_Some (waiting w k') → is_Some (waiting w' k')).
Proof.
  unfold redis_add_stream. unfold mbind at 1, method_bind at 1, modify. cbn beta iota.
  unfold mbind, method_bind.
  destruct (command _ _) as [r1 [m1 w1]] eqn:Hc. apply command_inv in Hc as [-> Hw].
  intros Heq. assert (m' = set_streams (<[k:=mk_RedisMessengerStream None]> (streams m)) m ∧ w' = w1) as [-> ->]
    by (by destruct r1; injection Heq as _ <- <-).
  split; [done|]. split; [done|]. intros k'. cbn [connected set_streams] in Hw.
  destruct Hw as [[Hno ->]|[r' Hw]]; [by rewrite Hno|]. destruct (group_waiting _ _ _ _ k' Hw) as [H1' H2']. by split.
Qed.

Lemma set_buffer_size_ok k n m w r m' w' :
  redis_set_buffer_size k n (m, w) = (r, (m', w')) →
  connected m' = connected m ∧ w' = w ∧
  streams m' = (match streams m !! k with
                | Some _ => <[k := mk_RedisMessengerStream (Some n)]> (streams m)
                | None => streams m
                end).
Proof. unfold redis_set_buffer_size, modify. intros [= <- <- <-]. by destruct (streams m !! k). Qed.

Lemma for_each_cons_inv {S E A} (f : A → method S E unit) x l (σ : S) r (σ' : S) :
  for_each f (x :: l) σ = (r, σ') →
  ∃ r1 σ1, f x σ = (r1, σ1) ∧ ((r1 = Ok tt ∧ for_each f l σ1 = (r, σ')) ∨ (r ≠ Ok tt ∧ σ' = σ1)).
Proof.
  cbn [for_each]. unfold mbind, method_bind. destruct (f x σ) as [[[]|e| |] σ1]; intros Heq; eexists _, _; (split; [done|]);
    [by left|..]; right; injection Heq as <- <-; done.
Qed.

Lemma add_streams_for_each ks m w r m' w' :
  for_each redis_add_stream ks (m, w) = (r, (m', w')) → connected m = true →
  connected m' = true ∧ (∀ k', quiet w k' → quiet w' k') ∧
  (r = Ok tt → ∀ k,
     (k ∈ ks ∨ is_Some (streams m !! k) → is_Some (streams m' !! k)) ∧
     (k ∈ ks ∨ is_Some (waiting w k) → is_Some (waiting w' k))).
Proof.
  revert m w. induction ks as [|k ks IH]; intros m w Hrun Hcon.
  { injection Hrun as <- <- <-. split; [done|]. split; [done|]. intros _ k.
    split; (intros [Hin|?]; [by apply not_elem_of_nil in Hin|done]). }
  apply for_each_cons_inv in Hrun as (r1 & [m1 w1] & Hadd & Hrest).
  apply add_stream_ok in Hadd as (Hc & Hs & Hw). destruct Hrest as [[-> Hrest]|[Hr [= -> ->]]].
  - destruct (IH _ _ Hrest) as (Hc' & Hq' & Hs'); [congruence|]. split; [done|].
    split; [intros k' Hq; by apply Hq', Hw|]. intros Hr k'. destruct (Hs' Hr k') as [Hs1 Hw1]. split; intros Hk'.
    + apply Hs1. rewrite Hs. destruct (decide (k = k')) as [->|Hne].
      * right. by rewrite lookup_insert_eq.
      * rewrite lookup_insert_ne by done. set_solver.
    + apply Hw1. destruct (decide (k' ∈ ks)) as [|Hn]; [by left|]. right. apply (proj2 (Hw k') Hcon). set_solver.
  - split; [congruence|]. split; [intros k' Hq; by apply Hw|done].
Qed.

Lemma set_buffer_sizes_for_each ks n m w r m' w' :
  for_each (λ k, redis_set_buffer_size k n) ks (m, w) = (r, (m', w')) →
  connected m' = connected m ∧ w' = w ∧
  (r = Ok tt → ∀ k, is_Some (streams m !! k) → k ∈ ks ∨ streams m !! k = Some (mk_RedisMessengerStream (Some n)) →
     streams m' !! k = Some (mk_RedisMessengerStream (Some n))).
Proof.
  revert m w. induction ks as [|k ks IH]; intros m w Hrun.
  { injection Hrun as <- <- <-. split; [done|]. split; [done|]. intros _ k _ [Hin|?]; [by apply not_elem_of_nil in Hin|done]. }
  apply for_each_cons_inv in Hrun as (r1 & [m1 w1] & Hset & Hrest).
  apply set_buffer_size_ok in Hset as (Hc & -> & Hs). destruct Hrest as [[-> Hrest]|[Hr [= -> ->]]]; [|done].
  destruct (IH _ _ Hrest) as (Hc' & -> & Hs'). split; [congruence|]. split; [done|].
  intros Hr k' Hsome Hk'. destruct (decide (k = k')) as [->|Hne].
  - destruct Hsome as [x Hx]. rewrite Hx in Hs. apply Hs'; [done|..]; rewrite Hs, lookup_insert_eq; [done|by right].
  - assert (streams m1 !! k' = streams m !! k') as Heq.
    { rewrite Hs. destruct (streams m !! k); [by rewrite lookup_insert_ne|done]. }
    apply Hs'; [done|..]; rewrite Heq; [done|]. destruct Hk' as [[?|?]%elem_of_cons|?]; [congruence|by left|by right].
Qed.

Lemma redis_messenger_new_ok config w r w1 :
  redis_messenger_new config w = (r, w1) →
  (∀ k', waiting w1 k' = waiting w k') ∧ ∀ m, r = Ok m → connected m = true.
Proof.
  unfold redis_messenger_new, mbind, method_bind, lift, mret, method_ret.
  destruct (ok_or _ _) as [uri|e| |]; try (intros [= <- <-]; done).
  destruct (rust_assert _); try (intros [= <- <-]; done).
  destruct (attempt _ _) as [r1 w2] eqn:Hatt.
  assert (∀ k', waiting w2 k' = waiting w k') as Hpend.
  { intros k'. pose proof (attempt_snd (F:=MessengerError) (get_tokio_connection uri) w) as Hs. rewrite Hatt in Hs.
    simpl in Hs. subst w2. eapply connect_undelivered. apply surjective_pairing. }
  destruct r1 as [[e|[]]|e| |]; intros [= <- <-]; (split; [done|]); try done. by intros m [= <-].
Qed.

Abbreviation all_streams := [ACCOUNT_STREAM; SLOT_STREAM; TRANSACTION_STREAM; BLOCK_STREAM].

Lemma start_worker_ready config w m w' k :
  start_worker (W:=redis) config w = (Running m, w') → k ∈ all_streams →
  ready k m ∧ (quiet w k → waiting w' k = Some []).
Proof.
  intros Hst Hk. unfold start_worker in Hst. cbn [messenger_new RedisMessenger_Messenger] in Hst.
  destruct (redis_messenger_new config w) as [r1 w1] eqn:Hnew.
  destruct (redis_messenger_new_ok _ _ _ _ Hnew) as [Hw1 Hconn].
  destruct r1 as [m1|e| |]; try done. specialize (Hconn m1 eq_refl).
  unfold add_streams in Hst. cbn [messenger add_stream set_buffer_size RedisMessenger_Messenger] in Hst.
  unfold mbind, method_bind in Hst.
  destruct (for_each redis_add_stream all_streams (m1, w1)) as [r2 [m2 w2]] eqn:Hadd.
  destruct (add_streams_for_each _ _ _ _ _ _ Hadd Hconn) as (Hc2 & Hq2 & Hs2).
  destruct r2 as [[]|e| |]; cbn beta iota in Hst; try done.
  destruct (for_each (λ k, redis_set_buffer_size k 5000) all_streams (m2, w2)) as [r3 [m3 w3]] eqn:Hset.
  destruct (set_buffer_sizes_for_each _ _ _ _ _ _ _ Hset) as (Hc3 & -> & Hs3).
  destruct r3 as [[]|e| |]; try done. injection Hst as <- <-. destruct (Hs2 eq_refl k) as [Hsome Hgroup]. split.
  - split; [congruence|]. apply Hs3; [done| |by left]. apply Hsome. by left.
  - intros Hq. destruct (Hgroup ltac:(by left)) as [l Hl].
    destruct (Hq2 k) as [Hn|?]; [|congruence|done]. unfold quiet in *. by rewrite Hw1.
Qed.

(** A send that succeeds adds the message to its stream, if the stream is ready. *)
Lemma serve_ok m d w wk w' k l :
  serve (W:=redis) m d w = (wk, w') → (redis_send (sd_stream d) (sd_builder d) (m, w)).1 = Ok tt →
  ready (sd_stream d) m → waiting w k = Some l →
  (sd_stream d = k → (N.of_nat (length l) < 5000)%N) →
  wk = Running m ∧ ∃ l', waiting w' k = Some l' ∧ l'.*2 = l.*2 ++ (entry_fields <$> on_stream k [d]).
Proof.
  unfold serve. cbn [send RedisMessenger_Messenger]. intros Hserve Hok [Hc Hd] Hl Hlen.
  unfold redis_send, gets, mbind, method_bind in Hserve, Hok. cbn [fst] in Hserve, Hok. rewrite Hd in Hserve, Hok.
  cbn [buffer_size] in Hserve, Hok. unfold command, attempt in Hserve, Hok. rewrite Hc in Hserve, Hok.
  destruct (xadd_maxlen _ _ _ _ _) as [[[]|e| |] w1] eqn:Hadd; cbn in Hok; try done.
  injection Hserve as <- <-. split; [done|]. destruct (decide (k = sd_stream d)) as [->|Hne].
  - destruct (xadd_undelivered _ _ _ _ _ _ _ Hadd Hl (Hlen eq_refl)) as (id & Hl'). eexists. split; [exact Hl'|].
    unfold on_stream. rewrite filter_cons_True by done. by rewrite fmap_app.
  - exists l. unfold waiting. rewrite (xadd_other _ _ _ _ _ _ _ _ _ Hadd Hne). split; [done|].
    unfold on_stream. rewrite filter_cons_False by done. by rewrite app_nil_r.
Qed.

Lemma selected_stream p c d : selected p c = Some d → sd_stream d ∈ all_streams.
Proof.
  destruct c as [a slot st|slot par st|t slot|b| |]; cbn [selected].
  - destruct (accounts_selector p); [|done]. cbn. case_match; [|done]. intros [= <-]. cbn. set_solver.
  - intros [= <-]. cbn. set_solver.
  - destruct (transaction_selector p); [|done]. cbn. case_match; [|done]. intros [= <-]. cbn. set_solver.
  - intros [= <-]. cbn. set_solver.
  - done.
  - done.
Qed.

Lemma accepted_stream p cs d : d ∈ accepted p cs → sd_stream d ∈ all_streams.
Proof.
  unfold accepted. rewrite list_elem_of_omap. intros (c & _ & Hsel). by eapply selected_stream.
Qed.

(** The entries that wait for the ingester are the messages that were sent. *)
Record redis_inv s : Prop := mk_redis_inv {
  ri_starting : ∀ config, worker s = Starting config → sends s = [] ∧ quiet (server s).1 TRANSACTION_STREAM;
  ri_running : ∀ m : RedisMessenger, worker s = Running m →
    (∀ k, k ∈ all_streams → ready k m) ∧
    ∃ l, waiting (server s).1 TRANSACTION_STREAM = Some l ∧ l.*2 = entry_fields <$> on_stream TRANSACTION_STREAM (sent s);
}.

Lemma redis_inv_internal p cs s s' :
  redis_inv s → run_ok p cs s → internal s s' → all_sent_ok s' →
  length (on_stream TRANSACTION_STREAM (accepted p cs)) ≤ 5000 → redis_inv s'.
Proof.
  intros [Hst Hrun] Hro Hint Hok Hlen. unfold all_sent_ok, sent, sends in *.
  destruct Hint as [s config wk [w' log'] Hwk Hstart|s i d Hd Hfull Hwk|s i d Hd Hwk|s m d rest wk [w' log'] Hwk Hch Hserve];
    split; unfold sent, sends; cbn [worker server] in *; try done.
  - intros config' ->. destruct (start_worker_not_stopped _ _ _ _ Hstart) as [|[m ?]]; done.
  - intros m ->. destruct (Hst _ Hwk) as [Hs Hq]. destruct (server s) as [w log]. cbn [fst snd] in *. subst log.
    rewrite start_worker_recorded in Hstart. destruct (start_worker (W:=redis) config w) as [wk w1] eqn:Hst1.
    injection Hstart as -> <- <-. split; [intros k Hk; by apply (start_worker_ready _ _ _ _ k Hst1 Hk)|].
    exists []. split; [|done]. by apply (start_worker_ready _ _ _ _ TRANSACTION_STREAM Hst1); [set_solver|].
  - intros config ->. destruct (server s) as [w log]. apply serve_stops in Hserve as (o & _ & [[m' ?]|[? _]]); done.
  - intros m' ->. destruct (Hrun m Hwk) as (Hready & l & Hl & Hdata).
    pose proof (ro_part _ _ _ Hro) as Hsub. unfold in_flight, sent, sends in Hsub. rewrite Hch in Hsub.
    assert (d ∈ accepted p cs) as Hd by (eapply elem_of_submseteq; [|exact Hsub]; set_solver).
    destruct (server s) as [w log]. cbn [fst snd] in *. rewrite serve_recorded in Hserve.
    destruct (serve (W:=redis) m d w) as [wk w1] eqn:Hs1. injection Hserve as -> <- <-.
    rewrite Forall_app, Forall_singleton in Hok. destruct Hok as [_ Ho]. cbn [snd send RedisMessenger_Messenger] in Ho.
    destruct (serve_ok m d w _ _ TRANSACTION_STREAM l Hs1 Ho) as ([= ->] & l' & Hl' & Hdata').
    + apply Hready. by eapply accepted_stream.
    + done.
    + intros Hstream. apply on_stream_submseteq with (k:=TRANSACTION_STREAM) in Hsub.
      apply (f_equal length) in Hdata. rewrite !length_fmap in Hdata.
      rewrite !on_stream_app, !length_app in Hsub. cbn [app] in Hsub.
      assert (length (on_stream TRANSACTION_STREAM (d :: rest)) = S (length (on_stream TRANSACTION_STREAM rest))) as Hd1
        by (unfold on_stream; by rewrite filter_cons_True).
      unfold sent, sends in *. lia.
    + split; [done|]. exists l'. split; [done|]. by rewrite Hdata', Hdata, fmap_app, on_stream_app, fmap_app.
Qed.

(** A record only grows. *)
Lemma internal_sends s s' : internal s s' → ∃ new, sends s' = sends s ++ new.
Proof.
  unfold sends. destruct 1 as [s config wk [w' log'] Hwk Hstart|s i d|s i d|s m d rest wk [w' log'] Hwk Hch Hserve];
    cbn [server snd]; try (exists []; by rewrite app_nil_r); destruct (server s) as [w log]; cbn [snd].
  - rewrite start_worker_recorded in Hstart. destruct (start_worker (W:=redis) config w). injection Hstart as <- <- <-.
    exists []. by rewrite app_nil_r.
  - apply serve_stops in Hserve as (o & Hlog & _). cbn [snd] in Hlog. subst log'. by eexists.
Qed.

Lemma redis_inv_run env w s0 cs s :
  loaded (W:=observed redis) env (w, []) s0 → run s0 cs s → all_sent_ok s → quiet w TRANSACTION_STREAM →
  length (on_stream TRANSACTION_STREAM (accepted (plugin s0) cs)) ≤ 5000 → redis_inv s.
Proof.
  intros Hload Hrun Hok Hw. pose proof (loaded_inv _ _ _ Hload) as (_ & _ & Hsp & Hch & Hsrv & config & Hwk).
  revert Hload Hsp Hch Hsrv Hwk Hok.
  induction Hrun as [s0|s0 cs s1 c r s2 Hrun IH Hcall|s0 cs s1 s2 Hrun IH Hint]; intros Hload Hsp Hch Hsrv Hwk Hok Hlen.
  - split; [|congruence]. intros config' _. unfold sends. by rewrite Hsrv.
  - rewrite accepted_app, on_stream_app, length_app in Hlen.
    destruct (run_plugin_kept _ _ _ _ _ Hload Hrun) as (_ & Hr & Hs).
    rewrite (call_ok s1 c) in Hcall by done. injection Hcall as <- <-. unfold all_sent_ok, sends in Hok. cbn [server] in Hok.
    destruct IH as [IHs IHr]; [done..|lia|]. by split.
  - assert (all_sent_ok s1) as Hok1.
    { destruct (internal_sends _ _ Hint) as [new Hnew]. unfold all_sent_ok in *. rewrite Hnew in Hok.
      by apply Forall_app in Hok as [? _]. }
    eapply redis_inv_internal; [by apply IH|by eapply run_inv|done..].
Qed.

(** What the ingester is given of a stream. *)
Definition ids_readable (l : list (string * list (string * bytes))) : Prop :=
  Forall (λ e, is_Some (parse_i64 (without_dashes e.1))) l.

Lemma recv_waiting rm w id b l pid k :
  connected rm = true → waiting w k = Some ((id, entry_fields b) :: l) → parse_i64 (without_dashes id) = Some pid →
  ∃ rm' w', redis_recv k (rm, w) = (Ok [(pid, b)], (rm', w')) ∧ connected rm' = true ∧ waiting w' k = Some l.
Proof.
  intros Hc Hp Hid. destruct (read_up k GROUP_NAME CONSUMER_NAME w _ _ Hp) as (reply & w' & Hread).
  destruct (xread_undelivered _ _ _ _ _ _ _ _ _ Hp (NoDup_singleton _) Hread) as [-> Hrest].
  unfold redis_recv. unfold mbind at 1, method_bind at 1. unfold command, attempt. rewrite Hc, Hread.
  unfold modify, mbind, method_bind, lift. cbn beta iota. cbn [foldM]. unfold read_key. cbn [sk_key sk_ids].
  rewrite decide_True by done. cbn [foldM]. unfold read_entry. cbn [si_id si_map]. rewrite Hid.
  rewrite lookup_fmap. assert (list_to_map (M:=gmap string bytes) (entry_fields b) !! DATA_KEY = Some b) as -> by apply lookup_insert_eq. cbn. by eexists _, w'.
Qed.

Lemma receive_waiting rm w k l (data : list bytes) :
  connected rm = true → waiting w k = Some l → l.*2 = entry_fields <$> data → ids_readable l →
  ∃ got rm' w', receive (W:=redis) k (length data) (rm, w) = (Ok got, (rm', w')) ∧ got.*2 = data ∧ waiting w' k = Some [].
Proof.
  revert rm w l. induction data as [|b data IH]; intros rm w l Hc Hl Hdata Hids.
  { destruct l; [|done]. by exists [], rm, w. }
  destruct l as [|[id fields] l]; [done|]. cbn [fmap list_fmap snd] in Hdata. injection Hdata as -> Hdata.
  apply Forall_cons in Hids as [[pid Hid] Hids]. cbn [fst] in Hid.
  destruct (recv_waiting rm w id b l pid k Hc Hl Hid) as (rm1 & w1 & Hrecv & Hc1 & Hl1).
  destruct (IH rm1 w1 l Hc1 Hl1 Hdata Hids) as (got & rm' & w' & Hrun & Hgot & Hl').
  exists ([(pid, b)] ++ got), rm', w'. split; [|by rewrite fmap_app, Hgot]. cbn [length receive]. unfold mbind, method_bind.
  cbn [recv RedisMessenger_Messenger]. rewrite Hrecv. cbn [messenger RedisMessenger_Messenger] in *. by rewrite Hrun.
Qed.

Lemma on_stream_cons_ne k d l : sd_stream d ≠ k → on_stream k (d :: l) = on_stream k l.
Proof. intros Hne. unfold on_stream. by rewrite filter_cons_False. Qed.

Definition serialized (e : ReplicaTransactionInfo * N) : bytes := serialize_transaction e.1 e.2.

Lemma selected_reported p c :
  on_stream TRANSACTION_STREAM (option_list (selected p c)) = serialized <$> option_list (reported_of p c).
Proof.
  destruct c as [a slot st|slot par st|t slot|b| |]; cbn [selected reported_of option_list option_rect].
  - destruct (accounts_selector p) as [sel|]; cbn [mbind option_bind]; [|done].
    destruct (is_account_selected _ _ _); [|done]. cbn [option_list option_rect]. by rewrite on_stream_cons_ne.
  - by rewrite on_stream_cons_ne.
  - destruct (transaction_selector p) as [sel|]; cbn [mbind option_bind]; [|done].
    destruct (negb _ && negb _ && _); [|done]. cbn [option_list option_rect]. unfold on_stream.
    by rewrite filter_cons_True.
  - by rewrite on_stream_cons_ne.
  - done.
  - done.
Qed.

Lemma on_stream_accepted p cs :
  on_stream TRANSACTION_STREAM (accepted p cs) = serialized <$> reported_transactions p cs.
Proof.
  induction cs as [|c cs IH]; [done|]. unfold accepted, reported_transactions in *. cbn [omap list_omap].
  pose proof (selected_reported p c) as Hc.
  destruct (selected p c) as [d|], (reported_of p c) as [t|]; cbn [option_list option_rect fmap option_fmap option_map list_fmap] in *; try done.
  - change (d :: ?l) with ([d] ++ l). by rewrite on_stream_app, Hc, IH.
  - change (d :: ?l) with ([d] ++ l). by rewrite on_stream_app, Hc, IH.
Qed.

Lemma on_stream_perm k l1 l2 : l1 ≡ₚ l2 → on_stream k l1 ≡ₚ on_stream k l2.
Proof. intros Hp. unfold on_stream. by rewrite Hp. Qed.

Lemma reported_was_called p cs t slot : (t, slot) ∈ reported_transactions p cs → NotifyTransaction t slot ∈ cs.
Proof.
  unfold reported_transactions. intros (c & Hin & Hsel)%list_elem_of_omap. destruct c as [| |t' slot'| | |]; try done.
  unfold reported_of in Hsel. destruct (transaction_selector p); [|done]. cbn in Hsel. case_match; [|done].
  by injection Hsel as -> ->.
Qed.

(** What an ingester makes of a message. *)
Definition message_of `{Flatbuffers} (msg : Z * bytes) (e : ReplicaTransactionInfo * N) : Prop :=
  ∃ fb, root_as_transaction_info msg.2 = Some fb ∧ reads_transaction fb e.1 e.2.

(** C10: the ingester reads, once each, the transactions that the validator reported
    and the configuration selects.  Take a run of a loaded plugin after which nothing
    is on its way to the messenger (see [plugin_delivers_selected]), over a Redis
    server that stays up ([RedisUp]) and on whose transaction stream nothing waited
    for the group before; suppose that every call of [send] succeeded, that at most
    5000 transactions were selected - the length to which the stream is trimmed -, that
    they fit their machine types and the limits of the verifier, and that the ids that
    the server chose parse as numbers.  Then as many [recv]s of the ingester's group
    as transactions were selected give one message each and leave nothing, and, up to
    their order, each message reads as its transaction: whether it is a vote, its keys,
    logs, inner and outer instructions and its slot. *)
Theorem validator_to_ingester `{Flatbuffers} `{!FlatbuffersSpec} env w s0 cs s m rm :
  loaded (W:=observed redis) env (w, []) s0 → run s0 cs s →
  worker s = Running m → in_flight s = [] → all_sent_ok s →
  (∀ t slot, NotifyTransaction t slot ∈ cs → reported_ok t slot ∧ within_limits (serialize_transaction t slot)) →
  quiet w TRANSACTION_STREAM → (∀ l, waiting (server s).1 TRANSACTION_STREAM = Some l → ids_readable l) →
  connected rm = true → length (reported_transactions (plugin s0) cs) ≤ 5000 →
  ∃ l rm' w', receive (W:=redis) TRANSACTION_STREAM (length (reported_transactions (plugin s0) cs)) (rm, (server s).1) =
      (Ok l, (rm', w')) ∧
    waiting w' TRANSACTION_STREAM = Some [] ∧
    ∃ ts, ts ≡ₚ reported_transactions (plugin s0) cs ∧ Forall2 message_of l ts.
Proof.
  intros Hload Hrun Hwk Hfl Hok Hrep Hw Hids Hrm Hlen.
  assert (length (on_stream TRANSACTION_STREAM (accepted (plugin s0) cs)) ≤ 5000) as Hbound
    by by rewrite on_stream_accepted, length_fmap.
  destruct (redis_inv_run _ _ _ _ _ Hload Hrun Hok Hw Hbound) as [_ Hinv].
  destruct (Hinv m Hwk) as (_ & l & Hl & Hdata).
  pose proof (ro_all _ _ _ (run_inv _ _ _ _ _ Hload Hrun)) as Hperm. rewrite Hwk, Hfl, app_nil_r in Hperm.
  specialize (Hperm ltac:(done)). apply (on_stream_perm TRANSACTION_STREAM) in Hperm. rewrite on_stream_accepted in Hperm.
  symmetry in Hperm. apply Permutation_map_inv in Hperm as (ts & Hsent & Hts).
  destruct (receive_waiting rm _ _ l _ Hrm Hl Hdata (Hids l Hl)) as (got & rm' & w' & Hrecv & Hgot & Hrest).
  assert (length (on_stream TRANSACTION_STREAM (sent s)) = length (reported_transactions (plugin s0) cs)) as Hn
    by (rewrite Hsent, length_map; by apply Permutation_length).
  rewrite Hn in Hrecv. exists got, rm', w'. split; [exact Hrecv|]. split; [exact Hrest|]. exists ts.
  split; [by symmetry|]. rewrite Hsent in Hgot. clear -Hgot Hts Hrep.
  assert (Forall (λ e, NotifyTransaction e.1 e.2 ∈ cs) ts) as Hin.
  { apply Forall_forall. intros [t slot] He. apply (reported_was_called (plugin s0)). by rewrite Hts. }
  clear Hts. revert got Hgot. induction Hin as [|[t slot] ts He _ IH]; intros got Hgot; (destruct got as [|msg got]; [|try done]); [constructor|done|].
  cbn [fmap list_fmap map] in Hgot. injection Hgot as Hmsg Hgot. constructor; [|by apply IH].
  destruct (Hrep _ _ He) as [Hr Hlim]. eexists. rewrite Hmsg. split; [|apply transaction_table_reads].
  apply root_as_finish; [by apply transaction_table_ok|exact Hlim].
Qed.
End over_redis.
