(* ===== verification/TablesTheorems.v ===== *)
(** * Tables read back

    What the builders of the generated code write, its accessors read and its
    verifiers accept.  With this the library of flatbuffers implements the interface
    that the validator plugin and the ingester use. *)

From S2P Require Import Prelude Solana Database ProgramLogs Messenger Plerkle FlatBuffers.
From S2P Require Import TransactionTable ReplicaTables Pipeline PlerkleTheorems PipelineTheorems.

(** ** Slots *)
Section slots.
Context `{FlatBuffersLaws}.

(** The slots that have a default. *)
Definition scalar (ty : field_type) : bool :=
  match ty with TBool | TU8 | TI8 | TU64 | TI64 => true | _ => false end.

Lemma scalar_cases ty (x d : slot_value fb_table ty) : scalar ty = true → x = d ∨ x ≠ d.
Proof. destruct ty; intros Hs; try discriminate Hs; cbn in x, d; destruct (decide (x = d)); auto. Qed.

Lemma get_slot ty vt x d t :
  scalar ty = true → fits ty x → table_get ty vt t = None → get_or ty vt d (push_slot ty vt x d t) = x.
Proof.
  unfold get_or. intros Hs Hx Hn. destruct (scalar_cases ty x d Hs) as [->|Hne].
  - by rewrite push_default, Hn.
  - by rewrite push_other, get_pushed.
Qed.

Lemma get_slot_ne ty vt x d t ty' vt' :
  scalar ty = true → vt ≠ vt' → table_get ty' vt' (push_slot ty vt x d t) = table_get ty' vt' t.
Proof.
  intros Hs Hne. destruct (scalar_cases ty x d Hs) as [->|]; [by rewrite push_default|].
  by rewrite push_other, get_other.
Qed.

Lemma get_add_if_ne {A} (add : A → fb_table → fb_table) o t ty vt :
  (∀ x b, table_get ty vt (add x b) = table_get ty vt b) → table_get ty vt (add_if add o t) = table_get ty vt t.
Proof. intros Hadd. destruct o; [apply Hadd|done]. Qed.

Lemma get_or_slot_ne ty vt x d t ty' vt' d' :
  scalar ty = true → vt ≠ vt' → get_or ty' vt' d' (push_slot ty vt x d t) = get_or ty' vt' d' t.
Proof. intros. unfold get_or. by rewrite get_slot_ne. Qed.

Lemma get_or_add_if_ne {A} (add : A → fb_table → fb_table) o t ty vt d :
  (∀ x b, table_get ty vt (add x b) = table_get ty vt b) → get_or ty vt d (add_if add o t) = get_or ty vt d t.
Proof. intros. unfold get_or. by rewrite get_add_if_ne. Qed.

(** The tables that a slot refers to conform. *)
Definition slot_conforms (inner : list visit) (ty : field_type) : slot_value fb_table ty → Prop :=
  match ty with TTables => λ l, Forall (conforms inner) l | _ => λ _, True end.

Lemma conforms_slot fields name vt ty inner required x d t :
  scalar ty = true → Visit name vt ty inner required ∈ fields → fits ty x → slot_conforms inner ty x →
  conforms fields t → conforms fields (push_slot ty vt x d t).
Proof.
  intros Hs. destruct (scalar_cases ty x d Hs) as [->|]; [by rewrite push_default|]. rewrite push_other by done.
  intros. by eapply conforms_push.
Qed.

Lemma conforms_add_if {A} fields (add : A → fb_table → fb_table) o t :
  (∀ x, o = Some x → ∀ b, conforms fields b → conforms fields (add x b)) →
  conforms fields t → conforms fields (add_if add o t).
Proof. intros Ho Ht. destruct o as [x|]; [by apply Ho|done]. Qed.
End slots.

(** Reads a slot of a table that was written slot by slot: the later slots are other
    ones, the earlier ones too. *)
(** The value of a slot is one of its machine type, or its tables conform. *)
Ltac slot_fits := first [exact I | assumption | by eauto | cbn [fits slot_conforms]; by eauto].

Ltac peel_slots := repeat first
  [ rewrite get_slot_ne by done | rewrite get_or_slot_ne by done
  | rewrite get_add_if_ne by (intros; by rewrite get_other)
  | rewrite get_or_add_if_ne by (intros; by rewrite get_other) | rewrite get_start ].
Ltac read_slot :=
  peel_slots;
  lazymatch goal with
  | |- table_get ?ty ?vt (add_if _ ?o _) = _ =>
      destruct o eqn:?; cbn [add_if]; [apply (get_pushed ty vt); slot_fits|by peel_slots]
  | |- get_or ?ty ?vt _ _ = _ => apply (get_slot ty vt); [done|slot_fits|by peel_slots]
  end.

(** A table that was written slot by slot conforms to the list of its slots. *)
Ltac listed := repeat first [apply list_elem_of_here | apply list_elem_of_further].
Ltac conforms_slots :=
  repeat first
    [ eapply conforms_slot; [done|listed|slot_fits|exact I|]
    | eapply conforms_add_if; [intros ? ? ? ?; eapply conforms_push; [listed|slot_fits|slot_fits|done]|]
    | apply conforms_start; by repeat constructor ].

(** ** Accounts, slots and blocks *)
Section replica.
Context `{FlatBuffersLaws}.

(** The arguments of [AccountInfo::create] in [serialize_account], and what the
    accessors of a table give. *)
Definition account_args (a : AccountInfoFb) : AccountInfoArgs :=
  mk_AccountInfoArgs (af_pubkey a) (af_lamports a) (af_owner a) (af_executable a) (af_rent_epoch a) (af_data a)
    (af_write_version a) (af_slot a) (af_is_startup a).

Definition build_account (a : AccountInfoFb) : fb_table := AccountInfo_create (account_args a).

Definition read_account (t : fb_table) : AccountInfoFb :=
  mk_AccountInfoFb (AccountInfo_pubkey t) (AccountInfo_lamports t) (AccountInfo_owner t) (AccountInfo_executable t)
    (AccountInfo_rent_epoch t) (AccountInfo_data t) (AccountInfo_write_version t) (AccountInfo_slot t)
    (AccountInfo_is_startup t).

Definition account_info_ok (a : AccountInfoFb) : Prop :=
  (af_lamports a < 2 ^ 64)%N ∧ (af_rent_epoch a < 2 ^ 64)%N ∧ (af_write_version a < 2 ^ 64)%N ∧ (af_slot a < 2 ^ 64)%N.

Lemma read_build_account a : account_info_ok a → read_account (build_account a) = a.
Proof.
  intros (Hl & He & Hw & Hs).
  transitivity (mk_AccountInfoFb (af_pubkey a) (af_lamports a) (af_owner a) (af_executable a) (af_rent_epoch a)
    (af_data a) (af_write_version a) (af_slot a) (af_is_startup a)); [|by destruct a].
  unfold read_account, build_account, account_args. autounfold with tables. cbv zeta.
  cbn [aia_pubkey aia_lamports aia_owner aia_executable aia_rent_epoch aia_data aia_write_version aia_slot aia_is_startup].
  f_equal; read_slot.
Qed.

Lemma build_account_conforms a : account_info_ok a → conforms AccountInfo_verifier (build_account a).
Proof.
  intros (Hl & He & Hw & Hs). unfold build_account, account_args. autounfold with tables. cbv zeta.
  cbn [aia_pubkey aia_lamports aia_owner aia_executable aia_rent_epoch aia_data aia_write_version aia_slot aia_is_startup].
  conforms_slots.
Qed.

(** [serialize_slot_status] and [serialize_block]. *)
Definition status_value (s : FbStatus) : Z :=
  match s with FbProcessed => Status_Processed | FbRooted => Status_Rooted | FbConfirmed => Status_Confirmed end.

Definition build_slot_status (s : SlotStatusInfo) : fb_table :=
  SlotStatusInfo_create (mk_SlotStatusInfoArgs (ss_slot s) (ss_parent s) (status_value (ss_status s))).

Definition slot_status_ok (s : SlotStatusInfo) : Prop :=
  (ss_slot s < 2 ^ 64)%N ∧ ∀ p, ss_parent s = Some p → (p < 2 ^ 64)%N.

Definition reads_slot_status (t : fb_table) (s : SlotStatusInfo) : Prop :=
  SlotStatusInfo_slot t = ss_slot s ∧ SlotStatusInfo_parent t = ss_parent s ∧
  SlotStatusInfo_status t = status_value (ss_status s).

Lemma status_fits s : fits (T:=fb_table) TI8 (status_value s).
Proof. by destruct s. Qed.

Lemma read_build_slot_status s :
  slot_status_ok s → reads_slot_status (build_slot_status s) s ∧ conforms SlotStatusInfo_verifier (build_slot_status s).
Proof.
  intros [Hs Hp]. pose proof (status_fits (ss_status s)) as Hv.
  unfold reads_slot_status, build_slot_status. autounfold with tables. cbv zeta.
  cbn [ssa_slot ssa_parent ssa_status]. split; [split_and!; read_slot|conforms_slots].
Qed.

Definition reward_type_value (t : FbRewardType) : N :=
  match t with
  | FbFee => RewardType_Fee | FbRent => RewardType_Rent | FbStaking => RewardType_Staking | FbVoting => RewardType_Voting
  end.

Definition build_reward (r : FbReward) : fb_table :=
  Reward_create (mk_RewardArgs (fr_pubkey r) (fr_lamports r) (fr_post_balance r) (reward_type_value <$> fr_reward_type r)
    (fr_commission r)).

Definition reward_ok (r : FbReward) : Prop :=
  (- 2 ^ 63 ≤ fr_lamports r < 2 ^ 63)%Z ∧ (fr_post_balance r < 2 ^ 64)%N ∧ ∀ c, fr_commission r = Some c → (c < 2 ^ 8)%N.

Definition reads_reward (t : fb_table) (r : FbReward) : Prop :=
  Reward_pubkey t = fr_pubkey r ∧ Reward_lamports t = fr_lamports r ∧ Reward_post_balance t = fr_post_balance r ∧
  Reward_reward_type t = reward_type_value <$> fr_reward_type r ∧ Reward_commission t = fr_commission r.

Lemma reward_type_fits o x : reward_type_value <$> o = Some x → fits (T:=fb_table) TU8 x.
Proof. intros (t & _ & ->)%fmap_Some. by destruct t. Qed.

Lemma read_build_reward r : reward_ok r → reads_reward (build_reward r) r ∧ conforms Reward_verifier (build_reward r).
Proof.
  intros (Hl & Hp & Hc). pose proof (reward_type_fits (fr_reward_type r)) as Ht.
  unfold reads_reward, build_reward. autounfold with tables. cbv zeta.
  cbn [rwa_pubkey rwa_lamports rwa_post_balance rwa_reward_type rwa_commission].
  split; [split_and!; read_slot|conforms_slots].
Qed.

Definition build_block (b : BlockInfo) : fb_table :=
  BlockInfo_create (mk_BlockInfoArgs (bi_slot b) (bi_blockhash b) (option_map (map build_reward) (bi_rewards b))
    (bi_block_time b) (bi_block_height b)).

Definition block_info_ok (b : BlockInfo) : Prop :=
  (bi_slot b < 2 ^ 64)%N ∧ (∀ l, bi_rewards b = Some l → Forall reward_ok l) ∧
  (∀ t, bi_block_time b = Some t → (- 2 ^ 63 ≤ t < 2 ^ 63)%Z) ∧ ∀ h, bi_block_height b = Some h → (h < 2 ^ 64)%N.

Definition reads_block (t : fb_table) (b : BlockInfo) : Prop :=
  BlockInfo_slot t = bi_slot b ∧ BlockInfo_blockhash t = bi_blockhash b ∧
  option_Forall2 (Forall2 reads_reward) (BlockInfo_rewards t) (bi_rewards b) ∧
  BlockInfo_block_time t = bi_block_time b ∧ BlockInfo_block_height t = bi_block_height b.

Lemma build_rewards o :
  (∀ l, o = Some l → Forall reward_ok l) →
  option_Forall2 (Forall2 reads_reward) (option_map (map build_reward) o) o ∧
  ∀ l, option_map (map build_reward) o = Some l → Forall (conforms Reward_verifier) l.
Proof.
  intros Ho. destruct o as [l|]; simpl; [|split; [constructor|done]]. specialize (Ho l eq_refl). split.
  - constructor. apply Forall2_fmap_l, Forall_Forall2_diag. eapply Forall_impl; [exact Ho|].
    intros r Hr. by apply read_build_reward.
  - intros l' [= <-]. apply Forall_fmap. eapply Forall_impl; [exact Ho|]. intros r Hr. by apply read_build_reward.
Qed.

Lemma read_build_block b : block_info_ok b → reads_block (build_block b) b ∧ conforms BlockInfo_verifier (build_block b).
Proof.
  intros (Hs & Hr & Ht & Hh). destruct (build_rewards _ Hr) as [Hread Hconf].
  assert (BlockInfo_rewards (build_block b) = option_map (map build_reward) (bi_rewards b)) as Heq.
  { unfold build_block. autounfold with tables. cbv zeta. cbn [bia_slot bia_blockhash bia_rewards bia_block_time bia_block_height].
    read_slot. }
  unfold reads_block. rewrite Heq. unfold build_block. autounfold with tables. cbv zeta.
  cbn [bia_slot bia_blockhash bia_rewards bia_block_time bia_block_height]. split.
  - split_and!; [read_slot..|exact Hread|read_slot|read_slot].
  - conforms_slots.
Qed.
End replica.

(** ** Transactions *)
Section transaction.
Context `{FlatBuffersLaws}.

(** The tables that [serialize_transaction] creates, and what the accessors of the
    ingester give. *)
Definition build_instruction (ix : CompiledInstruction) : fb_table :=
  CompiledInstruction_create (mk_CompiledInstructionArgs (cx_program_id_index ix)
    (option_map (map byte_of_N) (cx_accounts ix)) (cx_data ix)).

Definition read_instruction (t : fb_table) : CompiledInstruction :=
  mk_CompiledInstruction (CompiledInstruction_program_id_index t)
    (option_map (map Strings.Byte.to_N) (CompiledInstruction_accounts t)) (CompiledInstruction_data t).

Definition build_inner (i : InnerInstructions) : fb_table :=
  InnerInstructions_create (mk_InnerInstructionsArgs (ii_index i) (option_map (map build_instruction) (ii_instructions i))).

Definition read_inner (t : fb_table) : InnerInstructions :=
  mk_InnerInstructions (InnerInstructions_index t) (option_map (map read_instruction) (InnerInstructions_instructions t)).

Definition build_key (key : option bytes) : fb_table := Pubkey_create (mk_PubkeyArgs key).

Definition build_transaction (t : TransactionInfo) : fb_table :=
  TransactionInfo_create (mk_TransactionInfoArgs (ti_is_vote t) (option_map (map build_key) (ti_account_keys t))
    (ti_log_messages t) (option_map (map build_inner) (ti_inner_instructions t))
    (option_map (map build_instruction) (ti_outer_instructions t)) (ti_slot t)).

Definition read_transaction (t : fb_table) : TransactionInfo :=
  mk_TransactionInfo (TransactionInfo_is_vote t) (option_map (map Pubkey_key) (TransactionInfo_account_keys t))
    (TransactionInfo_log_messages t) (option_map (map read_inner) (TransactionInfo_inner_instructions t))
    (option_map (map read_instruction) (TransactionInfo_outer_instructions t)) (TransactionInfo_slot t).

(** A vector of tables, each of which reads back and conforms. *)
Lemma read_vector {A} (ok : A → Prop) (build : A → fb_table) (read : fb_table → A) (fields : list visit) (o : option (list A)) :
  (∀ x, ok x → read (build x) = x ∧ conforms fields (build x)) → (∀ l, o = Some l → Forall ok l) →
  option_map (map read) (option_map (map build) o) = o ∧
  ∀ l, option_map (map build) o = Some l → Forall (conforms fields) l.
Proof.
  intros Hb Ho. destruct o as [l|]; simpl; [|done]. specialize (Ho l eq_refl). split.
  - f_equal. rewrite map_map. rewrite <-(map_id l) at 2. apply map_ext_in. intros x Hx.
    apply Hb. rewrite Forall_forall in Ho. apply Ho. by apply list_elem_of_In.
  - intros l' [= <-]. apply Forall_fmap. eapply Forall_impl; [exact Ho|]. intros x Hx. by apply Hb.
Qed.

Lemma read_build_key key : Pubkey_key (build_key key) = key ∧ conforms Pubkey_verifier (build_key key).
Proof.
  unfold build_key. autounfold with tables. cbv zeta. cbn [pka_key]. split; [read_slot|conforms_slots].
Qed.

Lemma bytes_of_numbers (o : option (list N)) :
  (∀ l, o = Some l → Forall (λ a, a < 2 ^ 8)%N l) →
  option_map (map Strings.Byte.to_N) (option_map (map byte_of_N) o) = o.
Proof.
  intros Ho. destruct o as [l|]; [|done]. simpl. f_equal. specialize (Ho l eq_refl). rewrite map_map.
  rewrite <-(map_id l) at 2. apply map_ext_in. intros x Hx%list_elem_of_In. rewrite to_N_byte_of_N.
  rewrite Forall_forall in Ho. by apply N.mod_small, Ho.
Qed.

Lemma read_build_instruction ix :
  instruction_ok ix →
  read_instruction (build_instruction ix) = ix ∧ conforms CompiledInstruction_verifier (build_instruction ix).
Proof.
  intros [Hp Ha]. split.
  - transitivity (mk_CompiledInstruction (cx_program_id_index ix) (cx_accounts ix) (cx_data ix)); [|by destruct ix].
    rewrite <-(bytes_of_numbers _ Ha). unfold read_instruction, build_instruction.
    autounfold with tables. cbv zeta. cbn [cia_program_id_index cia_accounts cia_data].
    f_equal; [read_slot|f_equal; read_slot|read_slot].
  - unfold build_instruction. autounfold with tables. cbv zeta. cbn [cia_program_id_index cia_accounts cia_data].
    conforms_slots.
Qed.

Definition inner_ok (i : InnerInstructions) : Prop :=
  (ii_index i < 2 ^ 8)%N ∧ ∀ l, ii_instructions i = Some l → Forall instruction_ok l.

Lemma read_build_inner i :
  inner_ok i → read_inner (build_inner i) = i ∧ conforms InnerInstructions_verifier (build_inner i).
Proof.
  intros [Hi Hl]. destruct (read_vector instruction_ok build_instruction read_instruction _ _ read_build_instruction Hl)
    as [Hread Hconf]. split.
  - transitivity (mk_InnerInstructions (ii_index i) (ii_instructions i)); [|by destruct i].
    rewrite <-Hread. unfold read_inner, build_inner.
    autounfold with tables. cbv zeta. cbn [iia_index iia_instructions]. f_equal; [read_slot|f_equal; read_slot].
  - unfold build_inner. autounfold with tables. cbv zeta. cbn [iia_index iia_instructions]. conforms_slots.
Qed.

Lemma read_build_transaction t :
  transaction_info_ok t →
  read_transaction (build_transaction t) = t ∧ conforms TransactionInfo_verifier (build_transaction t).
Proof.
  intros (Hs & Houter & Hinner).
  destruct (read_vector (λ _, True) build_key Pubkey_key _ (ti_account_keys t) (λ k _, read_build_key k)
    (λ l _, Forall_true (λ _, True) l (λ _, I))) as [Hkeys Ckeys].
  destruct (read_vector instruction_ok build_instruction read_instruction _ _ read_build_instruction Houter) as [Hix Cix].
  destruct (read_vector inner_ok build_inner read_inner _ _ read_build_inner Hinner) as [Hin Cin].
  split.
  - transitivity (mk_TransactionInfo (ti_is_vote t) (ti_account_keys t) (ti_log_messages t) (ti_inner_instructions t)
      (ti_outer_instructions t) (ti_slot t)); [|by destruct t].
    rewrite <-Hkeys, <-Hix, <-Hin. unfold read_transaction, build_transaction.
    autounfold with tables. cbv zeta.
    cbn [tia_is_vote tia_account_keys tia_log_messages tia_inner_instructions tia_outer_instructions tia_slot].
    f_equal; [read_slot|f_equal; read_slot|read_slot|f_equal; read_slot|f_equal; read_slot|read_slot].
  - unfold build_transaction. autounfold with tables. cbv zeta.
    cbn [tia_is_vote tia_account_keys tia_log_messages tia_inner_instructions tia_outer_instructions tia_slot].
    conforms_slots.
Qed.
End transaction.

(** ** The library implements the interface *)
#[export] Instance library_builder `{FlatBuffersLibrary} : FlatBufferBuilder := {|
  finish_account_info a := finish_account_info_buffer (build_account a);
  finish_slot_status s := finish_slot_status_info_buffer (build_slot_status s);
  finish_transaction_info t := finish_transaction_info_buffer (build_transaction t);
  finish_block_info b := finish_block_info_buffer (build_block b);
|}.

#[export] Instance library_buffers `{FlatBuffersLibrary} : Flatbuffers := {|
  root_as_transaction_info b := read_transaction <$> root_as_transaction_table b;
  root_as_account_info b := read_account <$> root_as_account_table b;
|}.

#[export] Instance library_spec `{FlatBuffersLaws} : FlatbuffersSpec.
Proof.
  refine {| within_limits := verifiable |}. intros t Ht Hv. cbn [root_as_transaction_info finish_transaction_info library_buffers library_builder] in *.
  destruct (read_build_transaction t Ht) as [Hread Hconf]. unfold root_as_transaction_table, finish_transaction_info_buffer in *.
  rewrite root_finish by done. cbn [fmap option_fmap option_map]. by rewrite Hread.
Defined.

(** ** What a buffer says of what was reported

    The fields one by one, without the builders: [reads_transaction] of
    [PipelineTheorems] for a transaction, and the following for the others. *)
Record reads_account (fb : AccountInfoFb) (a : ReplicaAccountInfo) (slot : N) (is_startup : bool) : Prop := mk_reads_account {
  rda_pubkey : af_pubkey fb = Some (ra_pubkey a);
  rda_lamports : af_lamports fb = ra_lamports a;
  rda_owner : af_owner fb = Some (ra_owner a);
  rda_executable : af_executable fb = ra_executable a;
  rda_rent_epoch : af_rent_epoch fb = ra_rent_epoch a;
  rda_data : af_data fb = Some (ra_data a);
  rda_write_version : af_write_version fb = ra_write_version a;
  rda_slot : af_slot fb = slot;
  rda_is_startup : af_is_startup fb = is_startup;
}.

Definition status_name (s : SlotStatus) : string :=
  match s with Processed => "Processed" | Rooted => "Rooted" | Confirmed => "Confirmed" end.

Definition reward_type_name (t : RewardType) : string :=
  match t with Fee => "Fee" | Rent => "Rent" | Staking => "Staking" | Voting => "Voting" end.

Section reported.
Context `{FlatBuffersLibrary}.

Record reads_reported_reward (tb : fb_table) (r : Reward) : Prop := mk_reads_reported_reward {
  rdr_pubkey : Reward_pubkey tb = Some (String.list_byte_of_string (rw_pubkey r));
  rdr_lamports : Reward_lamports tb = rw_lamports r;
  rdr_post_balance : Reward_post_balance tb = rw_post_balance r;
  rdr_type : option_Forall2 (λ n t, RewardType_variant_name n = Some (reward_type_name t)) (Reward_reward_type tb) (rw_reward_type r);
  rdr_commission : Reward_commission tb = rw_commission r;
}.

(** A block without rewards has no vector of them. *)
Record reads_reported_block (tb : fb_table) (b : ReplicaBlockInfo) : Prop := mk_reads_reported_block {
  rdb_slot : BlockInfo_slot tb = rb_slot b;
  rdb_blockhash : BlockInfo_blockhash tb = Some (rb_blockhash b);
  rdb_rewards : Forall2 reads_reported_reward (default [] (BlockInfo_rewards tb)) (rb_rewards b);
  rdb_block_time : BlockInfo_block_time tb = rb_block_time b;
  rdb_block_height : BlockInfo_block_height tb = rb_block_height b;
}.
End reported.

(** The machine types of what the validator reports. *)
Definition account_ok (a : ReplicaAccountInfo) (slot : N) : Prop :=
  (ra_lamports a < 2 ^ 64)%N ∧ (ra_rent_epoch a < 2 ^ 64)%N ∧ (ra_write_version a < 2 ^ 64)%N ∧ (slot < 2 ^ 64)%N.

Definition status_ok (slot : N) (parent : option N) : Prop :=
  (slot < 2 ^ 64)%N ∧ ∀ p, parent = Some p → (p < 2 ^ 64)%N.

Definition reported_reward_ok (r : Reward) : Prop :=
  (- 2 ^ 63 ≤ rw_lamports r < 2 ^ 63)%Z ∧ (rw_post_balance r < 2 ^ 64)%N ∧ ∀ c, rw_commission r = Some c → (c < 2 ^ 8)%N.

Definition reported_block_ok (b : ReplicaBlockInfo) : Prop :=
  (rb_slot b < 2 ^ 64)%N ∧ Forall reported_reward_ok (rb_rewards b) ∧
  (∀ t, rb_block_time b = Some t → (- 2 ^ 63 ≤ t < 2 ^ 63)%Z) ∧ ∀ h, rb_block_height b = Some h → (h < 2 ^ 64)%N.

Lemma block_table_ok b : reported_block_ok b → block_info_ok (block_table b).
Proof.
  intros (Hs & Hr & Ht & Hh). split; [done|]. split; [|done]. cbn. unfold some_if_any. case_decide; [|done].
  intros l [= <-]. by apply Forall_fmap.
Qed.

Lemma reads_block_reported `{FlatBuffersLibrary} tb b : reads_block tb (block_table b) → reads_reported_block tb b.
Proof.
  intros (H1 & H2 & H3 & H4 & H5). split; [done..| |done|done]. cbn in H3.
  assert (∀ l, Forall2 reads_reward l (fb_reward <$> rb_rewards b) → Forall2 reads_reported_reward l (rb_rewards b)) as Hl.
  { intros l Hl. rewrite Forall2_fmap_r in Hl. eapply Forall2_impl; [exact Hl|]. intros t r (E1 & E2 & E3 & E4 & E5).
    split; [done..| |done]. rewrite E4. cbn. destruct (rw_reward_type r) as [[]|]; repeat constructor. }
  apply Hl. rewrite <-some_if_any_default. destruct H3; [done|constructor].
Qed.

(** C19: what the plugin serializes reads back.  Over any library of flatbuffers that
    keeps its promises, the buffer of an account or of a transaction is decoded by the
    ingester into fields that are those of the reported record, each named in
    [reads_account] and [reads_transaction], and the accessors of the buffer of a slot
    or of a block give the reported fields too, absent ones and defaults included - as
    long as the reported values are of their machine types and the buffer is within the
    limits of the verifier.  A list that is empty may read as one that is absent. *)
Theorem serialized_tables_read_back `{FlatBuffersLaws} :
  (∀ account slot is_startup, account_ok account slot → verifiable (serialize_account account slot is_startup) →
     ∃ fb, root_as_account_info (serialize_account account slot is_startup) = Some fb ∧
       reads_account fb account slot is_startup) ∧
  (∀ t slot, reported_ok t slot → verifiable (serialize_transaction t slot) →
     ∃ fb, root_as_transaction_info (serialize_transaction t slot) = Some fb ∧ reads_transaction fb t slot) ∧
  (∀ slot parent status, status_ok slot parent → verifiable (serialize_slot_status slot parent status) →
     ∃ tb, root_as_slot_status_info (serialize_slot_status slot parent status) = Some tb ∧
       SlotStatusInfo_slot tb = slot ∧ SlotStatusInfo_parent tb = parent ∧
       Status_variant_name (SlotStatusInfo_status tb) = Some (status_name status)) ∧
  (∀ b, reported_block_ok b → verifiable (serialize_block b) →
     ∃ tb, root_as_block_info (serialize_block b) = Some tb ∧ reads_reported_block tb b).
Proof.
  split; [|split; [|split]].
  - intros a slot st Ha Hv. exists (account_table a slot st). split; [|by split].
    unfold serialize_account in *. cbn [finish_account_info root_as_account_info library_builder library_buffers] in *.
    unfold finish_account_info_buffer, root_as_account_table in *.
    rewrite root_finish by auto using build_account_conforms. cbn. by rewrite read_build_account.
  - intros t slot Ht Hv. eexists. split; [|apply transaction_table_reads].
    apply root_as_finish; [by apply transaction_table_ok|exact Hv].
  - intros slot parent status Hs Hv.
    destruct (read_build_slot_status (slot_status_table slot parent status) Hs) as [(H1 & H2 & H3) Hc].
    eexists. split; [apply root_finish; [exact Hc|exact Hv]|]. split_and!; [done..|]. rewrite H3. by destruct status.
  - intros b Hb%block_table_ok Hv. destruct (read_build_block _ Hb) as [Hread Hc].
    eexists. split; [apply root_finish; [exact Hc|exact Hv]|]. by apply reads_block_reported.
Qed.
