(* ===== verification/PipelineWitnesses.v ===== *)
(** * Witnesses for the plugin and its pipeline

    A Redis server with a queue for each group of each stream, a library of flatbuffers whose tables are
    trees and whose buffers the bits of their numbers, and a configuration that
    selects every transaction. *)

From S2P Require Import Prelude Text Solana Json Messenger Database ProgramLogs Plerkle Pipeline.
From S2P Require Import PlerkleTheorems PipelineTheorems FlatBuffers TransactionTable ReplicaTables TablesTheorems.

Module PToy.

(** The groups of each stream, each with what it was not given yet.  Every entry has the
    same id. *)
Abbreviation entry := (string * list (string * bytes))%type.
Abbreviation groups := (gmap string (gmap string (list entry))).

Definition toy_undelivered (w : groups) (key g : string) : option (list entry) := gs ← w !! key; gs !! g.

Definition toy_set (key g : string) (l : list entry) (w : groups) : groups :=
  <[key := <[g := l]> (default ∅ (w !! key))]> w.

Lemma toy_set_eq key g l w : toy_undelivered (toy_set key g l w) key g = Some l.
Proof. unfold toy_undelivered, toy_set. rewrite lookup_insert_eq. cbn. by rewrite lookup_insert_eq. Qed.

Lemma toy_set_ne key g l w k g' : (k, g') ≠ (key, g) → toy_undelivered (toy_set key g l w) k g' = toy_undelivered w k g'.
Proof.
  intros Hne. unfold toy_undelivered, toy_set. destruct (decide (k = key)) as [->|Hk]; [|by rewrite lookup_insert_ne].
  rewrite lookup_insert_eq. cbn. rewrite lookup_insert_ne by congruence. destruct (w !! key); [done|]. exact (lookup_empty g').
Qed.

#[export] Instance toy_redis : Redis := {|
  redis := groups;
  client_open _ := true;
  get_tokio_connection _ := mret tt;
  xgroup_create_mkstream key g _ := λ w,
    match toy_undelivered w key g with
    | Some _ => (Err "BUSYGROUP", w)
    | None => (Ok tt, toy_set key g [] w)
    end;
  xadd_maxlen key _ _ fields := λ w, (Ok tt, alter (fmap (λ l, l ++ [("1-0", fields)])) key w);
  xread_group g _ _ key := λ w,
    match toy_undelivered w key g with
    | None => (Err "NOGROUP", w)
    | Some [] => (Ok [], w)
    | Some ((id, fields) :: l) => (Ok [mk_StreamKey key [mk_StreamId id (Value_Data <$> list_to_map fields)]], toy_set key g l w)
    end;
|}.

#[export] Instance toy_redis_laws : RedisLaws.
Proof.
  refine {| undelivered := toy_undelivered |}.
  - by intros ?????? [= <- <-].
  - intros key g w w'. cbn. destruct (toy_undelivered w key g); [done|]. intros [= <-]. apply toy_set_eq.
  - intros key g w r w'. cbn. destruct (toy_undelivered w key g) eqn:Hl; intros [= <- <-] Hr; [by left|by destruct Hr].
  - intros key g id w r w' k g'. cbn. destruct (toy_undelivered w key g); intros [= <- <-]; [done|apply toy_set_ne].
  - intros key maxlen fields w w' g l [= <-] Hl _. exists "1-0". unfold toy_undelivered in *. rewrite lookup_alter_eq.
    apply bind_Some in Hl as (gs & Hgs & Hl). rewrite Hgs. cbn. by rewrite lookup_fmap, Hl.
  - intros key maxlen id fields w r w' k g [= <- <-] Hne. unfold toy_undelivered. by rewrite lookup_alter_ne.
  - intros key g c w id fields l reply w' Hl _. cbn. rewrite Hl. intros [= <- <-]. split; [done|apply toy_set_eq].
Defined.

#[export] Instance toy_redis_up : RedisUp.
Proof.
  split.
  - intros key g w r w'. cbn. destruct (toy_undelivered w key g) eqn:Hl; intros [= <- <-]; [by eexists|].
    rewrite toy_set_eq. by eexists.
  - intros key g c w [id fields] l Hl. cbn in *. rewrite Hl. by eexists _, _.
Qed.

#[export] Instance toy_b58 : Base58 := {|
  bs58_encode b := String.string_of_list_byte b;
  bs58_decode s := Some (String.list_byte_of_string s);
|}.

#[export] Instance toy_json : JsonParser := λ _,
  Some (JObject [("transaction_selector", JObject [("mentions", JArray [JString "*"])])]).

(** Tables as numbers, numbers as bits. *)
Fixpoint bits (p : positive) : bytes :=
  match p with
  | xH => []
  | xO p => x00 :: bits p
  | xI p => x01 :: bits p
  end.

Fixpoint unbits (b : bytes) : positive :=
  match b with
  | [] => xH
  | x00 :: b => xO (unbits b)
  | _ :: b => xI (unbits b)
  end.

Lemma unbits_bits p : unbits (bits p) = p.
Proof. induction p as [p IH|p IH|]; simpl; by rewrite ?IH. Qed.

(** A table is the list of its slots, the last one first; a slot is its offset and its
    value. *)
Abbreviation tree := (gen_tree Z).

Definition slots_of (t : tree) : list tree := match t with GenNode _ l => l | GenLeaf _ => [] end.
Definition bytes_tree (b : bytes) : tree := GenNode 0 ((λ x, GenLeaf (Z.of_N (Strings.Byte.to_N x))) <$> b).
Definition tree_byte (t : tree) : byte := match t with GenLeaf z => byte_of_N (Z.to_N z) | _ => x00 end.
Definition tree_bytes (t : tree) : bytes := tree_byte <$> slots_of t.

Definition to_tree (ty : field_type) : slot_value tree ty → tree :=
  match ty with
  | TBool => λ b, GenLeaf (Z.b2z b)
  | TU8 | TU64 => λ n, GenLeaf (Z.of_N n)
  | TI8 | TI64 => λ z, GenLeaf z
  | TBytes => λ b, bytes_tree b
  | TString => λ s, bytes_tree (String.list_byte_of_string s)
  | TStrings => λ l, GenNode 1 ((λ s, bytes_tree (String.list_byte_of_string s)) <$> l)
  | TTables => λ l, GenNode 2 l
  end.

Definition leaf_of (t : tree) : Z := match t with GenLeaf z => z | _ => 0%Z end.

Definition of_tree (ty : field_type) (t : tree) : slot_value tree ty :=
  match ty with
  | TBool => Z.eqb (leaf_of t) 1
  | TU8 | TU64 => Z.to_N (leaf_of t)
  | TI8 | TI64 => leaf_of t
  | TBytes => tree_bytes t
  | TString => String.string_of_list_byte (tree_bytes t)
  | TStrings => (λ t, String.string_of_list_byte (tree_bytes t)) <$> slots_of t
  | TTables => slots_of t
  end.

Lemma tree_bytes_tree b : tree_bytes (bytes_tree b) = b.
Proof.
  unfold tree_bytes, bytes_tree. cbn [slots_of]. induction b as [|x b IH]; [done|]. cbn [fmap list_fmap]. f_equal; [|exact IH].
  cbn [tree_byte]. rewrite N2Z.id. by destruct x.
Qed.

Lemma of_to_tree ty x : of_tree ty (to_tree ty x) = x.
Proof.
  assert (∀ s, String.string_of_list_byte (tree_bytes (bytes_tree (String.list_byte_of_string s))) = s) as Hstr.
  { intros s. by rewrite tree_bytes_tree, String.string_of_list_byte_of_string. }
  destruct ty; [by destruct x|apply N2Z.id|done|apply N2Z.id|done|apply tree_bytes_tree|apply Hstr| |done].
  unfold of_tree, to_tree. cbn [slots_of]. rewrite <-list_fmap_compose.
  transitivity (id <$> (x : list string)); [|apply list_fmap_id]. apply list_fmap_ext. intros i s _. apply Hstr.
Qed.

Fixpoint find_slot (vt : N) (l : list tree) : option tree :=
  match l with
  | GenNode k [v] :: l => if decide (N.of_nat k = vt) then Some v else find_slot vt l
  | _ => None
  end.

Definition toy_push (ty : field_type) (vt : N) (x : slot_value tree ty) (t : tree) : tree :=
  GenNode 3 (GenNode (N.to_nat vt) [to_tree ty x] :: slots_of t).

#[export] Instance toy_library : FlatBuffersLibrary := {|
  fb_table := tree;
  start_table := GenNode 3 [];
  push_slot_always := toy_push;
  push_slot ty vt x d t := if decide (to_tree ty x = to_tree ty d) then t else toy_push ty vt x t;
  table_get ty vt t := of_tree ty <$> find_slot vt (slots_of t);
  fbb_finish t := bits (encode t);
  fb_root _ b := decode (unbits b);
|}.

#[export] Instance toy_library_laws : FlatBuffersLaws.
Proof.
  refine {| conforms _ _ := True; verifiable _ := True |}; cbn [table_get start_table push_slot_always push_slot toy_library]; try done.
  - intros ty vt x t _. cbn. rewrite N2Nat.id, decide_True by done. cbn. by rewrite of_to_tree.
  - intros ty vt x t ty' vt' Hne. cbn. by rewrite N2Nat.id, decide_False.
  - intros ty vt d t. by rewrite decide_True.
  - intros ty vt x d t Hne. rewrite decide_False; [done|]. intros Heq. apply Hne.
    by rewrite <-(of_to_tree ty x), <-(of_to_tree ty d), Heq.
  - intros fields t _ _. cbn. by rewrite unbits_bits, decode_encode.
Defined.

(** A transaction of one instruction. *)
Definition program_key : Pubkey := vreplicate 32 x07.
Definition toy_transaction : ReplicaTransactionInfo :=
  mk_ReplicaTransactionInfo false [program_key] [mk_compiled_instruction 0 [] [x01]] false (Some []) (Some [(0%N, [mk_compiled_instruction 0 [0%N] [x02]])]).

Definition toy_config : MessengerConfig := {["redis_connection_str" := Some "redis://"]}.

Definition toy_env : PluginEnv :=
  mk_PluginEnv (Some "") true (Some (mk_PluginConfig toy_config None)).

Definition s0 : system (observed redis) :=
  mk_system (W:=observed redis) (mk_Plerkle true (Some AccountsSelector_default) (Some (mk_TransactionSelector ∅ true true)) true)
    [] [] (Starting toy_config) (∅, []).

Lemma s0_loaded : loaded (W:=observed redis) toy_env (∅, []) s0.
Proof. reflexivity. Qed.

Definition toy_calls : list callback := [NotifyTransaction toy_transaction 5].

Lemma toy_run : ∃ s m, run s0 toy_calls s ∧ worker s = Running m ∧ in_flight s = [] ∧
  sends s = [(mk_SerializedData TRANSACTION_STREAM (serialize_transaction toy_transaction 5), Ok tt)] ∧
  waiting (server s).1 TRANSACTION_STREAM = Some [("1-0", entry_fields (serialize_transaction toy_transaction 5))].
Proof.
  eexists _, _. split.
  { eapply run_internal; [eapply run_internal; [eapply run_internal;
      [eapply (run_call s0 []); [apply run_refl|]|]|]|].
    - reflexivity.
    - eapply step_connect; reflexivity.
    - eapply (step_deliver _ 0); [reflexivity|cbn; lia|done].
    - eapply step_serve; reflexivity. }
  split; [reflexivity|]. split; [reflexivity|]. split; vm_compute; reflexivity.
Qed.

Lemma plugin_delivers_selected_witness :
  ∃ s, run s0 toy_calls s ∧ worker s ≠ Stopped ∧ accepted (plugin s0) toy_calls ≡ₚ sent s ++ in_flight s ∧
    length (sent s) = 1.
Proof.
  destruct toy_run as (s & m & Hrun & Hwk & _ & Hsends & _). exists s. split; [exact Hrun|]. rewrite Hwk.
  destruct (plugin_delivers_selected toy_env ∅ s0 toy_calls s s0_loaded Hrun) as (_ & _ & Hall & _).
  split; [done|]. split; [apply Hall; by rewrite Hwk|]. unfold sent. by rewrite Hsends.
Defined.

Lemma transaction_filter_witness :
  let s := mk_system (W:=redis) (mk_Plerkle true None (Some (mk_TransactionSelector ∅ false true)) true) [] [] Stopped (∅ : groups) in
  ∃ b : bool, notify_transaction toy_transaction 5 s =
    (Ok tt, if b then (mk_system (plugin s)
                        (spawned s ++ [mk_SerializedData TRANSACTION_STREAM (serialize_transaction toy_transaction 5)])
                        (channel s) (worker s) (server s)) else s) ∧ b ≠ true.
Proof.
  intros s.
  destruct (transaction_filter s ["all_votes"] (mk_TransactionSelector ∅ false true) toy_transaction 5
    eq_refl eq_refl eq_refl eq_refl) as (b & Hrun & Hb).
  exists b. split; [exact Hrun|]. intros Htrue. apply Hb in Htrue as (_ & _ & [Hs|[Ha|[Hv _]]]).
  - apply list_elem_of_singleton in Hs. discriminate Hs.
  - apply list_elem_of_singleton in Ha. discriminate Ha.
  - apply Hv. by left.
Defined.

Lemma instructions_roundtrip_witness :
  order_instructions (E:=IngesterError) (transaction_table toy_transaction 5) = Ok (reported_instructions toy_transaction).
Proof.
  apply (instructions_roundtrip toy_transaction 5).
  - cbn. lia.
  - cbn. lia.
  - split.
    + repeat constructor. by eexists.
    + intros l [= <-]. repeat constructor. by eexists.
Defined.

Lemma validator_to_ingester_witness :
  ∃ s l rm' (w' : redis), receive (W:=redis) TRANSACTION_STREAM 1 (mk_RedisMessenger true ∅ [], (server s).1) = (Ok l, (rm', w')) ∧
    Forall2 message_of l [(toy_transaction, 5%N)].
Proof.
  destruct toy_run as (s & m & Hrun & Hwk & Hfl & Hsends & Hwait). exists s.
  assert (reported_transactions (plugin s0) toy_calls = [(toy_transaction, 5%N)]) as Hrep by reflexivity.
  destruct (validator_to_ingester toy_env ∅ s0 toy_calls s m (mk_RedisMessenger true ∅ []) s0_loaded Hrun Hwk Hfl)
    as (l & rm' & w' & Hrecv & _ & ts & Hts & Hmsgs).
  - unfold all_sent_ok. rewrite Hsends. by apply Forall_singleton.
  - intros t slot [= -> ->]%list_elem_of_singleton.
    split; [|exact I]. split; [done|]. split; [by repeat constructor|]. intros l [= <-]. by repeat constructor.
  - by left.
  - intros l Hl. rewrite Hwait in Hl. injection Hl as <-. apply Forall_singleton. by vm_compute; eexists.
  - reflexivity.
  - rewrite Hrep. cbn. lia.
  - exists l, rm', w'. rewrite Hrep in Hrecv, Hts. symmetry in Hts. apply Permutation_singleton_l in Hts as ->. by split.
Defined.

Definition toy_account : ReplicaAccountInfo := mk_ReplicaAccountInfo [x01] 7 [x02] false 3 [x03; x04] 9.

Definition toy_block : ReplicaBlockInfo :=
  mk_ReplicaBlockInfo 8 "hash" [mk_Reward "key" (-3) 40 (Some Voting) (Some 7%N)] (Some 100%Z) None.

Lemma serialized_tables_read_back_witness :
  (∃ fb, root_as_account_info (serialize_account toy_account 5 false) = Some fb ∧ reads_account fb toy_account 5 false) ∧
  (∃ fb, root_as_transaction_info (serialize_transaction toy_transaction 5) = Some fb ∧
     reads_transaction fb toy_transaction 5) ∧
  (∃ tb, root_as_slot_status_info (serialize_slot_status 8 (Some 7%N) Rooted) = Some tb ∧
    Status_variant_name (SlotStatusInfo_status tb) = Some "Rooted"%string) ∧
  ∃ tb, root_as_block_info (serialize_block toy_block) = Some tb ∧ reads_reported_block tb toy_block.
Proof.
  destruct serialized_tables_read_back as (Ha & Ht & Hs & Hb). split; [|split; [|split]].
  - apply Ha; [by vm_compute|exact I].
  - apply Ht; [|exact I]. split; [done|]. split; [by repeat constructor|]. intros l [= <-]. by repeat constructor.
  - destruct (Hs 8%N (Some 7%N) Rooted) as (tb & Htb & _ & _ & Hn); [split; [done|by intros p [= <-]]|exact I|].
    exists tb. split; [exact Htb|exact Hn].
  - apply Hb; [|exact I]. split; [done|]. split; [|by split; [intros t [= <-]|]].
    apply Forall_singleton. split; [done|]. split; [done|]. by intros c [= <-].
Defined.
End PToy.
