(* ===== verification/Bubblegum.v ===== *)
(** * Compressed NFTs: [contracts/programs/bubblegum/src/lib.rs]

    Each leaf of a tree is the hash of a schema that names the owner and the
    delegate of an NFT.  The handlers check who signs, rebuild the previous leaf
    from their arguments and ask the tree program to replace it: the tree's
    proof check is what authenticates the arguments.

    The state is that of one tree: its account, the nonce account that is also
    the tree's authority (a program-derived address), the vouchers of redeemed
    NFTs by address, the events, and the calls made to the token programs.  A
    call to the tree program runs its handler ([Gummyroll]); the other programs
    are parameters. *)

From S2P Require Import Prelude Hashing MerkleSpec ChangeLog MerkleRoll Solana Gummyroll LeafSchema.

Inductive b_custom :=
  | Bubblegum (e : BubblegumError)
  | FromGummyroll (e : g_error).

Abbreviation b_error := (ix_error b_custom).
Abbreviation b_outcome := (outcome b_error).

Inductive b_event :=
  | WrappedData (data : bytes)
  | LogNewNFT (e : NewNFTEvent)
  | LogLeaf (e : LeafSchemaEvent)
  | LogDecompression (e : NFTDecompressionEvent).

(** The calls of [decompress_v1] to the system, token and metadata programs. *)
Inductive token_cpi :=
  | CreateAccount (payer account : Pubkey) (rent space : N) (program : Pubkey) (seeds : list bytes)
  | InitializeMint2 (program mint authority : Pubkey) (decimals : N)
  | CreateAssociatedTokenAccount (payer wallet mint : Pubkey)
  | MintTo (program mint account authority : Pubkey) (amount : N) (seeds : list bytes)
  | CreateMetadataAccountsV2 (program metadata mint mint_authority payer update_authority : Pubkey)
      (name symbol uri : string) (creators : option (list Mpl.Creator)) (seller_fee_basis_points : N)
      (update_authority_is_signer is_mutable : bool) (collection : option Mpl.Collection)
      (uses : option Mpl.Uses) (seeds : list bytes)
  | CreateMasterEditionV3 (program edition mint update_authority mint_authority metadata payer : Pubkey)
      (max_supply : option N) (seeds : list bytes).

Record bstate := mk_bstate {
  slab : tree_account;
  nonce_account : option Nonce;
  vouchers : gmap Pubkey Voucher;
  logs : list b_event;
  cpis : list token_cpi;
}.

Abbreviation b_method := (method bstate b_error).

(** The serializations that the events and hashes use. *)
Class BubblegumCodec := {
  metadata_to_vec : MetadataArgs → bytes;
  new_nft_to_vec : NewNFTEvent → bytes;
  leaf_schema_to_vec : LeafSchema → bytes;
  node_to_vec : Node → bytes;
}.

(** The other programs: whether a call to them succeeds, and the rent. *)
Class TokenPrograms := {
  invoke_token : token_cpi → bool;
  minimum_balance : N → g_outcome N;
  spl_token_id : Pubkey;
  mint_len : N;
}.

Inductive InstructionName :=
  | IxUnknown | IxMintV1 | IxRedeem | IxCancelRedeem | IxTransfer | IxDelegate | IxDecompressV1
  | IxCompress | IxBurn.

(** ** The accounts of the instructions *)

Record CreateTree := mk_CreateTree {
  ct_authority : AccountInfo;
  ct_payer : AccountInfo;
  ct_tree_creator : AccountInfo;
  ct_candy_wrapper : AccountInfo;
  ct_gummyroll_program : AccountInfo;
  ct_merkle_slab : AccountInfo;
  ct_clock : g_outcome N;
}.

Record MintV1 := mk_MintV1 {
  mv_mint_authority : AccountInfo;
  mv_authority : AccountInfo;
  mv_candy_wrapper : AccountInfo;
  mv_gummyroll_program : AccountInfo;
  mv_owner : AccountInfo;
  mv_delegate : AccountInfo;
  mv_merkle_slab : AccountInfo;
}.

(** [Burn], and the fields that [Transfer], [Delegate] and [Redeem] share with it. *)
Record LeafAccounts := mk_LeafAccounts {
  la_authority : AccountInfo;
  la_candy_wrapper : AccountInfo;
  la_gummyroll_program : AccountInfo;
  la_owner : AccountInfo;
  la_delegate : AccountInfo;
  la_merkle_slab : AccountInfo;
  la_remaining : list Pubkey;
}.

Record Transfer := mk_Transfer {
  tr_leaf : LeafAccounts;
  tr_new_owner : AccountInfo;
}.

(** In [Delegate] the owner signs; [la_delegate] is [previous_delegate]. *)
Record Delegate := mk_Delegate {
  dg_leaf : LeafAccounts;
  dg_new_delegate : AccountInfo;
}.

Record Redeem := mk_Redeem {
  rd_leaf : LeafAccounts;
  rd_voucher : AccountInfo;
}.

Record CancelRedeem := mk_CancelRedeem {
  cr_authority : AccountInfo;
  cr_candy_wrapper : AccountInfo;
  cr_gummyroll_program : AccountInfo;
  cr_merkle_slab : AccountInfo;
  cr_voucher : AccountInfo;
  cr_owner : AccountInfo;
  cr_remaining : list Pubkey;
}.

Record DecompressV1 := mk_DecompressV1 {
  dc_voucher : AccountInfo;
  dc_owner : AccountInfo;
  dc_token_account : AccountInfo;
  dc_token_account_empty : bool;
  dc_mint : AccountInfo;
  dc_mint_empty : bool;
  dc_mint_authority : AccountInfo;
  dc_metadata : AccountInfo;
  dc_master_edition : AccountInfo;
  dc_token_metadata_program : AccountInfo;
}.

Section defs.
Context `{Keccak} `{BuildProfile} `{EventCodec} `{Pda} `{BubblegumCodec} `{TokenPrograms}.
Context (bubblegum_id gummyroll_id candy_wrapper_id token_metadata_id : Pubkey).

(** The authority of a tree, and the address of a voucher. *)
Definition authority_seeds (merkle_slab : Pubkey) : list bytes := [vec_to_list merkle_slab].

Definition authority_address (merkle_slab : Pubkey) : Pubkey :=
  (find_program_address (authority_seeds merkle_slab) bubblegum_id).1.

Definition voucher_address (merkle_slab : Pubkey) (nonce : N) : Pubkey :=
  (find_program_address [string_bytes VOUCHER_PREFIX; vec_to_list merkle_slab; to_le_bytes 8 nonce]
     bubblegum_id).1.

Definition mint_seeds (merkle_slab : Pubkey) (nonce : N) : list bytes :=
  [string_bytes ASSET_PREFIX; vec_to_list merkle_slab; to_le_bytes 8 nonce].

(** [Program<'info, T>]: the address is that of the program. *)
Definition program_is (acc : AccountInfo) (id : Pubkey) : bool := bool_decide (key acc = id).

(** The tree's account is the one of the state. *)
Definition slab_is (self : bstate) (acc : AccountInfo) : bool := bool_decide (key acc = tree_id (slab self)).

(** ** State and events *)
Definition set_slab (t : tree_account) (s : bstate) : bstate :=
  mk_bstate t (nonce_account s) (vouchers s) (logs s) (cpis s).
Definition set_nonce (n : option Nonce) (s : bstate) : bstate :=
  mk_bstate (slab s) n (vouchers s) (logs s) (cpis s).
Definition set_vouchers (v : gmap Pubkey Voucher) (s : bstate) : bstate :=
  mk_bstate (slab s) (nonce_account s) v (logs s) (cpis s).
Definition add_log (e : b_event) (s : bstate) : bstate :=
  mk_bstate (slab s) (nonce_account s) (vouchers s) (logs s ++ [e]) (cpis s).
Definition add_cpi (c : token_cpi) (s : bstate) : bstate :=
  mk_bstate (slab s) (nonce_account s) (vouchers s) (logs s) (cpis s ++ [c]).

Definition emit_log (e : b_event) : b_method unit := modify (add_log e).

Definition invoke (c : token_cpi) : b_method unit :=
  lift (require_that (invoke_token c) Runtime);;
  modify (add_cpi c).

(** A call to the tree program; its errors abort the transaction. *)
Definition call_gummyroll (m : g_method unit) : b_method unit := λ s,
  match m (slab s) with
  | (Ok _, t) => (Ok tt, set_slab t s)
  | (Err e, t) => (Err (Custom (FromGummyroll e)), set_slab t s)
  | (Panic, t) => (Panic, set_slab t s)
  | (OutOfFuel, t) => (OutOfFuel, set_slab t s)
  end.

(** [CpiContext::new_with_signer]: the runtime marks the authority as a signer
    when its address is the one derived from the seeds. *)
Definition pda_signer (acc : AccountInfo) (seeds : list bytes) : AccountInfo :=
  mk_AccountInfo (key acc)
    (is_signer acc || bool_decide (key acc = (find_program_address seeds bubblegum_id).1))
    (is_writable acc) (owner acc) (lamports acc).

(** [utils::replace_leaf] and [utils::append_leaf]. *)
Definition bubblegum_replace_leaf (seed : Pubkey) (authority' merkle_roll candy_wrapper : AccountInfo)
    (remaining : list Pubkey) (root_node previous_leaf new_leaf : Node) (index : N) : b_method unit :=
  let accs := mk_g_accounts merkle_roll (pda_signer authority' (authority_seeds seed)) authority'
                candy_wrapper remaining (Err Runtime) in
  call_gummyroll (replace_leaf candy_wrapper_id accs root_node previous_leaf new_leaf index).

Definition append_leaf (seed : Pubkey) (authority' append_authority' merkle_roll candy_wrapper : AccountInfo)
    (leaf_node : Node) : b_method unit :=
  let accs := mk_g_accounts merkle_roll (pda_signer authority' (authority_seeds seed)) append_authority'
                candy_wrapper [] (Err Runtime) in
  call_gummyroll (append_instruction candy_wrapper_id accs leaf_node).

Definition hash_metadata (metadata : MetadataArgs) : bytes32 := hashv [metadata_to_vec metadata].

(** [get_instruction_type]: the first eight bytes are the discriminator. *)
Definition get_instruction_type (full_bytes : list N) : b_outcome InstructionName :=
  if decide (8 ≤ length full_bytes) then
    Ok (match take 8 full_bytes with
        | [145; 98; 192; 118; 184; 147; 118; 104] => IxMintV1
        | [111; 76; 232; 50; 39; 175; 48; 242] => IxCancelRedeem
        | [184; 12; 86; 149; 70; 196; 97; 225] => IxRedeem
        | [163; 52; 200; 231; 140; 3; 69; 186] => IxTransfer
        | [90; 147; 75; 178; 85; 88; 4; 137] => IxDelegate
        | [54; 85; 76; 70; 228; 250; 164; 81] => IxDecompressV1
        | [116; 110; 29; 56; 107; 219; 42; 93] => IxBurn
        | [82; 193; 176; 117; 176; 21; 115; 253] => IxCompress
        | _ => IxUnknown
        end)%N
  else Panic.

(** ** Account constraints

    [init], [zero] and [mut] accounts are writable; an account that is closed is
    not the one that receives its lamports. *)

Definition CreateTree_ok (self : bstate) (accs : CreateTree) : b_outcome unit :=
  constraint (bool_decide (key (ct_authority accs) = authority_address (key (ct_merkle_slab accs))) &&
              bool_decide (nonce_account self = None) && slab_is self (ct_merkle_slab accs) &&
              is_writable (ct_authority accs) && is_writable (ct_merkle_slab accs) &&
              is_signer (ct_payer accs) && is_writable (ct_payer accs) && is_signer (ct_tree_creator accs) &&
              program_is (ct_candy_wrapper accs) candy_wrapper_id &&
              program_is (ct_gummyroll_program accs) gummyroll_id &&
              (max_buffer_size (header (slab self)) =? 0)%N && (max_depth (header (slab self)) =? 0)%N).

(** [Account<'info, Nonce>] at the derived address. *)
Definition authority_ok (self : bstate) (authority' merkle_slab : AccountInfo) : bool :=
  bool_decide (key authority' = authority_address (key merkle_slab)) &&
  bool_decide (is_Some (nonce_account self)) && slab_is self merkle_slab.

Definition MintV1_ok (self : bstate) (accs : MintV1) : b_outcome unit :=
  constraint (is_signer (mv_mint_authority accs) &&
              authority_ok self (mv_authority accs) (mv_merkle_slab accs) &&
              is_writable (mv_authority accs) && is_writable (mv_merkle_slab accs) &&
              program_is (mv_candy_wrapper accs) candy_wrapper_id &&
              program_is (mv_gummyroll_program accs) gummyroll_id).

Definition Burn_ok (self : bstate) (accs : LeafAccounts) : b_outcome unit :=
  constraint (authority_ok self (la_authority accs) (la_merkle_slab accs) &&
              is_writable (la_merkle_slab accs) &&
              program_is (la_candy_wrapper accs) candy_wrapper_id &&
              program_is (la_gummyroll_program accs) gummyroll_id).

Definition Transfer_ok (self : bstate) (accs : Transfer) : b_outcome unit := Burn_ok self (tr_leaf accs).

Definition Delegate_ok (self : bstate) (accs : Delegate) : b_outcome unit :=
  Burn_ok self (dg_leaf accs);;
  constraint (is_signer (la_owner (dg_leaf accs))).

(** The voucher of [Redeem] is created at its derived address. *)
Definition Redeem_ok (self : bstate) (accs : Redeem) (nonce : N) : b_outcome unit :=
  Burn_ok self (rd_leaf accs);;
  constraint (is_signer (la_owner (rd_leaf accs)) && is_writable (la_owner (rd_leaf accs)) &&
              is_writable (rd_voucher accs) &&
              bool_decide (key (rd_voucher accs) =
                           voucher_address (key (la_merkle_slab (rd_leaf accs))) nonce) &&
              bool_decide (vouchers self !! key (rd_voucher accs) = None)).

Definition CancelRedeem_ok (self : bstate) (accs : CancelRedeem) (voucher : Voucher) : b_outcome unit :=
  constraint (authority_ok self (cr_authority accs) (cr_merkle_slab accs) &&
              is_writable (cr_merkle_slab accs) &&
              program_is (cr_candy_wrapper accs) candy_wrapper_id &&
              program_is (cr_gummyroll_program accs) gummyroll_id &&
              bool_decide (key (cr_voucher accs) =
                           voucher_address (key (cr_merkle_slab accs)) (ls_nonce (leaf_schema voucher))) &&
              is_writable (cr_voucher accs) && negb (bool_decide (key (cr_voucher accs) = key (cr_owner accs))) &&
              is_signer (cr_owner accs) && is_writable (cr_owner accs)).

Definition DecompressV1_ok (accs : DecompressV1) (voucher : Voucher) : b_outcome unit :=
  let nonce := ls_nonce (leaf_schema voucher) in
  constraint (bool_decide (key (dc_voucher accs) = voucher_address (v_merkle_slab voucher) nonce) &&
              is_writable (dc_voucher accs) && negb (bool_decide (key (dc_voucher accs) = key (dc_owner accs))) &&
              is_signer (dc_owner accs) && is_writable (dc_owner accs) && is_writable (dc_token_account accs) &&
              is_writable (dc_mint accs) && is_writable (dc_metadata accs) &&
              is_writable (dc_master_edition accs) &&
              bool_decide (key (dc_mint accs) =
                (find_program_address (mint_seeds (v_merkle_slab voucher) nonce) bubblegum_id).1) &&
              bool_decide (key (dc_mint_authority accs) =
                (find_program_address [vec_to_list (key (dc_mint accs))] bubblegum_id).1) &&
              program_is (dc_token_metadata_program accs) token_metadata_id).

(** [Account<'info, Voucher>]: the account exists. *)
Definition load_voucher (self : bstate) (acc : AccountInfo) : b_outcome Voucher :=
  ok_or (vouchers self !! key acc) Constraint.

(** ** Instructions *)

Definition create_tree (accs : CreateTree) (max_depth' max_buffer_size' : N) : b_method unit :=
  self ← get;
  lift (CreateTree_ok self accs);;
  modify (set_nonce (Some (mk_Nonce 0)));;
  let seed := key (ct_merkle_slab accs) in
  let g_accs := mk_g_accounts (ct_merkle_slab accs)
    (pda_signer (ct_authority accs) (authority_seeds seed)) (ct_tree_creator accs)
    (ct_candy_wrapper accs) [] (ct_clock accs) in
  call_gummyroll (init_empty_gummyroll candy_wrapper_id g_accs max_depth' max_buffer_size').

Definition creator_bytes (c : Creator) : bytes := vec_to_list (cr_address c) ++ [byte_of_N (cr_share c)].

Definition mint_v1 (accs : MintV1) (message : MetadataArgs) : b_method unit :=
  self ← get;
  lift (MintV1_ok self accs);;
  nonce ← lift (ok_or (nonce_account self) Constraint);
  let owner := key (mv_owner accs) in
  let delegate := key (mv_delegate accs) in
  let merkle_slab := key (mv_merkle_slab accs) in
  let data_hash := hashv [metadata_to_vec message] in
  let creator_hash := hashv (creator_bytes <$> ma_creators message) in
  let asset_id := get_asset_id bubblegum_id merkle_slab (count nonce) in
  let leaf := new_v0 asset_id owner delegate (count nonce) data_hash creator_hash in
  let new_nft := mk_NewNFTEvent Version_V1 message (count nonce) in
  emit_log (LogNewNFT new_nft);;
  emit_log (WrappedData (new_nft_to_vec new_nft));;
  emit_log (LogLeaf (to_event leaf));;
  modify (set_nonce (Some (mk_Nonce (saturating_add 64 (count nonce) 1))));;
  append_leaf merkle_slab (mv_authority accs) (mv_mint_authority accs) (mv_merkle_slab accs)
    (mv_candy_wrapper accs) (to_node leaf).

(** The call to [replace_leaf] at the end of the handlers on a leaf. *)
Definition replace_with (accs : LeafAccounts) (root previous_leaf new_leaf : Node) (index : N) :
    b_method unit :=
  bubblegum_replace_leaf (key (la_merkle_slab accs)) (la_authority accs) (la_merkle_slab accs)
    (la_candy_wrapper accs) (la_remaining accs) root previous_leaf new_leaf index.

(** The leaf that the caller claims. *)
Definition claimed_leaf (accs : LeafAccounts) (nonce : N) (data_hash creator_hash : bytes32) : LeafSchema :=
  new_v0 (get_asset_id bubblegum_id (key (la_merkle_slab accs)) nonce) (key (la_owner accs))
    (key (la_delegate accs)) nonce data_hash creator_hash.

Definition transfer (accs : Transfer) (root : Node) (data_hash creator_hash : bytes32) (nonce index : N) :
    b_method unit :=
  self ← get;
  lift (Transfer_ok self accs);;
  let leaf_accs := tr_leaf accs in
  lift (rust_assert (is_signer (la_owner leaf_accs) || is_signer (la_delegate leaf_accs)));;
  let new_owner := key (tr_new_owner accs) in
  let asset_id := get_asset_id bubblegum_id (key (la_merkle_slab leaf_accs)) nonce in
  let previous_leaf := claimed_leaf leaf_accs nonce data_hash creator_hash in
  let new_leaf := new_v0 asset_id new_owner new_owner nonce data_hash creator_hash in
  emit_log (LogLeaf (to_event new_leaf));;
  replace_with leaf_accs root (to_node previous_leaf) (to_node new_leaf) index.

Definition delegate (accs : Delegate) (root : Node) (data_hash creator_hash : bytes32) (nonce index : N) :
    b_method unit :=
  self ← get;
  lift (Delegate_ok self accs);;
  let leaf_accs := dg_leaf accs in
  let asset_id := get_asset_id bubblegum_id (key (la_merkle_slab leaf_accs)) nonce in
  let previous_leaf := claimed_leaf leaf_accs nonce data_hash creator_hash in
  let new_leaf := new_v0 asset_id (key (la_owner leaf_accs)) (key (dg_new_delegate accs)) nonce
                    data_hash creator_hash in
  emit_log (WrappedData (leaf_schema_to_vec new_leaf));;
  emit_log (LogLeaf (to_event new_leaf));;
  replace_with leaf_accs root (to_node previous_leaf) (to_node new_leaf) index.

Definition burn (accs : LeafAccounts) (root : Node) (data_hash creator_hash : bytes32) (nonce index : N) :
    b_method unit :=
  self ← get;
  lift (Burn_ok self accs);;
  lift (rust_assert (is_signer (la_owner accs) || is_signer (la_delegate accs)));;
  let previous_leaf := claimed_leaf accs nonce data_hash creator_hash in
  emit_log (LogLeaf (to_event previous_leaf));;
  let new_leaf := EMPTY in
  emit_log (WrappedData (node_to_vec new_leaf));;
  replace_with accs root (to_node previous_leaf) new_leaf index.

Definition redeem (accs : Redeem) (root : Node) (data_hash creator_hash : bytes32) (nonce index : N) :
    b_method unit :=
  self ← get;
  lift (Redeem_ok self accs nonce);;
  let leaf_accs := rd_leaf accs in
  let previous_leaf := claimed_leaf leaf_accs nonce data_hash creator_hash in
  emit_log (LogLeaf (to_event previous_leaf));;
  let new_leaf := EMPTY in
  emit_log (WrappedData (node_to_vec new_leaf));;
  replace_with leaf_accs root (to_node previous_leaf) new_leaf index;;
  modify (λ s, set_vouchers
    (<[key (rd_voucher accs) := mk_Voucher previous_leaf index (key (la_merkle_slab leaf_accs))]>
      (vouchers s)) s).

(** The voucher is closed when the instruction ends ([close = owner]). *)
Definition cancel_redeem (accs : CancelRedeem) (root : Node) : b_method unit :=
  self ← get;
  voucher ← lift (load_voucher self (cr_voucher accs));
  lift (CancelRedeem_ok self accs voucher);;
  lift (assert_pubkey_equal Bubblegum (key (cr_owner accs)) (ls_owner (leaf_schema voucher))
          (Some (Custom (Bubblegum AssetOwnerMismatch))));;
  emit_log (LogLeaf (to_event (leaf_schema voucher)));;
  emit_log (WrappedData (leaf_schema_to_vec (leaf_schema voucher)));;
  bubblegum_replace_leaf (key (cr_merkle_slab accs)) (cr_authority accs) (cr_merkle_slab accs)
    (cr_candy_wrapper accs) (cr_remaining accs) root EMPTY (to_node (leaf_schema voucher))
    (v_index voucher);;
  modify (λ s, set_vouchers (delete (key (cr_voucher accs)) (vouchers s)) s).

(** The token-program part of [decompress_v1]. *)
Definition mint_token (accs : DecompressV1) (voucher : Voucher) : b_method unit :=
  (if dc_mint_empty accs then
     rent ← lift (map_err (λ _, Runtime) (minimum_balance mint_len));
     invoke (CreateAccount (key (dc_owner accs)) (key (dc_mint accs)) rent mint_len spl_token_id
               (mint_seeds (v_merkle_slab voucher) (ls_nonce (leaf_schema voucher))));;
     invoke (InitializeMint2 spl_token_id (key (dc_mint accs)) (key (dc_mint_authority accs)) 0)
   else mret tt);;
  (if dc_token_account_empty accs then
     invoke (CreateAssociatedTokenAccount (key (dc_owner accs)) (key (dc_owner accs)) (key (dc_mint accs)))
   else mret tt);;
  invoke (MintTo spl_token_id (key (dc_mint accs)) (key (dc_token_account accs))
            (key (dc_mint_authority accs)) 1 [vec_to_list (key (dc_mint accs))]).

(** The token-metadata part of [decompress_v1]. *)
Definition create_metadata (accs : DecompressV1) (metadata : MetadataArgs) : b_method unit :=
  let seeds := [vec_to_list (key (dc_mint accs))] in
  invoke (CreateMetadataAccountsV2 (key (dc_token_metadata_program accs)) (key (dc_metadata accs))
            (key (dc_mint accs)) (key (dc_mint_authority accs)) (key (dc_owner accs))
            (key (dc_mint_authority accs)) (ma_name metadata) (ma_symbol metadata) (ma_uri metadata)
            (if decide (0 < length (ma_creators metadata))
             then Some (Creator_adapt <$> ma_creators metadata) else None)
            (ma_seller_fee_basis_points metadata) true (ma_is_mutable metadata)
            (match ma_collection metadata with Some c => Some (Collection_adapt c) | None => None end)
            (match ma_uses metadata with Some u => Some (Uses_adapt u) | None => None end) seeds);;
  invoke (CreateMasterEditionV3 (key (dc_token_metadata_program accs)) (key (dc_master_edition accs))
            (key (dc_mint accs)) (key (dc_mint_authority accs)) (key (dc_mint_authority accs))
            (key (dc_metadata accs)) (key (dc_owner accs)) (Some 0%N) seeds).

Definition decompress_v1 (accs : DecompressV1) (metadata : MetadataArgs) : b_method unit :=
  self ← get;
  voucher ← lift (load_voucher self (dc_voucher accs));
  lift (DecompressV1_ok accs voucher);;
  let incoming_data_hash := hash_metadata metadata in
  let schema := leaf_schema voucher in
  if negb (cmp_bytes (vec_to_list (ls_data_hash schema)) (vec_to_list incoming_data_hash) 32)
  then lift (Err (Custom (Bubblegum HashingMismatch)))
  else if negb (cmp_pubkeys (ls_owner schema) (key (dc_owner accs)))
  then lift (Err (Custom (Bubblegum AssetOwnerMismatch)))
  else
    let event := mk_NFTDecompressionEvent Version_V1
      (get_asset_id bubblegum_id (v_merkle_slab voucher) (ls_nonce schema)) (v_merkle_slab voucher)
      (ls_nonce schema) in
    match ma_token_program_version metadata with
    | Original => mint_token accs voucher
    | Token2022 => lift (Err Runtime)
    end;;
    create_metadata accs metadata;;
    emit_log (LogDecompression event);;
    modify (λ s, set_vouchers (delete (key (dc_voucher accs)) (vouchers s)) s).

(** [compress] does nothing yet. *)
Definition compress : b_method unit := mret tt.
End defs.
