(* ===== verification/AssetStore.v ===== *)
(** * Ingesting assets: [nft_ingester/src/parsers/bubblegum.rs] and [tasks]

    A successful instruction of the compressed-NFT program has logged its leaf; the
    ingester stores the change logs of the tree and, in the same transaction, the
    row of the asset.  A mint also queues the download of the metadata, which a
    background task stores when it has the body.

    Borsh decoding of the arguments of a mint and the HTTP client are parameters. *)

From S2P Require Import Prelude Hashing Solana Gummyroll LeafSchema Bubblegum Database Text.
From S2P Require Import ChangeLogStore ProgramLogs.

(** [bubblegum::instruction::MintV1::deserialize]: the arguments of a mint. *)
Class MintArguments := { MintV1_deserialize : bytes → option MetadataArgs }.

(** [reqwest::get(uri)] and the JSON of its body. *)
Class HttpClient := { fetch_json : string → option bytes }.

(** ** The adapters of [digital_asset_types] *)

(** [ts as u8] and [TokenStandard::from_u8]. *)
Definition TokenStandard_as_u8 (ts : TokenStandard) : N :=
  match ts with NonFungible => 0 | FungibleAsset => 1 | Fungible => 2 | NonFungibleEdition => 3 end.

Definition TokenStandard_from_u8 (n : N) : option TokenStandard :=
  match n with
  | 0 => Some NonFungible | 1 => Some FungibleAsset | 2 => Some Fungible | 3 => Some NonFungibleEdition
  | _ => None
  end%N.

Definition UseMethod_as_u8 (u : UseMethod) : N :=
  match u with UseBurn => 0 | UseMultiple => 1 | UseSingle => 2 end.

Definition UseMethod_from_u8 (n : N) : option UseMethod :=
  match n with 0 => Some UseBurn | 1 => Some UseMultiple | 2 => Some UseSingle | _ => None end%N.

Section defs.
Context `{Keccak} `{BuildProfile} `{Faults} `{LogSyntax} `{Base58} `{MintArguments} `{HttpClient}.
Context `{EventDecoder ChangeLogEvent} `{EventDecoder LeafSchemaEvent} `{EventDecoder NFTDecompressionEvent}.

(** ** Background tasks *)

Definition set_metadata (metadata : json_value) (row : asset_data_row) : asset_data_row :=
  mk_asset_data_row (ad_chain_data_mutability row) (ad_schema_version row) (ad_chain_data row)
    (ad_metadata_url row) (ad_metadata_mutability row) metadata.

Definition DownloadMetadata_task (self : DownloadMetadata) : i_method unit :=
  body ← lift (ok_or (fetch_json (dm_uri self)) (IngesterError_from ReqwestError));
  updated ← execute_as TaskManagerError (λ d,
    match asset_datas (tbl d) !! dm_asset_data_id self with
    | Some row =>
        let datas := <[dm_asset_data_id self := set_metadata (JsonBody body) row]> (asset_datas (tbl d)) in
        (true, set_tables (set_asset_datas datas (tbl d)) d)
    | None => (false, d)
    end);
  lift (if updated || negb missing_update_fails then Ok tt else Err TaskManagerError).

(** One turn of the loop of [TaskManager::new]: the next task of the channel; its
    error is printed. *)
Definition run_next_task : i_method unit := λ d,
  match task_queue d with
  | [] => (Ok tt, d)
  | data :: q => (_ ← attempt (DownloadMetadata_task data); mret tt) (set_task_queue q d)
  end.

(** [task_manager.send]. *)
Definition send_task (t : DownloadMetadata) : i_method unit := λ d,
  if receiver_closed then (Err (IngesterError_from SendError), d)
  else (Ok tt, set_task_queue (task_queue d ++ [t]) d).

(** ** Rows of an asset *)

(** [update_asset]: the columns that are not set keep their values. *)
Definition update_asset (id : Pubkey) (model : asset_row → asset_row) : i_method unit :=
  updated ← execute (λ d,
    match assets (tbl d) !! id with
    | Some row => (true, set_tables (set_assets (<[id := model row]> (assets (tbl d))) (tbl d)) d)
    | None => (false, d)
    end);
  lift (if updated || negb missing_update_fails then Ok tt else Err (IngesterError_from DbError)).

Definition set_leaf_owner (leaf : option bytes) (owner : bytes) (delegate : option bytes) (r : asset_row) :
    asset_row :=
  mk_asset_row (as_specification_version r) owner (as_owner_type r) delegate (as_frozen r)
    (as_supply r) (as_supply_mint r) (as_compressed r) (as_compressible r) (as_tree_id r) leaf (as_nonce r)
    (as_royalty_target_type r) (as_royalty_target r) (as_royalty_amount r) (as_chain_data_id r) (as_burnt r).

(** The [ActiveModel]s of the handlers. *)
Definition transfer_model (schema : LeafSchema) (r : asset_row) : asset_row :=
  set_leaf_owner (Some (vec_to_list (to_node schema))) (vec_to_list (ls_owner schema)) None r.

Definition delegate_model (schema : LeafSchema) (r : asset_row) : asset_row :=
  set_leaf_owner (Some (vec_to_list (to_node schema))) (as_owner r) (Some (vec_to_list (ls_delegate schema))) r.

Definition leaf_model (leaf : bytes) (r : asset_row) : asset_row :=
  set_leaf_owner (Some leaf) (as_owner r) (as_delegate r) r.

Definition burn_model (r : asset_row) : asset_row :=
  mk_asset_row (as_specification_version r) (as_owner r) (as_owner_type r) (as_delegate r) (as_frozen r)
    (as_supply r) (as_supply_mint r) (as_compressed r) (as_compressible r) (as_tree_id r) (as_leaf r) (as_nonce r)
    (as_royalty_target_type r) (as_royalty_target r) (as_royalty_amount r) (as_chain_data_id r) true.

Definition decompress_model (id : Pubkey) (r : asset_row) : asset_row :=
  mk_asset_row (as_specification_version r) (as_owner r) (as_owner_type r) (as_delegate r) (as_frozen r)
    1 (Some (vec_to_list id)) false false (as_tree_id r) None (as_nonce r)
    (as_royalty_target_type r) (as_royalty_target r) (as_royalty_amount r) (as_chain_data_id r) (as_burnt r).

(** ** Events *)
Definition get_leaf_event (logs : list string) : outcome IngesterError LeafSchemaEvent := get_bubblegum_event logs.
Definition get_decompress_event (logs : list string) : outcome IngesterError NFTDecompressionEvent :=
  get_bubblegum_event logs.

(** [tree_change_only]. *)
Definition tree_change_only (slot : N) (logs : list string) : i_method unit :=
  events ← lift (get_gummy_roll_events logs);
  store_events events slot.

(** What [Transfer], [Delegate], [Burn], [Redeem] and [CancelRedeem] share. *)
Definition leaf_change (slot : N) (logs : list string) (model : LeafSchema → asset_row → asset_row) :
    i_method unit :=
  gummy_roll_events ← lift (get_gummy_roll_events logs);
  leaf_event ← lift (get_leaf_event logs);
  transaction (
    save_changelog_events gummy_roll_events slot;;
    update_asset (ls_id (lse_schema leaf_event)) (model (lse_schema leaf_event))).

(** ** The rows that a mint inserts *)
Definition chain_data_of {E} (metadata : MetadataArgs) : outcome E ChainDataV1 :=
  uses ← (match ma_uses metadata with
          | Some u => m ← unwrap (UseMethod_from_u8 (UseMethod_as_u8 (use_method u)));
                      Ok (Some (mk_Uses m (uses_remaining u) (uses_total u)))
          | None => Ok None
          end);
  Ok (mk_ChainDataV1 (ma_name metadata) (ma_symbol metadata) (ma_edition_nonce metadata)
        (ma_primary_sale_happened metadata)
        (ts ← ma_token_standard metadata; TokenStandard_from_u8 (TokenStandard_as_u8 ts)) uses).

Definition asset_data_of (metadata : MetadataArgs) (chain_data : ChainDataV1) : asset_data_row :=
  mk_asset_data_row (if ma_is_mutable metadata then ChainMutable else ChainImmutable) 1 chain_data
    (ma_uri metadata) Mutable (JsonString "processing").

Definition minted_row (metadata : MetadataArgs) (schema : LeafSchema) (owner delegate merkle_slab : bytes)
    (data_id : Z) : asset_row :=
  mk_asset_row 1 owner OwnerSingle (if decide (owner = delegate) then None else Some delegate) false 1 None
    true false (Some merkle_slab) (Some (vec_to_list (to_node schema))) (as_i64 (ls_nonce schema))
    RoyaltyCreators None (as_i32 (ma_seller_fee_basis_points metadata)) (Some data_id) false.

Definition creator_rows (id : Pubkey) (creators : list Creator) : list creator_row :=
  (λ c, mk_creator_row id (cr_address c) (as_i32 (cr_share c)) (cr_verified c)) <$> creators.

Definition insert_asset_data (row : asset_data_row) : i_method Z :=
  execute (λ d,
    let id := next_asset_data_id d in
    (id, mk_db (set_asset_datas (<[id := row]> (asset_datas (tbl d))) (tbl d)) (next_backfill_id d) (id + 1)%Z
           (executed d) (task_queue d))).

(** The primary key: the row of an asset is inserted once. *)
Definition insert_asset (id : Pubkey) (row : asset_row) : i_method unit :=
  inserted ← execute (λ d,
    match assets (tbl d) !! id with
    | Some _ => (false, d)
    | None => (true, set_tables (set_assets (<[id := row]> (assets (tbl d))) (tbl d)) d)
    end);
  lift (if inserted : bool then Ok tt else Err (IngesterError_from DbError)).

Definition insert_creators (id : Pubkey) (creators : list Creator) : i_method unit :=
  if decide (0 < length creators)
  then update_tables (λ t, set_asset_creators (asset_creators t ++ creator_rows id creators) t)
  else mret tt.

Definition insert_authority (id : Pubkey) (update_authority : bytes) : i_method unit :=
  update_tables (λ t, set_asset_authorities (asset_authorities t ++ [mk_authority_row id None update_authority]) t).

Definition insert_grouping (id : Pubkey) (collection : option Collection) : i_method unit :=
  match collection with
  | Some c =>
      if col_verified c
      then update_tables (λ t, set_asset_groupings (asset_groupings t ++
             [mk_grouping_row id "collection" (bs58_encode (vec_to_list (col_key c)))]) t)
      else mret tt
  | None => mret tt
  end.

(** The transaction of a mint; it returns the id of the row of the metadata. *)
Definition insert_minted (metadata : MetadataArgs) (schema : LeafSchema)
    (update_authority owner delegate merkle_slab : bytes) : i_method Z :=
  chain_data ← lift (chain_data_of metadata);
  data_id ← insert_asset_data (asset_data_of metadata chain_data);
  insert_asset (ls_id schema) (minted_row metadata schema owner delegate merkle_slab data_id);;
  insert_creators (ls_id schema) (ma_creators metadata);;
  insert_authority (ls_id schema) update_authority;;
  insert_grouping (ls_id schema) (ma_collection metadata);;
  mret data_id.

(** [bytes_from_fb_table(keys, accounts\[i\] as usize)]. *)
Definition account_bytes {E} (keys : list (option bytes)) (accounts : list N) (i : N) : outcome E bytes :=
  a ← Prelude.index accounts i; bytes_from_fb_table keys a.

Definition handle_mint (instruction : CompiledInstruction) (slot : N) (logs : list string)
    (keys : list (option bytes)) : i_method unit :=
  gummy_roll_events ← lift (get_gummy_roll_events logs);
  leaf_event ← lift (get_leaf_event logs);
  data ← lift (unwrap (cx_data instruction));
  data ← lift (Prelude.slice data 8 (N.of_nat (length data)));
  message ← lift (unwrap (MintV1_deserialize data));
  accounts ← lift (unwrap (cx_accounts instruction));
  update_authority ← lift (account_bytes keys accounts 0);
  owner ← lift (account_bytes keys accounts 4);
  delegate ← lift (account_bytes keys accounts 5);
  merkle_slab ← lift (account_bytes keys accounts 6);
  asset_data_id ← transaction (
    save_changelog_events gummy_roll_events slot;;
    insert_minted message (lse_schema leaf_event) update_authority owner delegate merkle_slab);
  send_task (mk_DownloadMetadata asset_data_id (ma_uri message)).

Definition handle_decompress (logs : list string) : i_method unit :=
  decompress_event ← lift (get_decompress_event logs);
  transaction (
    match dec_version decompress_event with
    | Version_V1 => update_asset (dec_id decompress_event) (decompress_model (dec_id decompress_event))
    end).

Definition handle_bubblegum_instruction (instruction : CompiledInstruction) (slot : N) (logs : list string)
    (keys : list (option bytes)) : i_method unit :=
  data ← lift (unwrap (cx_data instruction));
  ix_type ← lift (map_err (λ _, NotImplemented) (get_instruction_type (Strings.Byte.to_N <$> data)));
  match ix_type with
  | IxTransfer => leaf_change slot logs transfer_model
  | IxBurn => leaf_change slot logs (λ _, burn_model)
  | IxDelegate => leaf_change slot logs delegate_model
  | IxMintV1 => handle_mint instruction slot logs keys
  | IxRedeem => leaf_change slot logs (λ _, leaf_model (replicate 32 x00))
  | IxCancelRedeem => leaf_change slot logs (λ schema, leaf_model (vec_to_list (to_node schema)))
  | IxDecompressV1 => handle_decompress logs
  | _ => mret tt
  end.

(** [BubblegumHandler], as the stream sees it. *)
Definition BubblegumHandler (id : Pubkey) : ProgramHandler :=
  mk_ProgramHandler id false true
    (λ bundle, handle_bubblegum_instruction (ib_instruction bundle) (ib_slot bundle) (ib_instruction_logs bundle)
                 (ib_keys bundle))
    (λ _, mret tt).

(** [GummyRollHandler], and its [handle_gummyroll_instruction]. *)
Definition handle_gummyroll_instruction (logs : list string) (slot : N) : i_method unit :=
  events ← lift (get_gummy_roll_events logs);
  store_events events slot.

Definition GummyRollHandler (id : Pubkey) : ProgramHandler :=
  mk_ProgramHandler id false true
    (λ bundle, handle_gummyroll_instruction (ib_instruction_logs bundle) (ib_slot bundle))
    (λ _, mret tt).

(** [setup_manager]: the two parsers. *)
Definition setup_manager (BubblegumProgramID GummyRollProgramID : Pubkey) (manager : ProgramHandlerManager) :
    ProgramHandlerManager :=
  register_parser (register_parser manager (BubblegumHandler BubblegumProgramID))
    (GummyRollHandler GummyRollProgramID).
End defs.
