(* ===== verification/BubblegumLedger.v ===== *)
(** * The ledger that the compressed-NFT program keeps

    The abstract state is a ledger: which NFT each leaf holds, the vouchers of
    redeemed NFTs, and the next nonce.  An operation of the program that succeeds
    is a step of the ledger, which says who must have signed; the invariant of
    the ledger is that an NFT exists once. *)

From S2P Require Import Prelude Hashing MerkleSpec ChangeLog MerkleRoll MerkleRollSpec.
From S2P Require Import MerkleRollLemmas MerkleRollWrite MerkleRollAppend MerkleRollInit.
From S2P Require Import MerkleRollTheorems Solana Gummyroll GummyrollCanopy GummyrollTheorems.
From S2P Require Import GummyrollSound LeafSchema Bubblegum.

Record ledger := mk_ledger {
  l_leaves : gmap N LeafSchema;
  l_vouchers : gmap Pubkey Voucher;
  l_next : N;
}.

Definition set_owner (new_owner new_delegate : Pubkey) (l : LeafSchema) : LeafSchema :=
  new_v0 (ls_id l) new_owner new_delegate (ls_nonce l) (ls_data_hash l) (ls_creator_hash l).

(** What a step tells the outside: the leaf that it wrote, or removed. *)
Inductive ledger_event :=
  | Minted (l : LeafSchema)
  | Transferred (l : LeafSchema)
  | Delegated (l : LeafSchema)
  | Burnt (l : LeafSchema)
  | Redeemed (l : LeafSchema)
  | Restored (l : LeafSchema)
  | Decompressed (l : LeafSchema).

Section steps.
Context (voucher_at asset_at : N → Pubkey) (minter : Pubkey) (signed : Pubkey → Prop).

Inductive ledger_step : ledger → ledger_event → ledger → Prop :=
  | step_mint L V n i l :
      L !! i = None → signed minter → ls_nonce l = n → ls_id l = asset_at n →
      ledger_step (mk_ledger L V n) (Minted l) (mk_ledger (<[i:=l]> L) V (saturating_add 64 n 1))
  | step_transfer L V n i l new_owner :
      L !! i = Some l → signed (ls_owner l) ∨ signed (ls_delegate l) →
      ledger_step (mk_ledger L V n) (Transferred (set_owner new_owner new_owner l))
        (mk_ledger (<[i:=set_owner new_owner new_owner l]> L) V n)
  | step_delegate L V n i l new_delegate :
      L !! i = Some l → signed (ls_owner l) →
      ledger_step (mk_ledger L V n) (Delegated (set_owner (ls_owner l) new_delegate l))
        (mk_ledger (<[i:=set_owner (ls_owner l) new_delegate l]> L) V n)
  | step_burn L V n i l :
      L !! i = Some l → signed (ls_owner l) ∨ signed (ls_delegate l) →
      ledger_step (mk_ledger L V n) (Burnt l) (mk_ledger (delete i L) V n)
  | step_redeem L V n i l slab :
      L !! i = Some l → signed (ls_owner l) → V !! voucher_at (ls_nonce l) = None →
      ledger_step (mk_ledger L V n) (Redeemed l)
        (mk_ledger (delete i L) (<[voucher_at (ls_nonce l) := mk_Voucher l i slab]> V) n)
  | step_cancel L V n v :
      V !! voucher_at (ls_nonce (leaf_schema v)) = Some v → signed (ls_owner (leaf_schema v)) →
      L !! v_index v = None →
      ledger_step (mk_ledger L V n) (Restored (leaf_schema v))
        (mk_ledger (<[v_index v := leaf_schema v]> L) (delete (voucher_at (ls_nonce (leaf_schema v))) V) n)
  | step_decompress L V n v :
      V !! voucher_at (ls_nonce (leaf_schema v)) = Some v → signed (ls_owner (leaf_schema v)) →
      ledger_step (mk_ledger L V n) (Decompressed (leaf_schema v))
        (mk_ledger L (delete (voucher_at (ls_nonce (leaf_schema v))) V) n).

(** An NFT exists once: its nonce is held by one leaf or one voucher, and is below
    the next nonce. *)
Record ledger_inv (l : ledger) : Prop := mk_ledger_inv {
  li_bound : ∀ i s, l_leaves l !! i = Some s → (ls_nonce s < l_next l)%N;
  li_unique : ∀ i j s t, l_leaves l !! i = Some s → l_leaves l !! j = Some t →
    ls_nonce s = ls_nonce t → i = j;
  li_voucher : ∀ k v, l_vouchers l !! k = Some v →
    k = voucher_at (ls_nonce (leaf_schema v)) ∧ (ls_nonce (leaf_schema v) < l_next l)%N;
  li_apart : ∀ k v i s, l_vouchers l !! k = Some v → l_leaves l !! i = Some s →
    ls_nonce s ≠ ls_nonce (leaf_schema v);
}.

Lemma ledger_inv_empty : ledger_inv (mk_ledger ∅ ∅ 0).
Proof. split; simpl; intros *; by rewrite ?lookup_empty. Qed.

(** Leaves whose nonces are those of a sub-ledger keep the invariant: replacing a
    leaf by one with the same nonce. *)
Lemma ledger_inv_update L V n i l l' :
  ledger_inv (mk_ledger L V n) → L !! i = Some l → ls_nonce l' = ls_nonce l →
  ledger_inv (mk_ledger (<[i:=l']> L) V n).
Proof.
  intros [Hb Hu Hv Ha] Hi Hn. split; simpl in *; [| |done|].
  - intros j s Hj. apply lookup_insert_Some in Hj as [[<- <-]|[_ Hj]]; [rewrite Hn|]; eauto.
  - intros j k s t Hj Hk Heq.
    apply lookup_insert_Some in Hj as [[<- <-]|[Hji Hj]];
      apply lookup_insert_Some in Hk as [[<- <-]|[Hki Hk]]; try done; eauto.
    + rewrite Hn in Heq. eauto.
    + rewrite Hn in Heq. symmetry. eauto.
  - intros k v j s Hk Hj. apply lookup_insert_Some in Hj as [[<- <-]|[_ Hj]]; [rewrite Hn|]; eauto.
Qed.

Lemma ledger_inv_delete L V n i :
  ledger_inv (mk_ledger L V n) → ledger_inv (mk_ledger (delete i L) V n).
Proof.
  intros [Hb Hu Hv Ha]. split; simpl in *; [| |done|].
  - intros j s [_ Hj]%lookup_delete_Some. eauto.
  - intros j k s t [_ Hj]%lookup_delete_Some [_ Hk]%lookup_delete_Some. eauto.
  - intros k v j s Hk [_ Hj]%lookup_delete_Some. eauto.
Qed.

Lemma ledger_inv_insert L V n i l :
  ledger_inv (mk_ledger L V n) → (ls_nonce l < n)%N →
  (∀ j s, L !! j = Some s → ls_nonce s ≠ ls_nonce l) →
  (∀ k v, V !! k = Some v → ls_nonce l ≠ ls_nonce (leaf_schema v)) →
  ledger_inv (mk_ledger (<[i:=l]> L) V n).
Proof.
  intros [Hb Hu Hv Ha] Hn Hfresh HfreshV. split; simpl in *; [| |done|].
  - intros j s Hj. apply lookup_insert_Some in Hj as [[<- <-]|[_ Hj]]; eauto.
  - intros j k s t Hj Hk Heq.
    apply lookup_insert_Some in Hj as [[<- <-]|[Hji Hj]];
      apply lookup_insert_Some in Hk as [[<- <-]|[Hki Hk]]; try done; eauto.
    + by destruct (Hfresh k t).
    + by destruct (Hfresh j s).
  - intros k v j s Hk Hj. apply lookup_insert_Some in Hj as [[<- <-]|[_ Hj]]; eauto.
Qed.

Lemma ledger_inv_vouchers L V n k :
  ledger_inv (mk_ledger L V n) → ledger_inv (mk_ledger L (delete k V) n).
Proof.
  intros [Hb Hu Hv Ha]. split; simpl in *; [done|done| |].
  - intros k' v [_ Hk]%lookup_delete_Some. eauto.
  - intros k' v j s [_ Hk]%lookup_delete_Some. eauto.
Qed.

(** Every step of the ledger preserves the invariant, as long as fewer than
    [2^64 - 1] NFTs were minted. *)
Lemma ledger_inv_step l e l' :
  ledger_step l e l' → ledger_inv l → (l_next l < 2 ^ 64 - 1)%N → ledger_inv l'.
Proof.
  intros Hstep Hinv Hmax. destruct Hstep as [L V n i l Hi _ Hn _|L V n i l no Hi _|L V n i l nd Hi _
    |L V n i l Hi _|L V n i l slab Hi _ HV|L V n v HV _ Hi|L V n v HV _]; simpl in Hmax.
  - rewrite saturating_add_small by lia. apply ledger_inv_insert; [|lia|..].
    + destruct Hinv as [Hb Hu Hv Ha]. split; simpl in *; [| done| |done].
      * intros j s Hj. apply Hb in Hj. lia.
      * intros k v Hk. apply Hv in Hk as [? ?]. split; [done|lia].
    + intros j s Hj. apply (li_bound _ Hinv) in Hj. simpl in Hj. lia.
    + intros k v Hk. apply (li_voucher _ Hinv) in Hk as [_ Hk]. simpl in Hk. lia.
  - by eapply ledger_inv_update.
  - by eapply ledger_inv_update.
  - by apply ledger_inv_delete.
  - pose proof (ledger_inv_delete _ _ _ i Hinv) as [Hb Hu Hv Ha]. split; simpl in *; [done|done| |].
    + intros k v Hk. apply lookup_insert_Some in Hk as [[<- <-]|[_ Hk]]; [|eauto].
      split; [done|]. by apply (li_bound _ Hinv i).
    + intros k v j s Hk Hj. apply lookup_insert_Some in Hk as [[<- <-]|[_ Hk]]; [|eauto].
      simpl. intros Heq. apply lookup_delete_Some in Hj as [Hne Hj].
      apply Hne. symmetry. by eapply (li_unique _ Hinv).
  - apply ledger_inv_insert.
    + by apply ledger_inv_vouchers.
    + by apply (li_voucher _ Hinv _ _ HV).
    + intros j s Hj. by apply (li_apart _ Hinv _ _ j s HV).
    + intros k v' [Hne Hk]%lookup_delete_Some Heq.
      apply Hne. rewrite Heq. symmetry. by apply (li_voucher _ Hinv).
  - by apply ledger_inv_vouchers.
Qed.
End steps.

(** ** The program and the ledger *)

Inductive b_op :=
  | OpMint (accs : MintV1) (message : MetadataArgs)
  | OpTransfer (accs : Transfer) (root : Node) (data_hash creator_hash : bytes32) (nonce index : N)
  | OpDelegate (accs : Delegate) (root : Node) (data_hash creator_hash : bytes32) (nonce index : N)
  | OpBurn (accs : LeafAccounts) (root : Node) (data_hash creator_hash : bytes32) (nonce index : N)
  | OpRedeem (accs : Redeem) (root : Node) (data_hash creator_hash : bytes32) (nonce index : N)
  | OpCancelRedeem (accs : CancelRedeem) (root : Node)
  | OpDecompress (accs : DecompressV1) (metadata : MetadataArgs).

(** The step that an operation stands for: its kind, and the accounts it names. *)
Definition step_of (o : b_op) (e : ledger_event) : Prop :=
  match o, e with
  | OpMint accs _, Minted l => ls_owner l = key (mv_owner accs) ∧ ls_delegate l = key (mv_delegate accs)
  | OpTransfer accs _ _ _ _ _, Transferred l => ls_owner l = key (tr_new_owner accs)
  | OpDelegate accs _ _ _ _ _, Delegated l => ls_delegate l = key (dg_new_delegate accs)
  | OpBurn _ _ _ _ _ _, Burnt _ | OpRedeem _ _ _ _ _ _, Redeemed _ => True
  | OpCancelRedeem accs _, Restored l => ls_owner l = key (cr_owner accs)
  | OpDecompress accs _, Decompressed l => ls_owner l = key (dc_owner accs)
  | _, _ => False
  end.

(** The accounts whose signatures matter to an operation. *)
Definition signing_accounts (o : b_op) : list AccountInfo :=
  match o with
  | OpMint accs _ => [mv_mint_authority accs]
  | OpTransfer accs _ _ _ _ _ => [la_owner (tr_leaf accs); la_delegate (tr_leaf accs)]
  | OpDelegate accs _ _ _ _ _ => [la_owner (dg_leaf accs)]
  | OpBurn accs _ _ _ _ _ => [la_owner accs; la_delegate accs]
  | OpRedeem accs _ _ _ _ _ => [la_owner (rd_leaf accs)]
  | OpCancelRedeem accs _ => [cr_owner accs]
  | OpDecompress accs _ => [dc_owner accs]
  end.

Definition signed_in (o : b_op) (k : Pubkey) : Prop :=
  ∃ acc, acc ∈ signing_accounts o ∧ is_signer acc = true ∧ key acc = k.

Definition leaf_of `{Keccak} (L : gmap N LeafSchema) (i : N) : Node :=
  match L !! i with Some l => to_node l | None => EMPTY end.

(** The events that the handlers log about a leaf, and the one of a step. *)
Definition announces (e : b_event) : bool :=
  match e with LogLeaf _ | LogDecompression _ => true | _ => false end.

Definition event_log `{Keccak} (tree : Pubkey) (asset_at : N → Pubkey) (e : ledger_event) : b_event :=
  match e with
  | Minted l | Transferred l | Delegated l | Burnt l | Redeemed l | Restored l => LogLeaf (to_event l)
  | Decompressed l =>
      LogDecompression (mk_NFTDecompressionEvent Version_V1 (asset_at (ls_nonce l)) tree (ls_nonce l))
  end.

Section program.
Context `{Keccak} `{BuildProfile} `{EventCodec} `{Pda} `{BubblegumCodec} `{TokenPrograms}.
Context (bubblegum_id gummyroll_id candy_wrapper_id token_metadata_id : Pubkey).
Context (d : nat) (B : N) (p : nat).
Implicit Types (s : bstate) (a : aroll) (l : LeafSchema) (i : N).

Definition run_b (o : b_op) : b_method unit :=
  match o with
  | OpMint accs message =>
      mint_v1 bubblegum_id gummyroll_id candy_wrapper_id accs message
  | OpTransfer accs root dh ch nonce index =>
      transfer bubblegum_id gummyroll_id candy_wrapper_id accs root dh ch nonce index
  | OpDelegate accs root dh ch nonce index =>
      delegate bubblegum_id gummyroll_id candy_wrapper_id accs root dh ch nonce index
  | OpBurn accs root dh ch nonce index =>
      burn bubblegum_id gummyroll_id candy_wrapper_id accs root dh ch nonce index
  | OpRedeem accs root dh ch nonce index =>
      redeem bubblegum_id gummyroll_id candy_wrapper_id accs root dh ch nonce index
  | OpCancelRedeem accs root =>
      cancel_redeem bubblegum_id gummyroll_id candy_wrapper_id accs root
  | OpDecompress accs metadata => decompress_v1 bubblegum_id token_metadata_id accs metadata
  end.

(** A schema as the program makes them: its nonce is a [u64], its hash is no
    empty leaf. *)
Definition sane l : Prop := (ls_nonce l < 2 ^ 64)%N ∧ to_node l ≠ EMPTY.

Record b_rep s a (L : ledger) : Prop := mk_b_rep {
  br_acct : acct_rep (slab s) d B p a;
  br_leaves : ∀ i, leaf_at (a_tree a) i = leaf_of (l_leaves L) i;
  br_vouchers : vouchers s = l_vouchers L;
  br_next : nonce_account s = Some (mk_Nonce (l_next L));
  br_sane : ∀ i l, l_leaves L !! i = Some l → sane l;
  br_sane_voucher : ∀ k v, l_vouchers L !! k = Some v →
    sane (leaf_schema v) ∧ v_merkle_slab v = tree_id (slab s) ∧ (v_index v < 2 ^ 32)%N;
}.

(** No accident of the hash in the replacement of a leaf: the checked proof and
    the claimed schema collide with nothing that the tree holds, and no node of
    the new path is zero. *)
Definition fair_replace s a (L : ledger) (remaining : list Pubkey) (root : Node)
    (claimed : option LeafSchema) (new : option LeafSchema) (i : N) : Prop :=
  let prev := match claimed with Some l => to_node l | None => EMPTY end in
  let new' := match new with Some l => to_node l | None => EMPTY end in
  (i < 2 ^ 32)%N ∧
  find_collision (a_tree a) 0 prev (checked_proof (slab s) remaining root prev i) i = None ∧
  nonzero_path (<[i:=new']> (a_tree a)) d i ∧
  match claimed with
  | Some c => sane c ∧ ∀ l, l_leaves L !! i = Some l → ¬ is_collision (leaf_slices c, leaf_slices l)
  | None => True
  end ∧
  match new with Some n => sane n | None => True end.

(** The leaf of the claimed schema, in the ledger. *)
Lemma claimed_in_ledger s a L c i :
  b_rep s a L → leaf_at (a_tree a) i = to_node c → sane c →
  (∀ l, l_leaves L !! i = Some l → ¬ is_collision (leaf_slices c, leaf_slices l)) →
  l_leaves L !! i = Some c.
Proof.
  intros HR Hleaf [Hn Hne] Hcol. rewrite (br_leaves _ _ _ HR) in Hleaf. unfold leaf_of in Hleaf.
  destruct (l_leaves L !! i) as [l|] eqn:Hl; [|by rewrite Hleaf in Hne].
  destruct (br_sane _ _ _ HR _ _ Hl) as [Hnl _].
  destruct (to_node_binding c l) as [->|Hc]; [done|done|done|done|]. by destruct (Hcol l).
Qed.

Lemma empty_in_ledger s a L i :
  b_rep s a L → leaf_at (a_tree a) i = EMPTY → l_leaves L !! i = None.
Proof.
  intros HR Hleaf. rewrite (br_leaves _ _ _ HR) in Hleaf. unfold leaf_of in Hleaf.
  destruct (l_leaves L !! i) as [l|] eqn:Hl; [|done].
  by destruct (br_sane _ _ _ HR _ _ Hl).
Qed.

(** The call to the tree program at the end of the handlers on leaves. *)
Lemma bubblegum_replace_sound s s' a L au mr cw seed remaining root claimed new i u :
  b_rep s a L → fair_replace s a L remaining root claimed new i →
  bubblegum_replace_leaf bubblegum_id candy_wrapper_id seed au mr cw remaining root
    (match claimed with Some l => to_node l | None => EMPTY end)
    (match new with Some l => to_node l | None => EMPTY end) i s = (Ok u, s') →
  l_leaves L !! i = claimed ∧
  (∃ t, s' = set_slab t s ∧ tree_id t = tree_id (slab s)) ∧
  ∃ a', tree_moved d B (slab s) (slab s') a a' ∧
    b_rep s' a' (mk_ledger (match new with Some n => <[i:=n]> (l_leaves L) | None => delete i (l_leaves L) end)
                   (l_vouchers L) (l_next L)).
Proof.
  intros HR (Hi & Hfc & Hnz & Hclaim & Hnew) Hrun.
  unfold bubblegum_replace_leaf, call_gummyroll in Hrun.
  destruct (replace_leaf _ _ _ _ _ _ _) as [[[]|e| |] t] eqn:Hreplace; try done.
  injection Hrun as _ <-.
  destruct (replace_leaf_sound _ _ _ _ d B p a _ _ _ _ _ (br_acct _ _ _ HR) Hi Hreplace Hfc Hnz)
    as (Hid & Hleaf & HA & Htid & Hpub).
  destruct (supported_sizes d B (ar_supported _ _ _ _ _ (br_acct _ _ _ HR))) as [Hsizes _].
  split; [|split; [by exists t|]].
  - destruct claimed as [c|]; [|by eapply empty_in_ledger].
    destruct Hclaim as [Hs Hcol]. by eapply claimed_in_ledger.
  - eexists. split; [right; by eexists _, _|]. split; simpl.
    + exact HA.
    + intros j. rewrite (a_tree_write d B Hsizes). unfold leaf_of.
      destruct (decide (i = j)) as [<-|Hne].
      * rewrite leaf_at_insert. destruct new; [by rewrite lookup_insert_eq|by rewrite lookup_delete_eq].
      * rewrite leaf_at_insert_ne by done. rewrite (br_leaves _ _ _ HR). unfold leaf_of.
        by destruct new; [rewrite lookup_insert_ne|rewrite lookup_delete_ne].
    + apply HR.
    + apply HR.
    + intros j l Hj. destruct new.
      * apply lookup_insert_Some in Hj as [[<- <-]|[_ Hj]]; [done|by eapply (br_sane _ _ _ HR)].
      * apply lookup_delete_Some in Hj as [_ Hj]. by eapply (br_sane _ _ _ HR).
    + rewrite Htid. apply (br_sane_voucher _ _ _ HR).
Qed.
End program.
