(* ===== verification/BubblegumTheorems.v ===== *)
(** * The theorems on the compressed-NFT program

    Each operation that succeeds is a step of the ledger, authorised by the right
    signature. *)

From S2P Require Import Prelude Hashing MerkleSpec ChangeLog MerkleRoll MerkleRollSpec.
From S2P Require Import MerkleRollLemmas MerkleRollWrite MerkleRollAppend MerkleRollInit.
From S2P Require Import MerkleRollTheorems Solana Gummyroll GummyrollCanopy GummyrollTheorems.
From S2P Require Import GummyrollSound LeafSchema Bubblegum BubblegumLedger.

Section theorems.
Context `{Keccak} `{BuildProfile} `{EventCodec} `{Pda} `{BubblegumCodec} `{TokenPrograms}.
Context (bubblegum_id gummyroll_id candy_wrapper_id token_metadata_id : Pubkey).
Context (d : nat) (B : N) (p : nat).
Implicit Types (s : bstate) (a : aroll) (l : LeafSchema) (i : N).

Abbreviation run o := (run_b bubblegum_id gummyroll_id candy_wrapper_id token_metadata_id o).
Abbreviation rep := (b_rep d B p).

(** The leaf that [mint_v1] appends. *)
Definition minted_leaf (accs : MintV1) (message : MetadataArgs) (n : N) : LeafSchema :=
  new_v0 (get_asset_id bubblegum_id (key (mv_merkle_slab accs)) n) (key (mv_owner accs))
    (key (mv_delegate accs)) n (hashv [metadata_to_vec message])
    (hashv (creator_bytes <$> ma_creators message)).

(** The operation meets no accident of the hash. *)
Definition no_accident s a (L : ledger) (o : b_op) : Prop :=
  match o with
  | OpMint accs message =>
      let leaf := minted_leaf accs message (l_next L) in
      sane leaf ∧ nonzero_path (<[a_count a:=to_node leaf]> (a_tree a)) d (a_count a)
  | OpTransfer accs root dh ch nonce i =>
      let c := claimed_leaf bubblegum_id (tr_leaf accs) nonce dh ch in
      let o := key (tr_new_owner accs) in
      fair_replace d s a L (la_remaining (tr_leaf accs)) root (Some c) (Some (set_owner o o c)) i
  | OpDelegate accs root dh ch nonce i =>
      let c := claimed_leaf bubblegum_id (dg_leaf accs) nonce dh ch in
      fair_replace d s a L (la_remaining (dg_leaf accs)) root (Some c)
        (Some (set_owner (ls_owner c) (key (dg_new_delegate accs)) c)) i
  | OpBurn accs root dh ch nonce i =>
      fair_replace d s a L (la_remaining accs) root (Some (claimed_leaf bubblegum_id accs nonce dh ch)) None i
  | OpRedeem accs root dh ch nonce i =>
      fair_replace d s a L (la_remaining (rd_leaf accs)) root
        (Some (claimed_leaf bubblegum_id (rd_leaf accs) nonce dh ch)) None i
  | OpCancelRedeem accs root =>
      ∀ v, vouchers s !! key (cr_voucher accs) = Some v →
        fair_replace d s a L (cr_remaining accs) root None (Some (leaf_schema v)) (v_index v)
  | OpDecompress _ _ => True
  end.

(** Events, and calls to other programs, do not matter to the ledger. *)
Lemma b_rep_same s s' a L :
  slab s' = slab s → nonce_account s' = nonce_account s → vouchers s' = vouchers s →
  rep s a L → rep s' a L.
Proof.
  intros Hs Hn Hv [HA Hl Hvs Hnx Hsn Hsv]. split; [by rewrite Hs|done|by rewrite Hv|by rewrite Hn|done|].
  by rewrite Hs.
Qed.

Lemma fair_replace_same s s' a L remaining root c n i :
  slab s' = slab s → fair_replace d s a L remaining root c n i → fair_replace d s' a L remaining root c n i.
Proof. intros Hs. unfold fair_replace. by rewrite Hs. Qed.

Lemma invoke_state c s u s' :
  invoke c s = (Ok u, s') → slab s' = slab s ∧ nonce_account s' = nonce_account s ∧ vouchers s' = vouchers s.
Proof. unfold invoke. intros Hrun. inv_method. done. Qed.

(** [inv_method] with the calls of this program. *)
Ltac inv_b :=
  repeat (inv_method; match goal with
  | H : emit_log _ _ = (Ok _, _) |- _ => unfold emit_log in H
  | H : constraint _ = Ok _ |- _ => apply constraint_inv in H
  | H : ok_or ?o _ = Ok _ |- _ =>
      let Ho := fresh "Ho" in destruct o eqn:Ho; cbn [ok_or] in H; [injection H as <-|discriminate H]
  | H : invoke _ _ = (Ok _, _) |- _ => apply invoke_state in H as (? & ? & ?)
  | H : (if ?b then _ else _) _ = (Ok _, _) |- _ => let Hb := fresh "Hb" in destruct b eqn:Hb
  | H : assert_pubkey_equal _ _ _ _ = Ok _ |- _ =>
      unfold assert_pubkey_equal in H;
      let Hb := fresh "Hb" in destruct (cmp_pubkeys _ _) eqn:Hb; [|discriminate H];
      apply cmp_pubkeys_spec in Hb; clear H
  | H : negb _ = false |- _ => apply negb_false_iff in H
  | H : cmp_pubkeys _ _ = true |- _ => apply cmp_pubkeys_spec in H
  end); inv_method.

Lemma signed_or (o : b_op) (x y : AccountInfo) :
  is_signer x || is_signer y = true → signing_accounts o = [x; y] →
  signed_in o (key x) ∨ signed_in o (key y).
Proof.
  intros Hs Ho. apply orb_true_iff in Hs as [Hs|Hs]; [left|right]; eexists; rewrite Ho;
    (split; [|by split]); set_solver.
Qed.

Lemma signed_one (o : b_op) (x : AccountInfo) :
  is_signer x = true → signing_accounts o = [x] → signed_in o (key x).
Proof. intros Hs Ho. exists x. rewrite Ho. split; [set_solver|done]. Qed.

Abbreviation voucher_at s := (voucher_address bubblegum_id (tree_id (slab s))).
Abbreviation asset_at s := (get_asset_id bubblegum_id (tree_id (slab s))).

(** What [s'] logged after [s]. *)
Definition logged (s s' : bstate) (e : b_event) : Prop :=
  ∃ new, logs s' = logs s ++ new ∧ filter announces new = [e].

Lemma logged_of s s' new e : logs s' = logs s ++ new → filter announces new = [e] → logged s s' e.
Proof. by exists new. Qed.

Lemma logged_vouchers s s' v e : logged s s' e → logged s (set_vouchers v s') e.
Proof. done. Qed.

(** [logged], when the final logs are those of the state [s] with events added. *)
Ltac solve_logged :=
  try apply logged_vouchers; eapply logged_of; [repeat match goal with H : logs _ = _ |- _ => rewrite H end; simpl; rewrite <-?app_assoc; reflexivity|done].

Definition simulated s' a (L : ledger) (s : bstate) (o : b_op) : Prop :=
  ∃ e L' a', step_of o e ∧ ledger_step (voucher_at s) (asset_at s) (append_authority (header (slab s))) (signed_in o) L e L' ∧ rep s' a' L' ∧
    tree_id (slab s') = tree_id (slab s) ∧ logged s s' (event_log (tree_id (slab s)) (asset_at s) e) ∧
    tree_moved d B (slab s) (slab s') a a'.

(** A mint that succeeds: the tree gets the leaf at its next index. *)
Lemma mint_Ok s s' a L accs message u :
  rep s a L → no_accident s a L (OpMint accs message) → run (OpMint accs message) s = (Ok u, s') →
  let leaf := minted_leaf accs message (l_next L) in
  l_leaves L !! a_count a = None ∧ signed_in (OpMint accs message) (append_authority (header (slab s))) ∧
  tree_id (slab s') = tree_id (slab s) ∧
  ls_id leaf = asset_at s (l_next L) ∧ logged s s' (LogLeaf (to_event leaf)) ∧
  tree_moved d B (slab s) (slab s') a (a_write B a (a_count a) (to_node leaf)) ∧
  rep s' (a_write B a (a_count a) (to_node leaf))
    (mk_ledger (<[a_count a:=leaf]> (l_leaves L)) (l_vouchers L) (saturating_add 64 (l_next L) 1)).
Proof.
  intros HR [Hsane Hnz] Hrun leaf. cbn [run_b] in Hrun. unfold mint_v1, MintV1_ok, authority_ok, slab_is in Hrun. inv_b.
  match goal with H : key (mv_merkle_slab _) = tree_id _ |- _ => rename H into Hslab end.
  unfold append_leaf, call_gummyroll in Hrun. cbn [slab add_log set_nonce] in Hrun.
  destruct (append_instruction _ _ _ _) as [[[]|e| |] t] eqn:Happ; try done. injection Hrun as _ <-.
  pose proof (br_next _ _ _ _ _ _ HR) as Hnext.
  match goal with Ho : nonce_account s = Some ?n |- _ => rewrite Hnext in Ho; injection Ho as <- end.
  cbn [count] in *. fold (minted_leaf accs message (l_next L)) in Happ. fold leaf in Happ.
  destruct (append_sound _ _ _ _ d B p a _ _ (br_acct _ _ _ _ _ _ HR) Happ Hnz)
    as (Hv & Hcount & HA & Htid & Hminter & Hsigner & Hpub).
  destruct (supported_sizes d B (ar_supported _ _ _ _ _ (br_acct _ _ _ _ _ _ HR))) as [Hsizes _].
  destruct (ar_data _ _ _ _ _ (br_acct _ _ _ _ _ _ HR)) as (roll & c & _ & Hroll & _).
  split; [|split; [exists (mv_mint_authority accs); split_and!; [by left|exact Hsigner|by symmetry]|split; [exact Htid|split; [|split; [|split]]]]].
  { eapply empty_in_ledger; [exact HR|]. rewrite <-(rep_count _ _ _ _ Hroll).
    apply (rep_rmp _ _ _ _ Hroll). lia. }
  { unfold leaf, minted_leaf. simpl. by rewrite Hslab. }
  { solve_logged. }
  { right. by eexists _, _. }
  split; simpl.
  - exact HA.
  - intros j. rewrite (a_tree_write d B Hsizes). unfold leaf_of. cbn [l_leaves].
    destruct (decide (a_count a = j)) as [<-|Hne].
    + by rewrite leaf_at_insert, lookup_insert_eq.
    + rewrite leaf_at_insert_ne, lookup_insert_ne by done. by apply (br_leaves _ _ _ _ _ _ HR).
  - by apply (br_vouchers _ _ _ _ _ _ HR).
  - done.
  - intros j l Hj. apply lookup_insert_Some in Hj as [[<- <-]|[_ Hj]]; [done|].
    by eapply (br_sane _ _ _ _ _ _ HR).
  - rewrite Htid. apply (br_sane_voucher _ _ _ _ _ _ HR).
Qed.

Lemma mint_simulated s s' a L accs message u :
  rep s a L → no_accident s a L (OpMint accs message) → run (OpMint accs message) s = (Ok u, s') →
  simulated s' a L s (OpMint accs message).
Proof.
  intros HR Hfair Hrun. destruct (mint_Ok _ _ _ _ _ _ _ HR Hfair Hrun) as (Hfree & Hsigned & Htid & Hid & Hlog & Hmoved & HR').
  destruct L as [L V n]. eexists (Minted (minted_leaf accs message n)), _, _. split; [done|].
  split; [|split; [exact HR'|split; [exact Htid|by split]]].
  by apply (step_mint _ _ _ _ L V n (a_count a)).
Qed.

(** The handlers that replace a claimed leaf: the call at their end, made in a
    state that differs from the first one by events. *)
Lemma replace_with_sound s s1 s' a L accs root c n i u :
  rep s a L → slab s1 = slab s → nonce_account s1 = nonce_account s → vouchers s1 = vouchers s →
  fair_replace d s a L (la_remaining accs) root (Some c) n i →
  replace_with bubblegum_id candy_wrapper_id accs root (to_node c)
    (match n with Some l => to_node l | None => EMPTY end) i s1 = (Ok u, s') →
  l_leaves L !! i = Some c ∧ tree_id (slab s') = tree_id (slab s) ∧ vouchers s' = vouchers s ∧
  logs s' = logs s1 ∧
  ∃ a', tree_moved d B (slab s) (slab s') a a' ∧
    rep s' a' (mk_ledger (match n with Some l => <[i:=l]> (l_leaves L) | None => delete i (l_leaves L) end)
                 (l_vouchers L) (l_next L)).
Proof.
  intros HR Hs Hn Hv Hfair Hrun. unfold replace_with in Hrun.
  pose proof (b_rep_same s s1 a L Hs Hn Hv HR) as HR1.
  pose proof (fair_replace_same s s1 _ _ _ _ _ _ _ Hs Hfair) as Hfair1.
  destruct (bubblegum_replace_sound bubblegum_id candy_wrapper_id d B p s1 s' a L _ _ _ _ _ _ (Some c) n i u
    HR1 Hfair1 Hrun) as (Hl & (t & -> & Htid) & a' & Hmoved & HR').
  split; [done|]. split; [simpl; by rewrite Htid, Hs|]. split; [done|]. split; [done|].
  exists a'. by rewrite <-Hs at 1.
Qed.

(** A transfer that succeeds. *)
Lemma transfer_Ok s s' a L accs root dh ch nonce i u :
  let o := OpTransfer accs root dh ch nonce i in
  let c := claimed_leaf bubblegum_id (tr_leaf accs) nonce dh ch in
  let no := key (tr_new_owner accs) in
  rep s a L → no_accident s a L o →
  transfer bubblegum_id gummyroll_id candy_wrapper_id accs root dh ch nonce i s = (Ok u, s') →
  l_leaves L !! i = Some c ∧ (signed_in o (ls_owner c) ∨ signed_in o (ls_delegate c)) ∧
  tree_id (slab s') = tree_id (slab s) ∧ logged s s' (LogLeaf (to_event (set_owner no no c))) ∧
  ∃ a', tree_moved d B (slab s) (slab s') a a' ∧
    rep s' a' (mk_ledger (<[i:=set_owner no no c]> (l_leaves L)) (l_vouchers L) (l_next L)).
Proof.
  intros o c no HR Hfair Hrun. subst o c no. cbn [no_accident] in *.
  unfold transfer, Transfer_ok, Burn_ok in Hrun. inv_b.
  eapply (replace_with_sound _ _ _ _ _ _ _ _ (Some (set_owner (key (tr_new_owner accs)) (key (tr_new_owner accs))
      (claimed_leaf bubblegum_id (tr_leaf accs) nonce dh ch))))
    in Hrun as (Hl & Htid & _ & Hlog & HR'); [|exact HR|done|done|done|exact Hfair].
  split; [done|]. split; [|split; [done|split; [solve_logged|done]]].
  match goal with H : _ || _ = true |- _ => by apply (signed_or _ _ _ H) end.
Qed.

Lemma transfer_simulated s s' a L accs root dh ch nonce i u :
  let o := OpTransfer accs root dh ch nonce i in
  rep s a L → no_accident s a L o → run o s = (Ok u, s') → simulated s' a L s o.
Proof.
  intros o HR Hfair Hrun. destruct (transfer_Ok _ _ _ _ _ _ _ _ _ _ _ HR Hfair Hrun) as (Hl & Hs & Htid & Hlog & a' & Hmoved & HR').
  destruct L as [L V n]. eexists (Transferred (set_owner (key (tr_new_owner accs)) (key (tr_new_owner accs))
    (claimed_leaf bubblegum_id (tr_leaf accs) nonce dh ch))), _, a'. split; [done|].
  split; [|split; [exact HR'|split; [done|by split]]].
  by apply (step_transfer _ _ _ _ L V n i).
Qed.

(** A delegation that succeeds. *)
Lemma delegate_Ok s s' a L accs root dh ch nonce i u :
  let o := OpDelegate accs root dh ch nonce i in
  let c := claimed_leaf bubblegum_id (dg_leaf accs) nonce dh ch in
  rep s a L → no_accident s a L o →
  delegate bubblegum_id gummyroll_id candy_wrapper_id accs root dh ch nonce i s = (Ok u, s') →
  l_leaves L !! i = Some c ∧ signed_in o (ls_owner c) ∧ tree_id (slab s') = tree_id (slab s) ∧
  logged s s' (LogLeaf (to_event (set_owner (ls_owner c) (key (dg_new_delegate accs)) c))) ∧
  ∃ a', tree_moved d B (slab s) (slab s') a a' ∧
    rep s' a' (mk_ledger (<[i:=set_owner (ls_owner c) (key (dg_new_delegate accs)) c]> (l_leaves L))
                 (l_vouchers L) (l_next L)).
Proof.
  intros o c HR Hfair Hrun. subst o c. cbn [no_accident] in *.
  unfold delegate, Delegate_ok, Burn_ok in Hrun. inv_b.
  eapply (replace_with_sound _ _ _ _ _ _ _ _ (Some (set_owner (key (la_owner (dg_leaf accs))) (key (dg_new_delegate accs))
      (claimed_leaf bubblegum_id (dg_leaf accs) nonce dh ch))))
    in Hrun as (Hl & Htid & _ & Hlog & HR'); [|exact HR|done|done|done|exact Hfair].
  split; [done|]. split; [|split; [done|split; [solve_logged|done]]]. by apply (signed_one _ (la_owner (dg_leaf accs))).
Qed.

Lemma delegate_simulated s s' a L accs root dh ch nonce i u :
  let o := OpDelegate accs root dh ch nonce i in
  rep s a L → no_accident s a L o → run o s = (Ok u, s') → simulated s' a L s o.
Proof.
  intros o HR Hfair Hrun. destruct (delegate_Ok _ _ _ _ _ _ _ _ _ _ _ HR Hfair Hrun) as (Hl & Hs & Htid & Hlog & a' & Hmoved & HR').
  destruct L as [L V n]. eexists (Delegated (set_owner (key (la_owner (dg_leaf accs))) (key (dg_new_delegate accs))
    (claimed_leaf bubblegum_id (dg_leaf accs) nonce dh ch))), _, a'. split; [done|].
  split; [|split; [exact HR'|split; [done|by split]]].
  by apply (step_delegate _ _ _ _ L V n i).
Qed.

Lemma burn_simulated s s' a L accs root dh ch nonce i u :
  let o := OpBurn accs root dh ch nonce i in
  rep s a L → no_accident s a L o → run o s = (Ok u, s') → simulated s' a L s o.
Proof.
  intros o HR Hfair Hrun. subst o. cbn [run_b no_accident] in *. unfold burn, Burn_ok in Hrun. inv_b.
  eapply (replace_with_sound _ _ _ _ _ _ _ _ None) in Hrun as (Hl & Htid & _ & Hlog & a' & Hmoved & HR');
    [|exact HR|done|done|done|exact Hfair].
  destruct L as [L V n]. cbn [l_leaves l_vouchers l_next] in *.
  eexists (Burnt _), _, a'. split; [done|].
  split; [|split; [exact HR'|split; [done|split; [solve_logged|exact Hmoved]]]].
  apply (step_burn _ _ _ _ L V n i _ Hl).
  match goal with H : _ || _ = true |- _ => by apply (signed_or _ _ _ H) end.
Qed.

Lemma redeem_simulated s s' a L accs root dh ch nonce i u :
  let o := OpRedeem accs root dh ch nonce i in
  rep s a L → no_accident s a L o → run o s = (Ok u, s') → simulated s' a L s o.
Proof.
  intros o HR Hfair Hrun. subst o. cbn [run_b no_accident] in *.
  unfold redeem, Redeem_ok, Burn_ok, authority_ok, slab_is in Hrun. inv_b.
  match goal with H : replace_with _ _ _ _ _ _ _ _ = _ |- _ => rename H into Hrep end.
  eapply (replace_with_sound _ _ _ _ _ _ _ _ None) in Hrep as (Hl & Htid & Hvs & Hlog & a' & Hmoved & HR');
    [|exact HR|done|done|done|exact Hfair].
  destruct L as [L V n]. cbn [l_leaves l_vouchers l_next] in *.
  destruct Hfair as (Hi32 & _ & _ & [Hsane _] & _).
  match goal with H : key (la_merkle_slab _) = tree_id _ |- _ => rename H into Hslab end.
  match goal with H : key (rd_voucher _) = _ |- _ => rename H into Hvk end.
  match goal with H : vouchers s !! _ = None |- _ => rename H into Hfree end.
  rewrite Hslab in Hvk.
  eexists (Redeemed _), _, a'. split; [done|].
  split; [|split; [|split; [|split; [|exact Hmoved]]]].
  - apply (step_redeem _ _ _ _ L V n i _ (key (la_merkle_slab (rd_leaf accs))) Hl).
    + by apply (signed_one _ (la_owner (rd_leaf accs))).
    + pose proof (br_vouchers _ _ _ _ _ _ HR) as HV. cbn [l_vouchers] in HV.
      rewrite <-HV. cbn [claimed_leaf new_v0 ls_nonce]. by rewrite <-Hvk.
  - destruct HR' as [HA' Hleaves' Hv' Hn' Hsn' Hsv']. split; simpl in *; try done.
    + by rewrite Hvk, Hv'.
    + intros k v Hk. apply lookup_insert_Some in Hk as [[<- <-]|[_ Hk]]; [|by apply (Hsv' k)].
      simpl. split; [done|]. split; [by rewrite Htid, Hslab|done].
  - exact Htid.
  - solve_logged.
Qed.

Lemma cancel_simulated s s' a L accs root u :
  let o := OpCancelRedeem accs root in
  rep s a L → no_accident s a L o → run o s = (Ok u, s') → simulated s' a L s o.
Proof.
  intros o HR Hfair Hrun. subst o. cbn [run_b no_accident] in *.
  unfold cancel_redeem, load_voucher, CancelRedeem_ok, authority_ok, slab_is in Hrun. inv_b.
  match goal with H : vouchers s !! _ = Some ?v |- _ => rename H into Hv, v into voucher end.
  specialize (Hfair voucher eq_refl).
  match goal with H : bubblegum_replace_leaf _ _ _ _ _ _ _ _ _ _ _ ?s1 = _ |- _ =>
    rename H into Hrep; pose proof (b_rep_same s s1 a L eq_refl eq_refl eq_refl HR) as HR1;
    pose proof (fair_replace_same s s1 _ _ _ _ _ _ _ eq_refl Hfair) as Hfair1 end.
  destruct (bubblegum_replace_sound bubblegum_id candy_wrapper_id d B p _ _ a L _ _ _ _ _ _ None
    (Some (leaf_schema voucher)) (v_index voucher) _ HR1 Hfair1 Hrep) as (Hl & (t & -> & Htid) & a' & Hmoved & HR').
  destruct L as [L V n]. cbn [l_leaves l_vouchers l_next] in *.
  match goal with H : key (cr_merkle_slab _) = tree_id _ |- _ => rename H into Hslab end.
  match goal with H : key (cr_voucher _) = _ |- _ => rename H into Hvk end.
  match goal with H : key (cr_owner _) = ls_owner _ |- _ => rename H into Howner end.
  rewrite Hslab in Hvk. simpl in Htid.
  eexists (Restored (leaf_schema voucher)), _, a'. split; [done|].
  split; [|split; [|split; [|split; [|exact Hmoved]]]].
  - apply (step_cancel _ _ _ _ L V n voucher); [| |exact Hl].
    + rewrite <-Hvk. by rewrite (br_vouchers _ _ _ _ _ _ HR) in Hv.
    + rewrite <-Howner. by apply (signed_one _ (cr_owner accs)).
  - destruct HR' as [HA' Hleaves' Hv' Hn' Hsn' Hsv']. split; simpl in *; try done.
    + by rewrite Hvk, Hv'.
    + intros k v [_ Hk]%lookup_delete_Some. by apply (Hsv' k).
  - exact Htid.
  - solve_logged.
Qed.

(** ** Decompression *)

(** What the calls to other programs leave unchanged, and the calls themselves. *)
Definition only_cpis (s s' : bstate) (calls : list token_cpi) : Prop :=
  slab s' = slab s ∧ nonce_account s' = nonce_account s ∧ vouchers s' = vouchers s ∧ logs s' = logs s ∧
  cpis s' = cpis s ++ calls.

Lemma invoke_only c s u s' : invoke c s = (Ok u, s') → only_cpis s s' [c].
Proof. unfold invoke. intros Hrun. inv_method. done. Qed.

Lemma only_cpis_trans s1 s2 s3 (c1 c2 : list token_cpi) :
  only_cpis s1 s2 c1 → only_cpis s2 s3 c2 → only_cpis s1 s3 (c1 ++ c2).
Proof.
  unfold only_cpis. intros (?&?&?&?&Hc1) (?&?&?&?&Hc2).
  split_and!; try congruence. by rewrite Hc2, Hc1, app_assoc.
Qed.

Lemma only_cpis_refl s : only_cpis s s [].
Proof. unfold only_cpis. by rewrite app_nil_r. Qed.

Definition is_mint_to (c : token_cpi) : bool := match c with MintTo _ _ _ _ _ _ => true | _ => false end.

(** The token-program part: optional creations, then one [MintTo]. *)
Lemma mint_token_calls accs v s u s' :
  mint_token accs v s = (Ok u, s') →
  ∃ calls, only_cpis s s' calls ∧
    filter is_mint_to calls = [MintTo spl_token_id (key (dc_mint accs)) (key (dc_token_account accs))
                                 (key (dc_mint_authority accs)) 1 [vec_to_list (key (dc_mint accs))]].
Proof.
  unfold mint_token. intros Hrun.
  destruct (dc_mint_empty accs), (dc_token_account_empty accs); inv_method;
    repeat match goal with H : invoke _ _ = (Ok _, _) |- _ => apply invoke_only in H end.
  - eexists. split; [do 3 (eapply only_cpis_trans; [eassumption|]); eassumption|done].
  - eexists. split; [do 2 (eapply only_cpis_trans; [eassumption|]); eassumption|done].
  - eexists. split; [do 1 (eapply only_cpis_trans; [eassumption|]); eassumption|done].
  - eexists. split; [eassumption|done].
Qed.

Lemma create_metadata_calls accs m s u s' :
  create_metadata accs m s = (Ok u, s') →
  ∃ calls, only_cpis s s' calls ∧ filter is_mint_to calls = [].
Proof.
  unfold create_metadata. intros Hrun. inv_method.
  repeat match goal with H : invoke _ _ = (Ok _, _) |- _ => apply invoke_only in H end.
  eexists. split; [eapply only_cpis_trans; eassumption|done].
Qed.

(** A decompression that succeeds. *)
Lemma decompress_Ok accs metadata s u s' :
  decompress_v1 bubblegum_id token_metadata_id accs metadata s = (Ok u, s') →
  ∃ v calls, vouchers s !! key (dc_voucher accs) = Some v ∧
    key (dc_voucher accs) = voucher_address bubblegum_id (v_merkle_slab v) (ls_nonce (leaf_schema v)) ∧
    is_signer (dc_owner accs) = true ∧ key (dc_owner accs) = ls_owner (leaf_schema v) ∧
    ls_data_hash (leaf_schema v) = hash_metadata metadata ∧
    ma_token_program_version metadata = Original ∧
    slab s' = slab s ∧ nonce_account s' = nonce_account s ∧
    vouchers s' = delete (key (dc_voucher accs)) (vouchers s) ∧
    logs s' = logs s ++ [LogDecompression (mk_NFTDecompressionEvent Version_V1
      (get_asset_id bubblegum_id (v_merkle_slab v) (ls_nonce (leaf_schema v))) (v_merkle_slab v)
      (ls_nonce (leaf_schema v)))] ∧
    cpis s' = cpis s ++ calls ∧
    filter is_mint_to calls = [MintTo spl_token_id (key (dc_mint accs)) (key (dc_token_account accs))
                                 (key (dc_mint_authority accs)) 1 [vec_to_list (key (dc_mint accs))]].
Proof.
  unfold decompress_v1, load_voucher, DecompressV1_ok. intros Hrun.
  repeat (inv_b; match goal with
  | H : match ?x with Original => _ | Token2022 => _ end _ = _ |- _ => destruct x eqn:?
  | H : mint_token _ _ _ = _ |- _ => apply mint_token_calls in H as (? & (?&?&?&?&?) & ?)
  | H : create_metadata _ _ _ = _ |- _ => apply create_metadata_calls in H as (? & (?&?&?&?&?) & ?)
  end).
  match goal with H : cmp_bytes _ _ 32 = true |- _ => apply cmp_pubkeys_spec in H end.
  match goal with H : cpis s0 = cpis s ++ ?c1, H' : cpis ?s1 = cpis s0 ++ ?c2 |- _ =>
    exists v, (c1 ++ c2) end.
  simpl. split_and!; try done; try congruence.
  - by rewrite app_assoc; congruence.
  - rewrite filter_app. by do 2 match goal with H : filter _ _ = _ |- _ => rewrite H; clear H end.
Qed.

Lemma decompress_simulated s s' a L accs metadata u :
  let o := OpDecompress accs metadata in
  rep s a L → run o s = (Ok u, s') → simulated s' a L s o.
Proof.
  intros o HR Hrun. subst o. cbn [run_b] in Hrun.
  apply decompress_Ok in Hrun as (v & calls & Hv & Hkey & Hs & Ho & _ & _ & Hslab & Hnonce & Hvs & Hlog & _).
  destruct L as [L V n]. rewrite (br_vouchers _ _ _ _ _ _ HR) in Hv, Hvs. cbn [l_vouchers] in *.
  destruct (br_sane_voucher _ _ _ _ _ _ HR _ _ Hv) as (_ & Htree & _).
  rewrite Htree in Hkey, Hlog. rewrite Hkey in Hv, Hvs.
  eexists (Decompressed (leaf_schema v)), _, a. split; [done|].
  split; [|split; [|split; [by rewrite Hslab|split; [solve_logged|left; by rewrite Hslab]]]].
  - apply (step_decompress _ _ _ _ L V n v Hv). rewrite <-Ho. by apply (signed_one _ (dc_owner accs)).
  - destruct HR as [HA Hleaves HV Hn Hsn Hsv]. split; simpl in *; rewrite ?Hslab, ?Hnonce; try done.
    intros k w [_ Hk]%lookup_delete_Some. by apply (Hsv k).
Qed.

(** Every operation that succeeds is a step of the ledger. *)
Lemma operation_simulated s s' a L o u :
  rep s a L → no_accident s a L o → run o s = (Ok u, s') → simulated s' a L s o.
Proof.
  intros HR Hfair Hrun. destruct o.
  - by eapply mint_simulated.
  - by eapply transfer_simulated.
  - by eapply delegate_simulated.
  - by eapply burn_simulated.
  - by eapply redeem_simulated.
  - by eapply cancel_simulated.
  - by eapply decompress_simulated.
Qed.
End theorems.
