(* ===== verification/BubblegumProperties.v ===== *)
(** * What the compressed-NFT program guarantees

    The properties of the program, and their witnesses. *)

From S2P Require Import Prelude Hashing MerkleSpec ChangeLog MerkleRoll MerkleRollSpec.
From S2P Require Import MerkleRollLemmas MerkleRollWrite MerkleRollAppend MerkleRollInit.
From S2P Require Import MerkleRollTheorems MerkleRollWitnesses Solana Gummyroll GummyrollCanopy.
From S2P Require Import GummyrollTheorems GummyrollSound GummyrollLimits LeafSchema Bubblegum.
From S2P Require Import BubblegumLedger BubblegumTheorems.

Section properties.
Context `{Keccak} `{BuildProfile} `{EventCodec} `{Pda} `{BubblegumCodec} `{TokenPrograms}.
Context (bubblegum_id gummyroll_id candy_wrapper_id token_metadata_id : Pubkey).
Context (d : nat) (B : N) (p : nat).
Implicit Types (s : bstate) (a : aroll).

Abbreviation run o := (run_b bubblegum_id gummyroll_id candy_wrapper_id token_metadata_id o).
Abbreviation voucher_at s := (voucher_address bubblegum_id (tree_id (slab s))).
Abbreviation asset_at s := (get_asset_id bubblegum_id (tree_id (slab s))).

(** C3: the program implements the ledger.  An operation that succeeds, and meets
    no accident of the hash, is a step of the ledger that the tree stands for:
    a mint at a free leaf with a new nonce that the append authority of the tree
    signed, a transfer or a burn of an NFT that
    the leaf really holds and whose owner or delegate signed, a delegation or a
    redemption signed by its owner, a restoration or a decompression of a voucher
    signed by the owner it names.  The new state represents the new ledger, and the
    one event about a leaf that the operation logs is that of the step. *)
Theorem bubblegum_simulation s s' a L o u :
  b_rep d B p s a L → no_accident bubblegum_id d s a L o → run o s = (Ok u, s') →
  ∃ e L' a', step_of o e ∧ ledger_step (voucher_at s) (asset_at s) (append_authority (header (slab s))) (signed_in o) L e L' ∧ b_rep d B p s' a' L' ∧
    tree_id (slab s') = tree_id (slab s) ∧ logged s s' (event_log (tree_id (slab s)) (asset_at s) e).
Proof.
  intros HR Hfair Hrun. destruct (operation_simulated _ _ _ _ _ _ _ _ _ _ _ _ _ HR Hfair Hrun)
    as (e & L' & a' & ? & ? & ? & ? & ? & _). by exists e, L', a'.
Qed.

(** C12: an NFT exists once.  The invariant of the ledger - the nonces of leaves
    and vouchers are pairwise different and below the next nonce, vouchers are at
    their derived addresses - is kept by every operation of the program, as long
    as the 64-bit nonce does not saturate. *)
Theorem nft_exists_once s s' a L o u :
  b_rep d B p s a L → ledger_inv (voucher_at s) L → (l_next L < 2 ^ 64 - 1)%N →
  no_accident bubblegum_id d s a L o → run o s = (Ok u, s') →
  ∃ L' a', b_rep d B p s' a' L' ∧ ledger_inv (voucher_at s') L' ∧
    (l_next L ≤ l_next L' ≤ l_next L + 1)%N.
Proof.
  intros HR Hinv Hmax Hfair Hrun.
  destruct (operation_simulated _ _ _ _ _ _ _ _ _ _ _ _ _ HR Hfair Hrun) as (e & L' & a' & _ & Hstep & HR' & Htid & _).
  exists L', a'. split; [done|]. rewrite Htid. split; [by eapply ledger_inv_step|].
  destruct Hstep; simpl in *; rewrite ?saturating_add_small by lia; lia.
Qed.

Lemma create_tree_ok accs s len slot :
  CreateTree_ok bubblegum_id gummyroll_id candy_wrapper_id s accs = Ok tt →
  ct_clock accs = Ok slot →
  header (slab s) = zero_header → rest (slab s) = Zeroed len → p ≤ d →
  len = (size_of_MerkleRoll (N.of_nat d) B + 32 * (2 ^ N.of_nat (S p) - 2))%N →
  vouchers s = ∅ →
  let r := create_tree bubblegum_id gummyroll_id candy_wrapper_id accs (N.of_nat d) B s in
  if decide ((N.of_nat d, B) ∈ supported)
  then ∃ s', r = (Ok tt, s') ∧ b_rep d B p s' (a_start ∅ 0 0 0) (mk_ledger ∅ ∅ 0) ∧
    authority (header (slab s')) = authority_address bubblegum_id (key (ct_merkle_slab accs)) ∧
    append_authority (header (slab s')) = key (ct_tree_creator accs) ∧
    ledger_inv (voucher_at s') (mk_ledger ∅ ∅ 0)
  else r.1 = Err (Custom (FromGummyroll (Custom MerkleRollConstantsError))).
Proof.
  intros Hok Hslot Hhdr Hrest Hp Hlen Hvs r. subst r. unfold create_tree. run_method. rewrite Hok.
  unfold CreateTree_ok in Hok. apply constraint_inv in Hok. inv_method. cbn beta iota.
  unfold call_gummyroll. cbn [slab set_nonce].
  set (ga := mk_g_accounts _ _ _ _ _ _).
  assert (Initialize_ok candy_wrapper_id (slab s) ga = Ok tt) as Hini.
  { unfold Initialize_ok, ga, constraint, require_that, program_is in *. simpl.
    rewrite Hhdr. match goal with H : is_writable (ct_merkle_slab accs) = true |- _ => rewrite H end.
    simpl. unfold authority_address in *.
    rewrite (bool_decide_true (_ = _)) by assumption. rewrite orb_true_r. simpl.
    match goal with H : bool_decide (key (ct_candy_wrapper accs) = _) = true |- _ => by rewrite H end. }
  pose proof (init_empty_ok candy_wrapper_id ga (slab s) d p B _ slot Hini Hslot Hhdr Hrest Hp eq_refl) as Hinit.
  cbv zeta in Hinit. destruct (decide _).
  - destruct Hinit as (t & -> & HA & Hau & Hap & _).
    eexists. split; [done|]. simpl. split; [|split; [|split; [|apply ledger_inv_empty]]].
    + by split.
    + rewrite Hau. done.
    + done.
  - destruct (init_empty_gummyroll _ _ _ _ _) as [[]]; simpl in *; congruence.
Qed.

(** [create_tree] makes a zeroed account and a missing nonce account represent
    the empty ledger, with the derived address as the authority of the tree and
    the creator as its append authority; a size that the tree program does not
    support is refused. *)
Theorem create_tree_refines accs s len slot :
  CreateTree_ok bubblegum_id gummyroll_id candy_wrapper_id s accs = Ok tt →
  ct_clock accs = Ok slot →
  header (slab s) = zero_header → rest (slab s) = Zeroed len → p ≤ d →
  len = (size_of_MerkleRoll (N.of_nat d) B + 32 * (2 ^ N.of_nat (S p) - 2))%N →
  vouchers s = ∅ →
  let r := create_tree bubblegum_id gummyroll_id candy_wrapper_id accs (N.of_nat d) B s in
  if decide ((N.of_nat d, B) ∈ supported)
  then ∃ s', r = (Ok tt, s') ∧ b_rep d B p s' (a_start ∅ 0 0 0) (mk_ledger ∅ ∅ 0) ∧
    authority (header (slab s')) = authority_address bubblegum_id (key (ct_merkle_slab accs)) ∧
    append_authority (header (slab s')) = key (ct_tree_creator accs) ∧
    ledger_inv (voucher_at s') (mk_ledger ∅ ∅ 0)
  else r.1 = Err (Custom (FromGummyroll (Custom MerkleRollConstantsError))).
Proof. apply create_tree_ok. Qed.

(** C35: a decompression that succeeds was signed by the owner that the voucher
    names, for the metadata whose hash the voucher holds, under the original token
    program; it mints exactly one token of the NFT's mint and closes the voucher,
    so that no decompression or cancellation of this voucher succeeds after it. *)
Theorem decompress_mints_once accs metadata s u s' :
  decompress_v1 bubblegum_id token_metadata_id accs metadata s = (Ok u, s') →
  (∃ v calls, vouchers s !! key (dc_voucher accs) = Some v ∧
    is_signer (dc_owner accs) = true ∧ key (dc_owner accs) = ls_owner (leaf_schema v) ∧
    ls_data_hash (leaf_schema v) = hash_metadata metadata ∧
    ma_token_program_version metadata = Original ∧
    cpis s' = cpis s ++ calls ∧
    filter is_mint_to calls = [MintTo spl_token_id (key (dc_mint accs)) (key (dc_token_account accs))
                                 (key (dc_mint_authority accs)) 1 [vec_to_list (key (dc_mint accs))]]) ∧
  (∀ accs' m, key (dc_voucher accs') = key (dc_voucher accs) →
    decompress_v1 bubblegum_id token_metadata_id accs' m s' = (Err Constraint, s')) ∧
  (∀ accs' root, key (cr_voucher accs') = key (dc_voucher accs) →
    cancel_redeem bubblegum_id gummyroll_id candy_wrapper_id accs' root s' = (Err Constraint, s')).
Proof.
  intros Hrun. apply decompress_Ok in Hrun
    as (v & calls & Hv & _ & Hs & Ho & Hh & Ht & _ & _ & Hvs & _ & Hc & Hm).
  split; [by exists v, calls|].
  assert (∀ k, k = key (dc_voucher accs) → vouchers s' !! k = None) as Hgone.
  { intros k ->. rewrite Hvs. apply lookup_delete_eq. }
  split; intros accs' ? Hk.
  - unfold decompress_v1, load_voucher. run_method. by rewrite Hgone.
  - unfold cancel_redeem, load_voucher. run_method. by rewrite Hgone.
Qed.

(** The refusals of a decompression whose accounts are right: metadata with
    another hash, another owner, and the newer token program, whatever the rest;
    the state is unchanged. *)
Theorem decompress_refusals accs metadata s v :
  vouchers s !! key (dc_voucher accs) = Some v →
  DecompressV1_ok bubblegum_id token_metadata_id accs v = Ok tt →
  let r := decompress_v1 bubblegum_id token_metadata_id accs metadata s in
  (ls_data_hash (leaf_schema v) ≠ hash_metadata metadata →
    r = (Err (Custom (Bubblegum HashingMismatch)), s)) ∧
  (ls_data_hash (leaf_schema v) = hash_metadata metadata →
   ls_owner (leaf_schema v) ≠ key (dc_owner accs) →
    r = (Err (Custom (Bubblegum AssetOwnerMismatch)), s)) ∧
  (ls_data_hash (leaf_schema v) = hash_metadata metadata →
   ls_owner (leaf_schema v) = key (dc_owner accs) →
   ma_token_program_version metadata = Token2022 → r = (Err Runtime, s)).
Proof.
  intros Hv Hok r. subst r. unfold decompress_v1, load_voucher. run_method. rewrite Hv. cbn [ok_or].
  cbn beta iota. rewrite Hok. cbn beta iota.
  fold (cmp_pubkeys (ls_data_hash (leaf_schema v)) (hash_metadata metadata)).
  rewrite !cmp_pubkeys_bool. split_and!.
  - intros Hne. by rewrite (bool_decide_false (_ = _)).
  - intros Heq Hne. rewrite (bool_decide_true _ Heq). simpl. by rewrite (bool_decide_false (_ = _)).
  - intros Heq Ho Ht. rewrite (bool_decide_true _ Heq). simpl. rewrite (bool_decide_true _ Ho). simpl.
    by rewrite Ht.
Qed.

(** A leaf commits to its NFT: two schemas with the same leaf are equal, or
    the bytes hashed for them are a collision of the hash. *)
Theorem leaf_binds_schema l1 l2 :
  (ls_nonce l1 < 2 ^ 64)%N → (ls_nonce l2 < 2 ^ 64)%N → to_node l1 = to_node l2 →
  l1 = l2 ∨
  concat (leaf_slices l1) ≠ concat (leaf_slices l2) ∧ hashv (leaf_slices l1) = hashv (leaf_slices l2).
Proof. apply to_node_binding. Qed.
End properties.
