(* ===== verification/BubblegumWitnesses.v ===== *)
(** * Witnesses of the properties of the compressed-NFT program

    A tree of depth 3 is created and an NFT is minted, transferred, redeemed and
    decompressed, with the toy hash of the other witnesses. *)

From S2P Require Import Prelude Hashing MerkleSpec ChangeLog MerkleRoll MerkleRollSpec.
From S2P Require Import MerkleRollLemmas MerkleRollWrite MerkleRollAppend MerkleRollInit.
From S2P Require Import MerkleRollTheorems MerkleRollWitnesses Solana Gummyroll GummyrollCanopy.
From S2P Require Import GummyrollTheorems GummyrollSound GummyrollLimits LeafSchema Bubblegum.
From S2P Require Import BubblegumLedger BubblegumTheorems BubblegumProperties.

Module BToy.
Import Toy GToy.

#[export] Instance toy_pda : Pda := λ seeds program, (toy_hashv (seeds ++ [vec_to_list program]), 255%N).

#[export] Instance toy_bubblegum_codec : BubblegumCodec := {
  metadata_to_vec m := string_bytes (ma_name m);
  new_nft_to_vec e := to_le_bytes 8 (nft_nonce e);
  leaf_schema_to_vec l := concat (leaf_slices l);
  node_to_vec n := vec_to_list n;
}.

#[export] Instance toy_tokens : TokenPrograms := {
  invoke_token _ := true;
  minimum_balance n := Ok n;
  spl_token_id := toy_node 2000;
  mint_len := 82%N;
}.

Definition bubblegum : Pubkey := toy_node 2001.
Definition gummyroll : Pubkey := toy_node 2002.
Definition token_metadata : Pubkey := toy_node 2003.
Definition slab_key : Pubkey := toy_node 1002.
Definition alice : Pubkey := toy_node 3000.
Definition bob : Pubkey := toy_node 3001.

Definition quiet (k : Pubkey) : AccountInfo := mk_AccountInfo k false true default_pubkey 0.

Definition fresh : bstate := mk_bstate (zeroed 1) None ∅ [] [].

Definition create_accs : CreateTree :=
  mk_CreateTree (quiet (authority_address bubblegum slab_key)) (info admin) (info admin) (quiet wrapper)
    (quiet gummyroll) (quiet slab_key) (Ok 7%N).

Definition created : bstate := (create_tree bubblegum gummyroll wrapper create_accs 3 8 fresh).2.

Definition metadata : MetadataArgs :=
  mk_MetadataArgs "candy" "CND" "ipfs" 500 false true None (Some NonFungible) None None Original
    [mk_Creator alice true 100].

Definition mint_accs : MintV1 :=
  mk_MintV1 (info admin) (quiet (authority_address bubblegum slab_key)) (quiet wrapper) (quiet gummyroll)
    (quiet alice) (quiet alice) (quiet slab_key).

Definition run_toy (o : b_op) : b_method unit := run_b bubblegum gummyroll wrapper token_metadata o.

Definition minted : bstate := (run_toy (OpMint mint_accs metadata) created).2.

Definition leaf0 : LeafSchema := minted_leaf bubblegum mint_accs metadata 0.

Definition minted_ledger : ledger := mk_ledger {[0%N := leaf0]} ∅ 1.
Definition minted_tree : aroll := a_write 8 (a_start ∅ 0 0 0) 0 (to_node leaf0).

Definition leaf_accs (o : AccountInfo) : LeafAccounts :=
  mk_LeafAccounts (quiet (authority_address bubblegum slab_key)) (quiet wrapper) (quiet gummyroll)
    o (quiet alice) (quiet slab_key) (client_proof (a_tree minted_tree) 3 1 0).

Definition transfer_op : b_op :=
  OpTransfer (mk_Transfer (leaf_accs (info alice)) (quiet bob)) (troot (a_tree minted_tree) 3)
    (ls_data_hash leaf0) (ls_creator_hash leaf0) 0 0.

Lemma created_rep : b_rep 3 8 1 created (a_start ∅ 0 0 0) (mk_ledger ∅ ∅ 0).
Proof.
  pose proof (create_tree_ok bubblegum gummyroll wrapper 3 8 1 create_accs fresh _ 7
    ltac:(by vm_compute) eq_refl eq_refl eq_refl ltac:(lia) eq_refl eq_refl) as Hthm.
  cbv zeta in Hthm. rewrite decide_True in Hthm by (by apply (bool_decide_unpack _); vm_compute).
  destruct Hthm as (s' & Hrun & HR & _). unfold created.
  change (N.of_nat 3) with 3%N in Hrun. by rewrite Hrun.
Qed.

Lemma mint_fair : no_accident bubblegum 3 created (a_start ∅ 0 0 0) (mk_ledger ∅ ∅ 0) (OpMint mint_accs metadata).
Proof.
  split; [split; [done|by vm_compute]|].
  intros l Hl. assert (l = 1 ∨ l = 2) as [-> | ->] by lia; by vm_compute.
Qed.

Lemma minted_rep : b_rep 3 8 1 minted minted_tree minted_ledger.
Proof.
  destruct (mint_Ok bubblegum gummyroll wrapper token_metadata 3 8 1 created minted _ _ mint_accs metadata tt
    created_rep mint_fair ltac:(by vm_compute)) as (_ & _ & _ & _ & _ & _ & HR).
  exact HR.
Qed.

(** The leaf 0 holds what its owner claims. *)
Lemma replace_fair accs remaining root (n : option LeafSchema) :
  claimed_leaf bubblegum accs 0 (ls_data_hash leaf0) (ls_creator_hash leaf0) = leaf0 →
  find_collision (a_tree minted_tree) 0 (to_node leaf0)
    (checked_proof (slab minted) remaining root (to_node leaf0) 0) 0 = None →
  nonzero_path (<[0%N:=match n with Some l => to_node l | None => EMPTY end]> (a_tree minted_tree)) 3 0 →
  match n with Some l => sane l | None => True end →
  fair_replace 3 minted minted_tree minted_ledger remaining root
    (Some (claimed_leaf bubblegum accs 0 (ls_data_hash leaf0) (ls_creator_hash leaf0))) n 0.
Proof.
  intros -> Hfc Hnz Hn. split; [done|]. split; [done|]. split; [done|]. split; [|done].
  split; [split; [done|by vm_compute]|].
  intros l Hl [Hne _]. cbn [minted_ledger l_leaves] in Hl. rewrite lookup_singleton_eq in Hl.
  injection Hl as <-. by apply Hne.
Qed.

Lemma transfer_fair : no_accident bubblegum 3 minted minted_tree minted_ledger transfer_op.
Proof.
  apply replace_fair.
  - by vm_compute.
  - by vm_compute.
  - intros l Hl. assert (l = 1 ∨ l = 2) as [-> | ->] by lia; by vm_compute.
  - split; [done|by vm_compute].
Qed.

Lemma minted_inv : ledger_inv (voucher_address bubblegum (tree_id (slab minted))) minted_ledger.
Proof.
  split; cbn [minted_ledger l_leaves l_vouchers l_next].
  - intros i l [<- <-]%lookup_singleton_Some. done.
  - intros i j l l' [<- <-]%lookup_singleton_Some [<- <-]%lookup_singleton_Some _. done.
  - intros k v. by rewrite lookup_empty.
  - intros k v i l. by rewrite lookup_empty.
Qed.

(** Redemption and decompression. *)
Definition voucher_key : Pubkey := voucher_address bubblegum slab_key 0.

Definition redeem_op : b_op :=
  OpRedeem (mk_Redeem (leaf_accs (info alice)) (quiet voucher_key)) (troot (a_tree minted_tree) 3)
    (ls_data_hash leaf0) (ls_creator_hash leaf0) 0 0.

Definition redeemed : bstate := (run_toy redeem_op minted).2.

Definition mint_key : Pubkey := (toy_pda (mint_seeds slab_key 0) bubblegum).1.

Definition decompress_accs (o : Pubkey) : DecompressV1 :=
  mk_DecompressV1 (quiet voucher_key) (info o) (quiet (toy_node 4000)) true (quiet mint_key) true
    (quiet (toy_pda [vec_to_list mint_key] bubblegum).1) (quiet (toy_node 4001)) (quiet (toy_node 4002))
    (quiet token_metadata).

Definition decompressed : bstate :=
  (decompress_v1 bubblegum token_metadata (decompress_accs alice) metadata redeemed).2.
End BToy.

Import Toy GToy BToy.
#[local] Opaque toy_hashv.

Lemma bubblegum_simulation_witness :
  (run_toy transfer_op minted).1 = Ok tt ∧
  ∃ e L', ledger_step (voucher_address bubblegum (tree_id (slab minted)))
            (get_asset_id bubblegum (tree_id (slab minted))) (append_authority (header (slab minted)))
            (signed_in transfer_op) minted_ledger e L'.
Proof.
  split; [by vm_compute|].
  destruct (bubblegum_simulation bubblegum gummyroll wrapper token_metadata 3 8 1 minted
    (run_toy transfer_op minted).2 minted_tree minted_ledger transfer_op tt) as (e & L' & a' & _ & Hstep & _).
  - apply minted_rep.
  - apply transfer_fair.
  - by vm_compute.
  - exists e, L'. exact Hstep.
Defined.

Lemma nft_exists_once_witness :
  ∃ L' a', b_rep 3 8 1 (run_toy transfer_op minted).2 a' L' ∧
    ledger_inv (voucher_address bubblegum (tree_id (slab (run_toy transfer_op minted).2))) L'.
Proof.
  destruct (nft_exists_once bubblegum gummyroll wrapper token_metadata 3 8 1 minted
    (run_toy transfer_op minted).2 minted_tree minted_ledger transfer_op tt) as (L' & a' & HR & Hinv & _).
  - apply minted_rep.
  - apply minted_inv.
  - done.
  - apply transfer_fair.
  - by vm_compute.
  - exists L', a'. split; [exact HR|exact Hinv].
Defined.

Lemma create_tree_refines_witness :
  (create_tree bubblegum gummyroll wrapper create_accs 3 8 fresh).1 = Ok tt.
Proof.
  pose proof (create_tree_refines bubblegum gummyroll wrapper 3 8 1 create_accs fresh _ 7
    ltac:(by vm_compute) eq_refl eq_refl eq_refl ltac:(lia) eq_refl eq_refl) as Hthm.
  cbv zeta in Hthm. rewrite decide_True in Hthm by (by apply (bool_decide_unpack _); vm_compute).
  destruct Hthm as (s' & Hrun & _). change (N.of_nat 3) with 3%N in Hrun. by rewrite Hrun.
Defined.

Lemma decompress_mints_once_witness :
  length (filter is_mint_to (cpis decompressed)) = 1 ∧
  (decompress_v1 bubblegum token_metadata (decompress_accs alice) metadata decompressed).1 = Err Constraint.
Proof.
  split; [by vm_compute|].
  destruct (decompress_mints_once bubblegum gummyroll wrapper token_metadata (decompress_accs alice) metadata
    redeemed tt decompressed) as (_ & Hagain & _); [by vm_compute|].
  exact (f_equal fst (Hagain (decompress_accs alice) metadata eq_refl)).
Defined.

Lemma decompress_refusals_witness :
  decompress_v1 bubblegum token_metadata (decompress_accs bob) metadata redeemed =
    (Err (Custom (Bubblegum AssetOwnerMismatch)), redeemed).
Proof.
  destruct (decompress_refusals bubblegum token_metadata (decompress_accs bob) metadata redeemed
    (mk_Voucher leaf0 0 slab_key)) as (_ & Howner & _).
  - by vm_compute.
  - by vm_compute.
  - apply Howner; by vm_compute.
Defined.

Lemma leaf_binds_schema_witness :
  to_node (LeafSchema_default) = to_node (new_v0 default_pubkey default_pubkey default_pubkey 0
    (vreplicate 32 x00) (vreplicate 32 x00)).
Proof.
  destruct (leaf_binds_schema LeafSchema_default (new_v0 default_pubkey default_pubkey default_pubkey 0
    (vreplicate 32 x00) (vreplicate 32 x00))) as [<-|[Hne _]]; [done|done|done|done|].
  by destruct Hne.
Defined.
