(* ===== verification/AssetStoreTheorems.v ===== *)
(** * The rows of assets follow the ledger

    [indexed] relates the ledger that the compressed-NFT program keeps with the rows
    of the table of assets.  Every step of the ledger, with the change that the
    ingester makes for its event, preserves it; and the handlers of the ingester
    make that change. *)

From S2P Require Import Prelude Hashing Solana Gummyroll LeafSchema Bubblegum Database Text.
From S2P Require Import BubblegumLedger ChangeLogStore ProgramLogs AssetStore.

(** ** The relation *)
Section relation.
Context `{Keccak}.

(** The leaf [l] is in the tree ([true]) or in a voucher ([false]). *)
Definition holds (L : ledger) (l : LeafSchema) (in_tree : bool) : Prop :=
  if in_tree then ∃ i, l_leaves L !! i = Some l
  else ∃ k v, l_vouchers L !! k = Some v ∧ leaf_schema v = l.

(** The [leaf] column: zeros for an NFT that was redeemed. *)
Definition leaf_column (l : LeafSchema) (in_tree : bool) : bytes :=
  if in_tree then vec_to_list (to_node l) else replicate 32 x00.

Definition leaf_row (l : LeafSchema) (in_tree : bool) (r : asset_row) : Prop :=
  as_owner r = vec_to_list (ls_owner l) ∧
  default (as_owner r) (as_delegate r) = vec_to_list (ls_delegate l) ∧
  as_leaf r = Some (leaf_column l in_tree) ∧ as_nonce r = as_i64 (ls_nonce l) ∧
  as_compressed r = true ∧ as_burnt r = false.

(** Every NFT of the ledger has its row, and ids identify nonces. *)
Record indexed (asset_at : N → Pubkey) (L : ledger) (A : gmap Pubkey asset_row) : Prop := mk_indexed {
  ix_row : ∀ l b, holds L l b → ∃ r, A !! ls_id l = Some r ∧ leaf_row l b r;
  ix_id : ∀ l b, holds L l b → ls_id l = asset_at (ls_nonce l);
  ix_unique : ∀ l1 l2 b1 b2, holds L l1 b1 → holds L l2 b2 → ls_id l1 = ls_id l2 → ls_nonce l1 = ls_nonce l2;
}.

Lemma indexed_empty asset_at A : indexed asset_at (mk_ledger ∅ ∅ 0) A.
Proof.
  assert (∀ l b, ¬ holds (mk_ledger ∅ ∅ 0) l b) as Hno.
  { intros l [|]; simpl; intros Hl; [destruct Hl as [i Hl]|destruct Hl as (k & v & Hl & _)];
      by rewrite lookup_empty in Hl. }
  split; intros; exfalso; by eapply Hno.
Qed.

(** The change of the table that an event asks for. *)
Definition asset_change (asset_at : N → Pubkey) (e : ledger_event) (A A' : gmap Pubkey asset_row) : Prop :=
  match e with
  | Minted l => A !! ls_id l = None ∧ ∃ r, leaf_row l true r ∧ A' = <[ls_id l := r]> A
  | Transferred l => A' = alter (transfer_model l) (ls_id l) A
  | Delegated l => A' = alter (delegate_model l) (ls_id l) A
  | Burnt l => A' = alter burn_model (ls_id l) A
  | Redeemed l => A' = alter (leaf_model (replicate 32 x00)) (ls_id l) A
  | Restored l => A' = alter (leaf_model (vec_to_list (to_node l))) (ls_id l) A
  | Decompressed l => let id := asset_at (ls_nonce l) in A' = alter (decompress_model id) id A
  end.

(** The row of an NFT that left the ledger. *)
Definition gone_row (asset_at : N → Pubkey) (e : ledger_event) (A' : gmap Pubkey asset_row) : Prop :=
  match e with
  | Burnt l => ∃ r, A' !! ls_id l = Some r ∧ as_burnt r = true
  | Decompressed l => ∃ r, A' !! ls_id l = Some r ∧ as_compressed r = false ∧ as_leaf r = None ∧
      as_supply_mint r = Some (vec_to_list (ls_id l))
  | _ => True
  end.

(** Changing the row of one NFT: every other one keeps its row. *)
Lemma indexed_alter asset_at L L' A l old f (new : option (LeafSchema * bool)) :
  indexed asset_at L A → holds L l old →
  (∀ x b, holds L' x b → (ls_nonce x ≠ ls_nonce l ∧ holds L x b) ∨ new = Some (x, b)) →
  (∀ x b, new = Some (x, b) → ls_id x = ls_id l ∧ ls_nonce x = ls_nonce l ∧
     ∀ r, leaf_row l old r → leaf_row x b (f r)) →
  indexed asset_at L' (alter f (ls_id l) A).
Proof.
  intros [Hrow Hid Huniq] Hl Hholds Hnew.
  assert (∀ x b, holds L' x b → ∃ y c, holds L y c ∧ ls_id y = ls_id x ∧ ls_nonce y = ls_nonce x) as Hfrom.
  { intros x b Hx. destruct (Hholds _ _ Hx) as [[_ Hx']|Heq]; [by exists x, b|].
    destruct (Hnew _ _ Heq) as (? & ? & _). by exists l, old. }
  split.
  - intros x b Hx. destruct (Hholds _ _ Hx) as [[Hne Hx']|Heq].
    + rewrite lookup_alter_ne; [by apply Hrow|]. intros Heq. apply Hne. symmetry. by eapply Huniq.
    + destruct (Hnew _ _ Heq) as (-> & _ & Hf). destruct (Hrow _ _ Hl) as (r & Hr & Hlr).
      exists (f r). rewrite lookup_alter_eq, Hr. split; [done|]. by apply Hf.
  - intros x b Hx. destruct (Hfrom _ _ Hx) as (y & c & Hy & <- & <-). by eapply Hid.
  - intros x1 x2 b1 b2 H1 H2. destruct (Hfrom _ _ H1) as (y1 & c1 & Hy1 & <- & <-).
    destruct (Hfrom _ _ H2) as (y2 & c2 & Hy2 & <- & <-). by eapply Huniq.
Qed.

Lemma indexed_mint asset_at L L' A l r :
  indexed asset_at L A → (∀ x b, holds L' x b → holds L x b ∨ (x = l ∧ b = true)) →
  ls_id l = asset_at (ls_nonce l) → A !! ls_id l = None → leaf_row l true r →
  indexed asset_at L' (<[ls_id l := r]> A).
Proof.
  intros [Hrow Hid Huniq] Hholds Hl Hnone Hr.
  assert (∀ x b, holds L x b → ls_id x ≠ ls_id l) as Hne.
  { intros x b Hx Heq. destruct (Hrow _ _ Hx) as (r' & Hr' & _). by rewrite Heq, Hnone in Hr'. }
  split.
  - intros x b Hx. destruct (Hholds _ _ Hx) as [Hx'|[-> ->]].
    + rewrite lookup_insert_ne; [by apply Hrow|]. intros Heq. by apply (Hne x b).
    + exists r. by rewrite lookup_insert_eq.
  - intros x b Hx. destruct (Hholds _ _ Hx) as [Hx'|[-> _]]; [by eapply Hid|done].
  - intros x1 x2 b1 b2 H1 H2 Heq.
    destruct (Hholds _ _ H1) as [H1'|[-> _]], (Hholds _ _ H2) as [H2'|[-> _]]; [by eapply Huniq| | |done].
    + by destruct (Hne x1 b1).
    + by destruct (Hne x2 b2).
Qed.

(** ** What each step leaves in the ledger *)
Section holdings.
Context (voucher_at asset_at : N → Pubkey) (minter : Pubkey) (signed : Pubkey → Prop).
Abbreviation inv := (ledger_inv voucher_at).

Lemma holds_leaf_other L V n i l x :
  inv (mk_ledger L V n) → L !! i = Some l → holds (mk_ledger (delete i L) V n) x true →
  ls_nonce x ≠ ls_nonce l ∧ holds (mk_ledger L V n) x true.
Proof.
  intros Hinv Hi [j Hj]. cbn [l_leaves] in Hj. apply lookup_delete_Some in Hj as [Hne Hj].
  split; [|by exists j]. intros Heq. apply Hne. symmetry. by eapply (li_unique _ _ Hinv).
Qed.

Lemma holds_voucher_apart L V n i l x L' :
  inv (mk_ledger L V n) → L !! i = Some l → holds (mk_ledger L' V n) x false →
  ls_nonce x ≠ ls_nonce l ∧ holds (mk_ledger L V n) x false.
Proof.
  intros Hinv Hi (k & v & Hk & <-). cbn [l_vouchers] in Hk. split; [|by exists k, v].
  intros Heq. by eapply (li_apart _ _ Hinv k v i l).
Qed.

Lemma holds_insert L V n i l x b :
  holds (mk_ledger (<[i := l]> L) V n) x b →
  holds (mk_ledger (delete i L) V n) x b ∨ (x = l ∧ b = true).
Proof.
  destruct b; [|by left]. intros [j Hj]. cbn [l_leaves] in Hj.
  apply lookup_insert_Some in Hj as [[<- <-]|[Hne Hj]]; [by right|].
  left. exists j. cbn [l_leaves]. by rewrite lookup_delete_ne.
Qed.

Lemma holds_voucher_other L V n v x b :
  inv (mk_ledger L V n) → V !! voucher_at (ls_nonce (leaf_schema v)) = Some v →
  holds (mk_ledger L (delete (voucher_at (ls_nonce (leaf_schema v))) V) n) x b →
  ls_nonce x ≠ ls_nonce (leaf_schema v) ∧ holds (mk_ledger L V n) x b.
Proof.
  intros Hinv Hv. destruct b.
  - intros [j Hj]. split; [by eapply (li_apart _ _ Hinv _ _ j)|by exists j].
  - intros (k & w & Hk & <-). cbn [l_vouchers] in Hk. apply lookup_delete_Some in Hk as [Hne Hk].
    split; [|by exists k, w]. intros Heq. apply Hne. rewrite <-Heq. symmetry. by apply (li_voucher _ _ Hinv).
Qed.

Lemma leaf_step asset_at' L V n i l L' (A : gmap Pubkey asset_row) f new :
  inv (mk_ledger L V n) → indexed asset_at' (mk_ledger L V n) A → L !! i = Some l →
  (∀ x b, holds L' x b → holds (mk_ledger (delete i L) V n) x b ∨ new = Some (x, b)) →
  (∀ x b, new = Some (x, b) → ls_id x = ls_id l ∧ ls_nonce x = ls_nonce l ∧
     ∀ r, leaf_row l true r → leaf_row x b (f r)) →
  indexed asset_at' L' (alter f (ls_id l) A).
Proof.
  intros Hinv Hix Hi Hholds Hnew. apply (indexed_alter _ _ _ _ _ true f new Hix); [by exists i| |done].
  intros x b Hx. destruct (Hholds _ _ Hx) as [Hx'|?]; [left|by right]. destruct b.
  - by eapply holds_leaf_other.
  - by eapply holds_voucher_apart.
Qed.

Lemma voucher_step asset_at' L V n v L' (A : gmap Pubkey asset_row) f new :
  let k := voucher_at (ls_nonce (leaf_schema v)) in
  inv (mk_ledger L V n) → indexed asset_at' (mk_ledger L V n) A → V !! k = Some v →
  (∀ x b, holds L' x b → holds (mk_ledger L (delete k V) n) x b ∨ new = Some (x, b)) →
  (∀ x b, new = Some (x, b) → ls_id x = ls_id (leaf_schema v) ∧ ls_nonce x = ls_nonce (leaf_schema v) ∧
     ∀ r, leaf_row (leaf_schema v) false r → leaf_row x b (f r)) →
  indexed asset_at' L' (alter f (ls_id (leaf_schema v)) A).
Proof.
  intros k Hinv Hix Hv Hholds Hnew.
  apply (indexed_alter _ _ _ _ _ false f new Hix); [by exists k, v| |done].
  intros x b Hx. destruct (Hholds _ _ Hx) as [Hx'|?]; [left|by right]. by eapply holds_voucher_other.
Qed.

(** The models of the handlers, on the row of a leaf. *)
Lemma set_leaf_owner_row l l' b' r old o dl :
  leaf_row l old r → ls_nonce l' = ls_nonce l →
  o = vec_to_list (ls_owner l') → default o dl = vec_to_list (ls_delegate l') →
  leaf_row l' b' (set_leaf_owner (Some (leaf_column l' b')) o dl r).
Proof. intros (?&?&?&?&?&?) Hn Ho Hd. unfold leaf_row. simpl. rewrite Hn. by split_and!. Qed.

Lemma indexed_step L e L' A A' :
  inv L → indexed asset_at L A → ledger_step voucher_at asset_at minter signed L e L' →
  asset_change asset_at e A A' → indexed asset_at L' A' ∧ gone_row asset_at e A'.
Proof.
  intros Hinv Hix Hstep Hchange.
  destruct Hstep as [L V n i l Hi _ Hn Hid|L V n i l no Hi _|L V n i l nd Hi _
    |L V n i l Hi _|L V n i l slab Hi _ HV|L V n v HV _ Hi|L V n v HV _]; simpl in Hchange.
  - destruct Hchange as (Hnone & r & Hr & ->). split; [|done].
    apply (indexed_mint _ _ _ _ _ _ Hix); [|by rewrite Hn|done|done].
    intros x b Hx. apply (holds_insert L V _ i) in Hx as [Hx|?]; [left|by right].
    destruct b; [|done]. destruct Hx as [j Hj]. cbn [l_leaves] in Hj. apply lookup_delete_Some in Hj as [_ Hj]. by exists j.
  - subst A'. split; [|done]. apply (leaf_step _ L V n i l _ _ _ (Some (set_owner no no l, true)) Hinv Hix Hi).
    + intros x b Hx. apply holds_insert in Hx as [Hx|[-> ->]]; [by left|by right].
    + intros x b [= <- <-]. split_and!; [done..|]. intros r Hr.
      by apply (set_leaf_owner_row l _ true _ _ _ _ Hr).
  - subst A'. split; [|done].
    apply (leaf_step _ L V n i l _ _ _ (Some (set_owner (ls_owner l) nd l, true)) Hinv Hix Hi).
    + intros x b Hx. apply holds_insert in Hx as [Hx|[-> ->]]; [by left|by right].
    + intros x b [= <- <-]. split_and!; [done..|]. intros r Hr.
      apply (set_leaf_owner_row l _ true _ _ _ _ Hr); [done|by apply Hr|done].
  - subst A'. destruct (ix_row _ _ _ Hix l true) as (r & Hr & _); [by exists i|]. split.
    + apply (leaf_step _ L V n i l _ _ _ None Hinv Hix Hi); [by left|done].
    + exists (burn_model r). by rewrite lookup_alter_eq, Hr.
  - subst A'. split; [|done]. apply (leaf_step _ L V n i l _ _ _ (Some (l, false)) Hinv Hix Hi).
    + intros x [|] Hx; [by left|]. destruct Hx as (k & v & Hk & <-). cbn [l_vouchers] in Hk.
      apply lookup_insert_Some in Hk as [[<- <-]|[_ Hk]]; [by right|left; by exists k, v].
    + intros x b [= <- <-]. split_and!; [done..|]. intros r Hr.
      apply (set_leaf_owner_row l l false _ _ _ _ Hr); [done|apply Hr..].
  - subst A'. split; [|done].
    apply (voucher_step _ L V n v _ _ _ (Some (leaf_schema v, true)) Hinv Hix HV).
    + intros x b Hx. apply holds_insert in Hx as [Hx|[-> ->]]; [left|by right].
      by rewrite delete_id in Hx.
    + intros x b [= <- <-]. split_and!; [done..|]. intros r Hr.
      apply (set_leaf_owner_row _ (leaf_schema v) true _ _ _ _ Hr); [done|apply Hr..].
  - pose proof (ix_id _ _ _ Hix (leaf_schema v) false (ex_intro _ _ (ex_intro _ v (conj HV eq_refl)))) as Hid.
    subst A'. rewrite <-Hid. destruct (ix_row _ _ _ Hix (leaf_schema v) false) as (r & Hr & _); [by eexists _, v|].
    split.
    + apply (voucher_step _ L V n v _ _ _ None Hinv Hix HV); [by left|done].
    + exists (decompress_model (ls_id (leaf_schema v)) r). simpl. by rewrite lookup_alter_eq, Hr.
Qed.
End holdings.
End relation.

(** ** The handlers make the changes *)
(** Methods that leave a part of the database alone: what concerns assets. *)
Definition same {B} (π : db → B) (d d' : db) : Prop := π d' = π d.
#[export] Instance same_preorder {B} (π : db → B) : PreOrder (same π).
Proof. split; unfold same; [done|congruence]. Qed.

Definition asset_view (d : db) := (assets (tbl d), asset_datas (tbl d), next_asset_data_id d, task_queue d).

Abbreviation keeps m := (moves (same asset_view) m).

Section handlers.
Context `{Keccak} `{BuildProfile} `{Faults} `{LogSyntax} `{Base58} `{MintArguments}.
Context `{EventDecoder ChangeLogEvent} `{EventDecoder LeafSchemaEvent} `{EventDecoder NFTDecompressionEvent}.
Implicit Types (d : db).

Lemma keeps_Ok {E A} (m : method db E A) d x d' : keeps m → m d = (Ok x, d') → asset_view d' = asset_view d.
Proof. intros Hm Hrun. specialize (Hm d). by rewrite Hrun in Hm. Qed.

Lemma keeps_bind {E A C} (m : method db E A) (f : A → method db E C) :
  keeps m → (∀ x, keeps (f x)) → keeps (m ≫= f).
Proof. apply moves_bind, _. Qed.

Lemma keeps_execute {A} (f : db → A * db) :
  (∀ d, asset_view (f d).2 = asset_view d) → keeps (execute f).
Proof. intros. by apply moves_execute_as; [apply _|..]. Qed.

Hint Resolve moves_ret moves_lift : core.

Lemma keeps_store_path ev filling depth i path : keeps (store_path ev filling depth i path).
Proof.
  revert i. induction path as [|p path IH]; intros i; simpl; [done|].
  apply keeps_bind; [|intros _; apply IH]. unfold store_path_node. apply keeps_bind; [done|]. intros l.
  by apply keeps_execute.
Qed.

Lemma keeps_gummyroll_change_log_event ev slot filling : keeps (gummyroll_change_log_event_to_database ev slot filling).
Proof.
  unfold gummyroll_change_log_event_to_database. apply keeps_bind; [done|]. intros depth.
  apply keeps_bind; [apply keeps_store_path|]. intros i. case_bool_decide; [|done].
  apply keeps_bind; [by apply keeps_execute|]. intros q. by apply keeps_execute.
Qed.

Lemma keeps_save_changelog_events evs slot : keeps (save_changelog_events evs slot).
Proof.
  induction evs as [|ev evs IH]; simpl; [done|]. apply keeps_bind; [|by intros _].
  apply keeps_gummyroll_change_log_event.
Qed.

Lemma update_asset_Ok id model d d' :
  update_asset id model d = (Ok tt, d') →
  asset_view d' = (alter model id (assets (tbl d)), asset_datas (tbl d), next_asset_data_id d, task_queue d).
Proof.
  intros Hrun. unfold update_asset in Hrun. apply method_bind_Ok_inv in Hrun as (u & d1 & Hex & Hrun).
  apply execute_Ok_inv in Hex. apply lift_Ok_inv in Hrun as [_ ->].
  cbn [tbl tick] in Hex. destruct (assets (tbl d) !! id) as [r|] eqn:Hr; injection Hex as <- <-;
    unfold asset_view; simpl; repeat f_equal; apply map_eq; intros j; destruct (decide (j = id)) as [->|Hne].
  - by rewrite lookup_insert_eq, lookup_alter_eq, Hr.
  - by rewrite lookup_insert_ne, lookup_alter_ne by done.
  - by rewrite lookup_alter_eq, Hr.
  - by rewrite lookup_alter_ne by done.
Qed.

(** What every handler of a leaf does when it succeeds. *)
Lemma leaf_change_Ok slot lines model d d' :
  leaf_change slot lines model d = (Ok tt, d') →
  ∃ e, get_leaf_event lines = Ok e ∧
  asset_view d' = (alter (model (lse_schema e)) (ls_id (lse_schema e)) (assets (tbl d)), asset_datas (tbl d),
                   next_asset_data_id d, task_queue d).
Proof.
  intros Hrun. unfold leaf_change in Hrun. inv_method.
  apply transaction_Ok_inv in Hrun as (d1 & Hrun & ->). inv_method. eexists. split; [done|].
  apply update_asset_Ok in Hrun. apply (keeps_Ok _ _ _ _ (keeps_save_changelog_events _ _)) in Hm1.
  transitivity (asset_view d1); [done|]. rewrite Hrun. unfold asset_view in Hm1. simpl in Hm1.
  by injection Hm1 as -> -> -> ->.
Qed.

Lemma handle_decompress_Ok lines d d' :
  handle_decompress lines d = (Ok tt, d') →
  ∃ e, get_decompress_event lines = Ok e ∧
  asset_view d' = (alter (decompress_model (dec_id e)) (dec_id e) (assets (tbl d)), asset_datas (tbl d),
                   next_asset_data_id d, task_queue d).
Proof.
  intros Hrun. unfold handle_decompress in Hrun. inv_method. eexists. split; [done|].
  apply transaction_Ok_inv in Hrun as (d1 & Hrun & ->). destruct (dec_version _).
  by apply update_asset_Ok in Hrun.
Qed.

Lemma insert_asset_Ok id row d d' :
  insert_asset id row d = (Ok tt, d') →
  assets (tbl d) !! id = None ∧
  asset_view d' = (<[id := row]> (assets (tbl d)), asset_datas (tbl d), next_asset_data_id d, task_queue d).
Proof.
  intros Hrun. unfold insert_asset in Hrun. apply method_bind_Ok_inv in Hrun as (u & d1 & Hex & Hrun).
  apply execute_Ok_inv in Hex. cbn [tbl tick] in Hex.
  destruct (assets (tbl d) !! id) as [r|] eqn:Hr; injection Hex as <- <-; [by apply lift_Ok_inv in Hrun as []|].
  apply lift_Ok_inv in Hrun as [_ ->]. done.
Qed.

(** What a mint leaves. *)
Definition minted_view metadata chain_data schema owner delegate slab (d : db) (q : list DownloadMetadata) :=
  (<[ls_id schema := minted_row metadata schema owner delegate slab (next_asset_data_id d)]> (assets (tbl d)),
   <[next_asset_data_id d := asset_data_of metadata chain_data]> (asset_datas (tbl d)),
   (next_asset_data_id d + 1)%Z, q).

Lemma insert_minted_Ok metadata schema authority owner delegate slab d id d' :
  insert_minted metadata schema authority owner delegate slab d = (Ok id, d') →
  assets (tbl d) !! ls_id schema = None ∧ id = next_asset_data_id d ∧
  ∃ chain_data, asset_view d' = minted_view metadata chain_data schema owner delegate slab d (task_queue d).
Proof.
  intros Hrun. unfold insert_minted in Hrun. inv_method.
  rename Hm1 into Hasset, Hm2 into Hcreators, Hm3 into Hauthority, Hm4 into Hgrouping.
  apply execute_Ok_inv in Hm0. cbn zeta in Hm0. injection Hm0 as <- <-.
  apply (keeps_Ok (insert_creators _ _)) in Hcreators; [|unfold insert_creators; case_decide; [by apply keeps_execute|done]].
  apply (keeps_Ok (insert_authority _ _)) in Hauthority; [|by apply keeps_execute].
  apply (keeps_Ok (insert_grouping _ _)) in Hgrouping;
    [|unfold insert_grouping; repeat case_match; [by apply keeps_execute|done..]].
  match goal with H : insert_asset _ _ _ = (Ok ?u, _) |- _ => destruct u; apply insert_asset_Ok in H as [Hnone Hins] end.
  split; [exact Hnone|]. split; [done|]. eexists. rewrite Hgrouping, Hauthority, Hcreators, Hins. done.
Qed.

Lemma mint_transaction_Ok events slot metadata schema authority owner delegate slab d id d' :
  transaction (save_changelog_events events slot;; insert_minted metadata schema authority owner delegate slab) d
    = (Ok id, d') →
  assets (tbl d) !! ls_id schema = None ∧ id = next_asset_data_id d ∧
  ∃ chain_data, asset_view d' = minted_view metadata chain_data schema owner delegate slab d (task_queue d).
Proof.
  intros Htxn. apply transaction_Ok_inv in Htxn as (d2 & Hrun & ->).
  apply method_bind_Ok_inv in Hrun as ([] & d3 & Hsave & Hrun).
  apply (keeps_Ok _ _ _ _ (keeps_save_changelog_events _ _)) in Hsave. unfold asset_view in Hsave. simpl in Hsave.
  injection Hsave as HA HD Hn Hq.
  apply insert_minted_Ok in Hrun as (Hnone & -> & chain_data & Hview).
  rewrite HA in Hnone. unfold minted_view in *. rewrite HA, HD, Hn, Hq in Hview. rewrite Hn. eauto.
Qed.

Lemma handle_mint_Ok ix slot lines keys d d' :
  handle_mint ix slot lines keys d = (Ok tt, d') →
  ∃ e accounts owner delegate metadata slab chain_data,
    get_leaf_event lines = Ok e ∧ cx_accounts ix = Some accounts ∧
    account_bytes (E:=IngesterError) keys accounts 4 = Ok owner ∧
    account_bytes (E:=IngesterError) keys accounts 5 = Ok delegate ∧
    assets (tbl d) !! ls_id (lse_schema e) = None ∧
    asset_view d' = minted_view metadata chain_data (lse_schema e) owner delegate slab d
      (task_queue d ++ [mk_DownloadMetadata (next_asset_data_id d) (ma_uri metadata)]).
Proof.
  intros Hrun. unfold handle_mint in Hrun.
  do 10 (apply method_bind_Ok_inv in Hrun as (? & ? & Hlift & Hrun); apply lift_Ok_inv in Hlift as [? ->]).
  repeat match goal with H : unwrap _ = Ok _ |- _ => apply unwrap_Ok_inv in H end.
  apply method_bind_Ok_inv in Hrun as (id & d1 & Htxn & Hsend).
  apply mint_transaction_Ok in Htxn as (Hnone & -> & chain_data & Hview).
  unfold send_task in Hsend. destruct receiver_closed; [done|]. injection Hsend as <-.
  eexists _, _, _, _, _, _, _. do 4 (split; [eassumption|]). split; [exact Hnone|].
  unfold asset_view, minted_view in *. simpl. by injection Hview as -> -> -> ->.
Qed.
End handlers.
