(* ===== verification/AssetLedger.v ===== *)
(** * From the program to the index

    An instruction of the compressed-NFT program succeeds and logs its event; the
    ingester reads the logs and stores what they say.  The rows of the assets then
    follow the new ledger, as they followed the old one. *)

From S2P Require Import Prelude Hashing MerkleSpec Solana Gummyroll LeafSchema Bubblegum Database Text.
From S2P Require Import MerkleRollSpec GummyrollSound BubblegumLedger BubblegumTheorems ChangeLogStore ProgramLogs AssetStore.
From S2P Require Import AssetStoreTheorems.

(** The instruction of an operation. *)
Definition op_name (o : b_op) : InstructionName :=
  match o with
  | OpMint _ _ => IxMintV1
  | OpTransfer _ _ _ _ _ _ => IxTransfer
  | OpDelegate _ _ _ _ _ _ => IxDelegate
  | OpBurn _ _ _ _ _ _ => IxBurn
  | OpRedeem _ _ _ _ _ _ => IxRedeem
  | OpCancelRedeem _ _ => IxCancelRedeem
  | OpDecompress _ _ => IxDecompressV1
  end.

(** The instruction in the transaction is the one of the operation: its name, and
    for a mint the accounts that the ingester takes the owner and the delegate from. *)
Definition instruction_of (o : b_op) (ix : CompiledInstruction) (keys : list (option bytes)) : Prop :=
  (∃ data, cx_data ix = Some data ∧ get_instruction_type (Strings.Byte.to_N <$> data) = Ok (op_name o)) ∧
  match o with
  | OpMint accs _ => ∃ accounts, cx_accounts ix = Some accounts ∧
      account_bytes (E:=IngesterError) keys accounts 4 = Ok (vec_to_list (key (mv_owner accs))) ∧
      account_bytes (E:=IngesterError) keys accounts 5 = Ok (vec_to_list (key (mv_delegate accs)))
  | _ => True
  end.

Section composition.
Context `{Keccak} `{BuildProfile} `{EventCodec} `{Pda} `{BubblegumCodec} `{TokenPrograms}.
Context `{Faults} `{LogSyntax} `{Base58} `{MintArguments}.
Context `{EventDecoder ChangeLogEvent} `{EventDecoder LeafSchemaEvent} `{EventDecoder NFTDecompressionEvent}.
Context (bubblegum_id gummyroll_id candy_wrapper_id token_metadata_id : Pubkey).
Context (n : nat) (B : N) (p : nat).

(** The log lines carry an event: the reader of its type finds it. *)
Definition carries (lines : list string) (e : b_event) : Prop :=
  match e with
  | LogLeaf e => get_leaf_event lines = Ok e
  | LogDecompression e => get_decompress_event lines = Ok e
  | _ => True
  end.

(** The event that the program announced between two of its states. *)
Definition lines_of (s s' : bstate) (lines : list string) : Prop := ∀ e, logged s s' e → carries lines e.

Lemma minted_leaf_row metadata l owner delegate slab id :
  owner = vec_to_list (ls_owner l) → delegate = vec_to_list (ls_delegate l) →
  leaf_row l true (minted_row metadata l owner delegate slab id).
Proof.
  intros -> ->. unfold leaf_row, minted_row. simpl. split_and!; try done.
  case_decide as Heq; [by rewrite Heq|done].
Qed.

Lemma handler_change o e tree asset_at ix slot lines keys d d' :
  step_of o e → instruction_of o ix keys → carries lines (event_log tree asset_at e) →
  handle_bubblegum_instruction ix slot lines keys d = (Ok tt, d') →
  asset_change asset_at e (assets (tbl d)) (assets (tbl d')).
Proof.
  intros Hstep [(data & Hdata & Hname) Hacc] Hlines Hrun.
  unfold handle_bubblegum_instruction in Hrun. rewrite Hdata in Hrun.
  change (lift (unwrap (Some data))) with (mret (M:=method db IngesterError) data) in Hrun.
  unfold mbind at 1, method_bind at 1, mret, method_ret in Hrun. cbn beta iota in Hrun.
  rewrite Hname in Hrun. unfold mbind, method_bind, lift in Hrun. cbn [map_err] in Hrun.
  destruct o, e; cbn [step_of] in Hstep; try done; cbn [op_name] in Hrun; cbn [event_log carries] in Hlines.
  - destruct Hacc as (accounts & Ha & Hown & Hdel), Hstep as [Howner Hdelegate].
    apply handle_mint_Ok in Hrun
      as (e' & accounts' & owner & delegate & metadata & slab & chain & He & Ha' & Ho & Hd' & Hnone & Hview).
    rewrite Hlines in He. injection He as <-. rewrite Ha in Ha'. injection Ha' as <-.
    rewrite Hown in Ho. injection Ho as <-. rewrite Hdel in Hd'. injection Hd' as <-. injection Hview as Hins _ _ _.
    split; [done|]. eexists. split; [|exact Hins]. apply minted_leaf_row; by f_equal.
  - apply leaf_change_Ok in Hrun as (e' & He & Hview).
    rewrite Hlines in He. injection He as <-. by injection Hview.
  - apply leaf_change_Ok in Hrun as (e' & He & Hview).
    rewrite Hlines in He. injection He as <-. by injection Hview.
  - apply leaf_change_Ok in Hrun as (e' & He & Hview).
    rewrite Hlines in He. injection He as <-. by injection Hview.
  - apply leaf_change_Ok in Hrun as (e' & He & Hview).
    rewrite Hlines in He. injection He as <-. by injection Hview.
  - apply leaf_change_Ok in Hrun as (e' & He & Hview).
    rewrite Hlines in He. injection He as <-. by injection Hview.
  - apply handle_decompress_Ok in Hrun as (e' & He & Hview).
    rewrite Hlines in He. injection He as <-. by injection Hview.
Qed.

(** An instruction that succeeds and is ingested makes the same step of the ledger and of
    the index. *)
Lemma instruction_indexed s s' a L o u ix slot lines keys d d' :
  b_rep n B p s a L → ledger_inv (voucher_address bubblegum_id (tree_id (slab s))) L →
  no_accident bubblegum_id n s a L o →
  run_b bubblegum_id gummyroll_id candy_wrapper_id token_metadata_id o s = (Ok u, s') →
  indexed (get_asset_id bubblegum_id (tree_id (slab s))) L (assets (tbl d)) →
  instruction_of o ix keys → lines_of s s' lines →
  handle_bubblegum_instruction ix slot lines keys d = (Ok tt, d') →
  ∃ e L' a', step_of o e ∧ b_rep n B p s' a' L' ∧
    ledger_step (voucher_address bubblegum_id (tree_id (slab s))) (get_asset_id bubblegum_id (tree_id (slab s)))
      (append_authority (header (slab s))) (signed_in o) L e L' ∧
    indexed (get_asset_id bubblegum_id (tree_id (slab s'))) L' (assets (tbl d')) ∧
    gone_row (get_asset_id bubblegum_id (tree_id (slab s'))) e (assets (tbl d')) ∧
    tree_id (slab s') = tree_id (slab s) ∧ tree_moved n B (slab s) (slab s') a a'.
Proof.
  intros HR Hinv Hfair Hrun Hix Hins Hlines Hh.
  destruct (operation_simulated _ _ _ _ _ _ _ _ _ _ _ _ _ HR Hfair Hrun)
    as (e & L' & a' & Hof & Hstep & HR' & Htid & Hlog & Hmoved).
  eapply handler_change in Hh; [|done|done|by apply Hlines].
  destruct (indexed_step _ _ _ _ _ _ _ _ _ Hinv Hix Hstep Hh) as [Hix' Hgone].
  exists e, L', a'. by rewrite Htid.
Qed.

(** C5: the index follows the program.  An instruction succeeds on the chain and the
    ingester handles its logs without an error: the step of the ledger that the
    program made is then also a step of the index.  Every NFT of the new ledger has
    a row with its owner, its delegate, its nonce and the hash of its leaf (zeros
    while it is redeemed), and the row of an NFT that was burnt or decompressed says
    so. *)
Theorem index_follows_ledger s s' a L o u ix slot lines keys d d' :
  b_rep n B p s a L → ledger_inv (voucher_address bubblegum_id (tree_id (slab s))) L →
  no_accident bubblegum_id n s a L o →
  run_b bubblegum_id gummyroll_id candy_wrapper_id token_metadata_id o s = (Ok u, s') →
  indexed (get_asset_id bubblegum_id (tree_id (slab s))) L (assets (tbl d)) →
  instruction_of o ix keys → lines_of s s' lines →
  handle_bubblegum_instruction ix slot lines keys d = (Ok tt, d') →
  ∃ e L' a', step_of o e ∧ b_rep n B p s' a' L' ∧
    ledger_step (voucher_address bubblegum_id (tree_id (slab s))) (get_asset_id bubblegum_id (tree_id (slab s)))
      (append_authority (header (slab s))) (signed_in o) L e L' ∧
    indexed (get_asset_id bubblegum_id (tree_id (slab s'))) L' (assets (tbl d')) ∧
    gone_row (get_asset_id bubblegum_id (tree_id (slab s'))) e (assets (tbl d')).
Proof.
  intros HR Hinv Hfair Hrun Hix Hins Hlines Hh.
  destruct (instruction_indexed s s' a L o u ix slot lines keys d d' HR Hinv Hfair Hrun Hix Hins Hlines Hh)
    as (e & L' & a' & ? & ? & ? & ? & ? & _). by exists e, L', a'.
Qed.

(** [m] leaves the tables as they were unless it returns a value. *)
Definition atomic {A} (m : i_method A) : Prop := ∀ d o d', m d = (o, d') → is_ok o = false → tbl d' = tbl d.

Lemma atomic_lift_bind {A C} (o : outcome IngesterError A) (f : A → i_method C) :
  (∀ x, atomic (f x)) → atomic (lift o ≫= f).
Proof.
  intros Hf d o' d' Hrun Herr. unfold mbind, method_bind, lift in Hrun.
  destruct o as [x|e| |]; try (by injection Hrun as <- <-). by eapply Hf.
Qed.

Lemma atomic_transaction {A} (m : i_method A) : atomic (transaction m).
Proof. intros d o d'. apply transaction_atomic. Qed.

Lemma atomic_leaf_change slot lines model : atomic (leaf_change slot lines model).
Proof.
  unfold leaf_change. apply atomic_lift_bind. intros evs. apply atomic_lift_bind. intros e.
  apply atomic_transaction.
Qed.

Lemma atomic_handle_decompress lines : atomic (handle_decompress lines).
Proof. unfold handle_decompress. apply atomic_lift_bind. intros e. apply atomic_transaction. Qed.

Lemma atomic_handle_mint ix slot lines keys :
  receiver_closed = false → atomic (handle_mint ix slot lines keys).
Proof.
  intros Hopen. unfold handle_mint. do 10 (apply atomic_lift_bind; intros ?).
  intros d o d' Hrun Herr. unfold mbind, method_bind in Hrun.
  destruct (transaction _ d) as [o1 d1] eqn:Htxn in Hrun.
  destruct o1 as [id|e| |]; [|injection Hrun as <- <-; by eapply transaction_atomic..].
  unfold send_task in Hrun. rewrite Hopen in Hrun. by injection Hrun as <- <-.
Qed.

Lemma failed_handler_atomic ix slot lines keys d o d' :
  handle_bubblegum_instruction ix slot lines keys d = (o, d') → is_ok o = false →
  tbl d' = tbl d ∨ receiver_closed = true.
Proof.
  intros Hrun Herr. destruct receiver_closed eqn:Hopen; [by right|left].
  revert d o d' Hrun Herr. change (atomic (handle_bubblegum_instruction ix slot lines keys)).
  unfold handle_bubblegum_instruction. do 2 (apply atomic_lift_bind; intros ?).
  destruct x0; eauto using atomic_leaf_change, atomic_handle_decompress, atomic_handle_mint; by intros d o d' [= <- <-].
Qed.

(** C40: an instruction is indexed as a whole or not at all.  When its handler fails,
    at whatever statement, the tables are those it started with; the one exception
    is a mint whose task cannot be sent, after its transaction was committed, when
    the receiver of the tasks is gone. *)
Theorem failed_instruction_changes_nothing ix slot lines keys d o d' :
  handle_bubblegum_instruction ix slot lines keys d = (o, d') → is_ok o = false →
  tbl d' = tbl d ∨ receiver_closed = true.
Proof. apply failed_handler_atomic. Qed.
End composition.
