(* ===== verification/AssetMetadata.v ===== *)
(** * Assets and their metadata: [parsers/bubblegum.rs], [tasks/mod.rs]

    A mint inserts the row of the metadata with that of the asset, and queues its
    download; a background task stores what it downloads.  [linked] is the invariant
    of the two tables and of the queue, and a run of the ingester keeps it whatever
    fails; a queue that is drained leaves the downloaded documents. *)

From S2P Require Import Prelude Hashing Solana Gummyroll LeafSchema Bubblegum Database Text.
From S2P Require Import ChangeLogStore ProgramLogs AssetStore AssetStoreTheorems AssetLedger.

Section metadata.
Context `{Keccak} `{BuildProfile} `{Faults} `{LogSyntax} `{Base58} `{MintArguments} `{HttpClient}.
Context `{EventDecoder ChangeLogEvent} `{EventDecoder LeafSchemaEvent} `{EventDecoder NFTDecompressionEvent}.
Implicit Types (d : db).

(** What the column [metadata] of a row holds: the text of the insertion, or the
    document at the URL of the row. *)
Definition document_of (r : asset_data_row) : Prop :=
  ad_metadata r = JsonString "processing" ∨
  ∃ b, fetch_json (ad_metadata_url r) = Some b ∧ ad_metadata r = JsonBody b.

(** Every asset has a row of metadata, its own; a queued task names the row of its
    URL. *)
Record linked d : Prop := mk_linked {
  ln_asset : ∀ id a, assets (tbl d) !! id = Some a →
    ∃ c r, as_chain_data_id a = Some c ∧ asset_datas (tbl d) !! c = Some r;
  ln_unique : ∀ id1 id2 a1 a2, assets (tbl d) !! id1 = Some a1 → assets (tbl d) !! id2 = Some a2 →
    as_chain_data_id a1 = as_chain_data_id a2 → id1 = id2;
  ln_fresh : ∀ c r, asset_datas (tbl d) !! c = Some r → (c < next_asset_data_id d)%Z;
  ln_row : ∀ c r, asset_datas (tbl d) !! c = Some r → ad_schema_version r = 1%Z ∧ document_of r;
  ln_task : ∀ t, t ∈ task_queue d →
    ∃ r, asset_datas (tbl d) !! dm_asset_data_id t = Some r ∧ ad_metadata_url r = dm_uri t;
}.

(** The start of a run: no row and no task. *)
Lemma linked_start d : assets (tbl d) = ∅ → asset_datas (tbl d) = ∅ → task_queue d = [] → linked d.
Proof.
  intros HA HD Hq. split; rewrite ?HA, ?HD, ?Hq.
  - intros id a Ha. by rewrite lookup_empty in Ha.
  - intros id1 id2 a1 a2 Ha. by rewrite lookup_empty in Ha.
  - intros c r Hr. by rewrite lookup_empty in Hr.
  - intros c r Hr. by rewrite lookup_empty in Hr.
  - intros t Ht. by apply not_elem_of_nil in Ht.
Qed.

(** [linked] reads the view of the assets; ids may be skipped. *)
Lemma linked_view d d' A D n q :
  asset_view d' = (A, D, n, q) → assets (tbl d) = A → asset_datas (tbl d) = D → task_queue d = q →
  (next_asset_data_id d ≤ n)%Z → linked d → linked d'.
Proof.
  intros Hview <- <- <- Hn [Ha Hu Hf Hr Ht]. unfold asset_view in Hview. injection Hview as HA HD <- Hq.
  split; rewrite ?HA, ?HD, ?Hq; [done..| |done|done]. intros c r Hc. specialize (Hf c r Hc). lia.
Qed.

Lemma linked_same d d' : asset_view d' = asset_view d → linked d → linked d'.
Proof. intros Hv. by eapply linked_view. Qed.

(** The models of the handlers change the row of an asset, not its metadata. *)
Lemma linked_alter d d' f id :
  (∀ r, as_chain_data_id (f r) = as_chain_data_id r) →
  asset_view d' = (alter f id (assets (tbl d)), asset_datas (tbl d), next_asset_data_id d, task_queue d) →
  linked d → linked d'.
Proof.
  intros Hf Hview [Ha Hu Hfr Hr Ht]. unfold asset_view in Hview. injection Hview as HA HD Hn Hq.
  assert (∀ i a, alter f id (assets (tbl d)) !! i = Some a →
    ∃ a0, assets (tbl d) !! i = Some a0 ∧ as_chain_data_id a = as_chain_data_id a0) as Hfrom.
  { intros i a Hi. apply lookup_alter_Some in Hi as [(-> & a0 & Hi & ->)|[_ Hi]]; eauto. }
  split; rewrite ?HA, ?HD, ?Hn, ?Hq; [| |done..].
  - intros i a Hi. destruct (Hfrom _ _ Hi) as (a0 & Hi0 & ->). by eapply Ha.
  - intros i1 i2 a1 a2 H1' H2' Heq. destruct (Hfrom _ _ H1') as (b1 & Hb1 & E1), (Hfrom _ _ H2') as (b2 & Hb2 & E2).
    apply (Hu i1 i2 b1 b2); congruence.
Qed.

(** A mint adds one asset, its metadata and its task. *)
Lemma linked_mint d d' metadata chain_data schema owner delegate slab q :
  assets (tbl d) !! ls_id schema = None →
  asset_view d' = minted_view metadata chain_data schema owner delegate slab d q →
  (∀ t, t ∈ q → t ∈ task_queue d ∨ t = mk_DownloadMetadata (next_asset_data_id d) (ma_uri metadata)) →
  linked d → linked d'.
Proof.
  intros Hnone Hview Hq [Ha Hu Hfr Hr Ht]. unfold asset_view, minted_view in Hview. injection Hview as HA HD Hn Hq'.
  assert (∀ c r, asset_datas (tbl d) !! c = Some r → next_asset_data_id d ≠ c) as Hne.
  { intros c r Hc Heq. specialize (Hfr _ _ Hc). lia. }
  assert (∀ i a, assets (tbl d) !! i = Some a → as_chain_data_id a ≠ Some (next_asset_data_id d)) as Hold.
  { intros i a Hi Heq. destruct (Ha _ _ Hi) as (c & r & Hc & Hcr). apply (Hne c r Hcr). congruence. }
  split; rewrite ?HA, ?HD, ?Hn, ?Hq'.
  - intros i a Hi. apply lookup_insert_Some in Hi as [[_ <-]|[_ Hi]].
    + eexists _, _. split; [done|apply lookup_insert_eq].
    + destruct (Ha _ _ Hi) as (c & r & Hc & Hcr). exists c, r. split; [done|].
      by rewrite lookup_insert_ne by (by eapply (Hne _ r)).
  - intros i1 i2 a1 a2 H1' H2' Heq.
    apply lookup_insert_Some in H1' as [[<- <-]|[_ H1']], H2' as [[<- <-]|[_ H2']]; [done|..].
    + by destruct (Hold _ _ H2').
    + by destruct (Hold _ _ H1').
    + by eapply Hu.
  - intros c r Hc. apply lookup_insert_Some in Hc as [[<- _]|[_ Hc]]; [lia|]. specialize (Hfr _ _ Hc). lia.
  - intros c r Hc. apply lookup_insert_Some in Hc as [[_ <-]|[_ Hc]]; [split; [done|by left]|by eapply Hr].
  - intros t Hin. destruct (Hq _ Hin) as [Hin'| ->].
    + destruct (Ht _ Hin') as (r & Hc & Hurl). exists r. split; [|done].
      by rewrite lookup_insert_ne by (by eapply (Hne _ r)).
    + eexists. split; [apply lookup_insert_eq|done].
Qed.

(** ** The ingester keeps the invariant *)

(** What a call that fails may change beside the tables. *)
Definition grows d d' : Prop :=
  (next_asset_data_id d ≤ next_asset_data_id d')%Z ∧ task_queue d' = task_queue d.
#[local] Instance grows_preorder : PreOrder grows.
Proof. split; unfold grows; [intros d; split; [lia|done]|intros d1 d2 d3 [? ?] [? ?]; split; [lia|congruence]]. Qed.

Lemma keeps_grows {E A} (m : method db E A) : keeps m → moves grows m.
Proof. intros Hm d. specialize (Hm d). unfold same, asset_view in Hm. injection Hm as _ _ Hn Hq. split; [lia|done]. Qed.

Lemma grows_execute {A} (f : db → A * db) : (∀ d, grows d (f d).2) → moves grows (execute f).
Proof. intros Hf. apply (moves_execute_as grows); [intros d; split; [simpl; lia|done]|done]. Qed.

Lemma grows_bind {E A C} (m : method db E A) (f : A → method db E C) :
  moves grows m → (∀ x, moves grows (f x)) → moves grows (m ≫= f).
Proof. apply moves_bind, _. Qed.

Lemma grows_ret {E A} (x : A) : moves (E:=E) grows (mret x).
Proof. apply moves_ret, _. Qed.

Lemma grows_lift {E A} (o : outcome E A) : moves grows (lift o).
Proof. apply moves_lift, _. Qed.

Lemma grows_set_tables d t : grows d (set_tables t d).
Proof. split; [simpl; lia|done]. Qed.

Lemma grows_update_asset id model : moves grows (update_asset id model).
Proof.
  apply grows_bind; [|intros; apply grows_lift]. apply grows_execute. intros d.
  destruct (assets (tbl d) !! id); [apply grows_set_tables|reflexivity].
Qed.

Lemma grows_insert_minted metadata schema authority owner delegate slab :
  moves grows (insert_minted metadata schema authority owner delegate slab).
Proof.
  assert (∀ f, moves grows (update_tables f)) as Hup by (intros; apply grows_execute; intros; apply grows_set_tables).
  unfold insert_minted. apply grows_bind; [apply grows_lift|]. intros chain.
  apply grows_bind; [apply grows_execute; intros d; split; [simpl; lia|done]|]. intros id.
  apply grows_bind.
  { apply grows_bind; [|intros; apply grows_lift]. apply grows_execute. intros d.
    destruct (assets (tbl d) !! _); [reflexivity|apply grows_set_tables]. }
  intros _. apply grows_bind; [unfold insert_creators; case_decide; [apply Hup|apply grows_ret]|]. intros _.
  apply grows_bind; [apply Hup|]. intros _.
  apply grows_bind; [|intros _; apply grows_ret].
  unfold insert_grouping. repeat case_match; [apply Hup|apply grows_ret..].
Qed.

Lemma linked_transaction {A} (m : i_method A) d :
  moves grows m → (∀ a d', transaction m d = (Ok a, d') → linked d') → linked d → linked (transaction m d).2.
Proof.
  intros Hm Hok Hl. destruct (transaction m d) as [o d'] eqn:Hrun.
  assert (grows d (transaction m d).2) as Hg.
  { apply (moves_transaction grows); [|intros d1 d2 [? ?]; by split|done]. intros d1. split; [simpl; lia|done]. }
  destruct o as [a|e| |]; [by eapply Hok|..]; simpl; rewrite Hrun in Hg; simpl in Hg;
    apply (transaction_atomic _ _ _ _) in Hrun as Ht; try done; destruct Hg as [Hn Hq];
    apply (linked_view d d' (assets (tbl d)) (asset_datas (tbl d)) (next_asset_data_id d') (task_queue d)); try done;
    unfold asset_view; by rewrite Ht, Hq.
Qed.

(** A method keeps the invariant whatever its outcome. *)
Definition keeps_linked {A} (m : i_method A) : Prop := ∀ d, linked d → linked (m d).2.

Lemma keeps_linked_lift {A C} (o : outcome IngesterError A) (f : A → i_method C) :
  (∀ x, o = Ok x → keeps_linked (f x)) → keeps_linked (lift o ≫= f).
Proof. intros Hf d Hl. unfold mbind, method_bind, lift. destruct o; [by apply Hf|done..]. Qed.

Lemma keeps_linked_same {A} (m : i_method A) : keeps m → keeps_linked m.
Proof. intros Hm d. apply linked_same, Hm. Qed.

Lemma leaf_change_linked slot lines model :
  (∀ s r, as_chain_data_id (model s r) = as_chain_data_id r) → keeps_linked (leaf_change slot lines model).
Proof.
  intros Hmodel d Hl. unfold leaf_change. revert d Hl. fold (leaf_change slot lines model).
  unfold leaf_change. apply keeps_linked_lift. intros evs Hevs. apply keeps_linked_lift. intros e He d Hl.
  apply linked_transaction; [|intros [] d' Hrun|done].
  - apply grows_bind; [apply keeps_grows, keeps_save_changelog_events|intros _; apply grows_update_asset].
  - assert (leaf_change slot lines model d = (Ok tt, d')) as Hrun'
      by (unfold leaf_change; rewrite Hevs, He; exact Hrun).
    apply leaf_change_Ok in Hrun' as (e' & _ & Hview). eapply linked_alter; [|exact Hview|done]. done.
Qed.

Lemma handle_decompress_linked lines : keeps_linked (handle_decompress lines).
Proof.
  unfold handle_decompress. apply keeps_linked_lift. intros e He d Hl.
  apply linked_transaction; [destruct (dec_version e); apply grows_update_asset|intros [] d' Hrun|done].
  assert (handle_decompress lines d = (Ok tt, d')) as Hrun' by (unfold handle_decompress; by rewrite He).
  apply handle_decompress_Ok in Hrun' as (e' & _ & Hview). eapply linked_alter; [|exact Hview|done]. done.
Qed.

Lemma handle_mint_linked ix slot lines keys : keeps_linked (handle_mint ix slot lines keys).
Proof.
  unfold handle_mint. do 10 (apply keeps_linked_lift; intros ? _). intros d Hl.
  unfold mbind at 1, method_bind at 1. destruct (transaction _ d) as [o d1] eqn:Htxn.
  assert (linked d1 ∧ ∀ id, o = Ok id → linked (send_task (mk_DownloadMetadata id (ma_uri x3)) d1).2) as [Hl1 Hsend].
  2: { destruct o as [id|e| |]; [by apply Hsend|done..]. }
  split.
  - replace d1 with ((o, d1).2) by done. rewrite <-Htxn. apply linked_transaction; [| |done].
    + apply grows_bind; [apply keeps_grows, keeps_save_changelog_events|intros _; apply grows_insert_minted].
    + intros id d' Hrun. apply mint_transaction_Ok in Hrun as (Hnone & _ & chain & Hview).
      eapply linked_mint; [exact Hnone|exact Hview|by left|done].
  - intros id ->. apply mint_transaction_Ok in Htxn as (Hnone & -> & chain & Hview).
    unfold send_task. destruct receiver_closed; simpl.
    + eapply linked_mint; [exact Hnone|exact Hview|by left|done].
    + eapply (linked_mint d _ _ chain _ _ _ _ (task_queue d ++ [_])); [exact Hnone| | |exact Hl].
      * unfold asset_view, minted_view in *. simpl. by injection Hview as -> -> -> ->.
      * intros t [Ht|Ht%list_elem_of_singleton]%elem_of_app; auto.
Qed.

Lemma instruction_linked ix slot lines keys : keeps_linked (handle_bubblegum_instruction ix slot lines keys).
Proof.
  unfold handle_bubblegum_instruction. do 2 (apply keeps_linked_lift; intros ? _).
  destruct x0; eauto using handle_mint_linked, handle_decompress_linked; first [by apply leaf_change_linked|by intros d].
Qed.

Lemma keeps_store_events evs slot : keeps (store_events evs slot).
Proof.
  apply (moves_transaction (same asset_view)); [done| |apply keeps_save_changelog_events].
  intros d d' Hv. unfold same, asset_view in *. simpl. by injection Hv as _ _ -> ->.
Qed.

(** ** Background tasks *)

(** A download that failed, and one that came back: the row of the task. *)
Lemma run_next_task_run d t q :
  linked d → task_queue d = t :: q →
  ∃ d', run_next_task d = (Ok tt, d') ∧
    (asset_view d' = (assets (tbl d), asset_datas (tbl d), next_asset_data_id d, q) ∧
       (fetch_json (dm_uri t) = None ∨ fails (executed d) = true) ∨
     ∃ b r, fetch_json (dm_uri t) = Some b ∧ fails (executed d) = false ∧
       asset_datas (tbl d) !! dm_asset_data_id t = Some r ∧
       asset_view d' = (assets (tbl d), <[dm_asset_data_id t := set_metadata (JsonBody b) r]> (asset_datas (tbl d)),
                        next_asset_data_id d, q)).
Proof.
  intros Hl Hq. destruct (ln_task _ Hl t) as (r & Hr & Hurl); [rewrite Hq; by left|].
  unfold run_next_task. rewrite Hq. unfold DownloadMetadata_task, execute_as. run_method. unfold attempt.
  destruct (fetch_json (dm_uri t)) as [b|] eqn:Hb; cbn [ok_or]; cbn beta iota.
  - cbn [executed set_task_queue]. destruct (fails (executed d)) eqn:Hf.
    + eexists. split; [done|]. left. split; [done|by right].
    + cbn [tbl tick set_task_queue]. rewrite Hr. eexists. split; [done|]. right. exists b, r. by split_and!.
  - eexists. split; [done|]. left. split; [done|by left].
Qed.

Lemma linked_stored d d' c r b q :
  asset_datas (tbl d) !! c = Some r → fetch_json (ad_metadata_url r) = Some b →
  asset_view d' = (assets (tbl d), <[c := set_metadata (JsonBody b) r]> (asset_datas (tbl d)), next_asset_data_id d, q) →
  (∀ t, t ∈ q → t ∈ task_queue d) → linked d → linked d'.
Proof.
  intros Hc Hb Hview Hq [Ha Hu Hfr Hr Ht]. unfold asset_view in Hview. injection Hview as HA HD Hn Hq'.
  assert (∀ c0 r0, asset_datas (tbl d) !! c0 = Some r0 → ∃ r1,
    <[c := set_metadata (JsonBody b) r]> (asset_datas (tbl d)) !! c0 = Some r1 ∧ ad_metadata_url r1 = ad_metadata_url r0)
    as Hto.
  { intros c0 r0 H0'. destruct (decide (c0 = c)) as [->|Hne].
    - eexists. split; [apply lookup_insert_eq|]. simpl. congruence.
    - exists r0. by rewrite lookup_insert_ne by done. }
  split; rewrite ?HA, ?HD, ?Hn, ?Hq'; [|done|..].
  - intros i a Hi. destruct (Ha _ _ Hi) as (c0 & r0 & Hc0 & Hr0). destruct (Hto _ _ Hr0) as (r1 & Hr1 & _). eauto.
  - intros c0 r0 [[<- _]|[_ H0']]%lookup_insert_Some; by eapply Hfr.
  - intros c0 r0 [[<- <-]|[_ H0']]%lookup_insert_Some; [|by eapply Hr].
    split; [by apply (Hr _ _ Hc)|]. right. by exists b.
  - intros t Hin. destruct (Ht _ (Hq _ Hin)) as (r0 & Hr0 & <-). by apply Hto.
Qed.

Lemma run_next_task_linked d : linked d → linked (run_next_task d).2.
Proof.
  intros Hl. destruct (task_queue d) as [|t q] eqn:Hq; [unfold run_next_task; by rewrite Hq|].
  destruct (run_next_task_run d t q Hl Hq) as (d' & -> & [[Hview _]|(b & r & Hb & _ & Hr & Hview)]); simpl.
  - destruct Hl as [Ha Hu Hfr Hr Ht]. unfold asset_view in Hview. injection Hview as HA HD Hn Hq'.
    split; rewrite ?HA, ?HD, ?Hn, ?Hq'; try done. intros t' Ht'. apply Ht. rewrite Hq. by right.
  - apply (linked_stored d d' (dm_asset_data_id t) r b q); [done| |done| |done].
    + destruct (ln_task _ Hl t) as (r' & Hr' & Hurl); [rewrite Hq; by left|]. congruence.
    + rewrite Hq. by right.
Qed.

(** ** Runs of the ingester *)

(** One step: an instruction of either program, with any logs, or a turn of the
    background loop; each may fail at any statement. *)
Inductive ingest_step d : db → Prop :=
  | Step_bubblegum ix slot lines keys : ingest_step d (handle_bubblegum_instruction ix slot lines keys d).2
  | Step_gummyroll lines slot : ingest_step d (handle_gummyroll_instruction lines slot d).2
  | Step_task : ingest_step d (run_next_task d).2.

Lemma ingest_step_linked d d' : ingest_step d d' → linked d → linked d'.
Proof.
  destruct 1 as [ix slot lines keys|lines slot|]; [by apply instruction_linked| |by apply run_next_task_linked].
  revert d. apply keeps_linked_lift. intros evs _. apply keeps_linked_same, keeps_store_events.
Qed.

(** C14: whatever the programs log and whatever fails, every asset of the database has a
    row of metadata that no other asset has; that row has the version the API reads,
    and holds either the text it was inserted with or the document that its own URL
    gives; and every task that waits names the row of its URL. *)
Theorem metadata_stays_linked d d' :
  assets (tbl d) = ∅ → asset_datas (tbl d) = ∅ → task_queue d = [] →
  rtc ingest_step d d' → linked d'.
Proof.
  intros HA HD Hq Hrun. pose proof (linked_start d HA HD Hq) as Hl. clear HA HD Hq.
  induction Hrun as [d|d d1 d' Hstep _ IH]; [done|]. apply IH. by eapply ingest_step_linked.
Qed.

(** The loop of the background runtime, for the tasks that wait. *)
Fixpoint run_tasks (n : nat) : i_method unit :=
  match n with
  | O => mret tt
  | S n => run_next_task;; run_tasks n
  end.

Definition stored d (t : DownloadMetadata) : Prop :=
  ∀ b, fetch_json (dm_uri t) = Some b →
  ∃ r, asset_datas (tbl d) !! dm_asset_data_id t = Some r ∧ ad_metadata_url r = dm_uri t ∧ ad_metadata r = JsonBody b.

Lemma run_next_task_stores d t q :
  linked d → (∀ n, fails n = false) → task_queue d = t :: q →
  ∃ d', run_next_task d = (Ok tt, d') ∧ linked d' ∧ task_queue d' = q ∧ stored d' t ∧
    ∀ t', stored d t' → stored d' t'.
Proof.
  intros Hl Hf Hq. pose proof (run_next_task_linked d Hl) as Hl'.
  destruct (ln_task _ Hl t) as (r0 & Hr0 & Hurl); [rewrite Hq; by left|].
  destruct (run_next_task_run d t q Hl Hq) as (d' & Hrun & Hcase). rewrite Hrun in Hl'. exists d'.
  split; [done|]. split; [exact Hl'|].
  destruct Hcase as [[Hview [Hb|Hb]]|(b & r & Hb & _ & Hr & Hview)]; [|by rewrite Hf in Hb|];
    unfold asset_view in Hview; injection Hview as _ HD _ Hq'; (split; [done|]); unfold stored; rewrite HD.
  - split; [intros b; congruence|done].
  - assert (r0 = r) as -> by congruence. split.
    + intros b' Hb'. exists (set_metadata (JsonBody b) r). rewrite lookup_insert_eq.
      split; [done|]. split; [done|]. simpl. congruence.
    + intros t' Hst b' Hb'. destruct (Hst b' Hb') as (r' & Hr' & Hu' & Hm').
      destruct (decide (dm_asset_data_id t' = dm_asset_data_id t)) as [He|Hne].
      * rewrite He in *. assert (r' = r) as -> by congruence. eexists. rewrite lookup_insert_eq.
        split; [done|]. split; [done|]. simpl. congruence.
      * exists r'. by rewrite lookup_insert_ne by congruence.
Qed.

(** C30: a queue is drained.  While the database does not fail, as many turns of the
    background loop as tasks wait end and leave none, and every task whose download
    gives a document has stored it in the row of its asset. *)
Theorem queued_metadata_is_stored d :
  linked d → (∀ n, fails n = false) →
  ∃ d', run_tasks (length (task_queue d)) d = (Ok tt, d') ∧ task_queue d' = [] ∧
    ∀ t, t ∈ task_queue d → stored d' t.
Proof.
  intros Hl Hf.
  assert (∃ d', run_tasks (length (task_queue d)) d = (Ok tt, d') ∧ task_queue d' = [] ∧
    ∀ t, t ∈ task_queue d ∨ stored d t → stored d' t) as (d' & Hrun & Hq & Hst); [|eauto 10].
  remember (task_queue d) as q eqn:Hq. symmetry in Hq. revert d Hl Hq.
  induction q as [|t q IH]; intros d Hl Hq; simpl.
  - exists d. split; [done|]. split; [done|]. intros t [Ht|Ht]; [by apply not_elem_of_nil in Ht|done].
  - destruct (run_next_task_stores d t q Hl Hf Hq) as (d1 & Hrun & Hl1 & Hq1 & Ht1 & Hkeep).
    destruct (IH d1 Hl1 Hq1) as (d' & Hrun' & Hq' & Hst). exists d'.
    split; [unfold mbind, method_bind; by rewrite Hrun|]. split; [done|].
    intros t' [[->|Hin]%elem_of_cons|Hs]; apply Hst; auto.
Qed.
End metadata.
