(* ===== verification/AssetApiTheorems.v ===== *)
(** * What the asset query answers

    The files of the content, and the answer for an asset of the ledger. *)

From S2P Require Import Prelude Hashing Text Solana Gummyroll Json LeafSchema Bubblegum Database ProofApi AssetApi.
From S2P Require Import BubblegumLedger AssetStore AssetStoreTheorems AssetMetadata.

(** ** Content *)
Section content.
Context `{JsonPath} `{Urls} `{JsonBodies} `{HashOrder}.

Definition is_text (v : json) : Prop := ∃ s, v = JString s.

#[export] Instance is_text_dec v : Decision (is_text v).
Proof. destruct v; try (right; by intros [? ?]); left; by eexists. Defined.

(** The file that an entry of [properties.files] names. *)
Definition entry_file (v : json) : option File :=
  match v with
  | JString s => Some (file_from_str s)
  | JObject _ =>
      match json_get v "uri", json_get v "type" with
      | Some u, Some m =>
          match u, m with
          | JString uri, JString mime => Some (mk_File (Some uri) (Some mime) None None)
          | _, _ => None
          end
      | Some u, None => Some (file_from_str (json_to_string u))
      | None, _ => None
      end
  | _ => None
  end.

(** The entries and the documents that make the code panic. *)
Definition bad_entry (v : json) : Prop :=
  match json_get v "uri", json_get v "type" with
  | Some u, Some m => ¬ (is_text u ∧ is_text m)
  | _, _ => False
  end.

Definition bad_top (o : option json) : Prop := match o with Some v => ¬ is_text v | None => False end.

#[export] Instance bad_entry_dec v : Decision (bad_entry v).
Proof. unfold bad_entry. destruct (json_get v "uri"), (json_get v "type"); apply _. Defined.
#[export] Instance bad_top_dec o : Decision (bad_top o).
Proof. destruct o; apply _. Defined.

Definition files_of (metadata : json) : list json := default [] (json_select metadata "$.properties.files[*]").

Definition unreadable (metadata : json) : Prop :=
  Exists bad_entry (files_of metadata) ∨ bad_top (safe_select metadata "$.image") ∨
  bad_top (safe_select metadata "$.animation_url").

(** What a map of files holds: under each URI, a file of this URI. *)
Definition keyed (m : gmap string File) : Prop := map_Forall (λ uri f, fi_uri f = Some uri) m.

Definition insert_file (f : File) (m : gmap string File) : gmap string File :=
  match fi_uri f with Some uri => <[uri := f]> m | None => m end.

Lemma add_file_cases {E} m v :
  (bad_entry v ∧ add_file (E:=E) m v = Panic) ∨
  (¬ bad_entry v ∧ add_file (E:=E) m v = Ok (match entry_file v with Some f => insert_file f m | None => m end)).
Proof.
  destruct v as [| | |s|l|obj]; try (right; split; [by intros []|done]).
  unfold bad_entry, add_file, entry_file, insert_file.
  destruct (json_get (JObject obj) "uri") as [u|], (json_get (JObject obj) "type") as [t|]; try (right; split; [by intros []|done]).
  destruct (decide (is_text u ∧ is_text t)) as [[[su ->] [st ->]]|Hno].
  - right. split; [|done]. intros Hno. apply Hno. split; by eexists.
  - left. split; [done|]. destruct u; try done. destruct t; try done. destruct Hno. split; by eexists.
Qed.

(** The file of the image, or of the animation. *)
Definition top_file (o : option json) (uri : string) : option File :=
  match o with
  | Some (JString s) => if decide (s = uri) then Some (file_from_str uri) else None
  | _ => None
  end.

Lemma track_cases {E} m o :
  (bad_top o ∧ track_top_level_file (E:=E) m o = Panic) ∨
  (¬ bad_top o ∧ ∃ m', track_top_level_file (E:=E) m o = Ok m' ∧ ∀ uri, m' !! uri = m !! uri ∪ top_file o uri).
Proof.
  destruct o as [v|]; [|right; split; [by intros []|eexists; split; [done|]]; intros uri; by destruct (m !! uri)].
  simpl. destruct (decide (is_text v)) as [[s ->]|Hno].
  - right. split; [intros Hno; apply Hno; by eexists|]. eexists. split; [done|]. intros uri. simpl.
    destruct (decide (s = uri)) as [->|Hne].
    + destruct (m !! uri) as [f|] eqn:Hf; [by rewrite Hf|by rewrite lookup_insert_eq].
    + destruct (m !! s); [|rewrite lookup_insert_ne by done]; by destruct (m !! uri).
  - left. split; [done|]. destruct v; try done. destruct Hno. by eexists.
Qed.

(** The map after the entries: under each URI, the last file that names it. *)
Definition last_named (entries : list json) (uri : string) : option File :=
  last (filter (λ f, fi_uri f = Some uri) (omap entry_file entries)).

Lemma add_files {E} entries :
  (Exists bad_entry entries ∧ foldM (add_file (E:=E)) ∅ entries = Panic) ∨
  (¬ Exists bad_entry entries ∧ ∃ m, foldM (add_file (E:=E)) ∅ entries = Ok m ∧
     ∀ uri, m !! uri = last_named entries uri).
Proof.
  induction entries as [|v entries IH] using rev_ind.
  - right. split; [by intros ?%Exists_nil|]. exists ∅. split; [done|]. intros uri. by rewrite lookup_empty.
  - rewrite foldM_app, Exists_app. destruct IH as [[Hbad ->]|(Hgood & m & -> & Hm)].
    + left. split; [by left|done].
    + cbn [mbind outcome_bind foldM]. destruct (add_file_cases (E:=E) m v) as [[Hv ->]|[Hv ->]].
      { left. split; [right; by constructor|done]. }
      right. split.
      { intros [Hx|Hx]; [done|]. by apply Exists_cons in Hx as [?|?%Exists_nil]. }
      eexists. split; [done|]. intros uri. unfold last_named. rewrite omap_app, filter_app. cbn [omap list_omap].
      destruct (entry_file v) as [f|]; [|rewrite app_nil_r; apply Hm].
      unfold insert_file. destruct (fi_uri f) as [u|] eqn:Hu.
      * destruct (decide (u = uri)) as [->|Hne].
        -- rewrite filter_cons_True, filter_nil, last_snoc, lookup_insert_eq by done. done.
        -- rewrite filter_cons_False, filter_nil, app_nil_r, lookup_insert_ne by congruence. apply Hm.
      * rewrite filter_cons_False, filter_nil, app_nil_r by congruence. apply Hm.
Qed.

Lemma last_named_uri entries uri f : last_named entries uri = Some f → fi_uri f = Some uri.
Proof. unfold last_named. intros Hl. apply last_Some_elem_of in Hl. by apply list_elem_of_filter in Hl as [? _]. Qed.

(** The files of a readable document: the last entry of each URI, or else the image
    or the animation. *)
Definition file_under (metadata : json) (uri : string) : option File :=
  last_named (files_of metadata) uri ∪ top_file (safe_select metadata "$.image") uri
    ∪ top_file (safe_select metadata "$.animation_url") uri.

Lemma file_under_uri metadata uri f : file_under metadata uri = Some f → fi_uri f = Some uri.
Proof.
  assert (∀ o, top_file o uri = Some f → fi_uri f = Some uri) as Htop.
  { intros [v|]; [|done]. destruct v; try done. simpl. case_decide; [|done]. by intros [= <-]. }
  unfold file_under. intros [[Hf|[_ Hf]]%union_Some|[_ Hf]]%union_Some; eauto using last_named_uri.
Qed.

Lemma v1_content_cases {E} metadata :
  (unreadable metadata ∧ v1_content_from_json (E:=E) metadata = Panic) ∨
  (¬ unreadable metadata ∧ ∃ m links,
     v1_content_from_json (E:=E) metadata =
       Ok (mk_Content "https://schema.metaplex.com/nft1.0.json" (Some (hash_values m)) None links) ∧
     ∀ uri, m !! uri = file_under metadata uri).
Proof.
  unfold unreadable, v1_content_from_json. cbv zeta. fold (files_of metadata).
  destruct (add_files (E:=E) (files_of metadata)) as [[Hb ->]|(Hg & m & -> & Hm)]; [by left; split; [left|]|].
  cbn [mbind outcome_bind].
  destruct (track_cases (E:=E) m (safe_select metadata "$.image")) as [[Hb ->]|(Hg1 & m1 & -> & Hm1)];
    [by left; split; [right; left|]|].
  cbn [mbind outcome_bind].
  destruct (track_cases (E:=E) m1 (safe_select metadata "$.animation_url")) as [[Hb ->]|(Hg2 & m2 & -> & Hm2)];
    [by left; split; [right; right|]|].
  right. split; [tauto|]. eexists m2, _. split; [done|]. intros uri. by rewrite Hm2, Hm1, Hm.
Qed.

(** The content of an asset.  A metadata document is read without a panic exactly
    when its image and its animation are strings, where it has them, and every file
    that comes with a URI and a type has strings for both.  The content then lists
    each URI once: the last entry of the list of files that names it, or else the
    image or the animation. *)
Theorem content_lists_files {E} metadata :
  (∀ m, hash_values m ≡ₚ (map_to_list m).*2) →
  match v1_content_from_json (E:=E) metadata with
  | Ok c => ¬ unreadable metadata ∧ ∃ files, co_files c = Some files ∧ NoDup (fi_uri <$> files) ∧
      ∀ f, f ∈ files ↔ ∃ uri, file_under metadata uri = Some f
  | Panic => unreadable metadata
  | _ => False
  end.
Proof.
  intros Hlaw. destruct (v1_content_cases (E:=E) metadata) as [[Hb ->]|(Hg & m & links & -> & Hm)]; [done|].
  split; [done|]. exists (hash_values m). split; [done|].
  assert (∀ uri f, (uri, f) ∈ map_to_list m → fi_uri f = Some uri) as Huri.
  { intros uri f Hin%elem_of_map_to_list. rewrite Hm in Hin. by apply file_under_uri in Hin. }
  split.
  - rewrite Hlaw, <-list_fmap_compose.
    assert ((λ x, fi_uri x.2) <$> map_to_list m = Some <$> (map_to_list m).*1) as Heq.
    { rewrite <-list_fmap_compose. apply list_fmap_ext. intros i [uri f] Hi. by apply Huri, list_elem_of_lookup_2 with i. }
    unfold compose. rewrite Heq. apply NoDup_fmap; [apply _|]. apply NoDup_fst_map_to_list.
  - intros f. rewrite Hlaw, list_elem_of_fmap. split.
    + intros ([uri g] & -> & Hin%elem_of_map_to_list). exists uri. by rewrite <-Hm.
    + intros [uri Hf]. exists (uri, f). split; [done|]. apply elem_of_map_to_list. by rewrite Hm.
Qed.
End content.

(** ** The answer for an asset *)
Section answer.
Context `{Keccak} `{Faults} `{Base58} `{HttpClient} `{RowOrder}.
Context `{JsonPath} `{Urls} `{JsonBodies} `{HashOrder}.
Implicit Types (d : db).

Lemma query_or_err_ok {A} (f : tables → A) d :
  fails (executed d) = false → query_or_err f d = (Ok (f (tbl d)), tick d).
Proof. intros Hf. unfold query_or_err, try_query. run_method. by rewrite Hf. Qed.

(** A query that no failing statement disturbs. *)
Lemma get_asset_run id d :
  (∀ n, fails n = false) →
  (get_asset id d).1 =
  match select_asset id (tbl d) with
  | Some (a, Some r) =>
      content ← get_content r;
      Ok (rpc_asset id a content (select_authorities id (tbl d)) (select_creators id (tbl d))
            (select_groupings id (tbl d)))
  | _ => Err RecordNotFound
  end.
Proof.
  intros Hf. unfold get_asset. unfold mbind at 1, method_bind at 1. rewrite query_or_err_ok by done.
  destruct (select_asset id (tbl d)) as [[a [r|]]|]; [|done..]. cbn [lift].
  unfold mbind at 1, method_bind at 1, lift at 1. unfold mbind at 1, method_bind at 1, lift at 1.
  destruct (get_content r) as [c|e| |]; [|done..]. cbn [mbind outcome_bind].
  do 3 (unfold mbind at 1, method_bind at 1; rewrite query_or_err_ok by done). done.
Qed.

Lemma DasApi_get_asset_run (id : Pubkey) d :
  (∀ x, bs58_decode (bs58_encode x) = Some x) →
  (DasApi_get_asset (bs58_encode (vec_to_list id)) d).1 = map_err DatabaseError (get_asset id d).1.
Proof.
  intros Hb. unfold DasApi_get_asset, validate_pubkey. rewrite Hb, list_to_array_to_list. cbn [ok_or].
  unfold mbind, method_bind, lift, into_das, attempt. run_method.
  by destruct (get_asset id d) as [[x|e| |] d'].
Qed.

(** The row of metadata of an asset. *)
Definition metadata_row (d : db) (id : Pubkey) (r : asset_data_row) : Prop :=
  ∃ a c, assets (tbl d) !! id = Some a ∧ as_chain_data_id a = Some c ∧ asset_datas (tbl d) !! c = Some r.

(** What a request for an NFT is answered: a panic when its document cannot be read. *)
Lemma served_asset_cases asset_at L d l b :
  indexed asset_at L (assets (tbl d)) → linked d →
  (∀ n, fails n = false) → (∀ x, bs58_decode (bs58_encode x) = Some x) → holds L l b →
  ∃ r, metadata_row d (ls_id l) r ∧ document_of r ∧
    (unreadable (metadata_of r) → (DasApi_get_asset (bs58_encode (vec_to_list (ls_id l))) d).1 = Panic) ∧
    (¬ unreadable (metadata_of r) → ∃ ans content,
     (DasApi_get_asset (bs58_encode (vec_to_list (ls_id l))) d).1 = Ok ans ∧
     rs_id ans = bs58_encode (vec_to_list (ls_id l)) ∧
     ow_owner (rs_ownership ans) = bs58_encode (vec_to_list (ls_owner l)) ∧
     default (ow_owner (rs_ownership ans)) (ow_delegate (rs_ownership ans)) = bs58_encode (vec_to_list (ls_delegate l)) ∧
     ow_delegated (rs_ownership ans) = bool_decide (is_Some (ow_delegate (rs_ownership ans))) ∧
     cm_compressed <$> rs_compression ans = Some true ∧
     rs_content ans = Some content ∧ v1_content_from_json (E:=DbErr) (metadata_of r) = Ok content).
Proof.
  intros Hix Hl Hf Hb Hlb. destruct (ix_row _ _ _ Hix l b Hlb) as (a & Ha & Howner & Hdelegate & _ & _ & Hcompressed & _).
  destruct (ln_asset _ Hl _ _ Ha) as (c & r & Hc & Hr). destruct (ln_row _ Hl _ _ Hr) as [Hversion Hdoc].
  exists r. split; [by exists a, c|]. split; [done|].
  rewrite DasApi_get_asset_run, get_asset_run by done. unfold select_asset. rewrite Ha. cbn [mbind option_bind].
  rewrite Hc. cbn [mbind option_bind]. rewrite Hr. unfold get_content. rewrite decide_True by done.
  destruct (v1_content_cases (E:=DbErr) (metadata_of r)) as [[Hbad ->]|(Hgood & m & links & -> & _)]; split; try done.
  intros _. eexists _, _. split; [done|]. cbn [rpc_asset rs_id rs_ownership ow_owner ow_delegate ow_delegated rs_compression
    rs_content cm_compressed fmap option_fmap option_map]. rewrite Howner, Hcompressed.
  split_and!; try done.
  - rewrite <-Hdelegate, <-Howner. by destruct (as_delegate a).
  - by destruct (as_delegate a).
Qed.

End answer.
