(* ===== verification/IndexerWitnesses.v ===== *)
(** * Witnesses of the properties of the indexer

    Instances of the interfaces - a textual encoding in place of Base58 and base64,
    log lines that start with a letter, a database that fails at first - and the
    inputs at which the theorems on the indexer and on the API of assets apply. *)

From S2P Require Import Prelude Hashing MerkleSpec ChangeLog MerkleRoll MerkleRollSpec.
From S2P Require Import MerkleRollInit MerkleRollWitnesses Solana Gummyroll GummyrollCanopy.
From S2P Require Import GummyrollTheorems GummyrollLimits LeafSchema Database Text Json.
From S2P Require Import ChangeLogStore ChangeLogStoreTheorems IndexedTree ProofApi NftApi.
From S2P Require Import ProofApiTheorems ProofApiProperties AssetApi Backfiller.
From S2P Require Import BackfillerTheorems ProgramLogs ProgramLogsTheorems Bubblegum.
From S2P Require Import AssetStore BubblegumLedger BubblegumTheorems BubblegumWitnesses.
From S2P Require Import AssetStoreTheorems AssetLedger AssetMetadata AssetApiTheorems.

Lemma method_result {S E A} (m : method S E A) s o : (m s).1 = o → m s = (o, (m s).2).
Proof. intros <-. by destruct (m s). Qed.

Module IToy.
Import Toy GToy BToy.

(** Statements that do not fail, and a database that fails at first. *)
Definition reliable : Faults := {| fails _ := false; missing_update_fails := true; receiver_closed := false |}.
Definition flaky : Faults :=
  {| fails n := (n <? 1)%N; missing_update_fails := true; receiver_closed := false |}.

#[export] Instance toy_base58 : Base58 := {
  bs58_encode b := String.string_of_list_byte b;
  bs58_decode s := Some (String.list_byte_of_string s);
}.

Lemma toy_base58_ok b : bs58_decode (bs58_encode b) = Some b.
Proof. simpl. by rewrite String.list_byte_of_string_of_list_byte. Qed.

(** [D..] is a data line, [I] with a program and its depth an invocation. *)
#[export] Instance toy_logs : LogSyntax := {
  program_data line := match line with String c rest => if Ascii.eqb c (Ascii.ascii_of_N 68) then Some rest else None | _ => None end;
  program_invoke line :=
    match line with
    | String c rest =>
        if Ascii.eqb c (Ascii.ascii_of_N 73)
        then Some (String.substring 0 32 rest, String.substring 32 1 rest) else None
    | _ => None
    end;
  base64_decode s := Some (String.list_byte_of_string s);
}.

#[export] Instance rows_reversed : RowOrder := λ A l, reverse l.

Definition start (n : N) : db := mk_db (mk_tables ∅ [] ∅ ∅ [] [] []) 0 0 n [].

(** Four writes in a tree of depth 3. *)
Definition writes : list (N * Node) :=
  [(0%N, toy_node 1); (1%N, toy_node 2); (2%N, toy_node 3); (4%N, toy_node 4)].
Definition tree_key : Pubkey := toy_node 1002.
Definition history (n : nat) : list ChangeLogEvent := events_from tree_key 3 ∅ 0 (take n writes).

Lemma history_fits n : history_ok 3 0 (take n writes).
Proof.
  split; [lia|]. split; [apply Forall_take; by repeat constructor|].
  rewrite length_take. cbn [length writes]. change (2 ^ 63)%N with 9223372036854775808%N. lia.
Qed.

Lemma events_from_spec id d T s ws ev :
  history_ok d s ws → ev ∈ events_from id d T s ws → ev_id ev = id ∧ event_ok ev.
Proof.
  revert T s. induction ws as [|[i v] ws IH]; intros T s Hok Hin; [by apply not_elem_of_nil in Hin|].
  destruct (history_ok_cons _ _ _ _ _ Hok) as (Hi & _ & Hok'). cbn [events_from] in Hin.
  apply elem_of_cons in Hin as [->|Hin]; [|by eapply IH].
  split; [done|]. by apply event_of_ok; [apply Hok|].
Qed.

Lemma history_events n ev : ev ∈ history n → ev_id ev = tree_key ∧ event_ok ev.
Proof. apply events_from_spec, history_fits. Qed.

Lemma history_batch_ok n :
  Forall (λ b : list ChangeLogEvent * N, Forall event_ok b.1) [(history n, 7%N)].
Proof. repeat constructor. apply Forall_forall. intros ev Hev. by apply (history_events n). Qed.

(** Its first two events. *)
Definition ev1 : ChangeLogEvent := event_of tree_key (<[0%N:=toy_node 1]> ∅) 3 0 1.
Definition ev2 : ChangeLogEvent := event_of tree_key (<[1%N:=toy_node 2]> (<[0%N:=toy_node 1]> ∅)) 3 1 2.

Lemma history_3 : ∃ ev3, history 3 = [ev1; ev2; ev3].
Proof. eexists. unfold history. cbn [take writes events_from]. reflexivity. Qed.

Lemma ev_in_history ev : ev = ev1 ∨ ev = ev2 → ev ∈ history 3.
Proof. destruct history_3 as [ev3 ->]. rewrite !elem_of_cons. tauto. Qed.

(** Batches of these events are well-formed. *)
Lemma batches_ok (bs : list (list ChangeLogEvent * N)) :
  Forall (λ b, Forall (λ ev, ev = ev1 ∨ ev = ev2) b.1) bs → Forall (λ b, Forall event_ok b.1) bs.
Proof.
  intros Hbs. eapply Forall_impl; [exact Hbs|]. intros b Hb. eapply Forall_impl; [exact Hb|].
  intros ev Hev. by apply (history_events 3), ev_in_history.
Qed.

(** Events of the history, over an empty table. *)
Lemma part_coherent n k evs :
  (∀ ev, ev ∈ evs → ev ∈ history n) → coherent (map_to_list (cl_items (tbl (start k))) ++ rows_of evs).
Proof.
  intros Hevs. assert (map_to_list (cl_items (tbl (start k))) = []) as -> by apply map_to_list_empty.
  assert (∀ x, x ∈ rows_of evs → x ∈ rows_of (history n)) as Hrows.
  { intros x (ev & Hx & Hev)%list_elem_of_bind. apply list_elem_of_bind. exists ev. auto. }
  intros k' r1 r2 H1%Hrows H2%Hrows. by apply (history_coherent_all tree_key 3 ∅ 0 _ (history_fits n) k').
Qed.

(** The index after the first [n] writes. *)
Definition index_of (n : nat) : db := (@run_batches release reliable [(history n, 7%N)] (start 0)).2.

Lemma index_stored n : n = 3 ∨ n = 4 → (@run_batches release reliable [(history n, 7%N)] (start 0)).1 = history n.
Proof. intros [-> | ->]; by vm_compute. Qed.

Lemma index_represents n :
  n = 3 ∨ n = 4 → represents (tbl (index_of n)) tree_key 3 (tree_after ∅ (take n writes)) (N.of_nat n).
Proof.
  intros Hn. destruct (@run_batches release reliable [(history n, 7%N)] (start 0)) as [evs d'] eqn:Hrun.
  pose proof (index_stored n Hn) as Hevs. rewrite Hrun in Hevs. cbn [fst] in Hevs. subst evs.
  unfold index_of. rewrite Hrun. cbn [snd].
  apply run_batches_rows in Hrun as [_ Hrows].
  2: apply history_batch_ok.
  replace (N.of_nat n) with (N.of_nat (length (take n writes))) by (by destruct Hn as [-> | ->]).
  eapply (stored_history_represents tree_key 3 (take n writes) (history n) (tbl (start 0))); [|..|exact Hrows].
  - apply history_fits.
  - by destruct Hn as [-> | ->].
  - intros x. apply lookup_empty.
  - intros ev. split; [by intros [? _]|]. intros Hev. split; [done|]. by apply (history_events n).
Qed.
End IToy.

Import Toy GToy BToy IToy.
#[local] Opaque toy_hashv.

(** The same events in two orders, the second time with a repetition and with a
    database that refuses the first batch. *)
Definition batches1 : list (list ChangeLogEvent * N) := [([ev1; ev2], 7%N)].
Definition batches2 : list (list ChangeLogEvent * N) := [([ev2], 7%N); ([ev2; ev1], 8%N); ([ev1], 9%N)].

Lemma stored1 : (@run_batches release flaky batches1 (start 5)).1 = [ev1; ev2].
Proof. by vm_compute. Qed.

Lemma stored2 : (@run_batches release flaky batches2 (start 0)).1 = [ev2; ev1; ev1].
Proof. by vm_compute. Qed.

Lemma delivery_order_irrelevant_witness :
  cl_items (tbl (@run_batches release flaky batches1 (start 5)).2) =
  cl_items (tbl (@run_batches release flaky batches2 (start 0)).2).
Proof.
  pose proof stored1 as Hs1. pose proof stored2 as Hs2.
  destruct (@run_batches release flaky batches1 (start 5)) as [evs1 d1] eqn:Hr1.
  destruct (@run_batches release flaky batches2 (start 0)) as [evs2 d2] eqn:Hr2.
  cbn [fst snd] in *. subst evs1 evs2.
  refine (@delivery_order_irrelevant release flaky _ _ _ _ _ _ d1 d2 _ _ Hr1 Hr2 _ _ _).
  - apply batches_ok. repeat (apply Forall_cons; split); auto.
  - apply batches_ok. repeat (apply Forall_cons; split); auto.
  - done.
  - intros ev. rewrite !elem_of_cons, elem_of_nil. tauto.
  - apply (part_coherent 3). intros ev. rewrite !elem_of_cons, elem_of_nil. intros Hev. apply ev_in_history. tauto.
Defined.

(** The events of the tree among those of another, in two batches. *)
Lemma ingested_history_represents_witness :
  represents (tbl (@run_batches release reliable [(history 3, 7%N)] (start 0)).2) tree_key 3
    (tree_after ∅ (take 3 writes)) 3.
Proof.
  pose proof (index_stored 3 ltac:(auto)) as Hevs.
  destruct (@run_batches release reliable [(history 3, 7%N)] (start 0)) as [evs d'] eqn:Hrun.
  cbn [fst snd] in *. subst evs.
  refine (@ingested_history_represents _ release reliable _ _ (start 0) d' tree_key 3 (take 3 writes)
    (history_batch_ok 3) Hrun (history_fits 3) _ _ _).
  - done.
  - intros x. apply lookup_empty.
  - intros ev. split; [by intros [? _]|]. intros Hev. split; [done|]. by apply (history_events 3).
Defined.

(** The proof of leaf 1, whose asset is not known. *)
Lemma handle_get_asset_proof_correct_witness :
  let T := tree_after ∅ (take 3 writes) in
  let encode := λ n : Node, bs58_encode (vec_to_list n) in
  (@asset_proof_of _ release reliable _ (λ _ _, None) tree_key 1 (index_of 3)).1 =
  Ok (mk_AssetProof (encode (troot T 3)) (encode EMPTY) (encode <$> tproof T 3 1)).
Proof.
  exact (@handle_get_asset_proof_correct _ release reliable _ (index_of 3) (λ _ _, None) tree_key 3 _ 3 1
    (index_represents 3 ltac:(auto)) eq_refl ltac:(lia) (λ _, eq_refl) (λ r Hr, ltac:(discriminate Hr))).
Defined.

(** An asset at the leaf 0 of a tree whose path is complete: the answer is empty. *)
Definition asset0 : asset_row :=
  mk_asset_row 1 (vec_to_list alice) OwnerSingle None false 1 None true false (Some (vec_to_list tree_key))
    (Some (vec_to_list (toy_node 1))) 0 RoyaltyCreators None 500 (Some 0%Z) false.

Definition asset_index : db := set_tables (set_assets {[alice := asset0]} (tbl (index_of 4))) (index_of 4).

Lemma asset_proof_lost_when_complete_witness :
  let T := tree_after ∅ (take 4 writes) in
  (@get_asset_proof _ release reliable _ alice asset_index).1 =
  Ok (mk_RpcAssetProof (bs58_encode []) (replicate 3 (bs58_encode [])) 8
        (bs58_encode (vec_to_list (tnode T 0 0))) (bs58_encode (vec_to_list tree_key))).
Proof.
  assert (represents (tbl asset_index) tree_key 3 (tree_after ∅ (take 4 writes)) 4) as HR.
  { unfold asset_index. pose proof (index_represents 4 ltac:(auto)) as HR.
    change (N.of_nat 4) with 4%N in HR. revert HR. generalize (index_of 4). intros D HR.
    by apply (represents_ext (tbl D)). }
  assert (is_Some (cl_items (tbl asset_index) !! node_key tree_key 3 0 0)) as [r Hr]
    by (apply (bool_decide_unpack _); by vm_compute).
  destruct (@asset_proof_lost_when_complete _ release reliable _ asset_index alice asset0 tree_key 3 _ 4 0 r HR
    eq_refl ltac:(lia) (λ _, eq_refl) ltac:(apply lookup_singleton_eq) eq_refl eq_refl Hr) as [_ Hthm].
  apply Hthm. unfold path_complete. by vm_compute.
Defined.

(** The newest tree of the account of three appends, indexed, and a proof that is
    asked for, decoded and submitted. *)
Lemma account_tree : tree_after ∅ (take 3 writes) = a_tree (astate 3).
Proof. by vm_compute. Qed.

Lemma served_proof_is_accepted_witness :
  ∃ ans root pv,
    (@asset_proof_of _ release reliable _ (λ _ _, None) tree_key 0 (index_of 3)).1 = Ok ans ∧
    decode_node (ap_root ans) = Some root ∧ mapM decode_node (ap_proof ans) = Some pv ∧
    wrote account3 3 8 1 (astate 3) 0 (toy_node 99)
      (replace_leaf wrapper (GToy.accs (take 2 pv)) root (leaf_at (a_tree (astate 3)) 0) (toy_node 99) 0 account3).
Proof.
  assert (represents (tbl (index_of 3)) (tree_id account3) 3 (a_tree (astate 3)) 3) as HR.
  { rewrite <-account_tree. by apply (index_represents 3); left. }
  destruct (@served_proof_is_accepted _ release _ reliable _ wrapper (index_of 3) (λ _ _, None) account3 3 8 1
    (astate 3) 0 (toy_node 99) 3 account3_rep HR) as (ans & root & pv & Hans & Hroot & Hpv & Hthm).
  - done.
  - by vm_compute.
  - done.
  - apply toy_base58_ok.
  - done.
  - intros m T1 i1 Hm. assert (Forall (λ h : tree * N, find_collision h.1 0 (leaf_at (a_tree (astate 3)) 0)
      (tproof (a_tree (astate 3)) 3 0) 0 = None) (a_hist (astate 3))) as Hall
      by (apply (bool_decide_unpack _); by vm_compute).
    rewrite Forall_lookup in Hall. exact (Hall m (T1, i1) Hm).
  - intros l Hl. assert (l = 1 ∨ l = 2) as [-> | ->] by lia; by vm_compute.
  - exists ans, root, pv. split; [exact Hans|]. split; [exact Hroot|]. split; [exact Hpv|].
    apply Hthm; [by vm_compute|done|done].
Defined.

(** A queue of two trees, over a database that fails at first. *)
Definition queue : list backfill_item :=
  [mk_backfill_item 0 alice 1 7 (Some false); mk_backfill_item 1 bob 3 7 (Some true);
   mk_backfill_item 2 alice 4 9 (Some false); mk_backfill_item 3 alice 4 9 (Some false)].

Definition queued : db := mk_db (set_backfill_items queue (tbl (start 0))) 4 0 0 [].

Lemma backfiller_settles_witness :
  ∃ k d', @backfiller_turns flaky rows_reversed k queued = (true, d') ∧
    ∃ r, rows_of_tree_in (backfill_items (tbl d')) alice = [r] ∧ bf_seq r = 4%Z.
Proof.
  destruct (@backfiller_settles flaky rows_reversed) with (N := 1%N) (d := queued) as (k & d' & Hk & _ & Hthm).
  - intros A l. apply reverse_Permutation.
  - intros n Hn. cbn. apply N.ltb_ge. exact Hn.
  - apply (bool_decide_unpack _). by vm_compute.
  - exists k, d'. split; [exact Hk|]. specialize (Hthm alice).
    replace (max_seq_of (backfill_items (tbl queued)) alice) with (Some 4%Z) in Hthm by by vm_compute.
    destruct Hthm as (r & Hr & Hs & _). by exists r.
Defined.

(** ** Transactions *)

(** A transaction of two instructions, of the compressed-NFT program and of the tree
    program, whose log has a group for each; the first invokes the tree program. *)
Definition line (tag : N) (s : string) : string := String (Ascii.ascii_of_N tag) s.
Definition invoke_line (key : Pubkey) (depth : string) : string :=
  line 73 (String.append (String.string_of_list_byte (vec_to_list key)) depth).

Definition two_instructions : TransactionInfo :=
  mk_TransactionInfo false (Some [Some (vec_to_list bubblegum); Some (vec_to_list gummyroll)])
    (Some [invoke_line bubblegum "1"; invoke_line gummyroll "2"; "Dx"%string; invoke_line gummyroll "1"; "Dy"%string])
    (Some [mk_InnerInstructions 0 (Some [mk_CompiledInstruction 1 None (Some [])])])
    (Some [mk_CompiledInstruction 0 None None; mk_CompiledInstruction 1 None None]) 7.

#[export] Instance toy_buffers : Flatbuffers := {
  root_as_transaction_info b := match b with [] => Some two_instructions | _ => None end;
  root_as_account_info _ := None;
}.

Definition two_groups : list (Pubkey * list string * N) :=
  [(bubblegum, [invoke_line gummyroll "2"; "Dx"%string], 1%N); (gummyroll, ["Dy"%string], 1%N)].

(** Both programs have a parser that records the number of its lines. *)
Definition recorder (id : Pubkey) : ProgramHandler :=
  mk_ProgramHandler id false true
    (λ bundle d, (Ok tt, set_task_queue (task_queue d ++
       [mk_DownloadMetadata (Z.of_nat (length (ib_instruction_logs bundle))) ""]) d)) (λ _, mret tt).

Definition recorders : ProgramHandlerManager :=
  register_parser (register_parser ProgramHandlerManager_new (recorder bubblegum)) (recorder gummyroll).

Lemma transaction_reaches_handlers_witness :
  handle_one_transaction recorders (1%Z, []) (start 0) =
    for_each (handle_instruction_of recorders 1 [Some (vec_to_list bubblegum); Some (vec_to_list gummyroll)] 7)
      [(bubblegum, mk_CompiledInstruction 0 None None,
        Some [(Some (vec_to_list gummyroll), mk_CompiledInstruction 1 None (Some []))], [invoke_line gummyroll "2"; "Dx"%string]);
       (gummyroll, mk_CompiledInstruction 1 None None, None, ["Dy"%string])] (start 0) ∧
  dm_asset_data_id <$> task_queue (handle_one_transaction recorders (1%Z, []) (start 0)).2 = [2; 1]%Z.
Proof.
  split; [|by vm_compute].
  assert (parse_logs (ti_log_messages two_instructions) = Ok two_groups) as Hlogs by by vm_compute.
  refine (transaction_reaches_handlers recorders 1 [] two_instructions _ _ two_groups (start 0) eq_refl eq_refl eq_refl _ _ Hlogs _).
  - intros l [= <-]. apply Forall_singleton. eexists. split; [done|]. apply Forall_singleton. cbn. lia.
  - cbn. lia.
  - repeat constructor.
Defined.

(** ** Events and handlers *)
Definition payload (tag : N) : bytes := replicate 8 (byte_of_N tag).

#[export] Instance decode_change_log : EventDecoder ChangeLogEvent := {
  discriminator := payload 65;
  deserialize _ := Some ev1;
}.

#[export] Instance decode_leaf : EventDecoder LeafSchemaEvent := {
  discriminator := payload 66;
  deserialize _ := Some (to_event leaf0);
}.

#[export] Instance decode_decompression : EventDecoder NFTDecompressionEvent := {
  discriminator := payload 67;
  deserialize _ := Some (mk_NFTDecompressionEvent Version_V1 alice tree_key 0);
}.

#[export] Instance toy_arguments : MintArguments := { MintV1_deserialize _ := Some metadata }.

Definition data_line (tag : N) : string := line 68 (String.string_of_list_byte (payload tag)).

Lemma short_data_panics_witness :
  get_gummy_roll_events [data_line 65; "Dshort"%string; data_line 66] = Panic.
Proof.
  exact (proj1 (short_data_panics [data_line 65; "Dshort"%string; data_line 66] "Dshort" "short"
    (String.list_byte_of_string "short") ltac:(set_solver) eq_refl eq_refl ltac:(simpl; lia))).
Defined.

(** The mint of the first NFT, and its row. *)
Definition mint_data : bytes := byte_of_N <$> [145; 98; 192; 118; 184; 147; 118; 104]%N.
Definition mint_keys : list (option bytes) := [Some (vec_to_list admin); Some (vec_to_list alice); Some (vec_to_list slab_key)].
Definition mint_instruction : CompiledInstruction :=
  mk_CompiledInstruction 5 (Some [0; 0; 0; 0; 1; 1; 2]%N) (Some mint_data).
Definition mint_lines : list string := [data_line 66; data_line 65].

Abbreviation handle_toy F ix lines d :=
  (@handle_bubblegum_instruction _ release F _ _ _ _ _ _ ix 7 lines mint_keys d).

Lemma mint_logged lines :
  get_leaf_event lines = Ok (to_event leaf0) → lines_of created minted lines.
Proof.
  intros Hl e (new & Hlogs & Hnew).
  assert (logs created = []) as Hc by by vm_compute. rewrite Hc in Hlogs. cbn [app] in Hlogs. subst new.
  assert (filter announces (logs minted) = [LogLeaf (to_event leaf0)]) as Hm by by vm_compute.
  rewrite Hm in Hnew. injection Hnew as <-. exact Hl.
Qed.

Lemma index_follows_ledger_witness :
  (handle_toy reliable mint_instruction mint_lines (start 0)).1 = Ok tt ∧
  ∃ L', indexed (get_asset_id bubblegum (tree_id (slab minted))) L'
          (assets (tbl (handle_toy reliable mint_instruction mint_lines (start 0)).2)).
Proof.
  assert ((handle_toy reliable mint_instruction mint_lines (start 0)).1 = Ok tt) as Hok by by vm_compute.
  split; [exact Hok|]. apply method_result in Hok.
  assert (run_b bubblegum gummyroll wrapper token_metadata (OpMint mint_accs metadata) created = (Ok tt, minted))
    as Hrun by (unfold minted, run_toy; apply method_result; by vm_compute).
  destruct (@index_follows_ledger _ _ _ _ _ _ reliable _ _ _ _ _ _ bubblegum gummyroll wrapper token_metadata
    3 8 1 created minted _ _ (OpMint mint_accs metadata) tt mint_instruction 7 mint_lines mint_keys (start 0)
    (handle_toy reliable mint_instruction mint_lines (start 0)).2 created_rep (ledger_inv_empty _) mint_fair Hrun (indexed_empty _ _)) as (e & L' & a' & _ & _ & _ & Hix & _).
  - split; [exists mint_data; split; [done|by vm_compute]|]. exists [0; 0; 0; 0; 1; 1; 2]%N. by split_and!.
  - apply mint_logged. by vm_compute.
  - exact Hok.
  - exists L'. exact Hix.
Defined.

(** A decompression over a database whose second statement fails. *)
Definition second_fails : Faults :=
  {| fails n := (n =? 1)%N; missing_update_fails := true; receiver_closed := false |}.
Definition decompress_instruction : CompiledInstruction :=
  mk_CompiledInstruction 5 None (Some (byte_of_N <$> [54; 85; 76; 70; 228; 250; 164; 81]%N)).

Lemma failed_instruction_changes_nothing_witness :
  (handle_toy second_fails decompress_instruction [data_line 67] (start 0)).1 = Err StorageWriteError ∧
  tbl (handle_toy second_fails decompress_instruction [data_line 67] (start 0)).2 = tbl (start 0).
Proof.
  assert ((handle_toy second_fails decompress_instruction [data_line 67] (start 0)).1 = Err StorageWriteError) as Herr
    by by vm_compute.
  split; [exact Herr|]. apply method_result in Herr.
  destruct (@failed_instruction_changes_nothing _ release second_fails _ _ _ _ _ _ _ 7 [data_line 67] mint_keys
    (start 0) _ _ Herr eq_refl) as [Hthm|[=]]. exact Hthm.
Defined.

Module AToy.
Import Toy GToy BToy IToy.

(** The paths that the code selects. *)
Definition select_key (v : json) (key : string) : option (list json) := (λ x, [x]) <$> json_get v key.

#[export] Instance toy_paths : JsonPath := {
  json_select v path :=
    if decide (path = "$.image") then select_key v "image"
    else if decide (path = "$.animation_url") then select_key v "animation_url"
    else if decide (path = "$.external_url") then select_key v "external_url"
    else if decide (path = "$.properties.files[*]") then
      match json_index (json_index v "properties") "files" with JArray l => Some l | _ => None end
    else None;
  json_to_string v := match v with JString s => s | _ => "?" end;
}.

#[export] Instance toy_urls : Urls := {
  url_parse s := Some s;
  url_path s := s;
  mime_from_path s := if decide (s = "a.png") then Some "image/png"%string else None;
}.

Definition document : json :=
  JObject [("image", JString "a.png");
           ("properties", JObject [("files", JArray [JString "b.png"; JString "c.gif";
              JObject [("uri", JString "b.png"); ("type", JString "image/x")]])])]%string.

#[export] Instance toy_bodies : JsonBodies := λ _, document.
#[export] Instance toy_order : HashOrder := λ m, (map_to_list m).*2.
#[export] Instance toy_server : HttpClient := {
  fetch_json uri := if decide (uri = "ipfs"%string) then Some [x01] else None;
}.

(** Three files, and a file whose type is not a string. *)
Lemma content_lists_files_witness :
  match v1_content_from_json (E:=DbErr) document with
  | Ok c => ∃ files, co_files c = Some files ∧ length files = 3 ∧
      mk_File (Some "b.png"%string) (Some "image/x"%string) None None ∈ files
  | _ => False
  end.
Proof.
  pose proof (content_lists_files (E:=DbErr) document (λ m, reflexivity _)) as Hthm.
  destruct (v1_content_from_json (E:=DbErr) document) as [c|e| |] eqn:Hc; [|done| |done].
  - destruct Hthm as (_ & files & Hfiles & _ & Hin). exists files. split; [exact Hfiles|]. split.
    + vm_compute in Hc. injection Hc as <-. cbn [co_files] in Hfiles. by injection Hfiles as <-.
    + apply Hin. exists "b.png"%string. by vm_compute.
  - exfalso. by vm_compute in Hc.
Defined.

(** The mint, and the turn that stores its metadata. *)
Definition indexed_mint : db := (@handle_bubblegum_instruction _ release reliable _ _ _ _ _ _ mint_instruction 7 mint_lines mint_keys (start 0)).2.
Definition downloaded : db := (@run_next_task reliable _ indexed_mint).2.

Abbreviation toy_step := (@ingest_step _ release reliable _ _ _ _ _ _ _).

Lemma mint_step : toy_step (start 0) indexed_mint.
Proof. unfold indexed_mint. exact (@Step_bubblegum _ release reliable _ _ _ _ _ _ _ _ _ _ _ _). Qed.

Lemma task_step : toy_step indexed_mint downloaded.
Proof. unfold downloaded. exact (@Step_task _ release reliable _ _ _ _ _ _ _ _). Qed.

Lemma minted_steps : rtc toy_step (start 0) downloaded.
Proof. exact (rtc_l _ _ _ _ mint_step (rtc_once _ _ task_step)). Qed.

Lemma start_linked : linked (start 0).
Proof. by apply linked_start. Qed.

Lemma indexed_mint_linked : linked indexed_mint.
Proof. unfold indexed_mint. by apply instruction_linked, start_linked. Qed.

Lemma metadata_stays_linked_witness :
  linked downloaded ∧ length (map_to_list (assets (tbl downloaded))) = 1 ∧
  ad_metadata <$> asset_datas (tbl downloaded) !! 0%Z = Some (JsonBody [x01]).
Proof.
  split; [|by vm_compute].
  exact (@metadata_stays_linked _ release reliable _ _ _ _ _ _ _ (start 0) downloaded eq_refl eq_refl eq_refl minted_steps).
Defined.

Lemma queued_metadata_is_stored_witness :
  ∃ d', @run_tasks reliable _ (length (task_queue indexed_mint)) indexed_mint = (Ok tt, d') ∧ task_queue d' = [] ∧
    stored d' (mk_DownloadMetadata 0 "ipfs").
Proof.
  destruct (@queued_metadata_is_stored reliable _ indexed_mint indexed_mint_linked (λ n, eq_refl)) as (d' & Hrun & Hq & Hst).
  exists d'. split; [exact Hrun|]. split; [exact Hq|]. apply Hst.
  assert (task_queue indexed_mint = [mk_DownloadMetadata 0 "ipfs"]) as -> by by vm_compute. by left.
Defined.

Lemma minted_indexed : indexed (λ _, ls_id leaf0) minted_ledger (assets (tbl indexed_mint)).
Proof.
  assert (∀ l b, holds minted_ledger l b → l = leaf0 ∧ b = true) as Hholds.
  { intros l [|] Hl; simpl in Hl.
    - destruct Hl as [i Hi]. apply lookup_singleton_Some in Hi as [_ <-]. done.
    - destruct Hl as (k & v & Hk & _). by rewrite lookup_empty in Hk. }
  split.
  - intros l b Hl. destruct (Hholds _ _ Hl) as [-> ->].
    destruct (assets (tbl indexed_mint) !! ls_id leaf0) as [r|] eqn:Hr; [|by vm_compute in Hr].
    exists r. split; [done|]. vm_compute in Hr. injection Hr as <-. by vm_compute.
  - intros l b Hl. by destruct (Hholds _ _ Hl) as [-> _].
  - intros l1 l2 b1 b2 H1 H2 _. destruct (Hholds _ _ H1) as [-> _]. by destruct (Hholds _ _ H2) as [-> _].
Qed.

End AToy.

(** ** The requests of the HTTP API *)
Module NToy.
Import Toy IToy.

(** A pattern takes a path with the same segments, each parameter standing for one. *)
Fixpoint match_segments (pattern path : list string) : option (gmap string string) :=
  match pattern, path with
  | [], [] => Some ∅
  | a :: pattern, b :: path =>
      req ← match_segments pattern path;
      match a with
      | String c name =>
          if Ascii.eqb c (Ascii.ascii_of_N 58) then Some (<[name:=b]> req) else if decide (a = b) then Some req else None
      | EmptyString => if decide (a = b) then Some req else None
      end
  | _, _ => None
  end.

#[export] Instance toy_router : Routerify := λ pattern path, match_segments (segments "" pattern) (segments "" path).

Definition key_text : string := bs58_encode (vec_to_list tree_key).

Example toy_router_takes :
  route_match "/assets/:tree_id/:index/proof" ("/assets/" +:+ key_text +:+ "/5/proof") =
  Some (<["tree_id"%string := key_text]> {["index"%string := "5"%string]}) ∧
  decode_b58_param key_text = Ok tree_key ∧ i64_from_str "5" = Some 5%Z ∧ i64_from_str "-12" = Some (-12)%Z.
Proof. by vm_compute. Qed.

(** The index of the request is not a number. *)
Definition bad_request : gmap string string := <["tree_id"%string := key_text]> {["index"%string := "one"%string]}.

Lemma bad_parameter_unanswered_witness :
  (@handle_get_asset_proof _ release reliable _ (λ _ _, None) bad_request (index_of 3)) = (Panic, index_of 3).
Proof.
  destruct (@bad_parameter_unanswered _ release reliable _ (λ _ _, None) (λ _, [])
    "/assets/:tree_id/:index/proof" _ bad_request (index_of 3)
    (list_elem_of_here _ _)) as [Hthm _].
  apply (Hthm "index"%string "one"%string); [|by vm_compute..]. apply (bool_decide_unpack _). by vm_compute.
Defined.
End NToy.

