(* ===== verification/EndToEnd.v ===== *)
(** * From the program to the answers of the APIs

    A run of the compressed-NFT program, instruction after instruction, with the
    ingester behind it: each instruction that succeeds is ingested from its logs,
    perhaps after attempts that failed, between turns of the background loop.  At the
    end both halves of the index follow the program: the change-log table represents
    its tree, and the rows of the assets its ledger; and the APIs answer from them. *)

From S2P Require Import Prelude Text Hashing MerkleSpec ChangeLog MerkleRoll MerkleRollSpec.
From S2P Require Import MerkleRollLemmas MerkleRollWrite MerkleRollInit Solana Gummyroll GummyrollCanopy.
From S2P Require Import GummyrollTheorems GummyrollSound LeafSchema Bubblegum Database Json ChangeLogStore.
From S2P Require Import ChangeLogStoreTheorems IndexedTree ProofApi ProofApiTheorems ProofApiProperties.
From S2P Require Import NftApi AssetApi ProgramLogs.
From S2P Require Import AssetStore BubblegumLedger BubblegumTheorems AssetStoreTheorems AssetLedger.
From S2P Require Import AssetMetadata AssetApiTheorems.
From S2P Require Import MerkleRollWitnesses GummyrollLimits BubblegumWitnesses IndexerWitnesses.

(** ** One more event in the table of a tree *)
Section table.
Context `{Keccak}.
Implicit Types (t : tables) (id : Pubkey) (T : tree) (d l : nat) (i j s : N) (v : Node).

(** [represents], also for a tree without writes, which has no rows. *)
Record covers t id d T s : Prop := mk_covers {
  cv_node : ∀ l j, l ≤ d → (j < 2 ^ N.of_nat (d - l))%N →
    match cl_items t !! node_key id d l j with
    | Some r => ∃ s', (s' ≤ s)%N ∧ r = node_item T d s' l j
    | None => tnode T l j = empty_node l
    end;
  cv_only : ∀ x r, cl_items t !! (id, x) = Some r →
    ∃ l j, l ≤ d ∧ (j < 2 ^ N.of_nat (d - l))%N ∧ x = heap_index d l j;
}.

Lemma covers_represents t id d T s : represents t id d T s → covers t id d T s.
Proof. intros [Hn _ Ho]. by split. Qed.

Lemma covers_empty t id d s : (∀ x, cl_items t !! (id, x) = None) → covers t id d ∅ s.
Proof.
  intros Hnone. split; [|intros x r; by rewrite Hnone].
  intros l j Hl Hj. unfold node_key. rewrite Hnone. by apply tnode_empty.
Qed.

Lemma covers_ext t t' id d T s : cl_items t' = cl_items t → covers t id d T s → covers t' id d T s.
Proof. intros Heq [Hn Ho]. by split; rewrite ?Heq. Qed.

Lemma upserts_keys (m : gmap (Pubkey * Z) cl_item) (rows : list row) k r :
  foldl (upsert false) m rows !! k = Some r → is_Some (m !! k) ∨ ∃ r', (k, r') ∈ rows.
Proof.
  induction rows as [|[k' it] rows IH] using rev_ind; [by left; exists r|].
  rewrite foldl_app. cbn [foldl]. destruct (decide (k = k')) as [<-|Hne].
  - right. exists it. apply elem_of_snoc. by right.
  - rewrite upsert_lookup_ne by done. intros [?|[r' Hr']]%IH; [by left|].
    right. exists r'. apply elem_of_snoc. by left.
Qed.

(** The rows of the event of the next write replace those of its path. *)
Lemma covers_step t t' id d T s i v :
  covers t id d T s → d ≤ 30 → (i < 2 ^ N.of_nat d)%N → (s + 1 < 2 ^ 63)%N →
  cl_items t' = foldl (upsert false) (cl_items t) (event_rows (event_of id (<[i:=v]> T) d i (s + 1))) →
  represents t' id d (<[i:=v]> T) (s + 1).
Proof.
  intros [Hn Ho] Hd Hi Hs Ht'. set (rows := event_rows _) in Ht'.
  assert (∀ l j r, l ≤ d → (j < 2 ^ N.of_nat (d - l))%N →
    (node_key id d l j, r) ∈ rows ↔ j = ix i l ∧ r = node_item (<[i:=v]> T) d (s + 1) l j) as Hrows.
  { intros l j r Hl Hj. by apply event_row_in. }
  assert (∀ l j r, l ≤ d → (j < 2 ^ N.of_nat (d - l))%N → (node_key id d l j, r) ∈ map_to_list (cl_items t) →
    ∃ s', (s' ≤ s)%N ∧ r = node_item T d s' l j) as Hold.
  { intros l j r Hl Hj Hr%elem_of_map_to_list. specialize (Hn l j Hl Hj). by rewrite Hr in Hn. }
  assert (∀ l j o, l ≤ d → (j < 2 ^ N.of_nat (d - l))%N →
    newest (map_to_list (cl_items t) ++ rows) (node_key id d l j) o → cl_items t' !! node_key id d l j = o) as Hlook.
  { intros l j o Hl Hj Ho'.
    assert (coherent_at (map_to_list (cl_items t) ++ rows) (node_key id d l j)) as Hc.
    { intros r1 r2. rewrite !elem_of_app, !Hrows by done.
      intros [H1|[Hj1 ->]] [H2|[_ ->]]; [| | |done].
      - apply elem_of_map_to_list in H1, H2. rewrite H1 in H2. by injection H2 as <-.
      - apply Hold in H1 as (s' & Hs' & ->); [|done..]. simpl. split; [done|]. split; [done|]. intros; lia.
      - apply Hold in H2 as (s' & Hs' & ->); [|done..]. simpl. split; [done|]. split; [done|]. intros; lia. }
    rewrite Ht'. eapply newest_unique; [exact Hc|by apply newest_upserts|done]. }
  assert (∀ l j, l ≤ d → (j < 2 ^ N.of_nat (d - l))%N → j = ix i l →
    cl_items t' !! node_key id d l j = Some (node_item (<[i:=v]> T) d (s + 1) l j)) as Hnew.
  { intros l j Hl Hj Hji. apply Hlook; [done..|]. split.
    - apply elem_of_app. right. by apply Hrows.
    - intros r2 [H2|H2]%elem_of_app.
      + apply Hold in H2 as (s' & Hs' & ->); [|done..]. simpl. lia.
      + by apply Hrows in H2 as [_ ->]. }
  split.
  - intros l j Hl Hj. destruct (decide (j = ix i l)) as [Hji|Hne].
    + rewrite Hnew by done. by exists (s + 1)%N.
    + assert (cl_items t' !! node_key id d l j = cl_items t !! node_key id d l j) as ->.
      { apply Hlook; [done..|]. destruct (cl_items t !! node_key id d l j) as [r|] eqn:Hr; simpl.
        - rewrite elem_of_app, elem_of_map_to_list. split; [by left|].
          intros r2 [H2|H2]%elem_of_app; [|by apply Hrows in H2 as [? _]].
          apply elem_of_map_to_list in H2. by simplify_eq.
        - intros r2 [H2|H2]%elem_of_app; [|by apply Hrows in H2 as [? _]].
          apply elem_of_map_to_list in H2. by simplify_eq. }
      specialize (Hn l j Hl Hj). destruct (cl_items t !! node_key id d l j) as [r|].
      * destruct Hn as (s' & Hs' & ->). exists s'. split; [lia|]. unfold node_item. by rewrite tnode_insert_ne.
      * by rewrite tnode_insert_ne.
  - apply Hnew; [done|by rewrite Nat.sub_diag|by rewrite ix_eq_0].
  - intros x r Hr.
    rewrite Ht' in Hr. apply upserts_keys in Hr as [[r' Hr']|[r' Hr']]; [by eapply Ho|].
    unfold rows in Hr'. rewrite event_rows_of in Hr' by done.
    apply list_elem_of_fmap in Hr' as (l & [= -> _] & Hl%elem_of_seq).
    exists l, (ix i l). split; [lia|]. split; [apply ix_lt; [lia|done]|done].
Qed.
End table.

(** ** What a handler leaves in the change-log table *)
Section handlers.
Context `{Keccak} `{BuildProfile} `{Faults} `{LogSyntax} `{Base58} `{MintArguments}.
Context `{EventDecoder ChangeLogEvent} `{EventDecoder LeafSchemaEvent} `{EventDecoder NFTDecompressionEvent}.
Implicit Types (d : db).

Definition cl_view (d : db) := cl_items (tbl d).

Abbreviation keeps_trees m := (moves (same cl_view) m).

Lemma keeps_trees_bind {E A C} (m : method db E A) (f : A → method db E C) :
  keeps_trees m → (∀ x, keeps_trees (f x)) → keeps_trees (m ≫= f).
Proof. apply moves_bind, _. Qed.

Lemma keeps_trees_execute {A} (f : db → A * db) : (∀ d, cl_view (f d).2 = cl_view d) → keeps_trees (execute f).
Proof. intros. by apply moves_execute_as; [apply _|..]. Qed.

Hint Resolve moves_ret moves_lift : core.

Lemma update_asset_trees id model : keeps_trees (update_asset id model).
Proof.
  apply keeps_trees_bind; [|done]. apply keeps_trees_execute. intros d. by destruct (assets (tbl d) !! id).
Qed.

Lemma insert_minted_trees metadata schema authority owner delegate slab :
  keeps_trees (insert_minted metadata schema authority owner delegate slab).
Proof.
  unfold insert_minted, insert_creators, insert_authority, insert_grouping, insert_asset, insert_asset_data, update_tables.
  repeat (first [apply keeps_trees_bind; [|intros ?]|apply keeps_trees_execute; intros d|case_match|case_decide]; try done).
Qed.

Lemma send_task_trees t : keeps_trees (send_task t).
Proof. intros d. unfold send_task. by destruct receiver_closed. Qed.

(** A transaction that stores events before anything else. *)
Lemma stored_trees {A} (m : i_method A) evs slot d x d' :
  keeps_trees m → transaction (save_changelog_events evs slot;; m) d = (Ok x, d') → Forall event_ok evs →
  cl_items (tbl d') = foldl (upsert false) (cl_items (tbl d)) (rows_of evs).
Proof.
  intros Hm Hrun Hevs. apply transaction_Ok_inv in Hrun as (d1 & Hrun & ->).
  apply method_bind_Ok_inv in Hrun as ([] & d2 & Hsave & Hrun).
  apply save_changelog_events_Ok in Hsave as [_ Hrows]; [|done].
  specialize (Hm d2). rewrite Hrun in Hm. unfold same, cl_view in Hm. simpl in *. by rewrite Hm, Hrows.
Qed.

Lemma leaf_change_trees slot lines model d d' :
  leaf_change slot lines model d = (Ok tt, d') →
  ∃ evs, get_gummy_roll_events lines = Ok evs ∧
    (Forall event_ok evs → cl_items (tbl d') = foldl (upsert false) (cl_items (tbl d)) (rows_of evs)).
Proof.
  intros Hrun. unfold leaf_change in Hrun.
  do 2 (apply method_bind_Ok_inv in Hrun as (? & ? & Hl & Hrun); apply lift_Ok_inv in Hl as [? ->]).
  eexists. split; [eassumption|]. revert Hrun. apply stored_trees, update_asset_trees.
Qed.

Lemma handle_mint_trees ix slot lines keys d d' :
  handle_mint ix slot lines keys d = (Ok tt, d') →
  ∃ evs, get_gummy_roll_events lines = Ok evs ∧
    (Forall event_ok evs → cl_items (tbl d') = foldl (upsert false) (cl_items (tbl d)) (rows_of evs)).
Proof.
  intros Hrun. unfold handle_mint in Hrun.
  do 10 (apply method_bind_Ok_inv in Hrun as (? & ? & Hl & Hrun); apply lift_Ok_inv in Hl as [? ->]).
  apply method_bind_Ok_inv in Hrun as (id & d1 & Htxn & Hsend).
  eexists. split; [eassumption|]. intros Hevs.
  assert (cl_items (tbl d') = cl_items (tbl d1)) as ->.
  { match type of Hsend with send_task ?t _ = _ => pose proof (send_task_trees t d1) as Hs end.
    rewrite Hsend in Hs. exact Hs. }
  revert Htxn Hevs. apply stored_trees, insert_minted_trees.
Qed.

Lemma handle_decompress_trees lines d d' :
  handle_decompress lines d = (Ok tt, d') → cl_items (tbl d') = cl_items (tbl d).
Proof.
  intros Hrun. unfold handle_decompress in Hrun. apply method_bind_Ok_inv in Hrun as (e & ? & Hl & Hrun).
  apply lift_Ok_inv in Hl as [_ ->]. apply transaction_Ok_inv in Hrun as (d1 & Hrun & ->).
  destruct (dec_version e). pose proof (update_asset_trees (dec_id e) (decompress_model (dec_id e)) (tick d)) as Hm.
  rewrite Hrun in Hm. exact Hm.
Qed.

(** The handler of an operation that succeeds stores the events of the tree program,
    if the operation is not a decompression. *)
Lemma handler_trees o ix slot lines keys d d' :
  instruction_of o ix keys → handle_bubblegum_instruction ix slot lines keys d = (Ok tt, d') →
  match o with
  | OpDecompress _ _ => cl_items (tbl d') = cl_items (tbl d)
  | _ => ∃ evs, get_gummy_roll_events lines = Ok evs ∧
      (Forall event_ok evs → cl_items (tbl d') = foldl (upsert false) (cl_items (tbl d)) (rows_of evs))
  end.
Proof.
  intros [(data & Hdata & Hname) _] Hrun. unfold handle_bubblegum_instruction in Hrun. rewrite Hdata in Hrun.
  apply method_bind_Ok_inv in Hrun as (b & ? & Hl & Hrun). apply lift_Ok_inv in Hl as [Hl ->]. injection Hl as <-.
  apply method_bind_Ok_inv in Hrun as (name & ? & Hl & Hrun). apply lift_Ok_inv in Hl as [Hl ->].
  rewrite Hname in Hl. injection Hl as <-.
  destruct o; cbn [op_name] in Hrun;
    first [by eapply handle_decompress_trees|by eapply handle_mint_trees|by eapply leaf_change_trees].
Qed.

(** A turn of the background loop changes neither half of the index. *)
Lemma run_next_task_index `{HttpClient} d :
  assets (tbl (run_next_task d).2) = assets (tbl d) ∧ cl_items (tbl (run_next_task d).2) = cl_items (tbl d).
Proof.
  set (index := λ d : db, (assets (tbl d), cl_items (tbl d))).
  enough (index (run_next_task d).2 = index d) as [= -> ->] by done.
  unfold run_next_task. destruct (task_queue d) as [|t q]; [done|].
  assert (moves (same index) (DownloadMetadata_task t)) as Hm.
  { unfold DownloadMetadata_task. apply moves_bind; [apply _|by apply moves_lift, _|]. intros body.
    apply moves_bind; [apply _| |by intros u; apply moves_lift, _].
    apply moves_execute_as; [apply _|done|]. intros d0. by destruct (asset_datas (tbl d0) !! _). }
  specialize (Hm (set_task_queue q d)). unfold mbind, method_bind, attempt.
  by destruct (DownloadMetadata_task t (set_task_queue q d)) as [[]].
Qed.
End handlers.

(** ** What the APIs answer *)
Section answers.
Context `{Keccak} `{BuildProfile} {F : Faults} `{Base58} `{RowOrder}.
Context `{JsonPath} `{Urls} `{JsonBodies} `{HashOrder} `{Routerify}.

(** The asset API answers a request for an NFT with its owner and its delegate when the
    stored document of the NFT can be read, and panics when it cannot. *)
Definition asset_answered (l : LeafSchema) (d : db) : Prop :=
  ∃ r, metadata_row d (ls_id l) r ∧
    (unreadable (metadata_of r) → (DasApi_get_asset (bs58_encode (vec_to_list (ls_id l))) d).1 = Panic) ∧
    (¬ unreadable (metadata_of r) → ∃ ans,
       (DasApi_get_asset (bs58_encode (vec_to_list (ls_id l))) d).1 = Ok ans ∧
       ow_owner (rs_ownership ans) = bs58_encode (vec_to_list (ls_owner l)) ∧
       default (ow_owner (rs_ownership ans)) (ow_delegate (rs_ownership ans)) = bs58_encode (vec_to_list (ls_delegate l))).

(** The HTTP API answers every request for the proof of leaf [i], however its path spells
    the key of the tree and the index, with the root of [T] and with a proof from which
    the programs compute this root. *)
Definition proof_answered (asset_query : Pubkey → Z → option AssetDAO) (tree_id : Pubkey) (T : tree) (n : nat)
    (i : N) (leaf : Node) (d : db) : Prop :=
  ∀ owner_query path req tree_text index_text,
    route_match "/assets/:tree_id/:index/proof" path = Some req →
    req !! "tree_id"%string = Some tree_text → decode_b58_param tree_text = Ok tree_id →
    req !! "index"%string = Some index_text → i64_from_str index_text = Some (Z.of_N i) →
    ∃ ans pv, (router asset_query owner_query path d).1 = Ok (json_success_resp (ProofData ans), post_headers) ∧
      decode_node (ap_root ans) = Some (troot T n) ∧ mapM decode_node (ap_proof ans) = Some pv ∧
      recompute (E:=CMTError) leaf pv i = Ok (troot T n).

Lemma router_asset_proof asset_query owner_query path req tree_text index_text tree_id z d ans :
  route_match "/assets/:tree_id/:index/proof" path = Some req →
  req !! "tree_id"%string = Some tree_text → decode_b58_param tree_text = Ok tree_id →
  req !! "index"%string = Some index_text → i64_from_str index_text = Some z →
  (asset_proof_of asset_query tree_id z d).1 = Ok ans →
  (router asset_query owner_query path d).1 = Ok (json_success_resp (ProofData ans), post_headers).
Proof.
  intros Hroute Ht Hkey Hi Hz Hans. unfold router. cbn [first_route routes]. rewrite Hroute.
  unfold handle_get_asset_proof, key_param, index_param, param, expect, attempt. run_method.
  rewrite Ht, Hi. cbn [unwrap fst snd]. rewrite Hkey. cbn [unwrap fst snd]. rewrite Hz. cbn [unwrap].
  destruct (asset_proof_of asset_query tree_id z d) as [o d']. cbn [fst] in Hans. by rewrite Hans.
Qed.

Lemma proof_answered_ok asset_query tree_id T n s i leaf d :
  represents (tbl d) tree_id n T s → (i < 2 ^ N.of_nat n)%N → n ≤ 30 → leaf_at T i = leaf →
  (∀ k, fails k = false) → (∀ b, bs58_decode (bs58_encode b) = Some b) →
  (∀ r, asset_query tree_id (heap_index n 0 i) = Some r →
     ao_index r = heap_index n 0 i ∧ ao_level r = Z.of_nat n) →
  proof_answered asset_query tree_id T n i leaf d.
Proof.
  intros HR Hi Hn <- Hf Hb Hq owner_query path req tree_text index_text Hroute Ht Hkey Hix Hz.
  eexists _, (tproof T n i). split.
  { eapply router_asset_proof; [done..|]. by apply (handle_get_asset_proof_ok d _ _ n T s i). }
  cbn [ap_root ap_proof]. split; [by apply decode_encode_node|]. split.
  - apply mapM_Some_2. apply Forall2_fmap_l, Forall_Forall2_diag, Forall_forall. intros v _.
    by apply decode_encode_node.
  - rewrite recompute_ok by (rewrite length_tproof; lia). by rewrite hash_path_tproof.
Qed.
End answers.

(** ** Runs *)
Section runs.
Context `{Keccak} `{BuildProfile} `{EventCodec} `{Pda} `{BubblegumCodec} `{TokenPrograms}.
Context `{Faults} `{LogSyntax} `{Base58} `{MintArguments} `{HttpClient}.
Context `{EventDecoder ChangeLogEvent} `{EventDecoder LeafSchemaEvent} `{EventDecoder NFTDecompressionEvent}.
Context (bubblegum_id gummyroll_id candy_wrapper_id token_metadata_id : Pubkey).
Context (n : nat) (B : N) (p : nat).
Implicit Types (s : bstate) (a : aroll) (L : ledger) (d : db).

Abbreviation run o := (run_b bubblegum_id gummyroll_id candy_wrapper_id token_metadata_id o).

Definition emitted (es : list event) : list ChangeLogEvent :=
  omap (λ e, match e with Emitted ev => Some ev | Wrapped _ => None end) es.

(** The log lines carry the change logs that the tree program emitted between two
    states, and no others. *)
Definition tree_lines_of s s' (lines : list string) : Prop :=
  ∀ new, events (slab s') = events (slab s) ++ new → get_gummy_roll_events lines = Ok (emitted new).

(** A run from the program's state [s] and the database [d], where [s] represents the
    abstract tree [a] and the ledger [L]: an instruction that succeeds and that the
    ingester handles without an error; an attempt of the ingester that fails; a
    turn of the background loop.  Each instruction must meet no accident of the hash, and
    the nonces and sequence numbers must fit their integers. *)
Inductive ingested_run : bstate → aroll → ledger → db → bstate → db → Prop :=
  | run_end s a L d : ingested_run s a L d s d
  | run_instruction s a L d o u s1 ix slot lines keys d1 s' d' :
      no_accident bubblegum_id n s a L o → (l_next L < 2 ^ 64 - 1)%N → (a_seq a + 1 < 2 ^ 63)%N →
      run o s = (Ok u, s1) → instruction_of o ix keys → lines_of s s1 lines → tree_lines_of s s1 lines →
      handle_bubblegum_instruction ix slot lines keys d = (Ok tt, d1) →
      (∀ a1 L1, b_rep n B p s1 a1 L1 → ingested_run s1 a1 L1 d1 s' d') →
      ingested_run s a L d s' d'
  | run_attempt s a L d ix slot lines keys o d1 s' d' :
      handle_bubblegum_instruction ix slot lines keys d = (o, d1) → is_ok o = false → receiver_closed = false →
      ingested_run s a L d1 s' d' → ingested_run s a L d s' d'
  | run_task s a L d s' d' :
      ingested_run s a L (run_next_task d).2 s' d' → ingested_run s a L d s' d'.

(** The index follows the program: both of its halves, and its metadata. *)
Record follows s a L d : Prop := mk_follows {
  fo_rep : b_rep n B p s a L;
  fo_inv : ledger_inv (voucher_address bubblegum_id (tree_id (slab s))) L;
  fo_indexed : indexed (get_asset_id bubblegum_id (tree_id (slab s))) L (assets (tbl d));
  fo_linked : linked d;
  fo_covers : covers (tbl d) (tree_id (slab s)) n (a_tree a) (a_seq a);
  fo_tree : a_tree a = ∅ ∨ represents (tbl d) (tree_id (slab s)) n (a_tree a) (a_seq a);
}.

(** The change-log table after an instruction. *)
Lemma tree_followed s s1 a a1 L o u ix slot lines keys d d1 :
  follows s a L d → (a_seq a + 1 < 2 ^ 63)%N → run o s = (Ok u, s1) →
  tree_id (slab s1) = tree_id (slab s) → tree_moved n B (slab s) (slab s1) a a1 →
  instruction_of o ix keys → tree_lines_of s s1 lines →
  handle_bubblegum_instruction ix slot lines keys d = (Ok tt, d1) →
  covers (tbl d1) (tree_id (slab s1)) n (a_tree a1) (a_seq a1) ∧
  (a_tree a1 = ∅ ∨ represents (tbl d1) (tree_id (slab s1)) n (a_tree a1) (a_seq a1)).
Proof.
  intros [HR _ _ _ Hc Ht] Hseq Hrun Htid Hmoved Hins Hlines Hh. rewrite Htid.
  pose proof (handler_trees _ _ _ _ _ _ _ Hins Hh) as Hcl.
  assert (cl_items (tbl d1) = cl_items (tbl d) → a1 = a →
    covers (tbl d1) (tree_id (slab s)) n (a_tree a1) (a_seq a1) ∧
    (a_tree a1 = ∅ ∨ represents (tbl d1) (tree_id (slab s)) n (a_tree a1) (a_seq a1))) as Hsame.
  { intros Heq ->. split; [by eapply covers_ext|]. destruct Ht as [|Ht]; [by left|right]. by eapply represents_ext. }
  assert ((cl_items (tbl d1) = cl_items (tbl d) ∧ slab s1 = slab s) ∨
    ∃ evs, get_gummy_roll_events lines = Ok evs ∧
      (Forall event_ok evs → cl_items (tbl d1) = foldl (upsert false) (cl_items (tbl d)) (rows_of evs))) as Hcase.
  { destruct o; [right; exact Hcl..|left]. split; [exact Hcl|]. cbn [run_b] in Hrun.
    by apply decompress_Ok in Hrun as (v & calls & _ & _ & _ & _ & _ & _ & Hslab & _). }
  destruct (supported_sizes n B (ar_supported _ _ _ _ _ (br_acct _ _ _ _ _ _ HR))) as [Hsizes _].
  destruct Hcase as [[Heq Hslab]|(evs & Hevs & Hcl')], Hmoved as [[-> Hev]|(i & v & Hi & -> & Hpub)].
  - by apply Hsame.
  - exfalso. unfold published in Hpub. rewrite Hslab in Hpub. apply (f_equal length) in Hpub.
    rewrite length_app in Hpub. simpl in Hpub. lia.
  - apply Hsame; [|done]. rewrite (Hlines []) in Hevs by (by rewrite app_nil_r). injection Hevs as <-.
    by apply Hcl'.
  - rewrite (Hlines _ Hpub) in Hevs. injection Hevs as <-.
    rewrite (a_tree_write n B Hsizes). cbn [a_write a_seq]. unfold published in Hpub.
    rewrite saturating_add_small by lia. rewrite saturating_add_small in Hcl' by lia.
    assert (n ≤ 30) as Hn by apply Hsizes.
    assert (represents (tbl d1) (tree_id (slab s)) n (<[i:=v]> (a_tree a)) (a_seq a + 1)) as Hrep.
    { eapply covers_step; [exact Hc|done..|]. rewrite Hcl' by (by apply Forall_singleton, event_of_ok).
      unfold rows_of. cbn [emitted omap list_omap mbind list_bind]. by rewrite app_nil_r. }
    split; [by apply covers_represents|by right].
Qed.

Lemma ingested_run_follows s a L d s' d' :
  ingested_run s a L d s' d' → follows s a L d → ∃ a' L', follows s' a' L' d'.
Proof.
  induction 1 as [s a L d|s a L d o u s1 ix slot lines keys d1 s' d' Hfair Hnext Hseq Hrun Hins Hlines Htrees Hh _ IH
    |s a L d ix slot lines keys o d1 s' d' Hh Herr Hopen _ IH|s a L d s' d' _ IH]; intros Hfo.
  - by exists a, L.
  - destruct (instruction_indexed _ _ _ _ _ _ _ s s1 a L o u ix slot lines keys d d1 (fo_rep _ _ _ _ Hfo)
      (fo_inv _ _ _ _ Hfo) Hfair Hrun (fo_indexed _ _ _ _ Hfo) Hins Hlines Hh)
      as (e & L1 & a1 & _ & HR1 & Hstep & Hix & _ & Htid & Hmoved).
    destruct (tree_followed s s1 a a1 L o u ix slot lines keys d d1) as [Hc Ht]; [done..|].
    apply (IH a1 L1 HR1). split; [done| |done| |done|done].
    + rewrite Htid. by eapply ledger_inv_step; [exact Hstep|apply Hfo|].
    + pose proof (instruction_linked ix slot lines keys d (fo_linked _ _ _ _ Hfo)) as Hl. by rewrite Hh in Hl.
  - apply IH. destruct (failed_handler_atomic _ _ _ _ _ _ _ Hh Herr) as [Heq|Hclosed]; [|congruence].
    destruct Hfo as [HR Hinv Hix Hl Hc Ht]. split; rewrite ?Heq; try done.
    pose proof (instruction_linked ix slot lines keys d Hl) as Hl'. by rewrite Hh in Hl'.
  - apply IH. destruct (run_next_task_index d) as [HA HC]. destruct Hfo as [HR Hinv Hix Hl Hc Ht].
    split; rewrite ?HA; try done.
    + by apply run_next_task_linked.
    + by eapply covers_ext.
    + destruct Ht as [|Ht]; [by left|right]. by eapply represents_ext.
Qed.

(** The leaf of an NFT is in the tree. *)
Lemma leaf_in_tree s a L d i l :
  follows s a L d → l_leaves L !! i = Some l →
  leaf_at (a_tree a) i = to_node l ∧ a_tree a ≠ ∅ ∧ (i < 2 ^ N.of_nat n)%N.
Proof.
  intros Hfo Hl. pose proof (fo_rep _ _ _ _ Hfo) as HR.
  destruct (br_sane _ _ _ _ _ _ HR i l Hl) as [_ Hne].
  assert (leaf_at (a_tree a) i = to_node l) as Hleaf.
  { rewrite (br_leaves _ _ _ _ _ _ HR). unfold leaf_of. by rewrite Hl. }
  split; [done|]. split; [intros He; rewrite He in Hleaf; by rewrite <-Hleaf in Hne|].
  destruct (ar_data _ _ _ _ _ (br_acct _ _ _ _ _ _ HR)) as (roll & c & _ & Hroll & _).
  destruct (N.lt_ge_cases i (2 ^ N.of_nat n)) as [|Hge]; [done|]. destruct Hne. rewrite <-Hleaf.
  apply (rep_rmp _ _ _ _ Hroll). pose proof (wf_rm_index _ _ _ (rep_wf _ _ _ _ Hroll)). lia.
Qed.

Context `{RowOrder} `{JsonPath} `{Urls} `{JsonBodies} `{HashOrder} `{Routerify}.

(** C4: from the program to the answers.  The program runs from a new tree, and the
    ingester stores each instruction that succeeded, over attempts that fail and
    between turns of the background loop.  At the end the state of the program
    represents a tree and a ledger; the asset API answers a request for each NFT of the
    ledger, in the tree or redeemed, with its owner and delegate if the document stored
    for this NFT can be read (a document that cannot be read, such as one whose image is
    null, makes it panic); and the HTTP API answers a request for each leaf with the root
    of the program's tree and a proof from which the programs compute that root.  The run
    meets no collision of the hash and its counters fit their integers; the failed
    attempts leave the channel of tasks open; no query of the APIs fails; and a row that
    the query on assets finds is one of the node it was asked for. *)
Theorem program_is_served s d s' d' (F : Faults) asset_query :
  b_rep n B p s (a_start ∅ 0 0 0) (mk_ledger ∅ ∅ 0) →
  assets (tbl d) = ∅ → asset_datas (tbl d) = ∅ → task_queue d = [] →
  (∀ x, cl_items (tbl d) !! (tree_id (slab s), x) = None) →
  ingested_run s (a_start ∅ 0 0 0) (mk_ledger ∅ ∅ 0) d s' d' →
  (∀ k, @fails F k = false) → (∀ b, bs58_decode (bs58_encode b) = Some b) →
  (∀ i r, asset_query (tree_id (slab s')) (heap_index n 0 i) = Some r →
     ao_index r = heap_index n 0 i ∧ ao_level r = Z.of_nat n) →
  ∃ a L, b_rep n B p s' a L ∧
    (∀ l in_tree, holds L l in_tree → asset_answered (F:=F) l d') ∧
    ∀ i l, l_leaves L !! i = Some l →
      proof_answered (F:=F) asset_query (tree_id (slab s')) (a_tree a) n i (to_node l) d'.
Proof.
  intros HR HA HD Hq Hcl Hrun Hf Hb Hquery.
  assert (follows s (a_start ∅ 0 0 0) (mk_ledger ∅ ∅ 0) d) as Hstart.
  { split; [done|apply ledger_inv_empty|apply indexed_empty|by apply linked_start|by apply covers_empty|by left]. }
  destruct (ingested_run_follows _ _ _ _ _ _ Hrun Hstart) as (a & L & Hfo).
  exists a, L. split; [apply Hfo|]. split.
  - intros l b Hl.
    destruct (served_asset_cases (H0:=F) _ L d' l b (fo_indexed _ _ _ _ Hfo) (fo_linked _ _ _ _ Hfo) Hf Hb Hl)
      as (r & Hr & _ & Hpanic & Hans).
    exists r. split; [done|]. split; [done|]. intros Hgood.
    destruct (Hans Hgood) as (ans & content & Hrun' & _ & Ho & Hd & _). by exists ans.
  - intros i l Hl. destruct (leaf_in_tree s' a L d' i l Hfo Hl) as (Hleaf & Hne & Hi).
    destruct (fo_tree _ _ _ _ Hfo) as [|Ht]; [done|].
    destruct (supported_sizes n B (ar_supported _ _ _ _ _ (br_acct _ _ _ _ _ _ (fo_rep _ _ _ _ Hfo)))) as [Hsizes _].
    apply (proof_answered_ok (F:=F) _ _ _ n (a_seq a)); [done|done|apply Hsizes|done|done|done|apply Hquery].
Qed.
End runs.

(** ** A run

    The first NFT of a tree is minted and ingested, an attempt to ingest the logs of a
    decompression fails, and the background loop stores the metadata. *)
Module RToy.
Import Toy GToy BToy IToy AToy NToy.
#[local] Opaque toy_hashv.

(** The change log of the mint, and the decoder that reads it in a data line. *)
Definition mint_event : ChangeLogEvent :=
  event_of (tree_id (slab created)) (<[0%N := to_node leaf0]> ∅) 3 0 1.

Definition decode_mint_event : EventDecoder ChangeLogEvent := {|
  discriminator := payload 65;
  deserialize _ := Some mint_event;
|}.

Abbreviation ingest ix lines := (@handle_bubblegum_instruction _ release reliable _ _ _ decode_mint_event _ _ ix 7 lines mint_keys).

Definition after_mint : db := (ingest mint_instruction mint_lines (start 0)).2.
Definition after_attempt : db := (ingest decompress_instruction [data_line 67] after_mint).2.
Definition after_task : db := (@run_next_task reliable _ after_attempt).2.

Abbreviation toy_ingested_run := (@ingested_run _ release _ _ _ _ reliable _ _ _ _ decode_mint_event _ _
  bubblegum gummyroll wrapper token_metadata 3 8 1).

Lemma mint_tree_lines : @tree_lines_of _ decode_mint_event created minted mint_lines.
Proof.
  intros new Hnew.
  assert (events (slab minted) = events (slab created) ++ [Wrapped (try_to_vec mint_event); Emitted mint_event]) as He
    by by vm_compute.
  rewrite He in Hnew. apply app_inv_head in Hnew as <-. by vm_compute.
Qed.

Lemma mint_run : toy_ingested_run created (a_start ∅ 0 0 0) (mk_ledger ∅ ∅ 0) (start 0) minted after_task.
Proof.
  assert (ingest mint_instruction mint_lines (start 0) = (Ok tt, after_mint)) as Hok
    by (unfold after_mint; apply method_result; by vm_compute).
  assert (run_b bubblegum gummyroll wrapper token_metadata (OpMint mint_accs metadata) created = (Ok tt, minted))
    as Hrun by (unfold minted, run_toy; apply method_result; by vm_compute).
  refine (@run_instruction _ release _ _ _ _ reliable _ _ _ _ decode_mint_event _ _ bubblegum gummyroll wrapper
    token_metadata 3 8 1 _ _ _ _ _ _ _ _ _ _ _ _ _ _ mint_fair _ _ Hrun _ _ mint_tree_lines Hok _).
  - done.
  - done.
  - split; [exists mint_data; split; [done|by vm_compute]|]. exists [0; 0; 0; 0; 1; 1; 2]%N. by split_and!.
  - apply mint_logged. by vm_compute.
  - intros a1 L1 _.
    assert (is_ok (ingest decompress_instruction [data_line 67] after_mint).1 = false) as Herr by by vm_compute.
    destruct (ingest decompress_instruction [data_line 67] after_mint) as [o d1] eqn:Hrun1.
    eapply run_attempt; [exact Hrun1|exact Herr|reflexivity|].
    assert (after_task = (@run_next_task reliable _ d1).2) as -> by (unfold after_task, after_attempt; by rewrite Hrun1).
    apply run_task, run_end.
Qed.

Lemma program_is_served_witness :
  ∃ a L, b_rep 3 8 1 minted a L ∧
    (∀ l in_tree, holds L l in_tree → asset_answered (F:=reliable) l after_task) ∧
    ∀ i l, l_leaves L !! i = Some l →
      proof_answered (F:=reliable) (λ _ _, None) (tree_id (slab minted)) (a_tree a) 3 i (to_node l) after_task.
Proof.
  refine (@program_is_served _ release _ _ _ _ reliable _ _ _ _ decode_mint_event _ _ bubblegum gummyroll wrapper
    token_metadata 3 8 1 _ _ _ _ _ _ created (start 0) minted after_task reliable (λ _ _, None) created_rep
    eq_refl eq_refl eq_refl (λ x, lookup_empty _) mint_run (λ k, eq_refl) toy_base58_ok _).
  intros i r [=].
Defined.
End RToy.
