(* ===== verification/Gumball.v ===== *)
(** * The gumball machine: [contracts/programs/gumball-machine/src]

    A machine sells the NFTs of a project in random order: its account holds a
    header, an array of indices that is shuffled as the items are dispensed, and
    the config lines, from which the metadata of an item is made.  Each item
    dispensed is minted by the compressed-NFT program ([Bubblegum]) into the tree
    of the machine.

    The header is a typed view of the first bytes of the account; the rest,
    [config_data], is kept as bytes, as the code cuts and casts it. *)

From S2P Require Import Prelude Text Hashing MerkleSpec Solana Gummyroll LeafSchema Bubblegum.

(** ** [state/mod.rs] *)

Inductive EncodeMethod := UTF8 | Base58Encode.

(** [From<u8>] panics on another value. *)
Definition EncodeMethod_from {E} (v : N) : outcome E EncodeMethod :=
  match v with
  | 0%N => Ok UTF8
  | 1%N => Ok Base58Encode
  | _ => Panic
  end.

Definition to_u8 (self : EncodeMethod) : N := match self with UTF8 => 0 | Base58Encode => 1 end.

Definition NUM_CREATORS : N := 5.

Record GumballCreatorAdapter := mk_GumballCreatorAdapter {
  gc_address : Pubkey;
  gc_verified : N;
  gc_share : N;
}.

Definition GumballCreatorAdapter_default : GumballCreatorAdapter :=
  mk_GumballCreatorAdapter default_pubkey 0 0.

Definition adapt (self : GumballCreatorAdapter) : Creator :=
  mk_Creator (gc_address self) (gc_verified self =? 1)%N (gc_share self).

Definition is_valid (self : GumballCreatorAdapter) : bool :=
  negb (bool_decide (gc_address self = default_pubkey)) && (0 <? gc_share self)%N.

(** The two paddings are left out. *)
Record GumballMachineHeader := mk_GumballMachineHeader {
  url_base : vec Byte.byte 64;
  name_base : bytes32;
  symbol : vec Byte.byte 8;
  seller_fee_basis_points : N;
  is_mutable : N;
  retain_authority : N;
  config_line_encode_method : N;
  creators : list GumballCreatorAdapter;
  price : N;
  go_live_date : Z;
  mint : Pubkey;
  bot_wallet : Pubkey;
  receiver : Pubkey;
  authority : Pubkey;
  collection_key : Pubkey;
  extension_len : N;
  max_mint_size : N;
  remaining : N;
  max_items : N;
  total_items_added : N;
  smallest_uninitialized_index : N;
}.

(** ** The state *)

Inductive payment :=
  | SolTransfer (from to : Pubkey) (amount : N)
  | TokenTransfer (from to authority : Pubkey) (amount : N).

(** The machine's account, the accounts of its tree, and the payments made. *)
Record gstate := mk_gstate {
  gumball_header : GumballMachineHeader;
  config_data : bytes;
  machine_lamports : N;
  tree_state : bstate;
  payments : list payment;
}.

Abbreviation gb_method := (method gstate b_error).

Definition set_header (h : GumballMachineHeader) (s : gstate) : gstate :=
  mk_gstate h (config_data s) (machine_lamports s) (tree_state s) (payments s).
Definition set_config (c : bytes) (s : gstate) : gstate :=
  mk_gstate (gumball_header s) c (machine_lamports s) (tree_state s) (payments s).
Definition set_tree (t : bstate) (s : gstate) : gstate :=
  mk_gstate (gumball_header s) (config_data s) (machine_lamports s) t (payments s).
Definition set_machine_lamports (n : N) (s : gstate) : gstate :=
  mk_gstate (gumball_header s) (config_data s) n (tree_state s) (payments s).
Definition add_payment (p : payment) (s : gstate) : gstate :=
  mk_gstate (gumball_header s) (config_data s) (machine_lamports s) (tree_state s) (payments s ++ [p]).

(** [cast_slice_mut::<u8, u32>], and the bytes of the array. *)
Fixpoint u32s_of_bytes (l : bytes) : list N :=
  match l with
  | a :: b :: c :: e :: l => from_le_bytes [a; b; c; e] :: u32s_of_bytes l
  | _ => []
  end.

Definition bytes_of_u32s (l : list N) : bytes := mjoin (to_le_bytes 4 <$> l).

(** [data[start..].iter_mut().take(new.len())] is assigned the bytes of [new]. *)
Definition write_at {E} (data : bytes) (start : N) (new : bytes) : outcome E bytes :=
  if decide (start ≤ N.of_nat (length data))%N then
    let s := N.to_nat start in
    Ok (take s data ++ take (length data - s) new ++ drop (s + length new) data)
  else Panic.

(** The instructions sysvar (its crate is not in the repository): the program of
    the instruction at an index. *)
Class InstructionsSysvar := load_instruction_at_checked : N → bytes → b_outcome Pubkey.

(** Whether the system and token programs make a transfer. *)
Class Payments := can_pay : payment → bool.

Definition COMPUTE_BUDGET_ADDRESS : string := "ComputeBudget111111111111111111111111111111".
Definition MAX_NUM_INDICES_TO_INIT_FOR_CHUNK : N := 250000.

(** ** Accounts *)

Record InitGumballMachine := mk_InitGumballMachine {
  ig_gumball_machine : AccountInfo;
  ig_payer : AccountInfo;
  ig_mint : Pubkey;
  ig_willy_wonka : AccountInfo;
  ig_bubblegum_authority : AccountInfo;
  ig_candy_wrapper : AccountInfo;
  ig_gummyroll : AccountInfo;
  ig_merkle_slab : AccountInfo;
  ig_bubblegum : AccountInfo;
  ig_clock : g_outcome N;
}.

(** [InitIndices], [UpdateConfigLine], [UpdateHeaderMetadata] and [Destroy]. *)
Record AuthorityAccounts := mk_AuthorityAccounts {
  au_gumball_machine : AccountInfo;
  au_authority : AccountInfo;
}.

(** What [DispenseSol] and [DispenseToken] share. *)
Record DispenseAccounts := mk_DispenseAccounts {
  ds_gumball_machine : AccountInfo;
  ds_payer : AccountInfo;
  ds_receiver : AccountInfo;
  ds_willy_wonka : AccountInfo;
  ds_recent_blockhashes : AccountInfo;
  ds_recent_blockhashes_data : bytes;
  ds_instruction_sysvar : AccountInfo;
  ds_instruction_sysvar_data : bytes;
  ds_bubblegum_authority : AccountInfo;
  ds_candy_wrapper : AccountInfo;
  ds_gummyroll : AccountInfo;
  ds_merkle_slab : AccountInfo;
  ds_bubblegum : AccountInfo;
  ds_unix_timestamp : b_outcome Z;
}.

Record DispenseToken := mk_DispenseToken {
  dt_accounts : DispenseAccounts;
  dt_payer_tokens : AccountInfo;
  dt_payer_tokens_mint : Pubkey;
}.

Section defs.
Context `{Keccak} `{BuildProfile} `{EventCodec} `{Pda} `{BubblegumCodec} `{Base58} `{InstructionsSysvar} `{Payments}.
Context (gumball_id bubblegum_id gummyroll_id candy_wrapper_id : Pubkey).
Context (system_program_id slot_hashes_id instructions_sysvar_id native_mint : Pubkey).

(** ** [utils.rs] *)

Definition get_metadata_args (url_base : vec Byte.byte 64) (name_base : bytes32) (symbol : vec Byte.byte 8)
    (seller_fee_basis_points : N) (is_mutable : bool) (collection : Pubkey) (uses : option Uses)
    (creators : list GumballCreatorAdapter) (index : N) (config_line : bytes)
    (encode_method : EncodeMethod) : b_outcome MetadataArgs :=
  name ← text_of (vec_to_list name_base);
  symbol' ← text_of (vec_to_list symbol);
  uri ← text_of (vec_to_list url_base);
  config ← (match encode_method with
            | Base58Encode => Ok (bs58_encode config_line)
            | UTF8 => unwrap (from_utf8 config_line)
            end);
  Ok (mk_MetadataArgs (String.append name (String.append " #" (pretty index))) symbol'
        (String.append uri (String.append "/" config)) seller_fee_basis_points true is_mutable None None
        (if decide (collection = system_program_id) then None else Some (mk_Collection true collection))
        uses Token2022 (adapt <$> filter is_valid creators)).

(** ** [lib.rs] *)

Definition compute_budget_id : b_outcome Pubkey :=
  decoded ← unwrap (bs58_decode COMPUTE_BUDGET_ADDRESS);
  first ← slice decoded 0 32;
  unwrap (list_to_array 32 first).

Definition assert_valid_single_instruction_transaction (instruction_sysvar : bytes) : b_outcome unit :=
  fixed_data ← slice instruction_sysvar 0 2;
  let num_instructions := from_le_bytes fixed_data in
  if (2 <? num_instructions)%N then rust_assert false
  else if (num_instructions =? 2)%N then
    first ← load_instruction_at_checked 0 instruction_sysvar;
    budget ← compute_budget_id;
    rust_assert (bool_decide (first = budget));;
    current ← load_instruction_at_checked 1 instruction_sysvar;
    rust_assert (bool_decide (current = gumball_id))
  else if (num_instructions =? 1)%N then
    only ← load_instruction_at_checked 0 instruction_sysvar;
    rust_assert (bool_decide (only = gumball_id))
  else Ok tt.

Definition with_remaining (n : N) (h : GumballMachineHeader) : GumballMachineHeader :=
  mk_GumballMachineHeader (url_base h) (name_base h) (symbol h) (seller_fee_basis_points h) (is_mutable h)
    (retain_authority h) (config_line_encode_method h) (creators h) (price h) (go_live_date h) (mint h)
    (bot_wallet h) (receiver h) (authority h) (collection_key h) (extension_len h) (max_mint_size h)
    n (max_items h) (total_items_added h) (smallest_uninitialized_index h).

Definition with_items_added (n : N) (h : GumballMachineHeader) : GumballMachineHeader :=
  mk_GumballMachineHeader (url_base h) (name_base h) (symbol h) (seller_fee_basis_points h) (is_mutable h)
    (retain_authority h) (config_line_encode_method h) (creators h) (price h) (go_live_date h) (mint h)
    (bot_wallet h) (receiver h) (authority h) (collection_key h) (extension_len h) (max_mint_size h)
    (remaining h) (max_items h) n (smallest_uninitialized_index h).

Definition with_smallest_uninitialized (n : N) (h : GumballMachineHeader) : GumballMachineHeader :=
  mk_GumballMachineHeader (url_base h) (name_base h) (symbol h) (seller_fee_basis_points h) (is_mutable h)
    (retain_authority h) (config_line_encode_method h) (creators h) (price h) (go_live_date h) (mint h)
    (bot_wallet h) (receiver h) (authority h) (collection_key h) (extension_len h) (max_mint_size h)
    (remaining h) (max_items h) (total_items_added h) n.

(** [slice::swap]. *)
Definition swap {E} (l : list N) (a b : N) : outcome E (list N) :=
  x ← index l a;
  y ← index l b;
  l' ← index_set l a y;
  index_set l' b x.

(** The entropy of a draw: the hash of the recent block hashes and of the number
    of remaining items. *)
Definition draw_entropy (recent_blockhashes : bytes) (remaining : N) : N :=
  from_le_bytes (take 4 (vec_to_list (hashv [recent_blockhashes; to_le_bytes 4 remaining]))).

(** The shuffle: the header, the indices and the index that is drawn.  The
    remainder by zero panics. *)
Definition fisher_yates_select (recent_blockhashes : bytes) (header : GumballMachineHeader)
    (indices : list N) : b_outcome (GumballMachineHeader * list N * N) :=
  let entropy := draw_entropy recent_blockhashes (remaining header) in
  rust_assert (negb (remaining header =? 0)%N);;
  let selected := (entropy mod remaining header)%N in
  left ← wsub 32 (remaining header) 1;
  indices' ← swap indices selected left;
  zero_nft_index ← index indices' left;
  Ok (with_remaining left header, indices', zero_nft_index).

(** The metadata of the item with an index. *)
Definition nft_metadata_of (header : GumballMachineHeader) (line_size : N) (config_lines_data : bytes)
    (zero_nft_index : N) : b_outcome MetadataArgs :=
  nft_index ← wadd 64 zero_nft_index 1;
  random_config_index ← wmul 64 zero_nft_index line_size;
  config_line ← (if decide (0 < length config_lines_data)
                 then last ← wadd 64 random_config_index line_size;
                      slice config_lines_data random_config_index last
                 else Ok (to_le_bytes 8 nft_index));
  encode_method ← EncodeMethod_from (config_line_encode_method header);
  get_metadata_args (url_base header) (name_base header) (symbol header)
    (seller_fee_basis_points header) (negb (is_mutable header =? 0)%N) (collection_key header)
    None (creators header) nft_index config_line encode_method.

Definition fisher_yates_shuffle_and_fetch_nft_metadata (recent_blockhashes : bytes)
    (header : GumballMachineHeader) (indices : list N) (line_size : N) (config_lines_data : bytes) :
    b_outcome (GumballMachineHeader * list N * MetadataArgs) :=
  '(header', indices', zero_nft_index) ← fisher_yates_select recent_blockhashes header indices;
  message ← nft_metadata_of header' line_size config_lines_data zero_nft_index;
  Ok (header', indices', message).

(** A call to the compressed-NFT program. *)
Definition call_bubblegum (m : b_method unit) : gb_method unit := λ s,
  let '(r, t) := m (tree_state s) in (r, set_tree t s).

(** The signer [willy_wonka], for the calls: its seeds are the machine's key. *)
Definition wonka_signer (machine willy_wonka : AccountInfo) : AccountInfo :=
  pda_signer gumball_id willy_wonka [vec_to_list (key machine)].

(** One round of the loop of [find_and_mint_compressed_nfts]. *)
Definition mint_one (accs : DispenseAccounts) (index_array_size line_size : N) : gb_method unit :=
  self ← get;
  '(indices_data, config_lines_data) ← lift (split_at (config_data self) index_array_size);
  '(header, indices, message) ← lift (fisher_yates_shuffle_and_fetch_nft_metadata
     (ds_recent_blockhashes_data accs) (gumball_header self) (u32s_of_bytes indices_data) line_size
     config_lines_data);
  modify (set_header header);;
  modify (set_config (bytes_of_u32s indices ++ config_lines_data));;
  call_bubblegum (mint_v1 bubblegum_id gummyroll_id candy_wrapper_id
    (mk_MintV1 (wonka_signer (ds_gumball_machine accs) (ds_willy_wonka accs)) (ds_bubblegum_authority accs)
       (ds_candy_wrapper accs) (ds_gummyroll accs) (ds_payer accs) (ds_payer accs) (ds_merkle_slab accs))
    message).

Fixpoint times {S E} (n : nat) (m : method S E unit) : method S E unit :=
  match n with
  | O => mret tt
  | S n => m;; times n m
  end.

Definition find_and_mint_compressed_nfts (accs : DispenseAccounts) (num_items : N) :
    gb_method (GumballMachineHeader * N) :=
  lift (assert_valid_single_instruction_transaction (ds_instruction_sysvar_data accs));;
  self ← get;
  let header := gumball_header self in
  lift (rust_assert (max_items header =? smallest_uninitialized_index header)%N);;
  lift (rust_assert (num_items <=? max_mint_size header)%N);;
  unix_timestamp ← lift (ds_unix_timestamp accs);
  lift (rust_assert (go_live_date header <? unix_timestamp)%Z);;
  let size := max_items header in
  index_array_size ← lift (wmul 64 4 size);
  config_size ← lift (wmul 64 (extension_len header) size);
  total ← lift (wadd 64 index_array_size config_size);
  lift (rust_assert (N.of_nat (length (config_data self)) =? total)%N);;
  let num_nfts_to_mint := N.min (N.max num_items 1) (remaining header) in
  lift (rust_assert (0 <? num_nfts_to_mint)%N);;
  times (N.to_nat num_nfts_to_mint) (mint_one accs index_array_size (extension_len header));;
  self ← get;
  mret (gumball_header self, num_nfts_to_mint).

(** ** Account constraints *)

Definition machine_pda (machine : AccountInfo) : Pubkey :=
  (find_program_address [vec_to_list (key machine)] gumball_id).1.

(** [account(zero)]: the first eight bytes. *)
Definition InitGumballMachine_ok (self : gstate) (accs : InitGumballMachine) : b_outcome unit :=
  constraint (bool_decide (take 8 (vec_to_list (url_base (gumball_header self))) = replicate 8 x00) &&
              is_writable (ig_gumball_machine accs) &&
              is_signer (ig_payer accs) && is_writable (ig_payer accs) &&
              bool_decide (key (ig_willy_wonka accs) = machine_pda (ig_gumball_machine accs)) &&
              is_writable (ig_bubblegum_authority accs) &&
              program_is (ig_candy_wrapper accs) candy_wrapper_id &&
              program_is (ig_gummyroll accs) gummyroll_id &&
              slab_is (tree_state self) (ig_merkle_slab accs) && is_writable (ig_merkle_slab accs) &&
              (Gummyroll.max_buffer_size (header (slab (tree_state self))) =? 0)%N &&
              (Gummyroll.max_depth (header (slab (tree_state self))) =? 0)%N &&
              program_is (ig_bubblegum accs) bubblegum_id).

(** The accounts of [initialize_indices_chunk], [add_config_lines],
    [update_config_lines] and [update_header_metadata]. *)
Definition Authority_ok (accs : AuthorityAccounts) : b_outcome unit :=
  constraint (is_writable (au_gumball_machine accs) && is_signer (au_authority accs)).

Definition Destroy_ok (accs : AuthorityAccounts) : b_outcome unit :=
  constraint (is_writable (au_gumball_machine accs) && is_signer (au_authority accs) &&
              is_writable (au_authority accs)).

Definition Dispense_ok (accs : DispenseAccounts) : b_outcome unit :=
  constraint (is_writable (ds_gumball_machine accs) && is_signer (ds_payer accs) &&
              is_writable (ds_receiver accs) &&
              bool_decide (key (ds_willy_wonka accs) = machine_pda (ds_gumball_machine accs)) &&
              bool_decide (key (ds_recent_blockhashes accs) = slot_hashes_id) &&
              bool_decide (key (ds_instruction_sysvar accs) = instructions_sysvar_id) &&
              is_writable (ds_bubblegum_authority accs) &&
              program_is (ds_candy_wrapper accs) candy_wrapper_id &&
              program_is (ds_gummyroll accs) gummyroll_id && is_writable (ds_merkle_slab accs) &&
              program_is (ds_bubblegum accs) bubblegum_id).

Definition DispenseSol_ok (accs : DispenseAccounts) : b_outcome unit :=
  Dispense_ok accs;; constraint (is_writable (ds_payer accs)).

Definition DispenseToken_ok (accs : DispenseToken) : b_outcome unit :=
  Dispense_ok (dt_accounts accs);; constraint (is_writable (dt_payer_tokens accs)).

(** ** Instructions *)

(** The arguments of [initialize_gumball_machine]. *)
Record InitArgs := mk_InitArgs {
  ia_url_base : vec Byte.byte 64;
  ia_name_base : bytes32;
  ia_symbol : vec Byte.byte 8;
  ia_encode_method : option EncodeMethod;
  ia_seller_fee_basis_points : N;
  ia_is_mutable : bool;
  ia_retain_authority : bool;
  ia_price : N;
  ia_go_live_date : Z;
  ia_bot_wallet : Pubkey;
  ia_receiver : Pubkey;
  ia_authority : Pubkey;
  ia_collection_key : Pubkey;
  ia_extension_len : N;
  ia_max_mint_size : N;
  ia_max_items : N;
  ia_creator_keys : list Pubkey;
  ia_creator_shares : list N;
}.

Definition bool_to_u8 (b : bool) : N := if b then 1 else 0.

(** The loop that fills the array of creators. *)
Definition add_creators (keys : list Pubkey) (shares : list N) : b_outcome (list GumballCreatorAdapter) :=
  foldM (λ creators i,
           address ← index keys i;
           share ← index shares i;
           index_set creators i (mk_GumballCreatorAdapter address 1 share))
    (replicate (N.to_nat NUM_CREATORS) GumballCreatorAdapter_default)
    (N.of_nat <$> seq 0 (length keys)).

Definition initialize_gumball_machine (accs : InitGumballMachine) (max_depth max_buffer_size : N)
    (args : InitArgs) : gb_method unit :=
  self ← get;
  lift (InitGumballMachine_ok self accs);;
  let size := ia_max_items args in
  lift (rust_assert (length (ia_creator_keys args) =? length (ia_creator_shares args)));;
  lift (rust_assert (N.of_nat (length (ia_creator_keys args)) <? NUM_CREATORS)%N);;
  total_share ← lift (foldM (wadd 8) 0%N (ia_creator_shares args));
  lift (rust_assert (total_share <=? 100)%N);;
  creators ← lift (add_creators (ia_creator_keys args) (ia_creator_shares args));
  modify (set_header (mk_GumballMachineHeader (ia_url_base args) (ia_name_base args) (ia_symbol args)
    (ia_seller_fee_basis_points args) (bool_to_u8 (ia_is_mutable args))
    (bool_to_u8 (ia_retain_authority args))
    (match ia_encode_method args with Some e => to_u8 e | None => to_u8 UTF8 end) creators (ia_price args)
    (ia_go_live_date args) (ig_mint accs) (ia_bot_wallet args) (ia_receiver args) (ia_authority args)
    (ia_collection_key args) (ia_extension_len args)
    (N.min (N.max (ia_max_mint_size args) 1) (ia_max_items args)) 0 (ia_max_items args) 0 0));;
  index_array_size ← lift (wmul 64 4 size);
  config_size ← lift (wmul 64 (ia_extension_len args) size);
  total ← lift (wadd 64 index_array_size config_size);
  lift (rust_assert (N.of_nat (length (config_data self)) =? total)%N);;
  call_bubblegum (create_tree bubblegum_id gummyroll_id candy_wrapper_id
    (mk_CreateTree (ig_bubblegum_authority accs) (ig_payer accs)
       (wonka_signer (ig_gumball_machine accs) (ig_willy_wonka accs)) (ig_candy_wrapper accs)
       (ig_gummyroll accs) (ig_merkle_slab accs) (ig_clock accs)) max_depth max_buffer_size).

(** [indices[first..next]] is assigned its positions. *)
Definition init_range {E} (indices : list N) (first next : N) : outcome E (list N) :=
  if decide (first ≤ next ≤ N.of_nat (length indices))%N
  then Ok (take (N.to_nat first) indices ++
           ((λ i, wrap 32 (N.of_nat i)) <$> seq (N.to_nat first) (N.to_nat (next - first))) ++
           drop (N.to_nat next) indices)
  else Panic.

Definition initialize_indices_chunk (accs : AuthorityAccounts) : gb_method unit :=
  lift (Authority_ok accs);;
  self ← get;
  let h := gumball_header self in
  lift (rust_assert (bool_decide (authority h = key (au_authority accs))));;
  index_array_size ← lift (wmul 64 4 (max_items h));
  '(indices_data, rest) ← lift (split_at (config_data self) index_array_size);
  let indices := u32s_of_bytes indices_data in
  let first_index_to_initialize := smallest_uninitialized_index h in
  bound ← lift (wadd 32 (smallest_uninitialized_index h) MAX_NUM_INDICES_TO_INIT_FOR_CHUNK);
  let next_smallest_uninitialized_index := N.min bound (max_items h) in
  indices' ← lift (init_range indices first_index_to_initialize next_smallest_uninitialized_index);
  modify (set_config (bytes_of_u32s indices' ++ rest));;
  modify (λ s, set_header (with_smallest_uninitialized next_smallest_uninitialized_index (gumball_header s)) s);;
  if (extension_len h =? 0)%N
  then modify (λ s, set_header (with_remaining (max_items (gumball_header s)) (gumball_header s)) s)
  else mret tt.

(** Division and remainder by zero panic. *)
Definition div_checked {E} (a b : N) : outcome E N := if (b =? 0)%N then Panic else Ok (a / b)%N.
Definition rem_checked {E} (a b : N) : outcome E N := if (b =? 0)%N then Panic else Ok (a mod b)%N.

Definition add_config_lines (accs : AuthorityAccounts) (new_config_lines_data : bytes) : gb_method unit :=
  lift (Authority_ok accs);;
  self ← get;
  let h := gumball_header self in
  let len := N.of_nat (length new_config_lines_data) in
  index_array_size ← lift (wmul 64 4 (max_items h));
  let line_size := extension_len h in
  num_lines ← lift (div_checked len line_size);
  let start_index := total_items_added h in
  lift (rust_assert (bool_decide (authority h = key (au_authority accs))));;
  rem ← lift (rem_checked len line_size);
  lift (rust_assert (rem =? 0)%N);;
  last ← lift (wadd 64 start_index num_lines);
  lift (rust_assert (last <=? max_items h)%N);;
  '(indices_data, config_lines_data) ← lift (split_at (config_data self) index_array_size);
  config_lines_data' ← lift (write_at config_lines_data start_index new_config_lines_data);
  modify (set_config (indices_data ++ config_lines_data'));;
  total ← lift (wadd 32 (total_items_added h) (wrap 32 num_lines));
  modify (λ s, set_header (with_items_added total (gumball_header s)) s);;
  remaining' ← lift (wadd 32 (remaining h) (wrap 32 num_lines));
  modify (λ s, set_header (with_remaining remaining' (gumball_header s)) s).

Definition update_config_lines (accs : AuthorityAccounts) (starting_line : N)
    (new_config_lines_data : bytes) : gb_method unit :=
  lift (Authority_ok accs);;
  self ← get;
  let h := gumball_header self in
  let len := N.of_nat (length new_config_lines_data) in
  index_array_size ← lift (wmul 64 4 (max_items h));
  config_size ← lift (wmul 64 (extension_len h) (max_items h));
  let line_size := extension_len h in
  num_lines ← lift (div_checked len line_size);
  lift (rust_assert (bool_decide (authority h = key (au_authority accs))));;
  rem ← lift (rem_checked len line_size);
  lift (rust_assert (rem =? 0)%N);;
  total ← lift (wadd 64 index_array_size config_size);
  lift (rust_assert (N.of_nat (length (config_data self)) =? total)%N);;
  size ← lift (wmul 64 num_lines line_size);
  lift (rust_assert (len =? size)%N);;
  last ← lift (wadd 64 starting_line num_lines);
  lift (rust_assert (last <=? total_items_added h)%N);;
  '(indices_data, config_lines_data) ← lift (split_at (config_data self) index_array_size);
  start ← lift (wmul 64 starting_line line_size);
  config_lines_data' ← lift (write_at config_lines_data start new_config_lines_data);
  modify (set_config (indices_data ++ config_lines_data')).

(** The arguments of [update_header_metadata]. *)
Record HeaderUpdate := mk_HeaderUpdate {
  hu_url_base : option (vec Byte.byte 64);
  hu_name_base : option bytes32;
  hu_symbol : option (vec Byte.byte 8);
  hu_encode_method : option EncodeMethod;
  hu_seller_fee_basis_points : option N;
  hu_is_mutable : option bool;
  hu_retain_authority : option bool;
  hu_price : option N;
  hu_go_live_date : option Z;
  hu_bot_wallet : option Pubkey;
  hu_authority : option Pubkey;
  hu_max_mint_size : option N;
}.

(** [match o { Some(x) => field = f(x), None => {} }]. *)
Definition updated {A B} (f : A → B) (o : option A) (old : B) : B :=
  match o with Some x => f x | None => old end.

Definition update_header (u : HeaderUpdate) (h : GumballMachineHeader) : GumballMachineHeader :=
  mk_GumballMachineHeader (updated id (hu_url_base u) (url_base h)) (updated id (hu_name_base u) (name_base h))
    (updated id (hu_symbol u) (symbol h))
    (updated id (hu_seller_fee_basis_points u) (seller_fee_basis_points h))
    (updated bool_to_u8 (hu_is_mutable u) (is_mutable h))
    (updated bool_to_u8 (hu_retain_authority u) (retain_authority h))
    (updated to_u8 (hu_encode_method u) (config_line_encode_method h)) (creators h)
    (updated id (hu_price u) (price h)) (updated id (hu_go_live_date u) (go_live_date h)) (mint h)
    (updated id (hu_bot_wallet u) (bot_wallet h)) (receiver h) (updated id (hu_authority u) (authority h))
    (collection_key h) (extension_len h)
    (updated (λ mms, N.min (N.max mms 1) (max_items h)) (hu_max_mint_size u) (max_mint_size h))
    (remaining h) (max_items h) (total_items_added h) (smallest_uninitialized_index h).

Definition update_header_metadata (accs : AuthorityAccounts) (u : HeaderUpdate) : gb_method unit :=
  lift (Authority_ok accs);;
  self ← get;
  let h := gumball_header self in
  lift (rust_assert (bool_decide (authority h = key (au_authority accs))));;
  modify (set_header (update_header u h)).

Definition pay (p : payment) : gb_method unit :=
  lift (require_that (can_pay p) Runtime);;
  modify (add_payment p).

Definition dispense_nft_sol (accs : DispenseAccounts) (num_items : N) : gb_method unit :=
  lift (DispenseSol_ok accs);;
  '(header, num_nfts_minted) ← find_and_mint_compressed_nfts accs num_items;
  lift (rust_assert (bool_decide (receiver header = key (ds_receiver accs))));;
  lift (rust_assert (bool_decide (mint header = native_mint)));;
  amount ← lift (wmul 64 (price header) num_nfts_minted);
  pay (SolTransfer (key (ds_payer accs)) (key (ds_receiver accs)) amount).

Definition dispense_nft_token (accs : DispenseToken) (num_items : N) : gb_method unit :=
  lift (DispenseToken_ok accs);;
  let d := dt_accounts accs in
  '(header, num_nfts_minted) ← find_and_mint_compressed_nfts d num_items;
  lift (rust_assert (bool_decide (receiver header = key (ds_receiver d))));;
  lift (rust_assert (bool_decide (dt_payer_tokens_mint accs = mint header)));;
  amount ← lift (wmul 64 (price header) num_nfts_minted);
  pay (TokenTransfer (key (dt_payer_tokens accs)) (key (ds_receiver d)) (key (ds_payer d)) amount).

(** The lamports of the authority after [destroy]. *)
Definition destroy (accs : AuthorityAccounts) : gb_method N :=
  lift (Destroy_ok accs);;
  self ← get;
  lift (rust_assert (bool_decide (authority (gumball_header self) = key (au_authority accs))));;
  let dest := (lamports (au_authority accs) + machine_lamports self)%N in
  lift (require_that (bool_decide (dest < 2 ^ 64)%N) Runtime);;
  modify (set_machine_lamports 0);;
  mret dest.
End defs.
