(* ===== verification/GumballTheorems.v ===== *)
(** * The gumball machine: the draw, the sale and the configuration

    Whatever the entropy, the shuffle draws every remaining item once; a sale
    mints the items drawn, with their config lines, and charges for them; the
    sizes and the array of indices stay well formed. *)

From S2P Require Import Prelude Text Hashing MerkleSpec Solana Gummyroll LeafSchema Bubblegum.
From S2P Require Import Gumball.

(** ** The array of indices *)

Lemma u32s_of_bytes_of_u32s l :
  Forall (λ n, (n < 2 ^ 32)%N) l → u32s_of_bytes (bytes_of_u32s l) = l.
Proof.
  induction 1 as [|n l Hn _ IH]; [done|].
  change (bytes_of_u32s (n :: l)) with (to_le_bytes 4 n ++ bytes_of_u32s l).
  pose proof (from_to_le_bytes 4 n Hn) as Hrt.
  cbn [to_le_bytes app] in *. cbn [u32s_of_bytes]. by rewrite Hrt, IH.
Qed.

Lemma length_bytes_of_u32s l : length (bytes_of_u32s l) = 4 * length l.
Proof.
  induction l as [|n l IH]; [done|].
  change (bytes_of_u32s (n :: l)) with (to_le_bytes 4 n ++ bytes_of_u32s l).
  rewrite length_app, IH, length_to_le_bytes. simpl. lia.
Qed.

Lemma u32s_of_bytes_ind (P : bytes → Prop) :
  (∀ l, length l < 4 → P l) → (∀ a b c e l, P l → P (a :: b :: c :: e :: l)) → ∀ l, P l.
Proof.
  intros Hs Hl l. remember (length l) as n eqn:Hn. revert l Hn.
  induction n as [n IH] using lt_wf_ind. intros l ->.
  destruct l as [|a [|b [|c [|e l]]]]; try (apply Hs; simpl; lia).
  apply Hl. eapply IH; [|done]. simpl. lia.
Qed.

Lemma length_u32s_of_bytes l n : length l = 4 * n → length (u32s_of_bytes l) = n.
Proof.
  revert n. induction l as [l Hl|a b c e l IH] using u32s_of_bytes_ind; intros n Hn.
  - assert (n = 0) as -> by lia. destruct l; [done|simpl in Hn; lia].
  - destruct n as [|n]; [simpl in Hn; lia|]. simpl. f_equal. apply IH. simpl in Hn. lia.
Qed.

Lemma u32s_of_bytes_lt l : Forall (λ n, (n < 2 ^ 32)%N) (u32s_of_bytes l).
Proof.
  induction l as [l Hl|a b c e l IH] using u32s_of_bytes_ind.
  - destruct l as [|a [|b [|c [|e l]]]]; simpl in Hl; first [lia|constructor].
  - cbn [u32s_of_bytes]. constructor; [|done]. cbn [from_le_bytes].
    pose proof (Strings.Byte.to_N_bounded a). pose proof (Strings.Byte.to_N_bounded b).
    pose proof (Strings.Byte.to_N_bounded c). pose proof (Strings.Byte.to_N_bounded e).
    lia.
Qed.

(** ** The shuffle *)

Section shuffle.
Context `{Keccak} `{BuildProfile}.
Implicit Types (h : GumballMachineHeader) (l : list N).

Lemma swap_ok l a b x y :
  l !! N.to_nat a = Some x → l !! N.to_nat b = Some y →
  swap (E:=b_error) l a b = Ok (<[N.to_nat b:=x]> (<[N.to_nat a:=y]> l)).
Proof.
  intros Ha Hb. unfold swap. rewrite (index_lookup _ _ _ Ha), (index_lookup _ _ _ Hb). cbn [mbind outcome_bind].
  rewrite index_set_lt by (by eapply lookup_lt_Some). cbn [mbind outcome_bind].
  by rewrite index_set_lt by (rewrite length_insert; by eapply lookup_lt_Some).
Qed.

Lemma swap_Permutation l (i j : nat) x y :
  l !! i = Some x → l !! j = Some y → <[j:=x]> (<[i:=y]> l) ≡ₚ l.
Proof.
  intros Hi Hj. apply Permutation_inj. split; [by rewrite !length_insert|].
  exists (λ k, if decide (k = i) then j else if decide (k = j) then i else k). split.
  - intros k k'. repeat case_decide; congruence.
  - intros k. destruct (decide (k = j)) as [->|Hkj].
    + rewrite list_lookup_insert_eq by (rewrite length_insert; by eapply lookup_lt_Some).
      case_decide; congruence.
    + rewrite list_lookup_insert_ne by done. destruct (decide (k = i)) as [->|Hki].
      * by rewrite list_lookup_insert_eq by (by eapply lookup_lt_Some).
      * by rewrite list_lookup_insert_ne by done.
Qed.

(** A draw moves one of the [r] remaining items behind the others. *)
Lemma fisher_yates_select_ok bh h l :
  (0 < remaining h ≤ N.of_nat (length l))%N → 
  let r := N.to_nat (remaining h) in
  ∃ l' x, fisher_yates_select bh h l = Ok (with_remaining (remaining h - 1) h, l', x) ∧
    take r l ≡ₚ take (r - 1) l' ++ [x] ∧ drop r l' = drop r l ∧ l' !! (r - 1) = Some x ∧
    length l' = length l ∧ l' ≡ₚ l.
Proof.
  intros Hr r. unfold fisher_yates_select.
  rewrite (proj2 (N.eqb_neq _ 0)) by lia. cbn [negb rust_assert mbind outcome_bind].
  set (i := (draw_entropy bh (remaining h) mod remaining h)%N).
  assert (i < remaining h)%N as Hi by (apply N.mod_lt; lia).
  rewrite wsub_ok by lia. cbn [mbind outcome_bind].
  destruct (lookup_lt_is_Some_2 l (N.to_nat i)) as [x Hx]; [lia|].
  destruct (lookup_lt_is_Some_2 l (r - 1)) as [y Hy]; [lia|].
  assert (N.to_nat (remaining h - 1) = r - 1) as Hlast by lia.
  rewrite (swap_ok l i (remaining h - 1) x y) by (by rewrite ?Hlast). cbn [mbind outcome_bind].
  rewrite Hlast. set (l' := <[r - 1:=x]> (<[N.to_nat i:=y]> l)).
  assert (l' !! (r - 1) = Some x) as Hx'.
  { apply list_lookup_insert_eq. rewrite length_insert. lia. }
  assert (l' ≡ₚ l) as Hperm by (by apply swap_Permutation).
  assert (length l' = length l) as Hlen by (by rewrite Hperm).
  rewrite (index_lookup _ _ x) by (by rewrite Hlast). cbn [mbind outcome_bind].
  exists l', x. split; [done|]. split; [|split; [|done]].
  - assert (take r l' = take (r - 1) l' ++ [x]) as <-.
    { rewrite <-(take_S_r _ _ x) by done. f_equal. lia. }
    unfold l'. rewrite !take_insert_lt by lia. symmetry. apply swap_Permutation; rewrite lookup_take_lt by lia; done.
  - unfold l'. rewrite !drop_insert_lt by lia. done.
Qed.

(** Several draws, with the block hashes of each. *)
Fixpoint draws (bhs : list bytes) h l : b_outcome (GumballMachineHeader * list N * list N) :=
  match bhs with
  | [] => Ok (h, l, [])
  | bh :: bhs =>
      '(h', l', x) ← fisher_yates_select bh h l;
      '(h'', l'', drawn) ← draws bhs h' l';
      Ok (h'', l'', x :: drawn)
  end.

Lemma with_remaining_id h : with_remaining (remaining h) h = h.
Proof. by destruct h. Qed.

Lemma draws_ok bhs h l :
  let k := length bhs in let r := N.to_nat (remaining h) in
  k ≤ r ≤ length l →
  ∃ l' drawn, draws bhs h l = Ok (with_remaining (remaining h - N.of_nat k) h, l', drawn) ∧
    length drawn = k ∧ take r l ≡ₚ take (r - k) l' ++ drawn ∧ drop r l' = drop r l ∧ l' ≡ₚ l.
Proof.
  cbv zeta. revert h l. induction bhs as [|bh bhs IH]; intros h l Hk; cbn [draws length] in *.
  - exists l, []. replace (remaining h - N.of_nat 0)%N with (remaining h) by lia.
    rewrite with_remaining_id, app_nil_r, Nat.sub_0_r. done.
  - destruct (fisher_yates_select_ok bh h l ltac:(lia)) as (l1 & x & -> & Hp & Hd & Hx & Hlen & Hperm).
    cbn [mbind outcome_bind].
    destruct (IH (with_remaining (remaining h - 1) h) l1) as (l2 & drawn & -> & Hlen' & Hp' & Hd' & Hperm').
    { cbn [remaining with_remaining]. lia. }
    cbn [mbind outcome_bind remaining with_remaining] in *.
    replace (N.to_nat (remaining h - 1)) with (N.to_nat (remaining h) - 1) in * by lia.
    exists l2, (x :: drawn). split; [|split; [by rewrite <-Hlen'|split; [|split]]].
    + unfold with_remaining at 1 2. cbn. by replace (remaining h - 1 - N.of_nat (length bhs))%N
        with (remaining h - N.of_nat (S (length bhs)))%N by lia.
    + rewrite Hp, Hp'. replace (N.to_nat (remaining h) - S (length bhs))
        with (N.to_nat (remaining h) - 1 - length bhs) by lia.
      rewrite <-app_assoc. f_equiv. by rewrite (Permutation_cons_append drawn x).
    + rewrite <-Hd. replace (N.to_nat (remaining h)) with (N.to_nat (remaining h) - 1 + 1) by lia.
      by rewrite <-!drop_drop, Hd'.
    + by rewrite Hperm'.
Qed.
End shuffle.
