(* ===== verification/GumballSale.v ===== *)
(** * A sale of the gumball machine

    A dispense instruction that succeeds: which items it minted, with which
    metadata, what it charged, and what it left of the machine. *)

From S2P Require Import Prelude Text Hashing MerkleSpec Solana Gummyroll LeafSchema Bubblegum.
From S2P Require Import Gumball GumballTheorems.

(** The array of indices and the config lines of the account. *)
Definition indices_of (s : gstate) : list N :=
  u32s_of_bytes (take (N.to_nat (4 * max_items (gumball_header s))) (config_data s)).
Definition lines_of (s : gstate) : bytes :=
  drop (N.to_nat (4 * max_items (gumball_header s))) (config_data s).

(** The metadata of the NFTs minted, in their order. *)
Definition minted_nfts (l : list b_event) : list MetadataArgs :=
  omap (λ e, match e with LogNewNFT e => Some (nft_metadata e) | _ => None end) l.

Section sale.
Context `{Keccak} `{BuildProfile} `{EventCodec} `{Pda} `{BubblegumCodec} `{Base58} `{InstructionsSysvar} `{Payments}.
Context (gumball_id bubblegum_id gummyroll_id candy_wrapper_id : Pubkey).
Context (system_program_id slot_hashes_id instructions_sysvar_id native_mint : Pubkey).
Implicit Types (s : gstate) (h : GumballMachineHeader).

Abbreviation nft_metadata_of := (nft_metadata_of system_program_id).
Abbreviation mint_one := (mint_one gumball_id bubblegum_id gummyroll_id candy_wrapper_id system_program_id).

(** A mint that succeeds: its event, and the nonce. *)
Lemma mint_v1_Ok accs message (s s' : bstate) u :
  mint_v1 bubblegum_id gummyroll_id candy_wrapper_id accs message s = (Ok u, s') →
  ∃ n, nonce_account s = Some n ∧ nonce_account s' = Some (mk_Nonce (saturating_add 64 (count n) 1)) ∧
    is_signer (mv_mint_authority accs) = true ∧
    minted_nfts (logs s') = minted_nfts (logs s) ++ [message].
Proof.
  intros Hrun. unfold mint_v1, MintV1_ok, emit_log in Hrun. inv_method.
  match goal with Hc : constraint _ = Ok _ |- _ => apply constraint_inv in Hc; inv_method end.
  unfold append_leaf, call_gummyroll in Hrun.
  destruct (append_instruction _ _ _ _) as [[[]|e| |] t]; try done. injection Hrun as _ <-.
  match goal with Ho : ok_or (nonce_account ?s) _ = Ok ?n |- _ => destruct (nonce_account s) eqn:Hn; [|done];
    injection Ho as -> end.
  eexists. split; [done|]. split; [done|]. split; [done|].
  cbn [logs set_slab set_nonce add_log minted_nfts]. unfold minted_nfts. by rewrite !omap_app, <-!app_assoc.
Qed.

(** What a step of the loop does. *)
Record sold s s' (drawn : list N) : Prop := mk_sold {
  sold_header : gumball_header s' =
    with_remaining (remaining (gumball_header s) - N.of_nat (length drawn)) (gumball_header s);
  sold_count : length drawn ≤ N.to_nat (remaining (gumball_header s));
  sold_items : take (N.to_nat (remaining (gumball_header s))) (indices_of s) ≡ₚ
    take (N.to_nat (remaining (gumball_header s)) - length drawn) (indices_of s') ++ drawn;
  sold_rest : drop (N.to_nat (remaining (gumball_header s))) (indices_of s') =
    drop (N.to_nat (remaining (gumball_header s))) (indices_of s);
  sold_indices : indices_of s' ≡ₚ indices_of s;
  sold_lines : lines_of s' = lines_of s;
  sold_size : length (config_data s') = length (config_data s);
  sold_payments : payments s' = payments s;
  sold_minted : ∃ metas,
    Forall2 (λ i m, nft_metadata_of (gumball_header s) (extension_len (gumball_header s)) (lines_of s) i = Ok m)
      drawn metas ∧
    minted_nfts (logs (tree_state s')) = minted_nfts (logs (tree_state s)) ++ metas;
}.

Definition sizes_hold s : Prop :=
  let h := gumball_header s in
  (max_items h < 2 ^ 32)%N ∧ (remaining h ≤ max_items h)%N ∧
  N.of_nat (length (config_data s)) = (4 * max_items h + extension_len h * max_items h)%N.

Lemma mint_one_Ok accs s s' u :
  sizes_hold s → (0 < remaining (gumball_header s))%N →
  mint_one accs (4 * max_items (gumball_header s)) (extension_len (gumball_header s)) s = (Ok u, s') →
  ∃ x, sold s s' [x].
Proof.
  intros (Hmax & Hrem & Hlen) Hpos Hrun. unfold Gumball.mint_one in Hrun. inv_method.
  match goal with H : split_at _ _ = Ok (?a, ?b) |- _ =>
    rename H into Hsplit, a into indices, b into config_lines;
    apply split_at_Ok_inv in Hsplit as [Hcat Hind] end.
  match goal with H : fisher_yates_shuffle_and_fetch_nft_metadata _ _ _ _ _ _ = Ok (?a, ?b, ?c) |- _ =>
    rename H into Hfetch, a into h', b into l', c into meta end.
  assert (indices_of s = u32s_of_bytes indices ∧ lines_of s = config_lines) as [Hi Hl].
  { unfold indices_of, lines_of. rewrite Hcat, <-Hind, take_app_length, drop_app_length. done. }
  assert (length (indices_of s) = N.to_nat (max_items (gumball_header s))) as Hli.
  { rewrite Hi. apply length_u32s_of_bytes. lia. }
  unfold fisher_yates_shuffle_and_fetch_nft_metadata in Hfetch. rewrite <-Hi in Hfetch.
  destruct (fisher_yates_select_ok (ds_recent_blockhashes_data accs) (gumball_header s) (indices_of s))
    as (l1 & item & Hsel & Hp & Hd & Hitem & Hlen1 & Hperm); [lia|].
  rewrite Hsel in Hfetch. cbn [mbind outcome_bind] in Hfetch.
  apply bind_Ok_inv in Hfetch as (meta' & Hmeta & [= <- <- ->]).
  unfold call_bubblegum in Hrun. destruct (mint_v1 _ _ _ _ _ _) as [r t] eqn:Hmint. injection Hrun as -> <-.
  apply mint_v1_Ok in Hmint as (n & _ & _ & _ & Hlogs).
  assert (bytes_of_u32s l1 = take (N.to_nat (4 * max_items (gumball_header s)))
            (bytes_of_u32s l1 ++ config_lines)) as Htake.
  { rewrite take_app_length'; [done|]. rewrite length_bytes_of_u32s. lia. }
  set (s1 := set_tree _ _). assert (indices_of s1 = l1) as Hi1.
  { unfold indices_of, s1. cbn [gumball_header config_data set_tree set_config set_header with_remaining max_items].
    rewrite <-Htake. apply u32s_of_bytes_of_u32s. rewrite Hperm, Hi. apply u32s_of_bytes_lt. }
  exists item. split; rewrite ?Hi1; cbn [length]; try done; try lia.
  - unfold lines_of, s1. cbn [gumball_header config_data set_tree set_config set_header with_remaining max_items].
    rewrite drop_app_length'; [done|]. rewrite length_bytes_of_u32s. lia.
  - unfold s1. cbn [config_data set_tree set_config]. rewrite length_app, length_bytes_of_u32s, Hcat, length_app. lia.
  - exists [meta]. rewrite Hl. split; [by constructor|]. exact Hlogs.
Qed.

Lemma sold_sizes s s' l : sizes_hold s → sold s s' l → sizes_hold s'.
Proof.
  intros (Hmax & Hrem & Hlen) HS. unfold sizes_hold. rewrite (sold_size _ _ _ HS), (sold_header _ _ _ HS).
  cbn [with_remaining max_items remaining extension_len]. split; [done|]. split; [lia|done].
Qed.

Lemma sold_nil s : sold s s [].
Proof.
  split; cbn [length]; try done; [|lia| |].
  - rewrite N.sub_0_r. by rewrite with_remaining_id.
  - by rewrite Nat.sub_0_r, app_nil_r.
  - exists []. by rewrite app_nil_r.
Qed.

(** Two sales in a row. *)
Lemma sold_trans s1 s2 s3 l k : sold s1 s2 l → sold s2 s3 k → sold s1 s3 (l ++ k).
Proof.
  intros [Hh1 Hc1 Hi1 Hr1 Hp1 Hl1 Hs1 Hpay1 (m1 & Hf1 & Hm1)] [Hh2 Hc2 Hi2 Hr2 Hp2 Hl2 Hs2 Hpay2 (m2 & Hf2 & Hm2)].
  rewrite Hh1 in *. cbn [with_remaining remaining max_items extension_len] in *.
  set (r := remaining (gumball_header s1)) in *.
  replace (N.to_nat (r - N.of_nat (length l))) with (N.to_nat r - length l) in * by lia.
  split; rewrite ?length_app; try congruence; try lia.
  - rewrite Hh2. unfold with_remaining. cbn. f_equal. fold r. lia.
  - fold r. rewrite Hi1, Hi2, <-app_assoc, (Permutation_app_comm k l).
    by replace (N.to_nat r - (length l + length k)) with (N.to_nat r - length l - length k) by lia.
  - fold r. rewrite <-Hr1. replace (N.to_nat r) with (N.to_nat r - length l + length l) by lia.
    by rewrite <-!drop_drop, Hr2.
  - by rewrite Hp2.
  - exists (m1 ++ m2). split; [|by rewrite Hm2, Hm1, app_assoc].
    apply Forall2_app; [done|]. by rewrite <-Hl1.
Qed.

Lemma mint_many_Ok accs n : ∀ s s' u,
  sizes_hold s → n ≤ N.to_nat (remaining (gumball_header s)) →
  times n (mint_one accs (4 * max_items (gumball_header s)) (extension_len (gumball_header s))) s = (Ok u, s') →
  ∃ drawn, length drawn = n ∧ sold s s' drawn.
Proof.
  induction n as [|n IH]; intros s s' u Hsz Hn Hrun; cbn [times] in Hrun.
  - injection Hrun as _ <-. exists []. split; [done|apply sold_nil].
  - apply method_bind_Ok_inv in Hrun as (u1 & s1 & Hone & Hrest).
    apply mint_one_Ok in Hone as [x Hx]; [|done|lia].
    pose proof (sold_header _ _ _ Hx) as Hh1. cbn [length] in Hh1.
    assert (max_items (gumball_header s) = max_items (gumball_header s1)) as Hme by by rewrite Hh1.
    assert (extension_len (gumball_header s) = extension_len (gumball_header s1)) as Hee by by rewrite Hh1.
    rewrite Hme, Hee in Hrest.
    apply IH in Hrest as (drawn & Hlen & HS); [|by eapply sold_sizes|rewrite Hh1; cbn [with_remaining remaining]; lia].
    exists ([x] ++ drawn). split; [simpl; lia|]. by eapply sold_trans.
Qed.

(** ** The invariant of a machine

    The sizes (no slice has [2^63] bytes), and the initialized part of the array
    of indices. *)
Record machine_inv s : Prop := mk_machine_inv {
  mi_sizes : sizes_hold s;
  mi_fits : (4 * max_items (gumball_header s) +
             extension_len (gumball_header s) * max_items (gumball_header s) < 2 ^ 63)%N;
  mi_added : (total_items_added (gumball_header s) ≤ max_items (gumball_header s))%N;
  mi_smallest : (smallest_uninitialized_index (gumball_header s) ≤ max_items (gumball_header s))%N;
  mi_remaining : extension_len (gumball_header s) ≠ 0%N →
    (remaining (gumball_header s) ≤ total_items_added (gumball_header s))%N;
  mi_indices : take (N.to_nat (smallest_uninitialized_index (gumball_header s))) (indices_of s) ≡ₚ
    N.of_nat <$> seq 0 (N.to_nat (smallest_uninitialized_index (gumball_header s)));
}.

Lemma length_indices_of s :
  sizes_hold s → length (indices_of s) = N.to_nat (max_items (gumball_header s)).
Proof.
  intros (_ & _ & Hlen). unfold indices_of. apply length_u32s_of_bytes. rewrite length_take. lia.
Qed.

(** All the indices, once they are initialized. *)
Lemma all_indices s :
  machine_inv s → smallest_uninitialized_index (gumball_header s) = max_items (gumball_header s) →
  indices_of s ≡ₚ N.of_nat <$> seq 0 (N.to_nat (max_items (gumball_header s))).
Proof.
  intros HI Heq. pose proof (mi_indices s HI) as Hp. rewrite Heq in Hp.
  by rewrite take_ge in Hp by (rewrite (length_indices_of s (mi_sizes s HI)); lia).
Qed.

Lemma find_and_mint_Ok accs num_items s s' h n :
  machine_inv s →
  find_and_mint_compressed_nfts gumball_id bubblegum_id gummyroll_id candy_wrapper_id system_program_id
    accs num_items s = (Ok (h, n), s') →
  h = gumball_header s' ∧ n = N.min (N.max num_items 1) (remaining (gumball_header s)) ∧ (0 < n)%N ∧
  (num_items ≤ max_mint_size (gumball_header s))%N ∧
  smallest_uninitialized_index (gumball_header s) = max_items (gumball_header s) ∧
  (∃ now, ds_unix_timestamp accs = Ok now ∧ (go_live_date (gumball_header s) < now)%Z) ∧
  assert_valid_single_instruction_transaction gumball_id (ds_instruction_sysvar_data accs) = Ok tt ∧
  ∃ drawn, length drawn = N.to_nat n ∧ sold s s' drawn.
Proof.
  intros HI Hrun. unfold find_and_mint_compressed_nfts in Hrun. inv_method. inv_bool.
  destruct (mi_sizes s HI) as (Hmax & Hrem & Hlen). pose proof (mi_fits s HI) as Hfits. inv_arith.
  match goal with H : times _ _ _ = _ |- _ => apply mint_many_Ok in H; [|by apply HI|lia] end.
  match goal with H : assert_valid_single_instruction_transaction _ _ = Ok ?x |- _ => destruct x end.
  split; [done|]. split; [done|]. split; [done|]. split; [done|]. split; [done|].
  split; [eauto|]. done.
Qed.

(** The invariant only sees the header, the sizes and the array. *)
Lemma sold_inv s s' drawn :
  machine_inv s → smallest_uninitialized_index (gumball_header s) = max_items (gumball_header s) →
  sold s s' drawn → machine_inv s'.
Proof.
  intros HI Hall HS. pose proof (sold_sizes s s' drawn (mi_sizes s HI) HS) as Hsz.
  pose proof (all_indices s HI Hall) as Hp. destruct HI as [_ Hf Ha Hsm Hr _].
  pose proof (sold_header _ _ _ HS) as Hh. pose proof (length_indices_of s' Hsz) as Hlen.
  split; try done; rewrite ?Hh in *; cbn [with_remaining max_items extension_len total_items_added remaining
    smallest_uninitialized_index] in *; try done.
  - intros He. specialize (Hr He). lia.
  - rewrite Hall, take_ge by lia. by rewrite (sold_indices _ _ _ HS).
Qed.
End sale.
