(* ===== verification/GumballConfig.v ===== *)
(** * Configuring a gumball machine

    The instructions of the authority: the array of indices, the config lines
    and the header.  Each keeps the invariant of the machine. *)

From S2P Require Import Prelude Text Hashing MerkleSpec Solana Gummyroll LeafSchema Bubblegum.
From S2P Require Import Gumball GumballTheorems GumballSale.

(** The config line of an item. *)
Definition config_line (s : gstate) (k : N) : bytes :=
  let ls := N.to_nat (extension_len (gumball_header s)) in
  take ls (drop (N.to_nat k * ls) (lines_of s)).

Section write_at.
Context {E : Type}.
Implicit Types (data new : bytes).

Lemma write_at_Ok data start new data' :
  write_at (E:=E) data start new = Ok data' →
  N.to_nat start ≤ length data ∧ length data' = length data ∧
  take (N.to_nat start) data' = take (N.to_nat start) data ∧
  ∀ i, data' !! (N.to_nat start + i) =
    if decide (i < length new ∧ N.to_nat start + i < length data) then new !! i
    else data !! (N.to_nat start + i).
Proof.
  unfold write_at. case_decide as Hs; [|done]. intros [= <-].
  set (s := N.to_nat start) in *. assert (s ≤ length data) as Hs' by lia.
  assert (length (take s data) = s) as Ht by (rewrite length_take; lia).
  split; [done|]. split; [rewrite !length_app, !length_take, length_drop; lia|].
  split; [by rewrite take_app_length'|]. intros i.
  rewrite lookup_app_r by lia. replace (s + i - length (take s data)) with i by lia.
  case_decide as Hi.
  - rewrite lookup_app_l by (rewrite length_take; lia). by rewrite lookup_take_lt by lia.
  - rewrite lookup_app_r, length_take, lookup_drop by (rewrite length_take; lia).
    destruct (decide (length new ≤ length data - s)).
    + f_equal. lia.
    + rewrite !lookup_ge_None_2 by lia. done.
Qed.

(** Whole lines written at the place of line [a]: line by line. *)
Lemma write_at_lines lines lines' new (a n ls : nat) :
  write_at (E:=E) lines (N.of_nat (a * ls)) new = Ok lines' →
  length new = n * ls → (a + n) * ls ≤ length lines →
  ∀ k, take ls (drop (k * ls) lines') =
    if decide (a ≤ k < a + n) then take ls (drop ((k - a) * ls) new) else take ls (drop (k * ls) lines).
Proof.
  intros Hw Hn Hfit k. apply write_at_Ok in Hw as (Hs & Hlen & Htake & Hat).
  rewrite Nat2N.id in *. apply list_eq. intros i.
  destruct (decide (i < ls)) as [Hi|Hi].
  2:{ case_decide; by rewrite !lookup_take_ge by lia. }
  rewrite lookup_take_lt, lookup_drop by done.
  destruct (decide (a ≤ k)) as [Hk|Hk].
  - specialize (Hat ((k - a) * ls + i)).
    replace (a * ls + ((k - a) * ls + i)) with (k * ls + i) in Hat by nia. rewrite Hat.
    destruct (decide (a ≤ k < a + n)) as [Hin|Hout].
    + rewrite decide_True by nia. by rewrite lookup_take_lt, lookup_drop by done.
    + rewrite decide_False by nia. by rewrite lookup_take_lt, lookup_drop by done.
  - rewrite decide_False by lia. rewrite lookup_take_lt, lookup_drop by done.
    assert (k * ls + i < a * ls) as Hlt by nia.
    rewrite <-(lookup_take_lt lines' (a * ls)), <-(lookup_take_lt lines (a * ls)) by done. by rewrite Htake.
Qed.
End write_at.

Section config.
Context `{Keccak} `{BuildProfile} `{EventCodec} `{Pda} `{BubblegumCodec} `{Base58} `{InstructionsSysvar} `{Payments}.
Implicit Types (s : gstate) (h : GumballMachineHeader).

Lemma authority_signed (accs : AuthorityAccounts) (b : bool) u :
  Authority_ok accs = Ok u → is_signer (au_authority accs) = true.
Proof. intros Hc. apply constraint_inv in Hc. inv_method. done. Qed.

(** Writing after the array of indices leaves the indices. *)
Lemma views_lines s s' indices lines :
  sizes_hold s → gumball_header s' = gumball_header s →
  split_at (E:=b_error) (config_data s) (4 * max_items (gumball_header s)) = Ok (indices, lines_of s) →
  config_data s' = indices ++ lines →
  indices_of s' = indices_of s ∧ lines_of s' = lines.
Proof.
  intros _ Hh Hsplit Hc. apply split_at_Ok_inv in Hsplit as [Hcat Hlen].
  unfold indices_of at 1, lines_of at 1. rewrite Hh, Hc, <-Hlen, take_app_length, drop_app_length.
  split; [|done]. unfold indices_of. by rewrite Hcat, <-Hlen, take_app_length.
Qed.

Lemma split_config s :
  sizes_hold s →
  split_at (E:=b_error) (config_data s) (4 * max_items (gumball_header s)) =
    Ok (take (N.to_nat (4 * max_items (gumball_header s))) (config_data s), lines_of s).
Proof.
  intros (_ & _ & Hlen). unfold split_at. by rewrite decide_True by lia.
Qed.

(** The chunk initialized becomes the identity. *)
Lemma init_range_Ok l first next l' :
  init_range (E:=b_error) l first next = Ok l' → (next < 2 ^ 32)%N →
  take (N.to_nat first) l ≡ₚ N.of_nat <$> seq 0 (N.to_nat first) →
  (first ≤ next)%N ∧ length l' = length l ∧
  take (N.to_nat next) l' ≡ₚ N.of_nat <$> seq 0 (N.to_nat next) ∧
  (Forall (λ n, (n < 2 ^ 32)%N) l → Forall (λ n, (n < 2 ^ 32)%N) l').
Proof.
  unfold init_range. case_decide as Hr; [|done]. intros [= <-] Hn Hp.
  set (chunk := _ <$> seq _ _).
  assert (chunk = N.of_nat <$> seq (N.to_nat first) (N.to_nat (next - first))) as Hchunk.
  { apply list_fmap_ext. intros i k [-> Hi]%lookup_seq. apply N.mod_small. lia. }
  assert (length chunk = N.to_nat (next - first)) as Hlc by (by rewrite Hchunk, length_fmap, length_seq).
  assert (length (take (N.to_nat first) l) = N.to_nat first) as Hlt by (rewrite length_take; lia).
  split; [lia|]. split; [rewrite !length_app, length_drop; lia|]. split.
  - rewrite app_assoc, take_app_length' by (rewrite length_app; lia).
    rewrite Hp, Hchunk, <-fmap_app, <-(seq_app (N.to_nat first) _ 0).
    by replace (N.to_nat first + N.to_nat (next - first)) with (N.to_nat next) by lia.
  - intros Hall. rewrite !Forall_app. split; [by apply Forall_take|]. split; [|by apply Forall_drop].
    rewrite Hchunk. apply Forall_fmap, Forall_forall. intros i Hi%elem_of_seq. simpl. lia.
Qed.

Lemma initialize_indices_chunk_Ok accs s u s' :
  machine_inv s → initialize_indices_chunk accs s = (Ok u, s') →
  machine_inv s' ∧ lines_of s' = lines_of s ∧ tree_state s' = tree_state s ∧
  (smallest_uninitialized_index (gumball_header s) ≤ smallest_uninitialized_index (gumball_header s'))%N.
Proof.
  intros HI Hrun. unfold initialize_indices_chunk in Hrun. inv_method.
  destruct (mi_sizes s HI) as (Hmax & Hrem & Hlen). inv_arith.
  match goal with H : split_at _ _ = Ok (?a, ?b) |- _ =>
    rewrite (split_config s (mi_sizes s HI)) in H; injection H as <- <- end.
  match goal with H : init_range _ _ ?n = Ok ?l |- _ => rename H into Hinit; set (next := n) in *;
    rename l into l' end.
  apply init_range_Ok in Hinit as (Hnext & Hl' & Hp & Hlt); [|unfold next; lia|apply HI].
  pose proof (length_indices_of s (mi_sizes s HI)) as Hli. unfold indices_of in Hli.
  set (s1 := set_header _ (set_config _ _)) in *.
  assert (indices_of s1 = l' ∧ lines_of s1 = lines_of s) as [Hi1 Hl1].
  { unfold indices_of, lines_of, s1. cbn [gumball_header config_data set_header set_config max_items
      with_smallest_uninitialized].
    rewrite take_app_length', drop_app_length' by (rewrite length_bytes_of_u32s; lia).
    split; [|done]. apply u32s_of_bytes_of_u32s, Hlt, u32s_of_bytes_lt. }
  assert (machine_inv s1) as HI1.
  { destruct HI as [_ Hf Ha Hsm Hr Hi]. split; try done; try (rewrite Hi1; done).
    - split; [done|]. split; [done|]. cbn [s1 config_data set_header set_config gumball_header max_items
        with_smallest_uninitialized extension_len]. rewrite <-Hlen, length_app, length_bytes_of_u32s.
      unfold lines_of. rewrite length_drop. lia.
    - cbn [s1 config_data set_header set_config gumball_header max_items with_smallest_uninitialized
        smallest_uninitialized_index]. unfold next. lia. }
  destruct (_ =? 0)%N eqn:Hz;
    [apply modify_Ok_inv in Hrun as -> | injection Hrun as _ <-];
    (split; [|split; [exact Hl1|split; [done|exact Hnext]]]); [|done].
  destruct HI1 as [(_ & _ & Hlen1) Hf Ha Hsm Hr Hi]. apply N.eqb_eq in Hz.
  by split.
Qed.

(** ** Config lines *)

(** A view of the account after the config lines were written. *)
Lemma lines_written s s' (lines : bytes) :
  machine_inv s →
  max_items (gumball_header s') = max_items (gumball_header s) →
  extension_len (gumball_header s') = extension_len (gumball_header s) →
  smallest_uninitialized_index (gumball_header s') = smallest_uninitialized_index (gumball_header s) →
  config_data s' = take (N.to_nat (4 * max_items (gumball_header s))) (config_data s) ++ lines →
  length lines = length (lines_of s) →
  (remaining (gumball_header s') ≤ max_items (gumball_header s))%N →
  (total_items_added (gumball_header s') ≤ max_items (gumball_header s))%N →
  (extension_len (gumball_header s) ≠ 0%N →
    (remaining (gumball_header s') ≤ total_items_added (gumball_header s'))%N) →
  machine_inv s' ∧ lines_of s' = lines ∧ indices_of s' = indices_of s.
Proof.
  intros HI Hm He Hsm Hc Hl Hr Ht Hrt. destruct HI as [(Hmax & Hrem & Hlen) Hf Ha Hs _ Hi].
  assert (length (take (N.to_nat (4 * max_items (gumball_header s))) (config_data s)) =
    N.to_nat (4 * max_items (gumball_header s))) as Hlt by (rewrite length_take; lia).
  assert (indices_of s' = indices_of s) as Hii.
  { unfold indices_of. by rewrite Hm, Hc, take_app_length' by done. }
  split; [|split; [|done]].
  - split; rewrite ?Hm, ?He, ?Hsm, ?Hii; try done.
    split; rewrite ?Hm; [done|]. split; [done|]. rewrite He, Hc, length_app, Hlt, Hl, <-Hlen.
    unfold lines_of. rewrite length_drop. lia.
  - unfold lines_of. by rewrite Hm, Hc, drop_app_length' by done.
Qed.

Lemma div_checked_Ok (a b c : N) : div_checked (E:=b_error) a b = Ok c → b ≠ 0%N ∧ c = (a / b)%N.
Proof. unfold div_checked. destruct (b =? 0)%N eqn:Hb; [done|]. apply N.eqb_neq in Hb. by intros [= <-]. Qed.

Lemma rem_checked_Ok (a b c : N) : rem_checked (E:=b_error) a b = Ok c → c = (a mod b)%N.
Proof. unfold rem_checked. destruct (b =? 0)%N; [done|]. by intros [= <-]. Qed.

(** A vector holds fewer than [2^63] bytes. *)
Lemma num_lines_le len ls : ls ≠ 0%N → (len < 2 ^ 63)%N → (len / ls < 2 ^ 63)%N.
Proof. intros Hls Hlen. pose proof (N.Div0.div_le_upper_bound len ls len). nia. Qed.

Lemma add_config_lines_Ok accs data s u s' :
  machine_inv s → (N.of_nat (length data) < 2 ^ 63)%N → add_config_lines accs data s = (Ok u, s') →
  let h := gumball_header s in
  let n := (N.of_nat (length data) / extension_len h)%N in
  is_signer (au_authority accs) = true ∧ key (au_authority accs) = authority h ∧
  extension_len h ≠ 0%N ∧ N.of_nat (length data) = (n * extension_len h)%N ∧
  (total_items_added h + n ≤ max_items h)%N ∧
  gumball_header s' = with_remaining (remaining h + n) (with_items_added (total_items_added h + n) h) ∧
  write_at (E:=b_error) (lines_of s) (total_items_added h) data = Ok (lines_of s') ∧
  machine_inv s' ∧ indices_of s' = indices_of s ∧ tree_state s' = tree_state s.
Proof.
  intros HI Hdata Hrun. unfold add_config_lines in Hrun. inv_method. inv_bool.
  destruct (mi_sizes s HI) as (Hmax & Hrem & Hlen). pose proof (mi_added s HI) as Hadd.
  match goal with H : div_checked _ _ = Ok _ |- _ => apply div_checked_Ok in H as [Hls ->] end.
  match goal with H : rem_checked _ _ = Ok _ |- _ => apply rem_checked_Ok in H; subst end.
  pose proof (num_lines_le _ _ Hls Hdata) as Hn. pose proof (mi_remaining s HI Hls) as Hrt.
  set (n := (N.of_nat (length data) / extension_len (gumball_header s))%N) in *.
  inv_arith. rewrite !N.mod_small in * by lia. inv_arith.
  match goal with H : split_at _ _ = Ok (?a, ?b) |- _ =>
    rewrite (split_config s (mi_sizes s HI)) in H; injection H as <- <- end.
  match goal with H : write_at _ _ _ = Ok ?l |- _ => rename H into Hw, l into lines' end.
  match goal with H : Authority_ok _ = Ok _ |- _ => apply (authority_signed _ true) in H as Hsig end.
  pose proof (write_at_Ok _ _ _ _ Hw) as (_ & Hl & _).
  match goal with |- context [machine_inv ?s'] => set (sf := s') in * end.
  destruct (lines_written s sf lines') as (HI' & Hl' & Hi'); try done; [cbn; lia..|].
  rewrite Hl'. split; [done|]. split; [done|]. split; [done|]. split; [|done].
  unfold n. pose proof (N.div_mod (N.of_nat (length data)) (extension_len (gumball_header s)) Hls). lia.
Qed.

(** A starting line that makes the addition wrap around is out of the slice. *)
Lemma wrapped_start (a n ls : N) :
  ls ≠ 0%N → (n * ls < 2 ^ 63)%N → (a < 2 ^ 64)%N → (2 ^ 64 ≤ a + n)%N →
  (2 ^ 63 < (a * ls) mod 2 ^ 64)%N.
Proof.
  intros Hls Hn Ha Hover. set (m := (2 ^ 64 - a)%N).
  assert (m * ls ≤ n * ls)%N by (apply N.mul_le_mono_r; lia). assert (0 < m * ls)%N by nia.
  replace (a * ls)%N with ((2 ^ 64 - m * ls) + (ls - 1) * 2 ^ 64)%N by nia.
  rewrite N.Div0.mod_add, N.mod_small by lia. lia.
Qed.

Lemma wmul_Ok_mod w a b (c : N) : wmul (E:=b_error) w a b = Ok c → c = wrap w (a * b).
Proof.
  unfold wmul, on_overflow. case_decide; [intros [= <-]; by rewrite N.mod_small|].
  destruct overflow_checks; [done|]. by intros [= <-].
Qed.

Lemma update_config_lines_Ok accs a data s u s' :
  machine_inv s → (N.of_nat (length data) < 2 ^ 63)%N → (a < 2 ^ 64)%N →
  update_config_lines accs a data s = (Ok u, s') →
  let h := gumball_header s in
  let n := (N.of_nat (length data) / extension_len h)%N in
  is_signer (au_authority accs) = true ∧ key (au_authority accs) = authority h ∧
  extension_len h ≠ 0%N ∧ N.of_nat (length data) = (n * extension_len h)%N ∧
  (a + n ≤ total_items_added h)%N ∧ gumball_header s' = h ∧
  write_at (E:=b_error) (lines_of s) (a * extension_len h) data = Ok (lines_of s') ∧
  machine_inv s' ∧ indices_of s' = indices_of s ∧ tree_state s' = tree_state s.
Proof.
  intros HI Hdata Ha Hrun. unfold update_config_lines in Hrun. inv_method. inv_bool.
  destruct (mi_sizes s HI) as (Hmax & Hrem & Hlen). pose proof (mi_added s HI) as Hadd.
  pose proof (mi_fits s HI) as Hfits.
  match goal with H : div_checked _ _ = Ok _ |- _ => apply div_checked_Ok in H as [Hls ->] end.
  match goal with H : rem_checked _ _ = Ok _ |- _ => apply rem_checked_Ok in H; subst end.
  pose proof (num_lines_le _ _ Hls Hdata) as Hn. pose proof (mi_remaining s HI Hls) as Hrt.
  pose proof (N.div_mod (N.of_nat (length data)) (extension_len (gumball_header s)) Hls) as Hdiv.
  set (n := (N.of_nat (length data) / extension_len (gumball_header s))%N) in *.
  assert (extension_len (gumball_header s) * n < 2 ^ 63)%N as Hsmall by lia.
  assert (a + n < 2 ^ 64)%N as Hnowrap.
  { destruct (N.lt_ge_cases (a + n) (2 ^ 64)) as [|Hover]; [done|exfalso].
    match goal with H : write_at _ _ _ = Ok _, H' : split_at _ _ = Ok _, H'' : wmul 64 a _ = Ok _ |- _ =>
      apply write_at_Ok in H as [Hle _]; apply wmul_Ok_mod in H'' as -> ;
      apply split_at_Ok_inv in H' as [Hcat _] end.
    pose proof (wrapped_start a n _ Hls ltac:(lia) Ha Hover). rewrite Hcat, length_app in Hlen. lia. }
  inv_arith.
  assert (a * extension_len (gumball_header s) ≤ extension_len (gumball_header s) * max_items (gumball_header s))%N
    as Hstart by nia.
  inv_arith.
  match goal with H : split_at _ _ = Ok (?a, ?b) |- _ =>
    rewrite (split_config s (mi_sizes s HI)) in H; injection H as <- <- end.
  match goal with H : write_at _ _ _ = Ok ?l |- _ => rename H into Hw, l into lines' end.
  match goal with H : Authority_ok _ = Ok _ |- _ => apply (authority_signed _ true) in H as Hsig end.
  pose proof (write_at_Ok _ _ _ _ Hw) as (_ & Hl & _).
  match goal with |- context [machine_inv ?s'] => set (sf := s') in * end.
  destruct (lines_written s sf lines') as (HI' & Hl' & Hi'); try done.
  rewrite Hl'. split; [done|]. split; [done|]. split; [done|]. split; [lia|done].
Qed.

(** ** The header *)
Lemma update_header_metadata_Ok accs upd s u s' :
  machine_inv s → update_header_metadata accs upd s = (Ok u, s') →
  is_signer (au_authority accs) = true ∧ key (au_authority accs) = authority (gumball_header s) ∧
  s' = set_header (update_header upd (gumball_header s)) s ∧ machine_inv s' ∧
  indices_of s' = indices_of s ∧ lines_of s' = lines_of s.
Proof.
  intros HI Hrun. unfold update_header_metadata in Hrun. inv_method. inv_bool.
  match goal with H : Authority_ok _ = Ok _ |- _ => apply (authority_signed _ true) in H as Hsig end.
  split; [done|]. split; [done|]. split; [done|]. split; [|done].
  by destruct HI as [Hs Hf Ha Hsm Hr Hi].
Qed.

End config.

(** ** The instructions of a machine that is set up *)
Inductive gumball_op :=
  | InitIndices (accs : AuthorityAccounts)
  | AddLines (accs : AuthorityAccounts) (data : bytes)
  | UpdateLines (accs : AuthorityAccounts) (starting_line : N) (data : bytes)
  | UpdateHeader (accs : AuthorityAccounts) (u : HeaderUpdate)
  | SellSol (accs : DispenseAccounts) (num_items : N)
  | SellToken (accs : DispenseToken) (num_items : N).

(** The ranges of the arguments: a vector has fewer than [2^63] bytes. *)
Definition op_in_range (o : gumball_op) : Prop :=
  match o with
  | AddLines _ data => (N.of_nat (length data) < 2 ^ 63)%N
  | UpdateLines _ a data => (N.of_nat (length data) < 2 ^ 63)%N ∧ (a < 2 ^ 64)%N
  | _ => True
  end.

(** The account of the authority, for the instructions that configure. *)
Definition configuring (o : gumball_op) : option AccountInfo :=
  match o with
  | InitIndices accs | AddLines accs _ | UpdateLines accs _ _ | UpdateHeader accs _ => Some (au_authority accs)
  | _ => None
  end.

Section ops.
Context `{Keccak} `{BuildProfile} `{EventCodec} `{Pda} `{BubblegumCodec} `{Base58} `{InstructionsSysvar} `{Payments}.
Context (gumball_id bubblegum_id gummyroll_id candy_wrapper_id : Pubkey).
Context (system_program_id slot_hashes_id instructions_sysvar_id native_mint : Pubkey).
Implicit Types (s : gstate).

Definition run_gumball (o : gumball_op) : gb_method unit :=
  match o with
  | InitIndices accs => initialize_indices_chunk accs
  | AddLines accs data => add_config_lines accs data
  | UpdateLines accs a data => update_config_lines accs a data
  | UpdateHeader accs u => update_header_metadata accs u
  | SellSol accs n =>
      dispense_nft_sol gumball_id bubblegum_id gummyroll_id candy_wrapper_id system_program_id slot_hashes_id
        instructions_sysvar_id native_mint accs n
  | SellToken accs n =>
      dispense_nft_token gumball_id bubblegum_id gummyroll_id candy_wrapper_id system_program_id
        slot_hashes_id instructions_sysvar_id accs n
  end.

(** The payment of a sale of [n] items. *)
Definition payment_of (o : gumball_op) (amount : N) : option payment :=
  match o with
  | SellSol accs _ => Some (SolTransfer (key (ds_payer accs)) (key (ds_receiver accs)) amount)
  | SellToken accs _ =>
      let d := dt_accounts accs in
      Some (TokenTransfer (key (dt_payer_tokens accs)) (key (ds_receiver d)) (key (ds_payer d)) amount)
  | _ => None
  end.

Definition sale_of (o : gumball_op) : option (DispenseAccounts * N) :=
  match o with
  | SellSol accs n => Some (accs, n)
  | SellToken accs n => Some (dt_accounts accs, n)
  | _ => None
  end.

(** What a sale of at most [num_items] items does; [paid] is what the payment is
    for each amount. *)
Definition sale_done (accs : DispenseAccounts) (num_items : N) (paid : N → payment) s s' : Prop :=
  let h := gumball_header s in
  let n := N.min (N.max num_items 1) (remaining h) in
  (0 < n)%N ∧ is_signer (ds_payer accs) = true ∧
  key (ds_receiver accs) = receiver h ∧ (num_items ≤ max_mint_size h)%N ∧
  smallest_uninitialized_index h = max_items h ∧
  (∃ now, ds_unix_timestamp accs = Ok now ∧ (go_live_date h < now)%Z) ∧
  assert_valid_single_instruction_transaction gumball_id (ds_instruction_sysvar_data accs) = Ok tt ∧
  ∃ amount drawn s1, wmul (E:=b_error) 64 (price h) n = Ok amount ∧ length drawn = N.to_nat n ∧
    sold system_program_id s s1 drawn ∧ s' = add_payment (paid amount) s1.

Lemma sale_common accs num_items paid s h n s1 amount u :
  machine_inv s →
  Dispense_ok gumball_id bubblegum_id gummyroll_id candy_wrapper_id slot_hashes_id instructions_sysvar_id accs = Ok u →
  find_and_mint_compressed_nfts gumball_id bubblegum_id gummyroll_id candy_wrapper_id system_program_id
    accs num_items s = (Ok (h, n), s1) →
  receiver h = key (ds_receiver accs) → wmul (E:=b_error) 64 (price h) n = Ok amount →
  sale_done accs num_items paid s (add_payment (paid amount) s1).
Proof.
  intros HI Hok Hfind Hrec Hamount. apply constraint_inv in Hok. inv_method.
  apply find_and_mint_Ok in Hfind as (-> & -> & Hn & Hk & Hall & Hlive & Hixs & drawn & Hlen & HS); [|done].
  rewrite (sold_header _ _ _ _ HS) in *. cbn [receiver price with_remaining] in *.
  repeat (split; [by auto|]). eexists _, drawn, s1. eauto.
Qed.

Lemma sale_Ok o accs num_items s u s' :
  machine_inv s → sale_of o = Some (accs, num_items) → run_gumball o s = (Ok u, s') →
  ∃ paid, (∀ amount, payment_of o amount = Some (paid amount)) ∧ sale_done accs num_items paid s s'.
Proof.
  intros HI Ho Hrun.
  destruct o as [| | | |d k|d k]; try done; injection Ho as <- <-; cbn [run_gumball] in Hrun.
  - unfold dispense_nft_sol, DispenseSol_ok, pay in Hrun. inv_method. inv_bool.
    exists (SolTransfer (key (ds_payer d)) (key (ds_receiver d))). split; [done|]. by eapply sale_common.
  - unfold dispense_nft_token, DispenseToken_ok, pay in Hrun. inv_method. inv_bool.
    exists (TokenTransfer (key (dt_payer_tokens d)) (key (ds_receiver (dt_accounts d)))
              (key (ds_payer (dt_accounts d)))). split; [done|]. by eapply sale_common.
Qed.

Lemma sale_inv accs num_items paid s s' :
  machine_inv s → sale_done accs num_items paid s s' → machine_inv s'.
Proof.
  intros HI (_ & _ & _ & _ & Hall & _ & _ & amount & drawn & s1 & _ & _ & HS & ->).
  pose proof (sold_inv _ s s1 drawn HI Hall HS) as HI1. by destruct HI1.
Qed.

(** Every instruction keeps the invariant. *)
Lemma run_gumball_inv o s u s' :
  machine_inv s → op_in_range o → run_gumball o s = (Ok u, s') → machine_inv s'.
Proof.
  intros HI Hr Hrun. destruct o as [accs|accs data|accs a data|accs upd|accs n|accs n]; cbn [run_gumball] in Hrun.
  - by apply initialize_indices_chunk_Ok in Hrun as [? _].
  - by apply add_config_lines_Ok in Hrun as (_ & _ & _ & _ & _ & _ & _ & ? & _).
  - destruct Hr. by apply update_config_lines_Ok in Hrun as (_ & _ & _ & _ & _ & _ & _ & ? & _).
  - by apply update_header_metadata_Ok in Hrun as (_ & _ & _ & ? & _).
  - apply (sale_Ok (SellSol accs n) accs n) in Hrun as (paid & _ & Hd); [|done..]. by eapply sale_inv.
  - apply (sale_Ok (SellToken accs n) (dt_accounts accs) n) in Hrun as (paid & _ & Hd); [|done..]. by eapply sale_inv.
Qed.
End ops.
