(* ===== verification/GumballProperties.v ===== *)
(** * What the gumball machine guarantees

    The properties of the program, with their witnesses. *)

From S2P Require Import Prelude Text Hashing MerkleSpec MerkleRollInit Solana Gummyroll GummyrollLimits.
From S2P Require Import LeafSchema Bubblegum BubblegumWitnesses Gumball GumballTheorems GumballSale GumballConfig.

Section properties.
Context `{Keccak} `{BuildProfile} `{EventCodec} `{Pda} `{BubblegumCodec} `{Base58} `{InstructionsSysvar} `{Payments}.
Context (gumball_id bubblegum_id gummyroll_id candy_wrapper_id : Pubkey).
Context (system_program_id slot_hashes_id instructions_sysvar_id native_mint : Pubkey).
Implicit Types (s : gstate) (h : GumballMachineHeader).

Abbreviation run o := (run_gumball gumball_id bubblegum_id gummyroll_id candy_wrapper_id system_program_id
  slot_hashes_id instructions_sysvar_id native_mint o).

(** C24: whatever the entropy, the shuffle draws each remaining item once.  From a
    header with [r] items left, [k ≤ r] draws succeed for any block hashes; the
    items drawn and the first [r - k] entries of the new array are together the
    first [r] entries of the old one, and the entries behind are untouched: after
    [r] draws, the items drawn are a permutation of the items that were left. *)
Theorem every_item_drawn_once (bhs : list bytes) h (indices : list N) :
  let k := length bhs in
  let r := N.to_nat (remaining h) in
  k ≤ r ≤ length indices →
  ∃ indices' drawn,
    draws bhs h indices = Ok (with_remaining (remaining h - N.of_nat k) h, indices', drawn) ∧
    length drawn = k ∧ take r indices ≡ₚ take (r - k) indices' ++ drawn ∧
    drop r indices' = drop r indices ∧ (k = r → drawn ≡ₚ take r indices).
Proof.
  intros k r Hk. destruct (draws_ok bhs h indices Hk) as (indices' & drawn & Hd & Hlen & Hp & Hrest & _).
  exists indices', drawn. split; [done|]. split; [done|]. split; [done|]. split; [done|].
  intros Heq. fold k r in Hp. rewrite Hp. by rewrite Heq, Nat.sub_diag.
Qed.

(** C18: a sale that succeeds.  The payer signed, the machine was live, complete and
    called by a transaction of its own; it minted [n], the number asked for (at
    least one) or what was left; the items minted are [n] of the remaining ones,
    each with the metadata of its own config line, they are different, and none
    is among those that remain; the payer is charged the price for each of
    them. *)
Theorem sale_mints_what_it_charges o accs num_items s u s' :
  machine_inv s → sale_of o = Some (accs, num_items) → run o s = (Ok u, s') →
  let h := gumball_header s in
  let n := N.min (N.max num_items 1) (remaining h) in
  (0 < n)%N ∧ (num_items ≤ max_mint_size h)%N ∧ is_signer (ds_payer accs) = true ∧
  key (ds_receiver accs) = receiver h ∧
  (∃ now, ds_unix_timestamp accs = Ok now ∧ (go_live_date h < now)%Z) ∧
  assert_valid_single_instruction_transaction gumball_id (ds_instruction_sysvar_data accs) = Ok tt ∧
  (∃ amount p, wmul (E:=b_error) 64 (price h) n = Ok amount ∧ payment_of o amount = Some p ∧
    payments s' = payments s ++ [p]) ∧
  gumball_header s' = with_remaining (remaining h - n) h ∧
  ∃ drawn metas,
    length drawn = N.to_nat n ∧ NoDup drawn ∧
    Forall2 (λ i m, nft_metadata_of system_program_id h (extension_len h) (lines_of s) i = Ok m) drawn metas ∧
    minted_nfts (logs (tree_state s')) = minted_nfts (logs (tree_state s)) ++ metas ∧
    take (N.to_nat (remaining h)) (indices_of s) ≡ₚ take (N.to_nat (remaining h - n)) (indices_of s') ++ drawn ∧
    ∀ i, i ∈ drawn → i ∉ take (N.to_nat (remaining h - n)) (indices_of s').
Proof.
  intros HI Ho Hrun h n.
  destruct (sale_Ok _ _ _ _ _ _ _ _ _ _ _ _ _ _ HI Ho Hrun) as (paid & Hpaid & Hn & Hsig & Hrec & Hmax & Hall
    & Hlive & Hixs & amount & drawn & s1 & Hamount & Hlen & HS & ->).
  fold h in Hn, Hrec, Hmax, Hall, Hlive, Hamount, Hlen. fold n in Hn, Hamount, Hlen.
  pose proof (all_indices s HI Hall) as Hperm.
  destruct HS as [Hh Hc Hi _ _ _ _ Hpay (metas & Hmetas & Hlogs)]. fold h in Hh, Hc, Hi, Hmetas.
  rewrite Hlen in *. rewrite N2Nat.id in Hh.
  replace (N.to_nat (remaining h) - N.to_nat n) with (N.to_nat (remaining h - n)) in Hi by lia.
  assert (NoDup (take (N.to_nat (remaining h - n)) (indices_of s1) ++ drawn)) as Hnd.
  { rewrite <-Hi. eapply sublist_NoDup; [|apply sublist_take]. rewrite Hperm.
    apply NoDup_fmap_2; [apply _|]. apply NoDup_seq. }
  apply NoDup_app in Hnd as (_ & Hdisj & Hnd).
  repeat (split; [by auto|]). split; [|split; [exact Hh|]].
  - exists amount, (paid amount). split; [done|]. split; [done|]. cbn. by rewrite Hpay.
  - exists drawn, metas. repeat (split; [by auto|]). intros i Hid Hir. by destruct (Hdisj i).
Qed.

(** C25: every instruction of a machine keeps its invariant: the account has the
    size of its indices and config lines, no counter passes [max_items], the
    remaining items are among the lines that were added, and the initialized part
    of the array of indices holds each index once. *)
Theorem machine_invariant_kept o s u s' :
  machine_inv s → op_in_range o → run o s = (Ok u, s') → machine_inv s'.
Proof. apply run_gumball_inv. Qed.

(** Only the authority configures a machine. *)
Theorem configuration_needs_authority o s u s' acc :
  configuring o = Some acc → run o s = (Ok u, s') →
  is_signer acc = true ∧ key acc = authority (gumball_header s).
Proof.
  intros Ho Hrun.
  destruct o as [accs|accs data|accs a data|accs upd|accs n|accs n]; try done; injection Ho as <-;
    cbn [run_gumball] in Hrun.
  all: unfold initialize_indices_chunk, add_config_lines, update_config_lines, update_header_metadata in Hrun;
    inv_method; inv_bool;
    match goal with H : Authority_ok _ = Ok _ |- _ => apply (authority_signed _ true) in H; done end.
Qed.

(** [update_config_lines] replaces the lines it names, and no other. *)
Theorem update_config_lines_writes accs a data s u s' :
  machine_inv s → (N.of_nat (length data) < 2 ^ 63)%N → (a < 2 ^ 64)%N →
  update_config_lines accs a data s = (Ok u, s') →
  let ls := extension_len (gumball_header s) in
  let n := (N.of_nat (length data) / ls)%N in
  gumball_header s' = gumball_header s ∧ (a + n ≤ total_items_added (gumball_header s))%N ∧
  ∀ k, config_line s' k =
    if decide (a ≤ k < a + n)%N
    then take (N.to_nat ls) (drop (N.to_nat (k - a) * N.to_nat ls) data)
    else config_line s k.
Proof.
  intros HI Hd Ha Hrun ls n.
  destruct (update_config_lines_Ok _ _ _ _ _ _ HI Hd Ha Hrun) as (_ & _ & Hls & Hlen & Hfit & Hh & Hw & _).
  fold ls n in Hls, Hlen, Hfit, Hw. split; [done|]. split; [done|]. intros k.
  unfold config_line. rewrite Hh. fold ls.
  destruct (mi_sizes s HI) as (_ & _ & Hsize). pose proof (mi_added s HI) as Hadd. fold ls in Hsize.
  assert (N.of_nat (length (lines_of s)) = ls * max_items (gumball_header s))%N as Hll.
  { unfold lines_of. rewrite length_drop. lia. }
  replace (a * ls)%N with (N.of_nat (N.to_nat a * N.to_nat ls)) in Hw by lia.
  rewrite (write_at_lines _ _ _ _ (N.to_nat n) _ Hw) by nia.
  replace (N.to_nat (k - a)) with (N.to_nat k - N.to_nat a) by lia.
  destruct (decide (a ≤ k < a + n)%N); [by rewrite decide_True by lia|by rewrite decide_False by lia].
Qed.

(** [add_config_lines] counts lines, and writes at the byte whose offset is the
    number of lines already added.  The first lines added are right; when [t > 0]
    lines of more than one byte were added, the next ones overwrite from the byte
    [t], which belongs to a line before the line [t]. *)
Theorem add_config_lines_places accs data s u s' :
  machine_inv s → (N.of_nat (length data) < 2 ^ 63)%N → add_config_lines accs data s = (Ok u, s') →
  let h := gumball_header s in
  let ls := extension_len h in
  let t := total_items_added h in
  let n := (N.of_nat (length data) / ls)%N in
  gumball_header s' = with_remaining (remaining h + n) (with_items_added (t + n) h) ∧
  (t = 0%N → ∀ k, (k < n)%N →
    config_line s' k = take (N.to_nat ls) (drop (N.to_nat k * N.to_nat ls) data)) ∧
  ((0 < t)%N → (1 < ls)%N → ∀ b, data !! 0 = Some b →
    lines_of s' !! N.to_nat t = Some b ∧ (t / ls < t)%N).
Proof.
  intros HI Hd Hrun h ls t n.
  destruct (add_config_lines_Ok _ _ _ _ _ HI Hd Hrun) as (_ & _ & Hls & Hlen & Hfit & Hh & Hw & _).
  fold h ls t n in Hls, Hlen, Hfit, Hw, Hh. split; [exact Hh|].
  destruct (mi_sizes s HI) as (_ & _ & Hsize). pose proof (mi_added s HI) as Hadd. fold h ls t in Hsize, Hadd.
  assert (N.of_nat (length (lines_of s)) = ls * max_items h)%N as Hll.
  { unfold lines_of. rewrite length_drop. fold h. lia. }
  split.
  - intros Ht k Hk. unfold config_line. rewrite Hh. cbn [with_remaining with_items_added extension_len].
    fold ls. rewrite Ht in Hw.
    rewrite (write_at_lines _ _ data 0 (N.to_nat n) (N.to_nat ls) Hw) by nia.
    rewrite decide_True by lia. by rewrite Nat.sub_0_r.
  - intros Ht Hls1 b Hb. pose proof (lookup_lt_Some _ _ _ Hb) as Hpos.
    apply write_at_Ok in Hw as (_ & _ & _ & Hat). specialize (Hat 0). rewrite Nat.add_0_r in Hat.
    rewrite Hat, decide_True by nia. split; [done|]. by apply N.div_lt.
Qed.

(** Without config lines the line of an item is the eight bytes of its number.
    With the UTF-8 method, the item whose number has a low byte above 127 and a
    second byte below 128 - the numbers 128 to 255 first - cannot be minted: the
    bytes are not UTF-8 and the conversion panics. *)
Theorem numbered_items_not_utf8 h i :
  config_line_encode_method h = 0%N → (i < 2 ^ 32)%N →
  (128 ≤ (i + 1) mod 256)%N → (((i + 1) / 256) mod 256 < 128)%N →
  nft_metadata_of system_program_id h 0 [] i = Panic.
Proof.
  intros He Hi Hlow Hhigh. unfold nft_metadata_of. rewrite wadd_ok, wmul_ok by lia.
  cbn [mbind outcome_bind length]. rewrite decide_False by (simpl; lia). cbn [mbind outcome_bind].
  rewrite He. cbn [EncodeMethod_from mbind outcome_bind]. unfold get_metadata_args.
  assert (from_utf8 (to_le_bytes 8 (i + 1)) = None) as Hnone.
  { unfold from_utf8. cbn [to_le_bytes fmap list_fmap]. rewrite !to_N_byte_of_N.
    rewrite utf8_invalid_lone; [done|done|]. by rewrite N.shiftr_div_pow2. }
  rewrite Hnone.
  destruct (text_of_cases (E:=b_error) (name_base h)) as [->|[? ->]]; [done|].
  destruct (text_of_cases (E:=b_error) (symbol h)) as [->|[? ->]]; [done|].
  by destruct (text_of_cases (E:=b_error) (url_base h)) as [->|[? ->]].
Qed.

Lemma initialize_Ok accs max_depth max_buffer_size args s u s' :
  (ia_max_items args < 2 ^ 32)%N →
  (4 * ia_max_items args + ia_extension_len args * ia_max_items args < 2 ^ 63)%N →
  initialize_gumball_machine gumball_id bubblegum_id gummyroll_id candy_wrapper_id accs max_depth
    max_buffer_size args s = (Ok u, s') →
  machine_inv s' ∧ remaining (gumball_header s') = 0%N ∧
  authority (gumball_header s') = ia_authority args ∧ (length (ia_creator_keys args) ≤ 4).
Proof.
  intros Hmax Hfits Hrun. unfold initialize_gumball_machine in Hrun. inv_method. inv_bool. inv_arith.
  unfold call_bubblegum in Hrun. destruct (create_tree _ _ _ _ _ _ _) as [r t]. injection Hrun as -> <-.
  split; [|split; [done|split; [done|unfold NUM_CREATORS in *; lia]]].
  split; cbn; try done; try lia. split; [done|]. split; [cbn; lia|done].
Qed.

(** [initialize_gumball_machine] sets up a machine: a machine whose sizes do not
    overflow satisfies the invariant, has no item to sell and at most four
    creators. *)
Theorem initialize_establishes_invariant accs max_depth max_buffer_size args s u s' :
  (ia_max_items args < 2 ^ 32)%N →
  (4 * ia_max_items args + ia_extension_len args * ia_max_items args < 2 ^ 63)%N →
  initialize_gumball_machine gumball_id bubblegum_id gummyroll_id candy_wrapper_id accs max_depth
    max_buffer_size args s = (Ok u, s') →
  machine_inv s' ∧ remaining (gumball_header s') = 0%N ∧
  authority (gumball_header s') = ia_authority args ∧ (length (ia_creator_keys args) ≤ 4).
Proof. apply initialize_Ok. Qed.
End properties.
