(* ===== verification/GumballWitnesses.v ===== *)
(** * A run of the gumball machine

    A machine of four items with config lines of one byte is set up on a toy
    instance of the hash and of the other programs; the run witnesses the
    theorems, and shows that lines added after a sale sell an item twice. *)

From S2P Require Import Prelude Text Hashing MerkleSpec MerkleRollInit Solana Gummyroll GummyrollLimits.
From S2P Require Import LeafSchema Bubblegum BubblegumWitnesses.
From S2P Require Import Gumball GumballTheorems GumballSale GumballConfig GumballProperties.

Module MToy.
Import Toy GToy BToy.

#[export] Instance toy_base58 : Base58 := {
  bs58_encode l := String.string_of_list_byte l;
  bs58_decode s := Some (string_bytes s);
}.

Definition gumball : Pubkey := toy_node 5000.
Definition machine_key : Pubkey := toy_node 5001.
Definition wonka : Pubkey := (toy_pda [vec_to_list machine_key] gumball).1.
Definition slot_hashes : Pubkey := toy_node 5002.
Definition instructions_id : Pubkey := toy_node 5003.
Definition native : Pubkey := toy_node 5004.
Definition system : Pubkey := toy_node 5005.
Definition treasury : Pubkey := toy_node 5006.

#[export] Instance toy_sysvar : InstructionsSysvar := λ _ _, Ok gumball.
#[export] Instance toy_payments : Payments := λ _, true.

(** A string in an array of [n] bytes. *)
Definition padded (n : nat) (s : string) : vec Byte.byte n :=
  default (vreplicate n x00) (list_to_array n (resize n x00 (string_bytes s))).

Definition blank_header : GumballMachineHeader :=
  mk_GumballMachineHeader (vreplicate 64 x00) (vreplicate 32 x00) (vreplicate 8 x00) 0 0 0 0 [] 0 0
    default_pubkey default_pubkey default_pubkey default_pubkey default_pubkey 0 0 0 0 0 0.

(** A blank account for [items] items with lines of [ls] bytes. *)
Definition blank (items ls : nat) : gstate :=
  mk_gstate blank_header (replicate (4 * items + ls * items) x00) 1000 fresh [].

Definition init_accs : InitGumballMachine :=
  mk_InitGumballMachine (quiet machine_key) (info admin) native (quiet wonka)
    (quiet (authority_address bubblegum slab_key)) (quiet wrapper) (quiet gummyroll) (quiet slab_key)
    (quiet bubblegum) (Ok 7%N).

Definition init_args (items ls : N) : InitArgs :=
  mk_InitArgs (padded 64 "ipfs") (padded 32 "candy") (padded 8 "CND") None 500 true true 10 100 admin
    treasury admin system ls 2 items [alice] [100%N].

Definition machine (items ls : nat) : gstate :=
  (initialize_gumball_machine gumball bubblegum gummyroll wrapper init_accs 3 8
     (init_args (N.of_nat items) (N.of_nat ls)) (blank items ls)).2.

Definition authority_accs : AuthorityAccounts := mk_AuthorityAccounts (quiet machine_key) (info admin).

Definition buyer : DispenseAccounts :=
  mk_DispenseAccounts (quiet machine_key) (info bob) (quiet treasury) (quiet wonka) (quiet slot_hashes)
    [x2a] (quiet instructions_id) [x01; x00] (quiet (authority_address bubblegum slab_key)) (quiet wrapper)
    (quiet gummyroll) (quiet slab_key) (quiet bubblegum) (Ok 200%Z).

Definition run_toy (o : gumball_op) : gb_method unit :=
  run_gumball gumball bubblegum gummyroll wrapper system slot_hashes instructions_id native o.

Fixpoint run_all (ops : list gumball_op) (s : gstate) : outcome b_error unit * gstate :=
  match ops with
  | [] => (Ok tt, s)
  | o :: ops => match run_toy o s with (Ok _, s') => run_all ops s' | r => r end
  end.

Definition names (s : gstate) : list string := ma_name <$> minted_nfts (logs (tree_state s)).

Lemma machine_inv_toy (items ls : nat) u s :
  items ≤ 100 → ls ≤ 100 →
  initialize_gumball_machine gumball bubblegum gummyroll wrapper init_accs 3 8
    (init_args (N.of_nat items) (N.of_nat ls)) (blank items ls) = (Ok u, s) → machine_inv s.
Proof. intros Hi Hl Hrun. by apply initialize_Ok in Hrun as [? _]; [|simpl; nia..]. Qed.

Lemma run_all_inv ops s u s' :
  machine_inv s → Forall op_in_range ops → run_all ops s = (Ok u, s') → machine_inv s'.
Proof.
  intros HI Hops. revert s HI. induction Hops as [|o ops Ho _ IH]; intros s HI Hrun; cbn [run_all] in Hrun.
  - by injection Hrun as _ <-.
  - destruct (run_toy o s) as [[?|?| |] s1] eqn:Hone; try done.
    apply (IH s1); [|done]. by apply run_gumball_inv in Hone.
Qed.

(** Four items, a line of two bytes for each. *)
Definition lines : bytes := [x61; x61; x62; x62; x63; x63; x64; x64].
Definition setup : list gumball_op := [InitIndices authority_accs; AddLines authority_accs lines].
Definition ready : gstate := (run_all setup (machine 4 2)).2.

Lemma ready_inv : machine_inv ready.
Proof.
  apply (run_all_inv setup (machine 4 2) tt).
  - by apply (machine_inv_toy 4 2 tt); [lia|lia|vm_compute].
  - by repeat constructor.
  - by vm_compute.
Qed.
End MToy.

Import Toy GToy BToy MToy.
#[local] Opaque toy_hashv.

(** Lines that are added after a sale sell an item twice.  The two first lines
    are added and an item is sold; the items sold lie behind the [remaining]
    first entries of the array, and adding lines raises [remaining] over them: of
    the four items of this machine the first is sold twice, and the last never. *)
Theorem late_config_lines_sell_twice :
  let ops := [InitIndices authority_accs; AddLines authority_accs [x61; x62]; SellSol buyer 1;
              AddLines authority_accs [x63; x64]; SellSol buyer 2; SellSol buyer 1] in
  let s := run_all ops (machine 4 1) in
  s.1 = Ok tt ∧ remaining (gumball_header s.2) = 0%N ∧
  names s.2 = ["candy #1"; "candy #3"; "candy #2"; "candy #1"].
Proof. split; [|split]; by vm_compute. Qed.

Lemma every_item_drawn_once_witness :
  ∃ drawn, length drawn = 4 ∧ drawn ≡ₚ take 4 (indices_of ready).
Proof.
  destruct (every_item_drawn_once [[x01]; [x02]; [x03]; [x04]] (gumball_header ready) (indices_of ready))
    as (indices' & drawn & _ & Hlen & _ & _ & Hall).
  - replace (N.to_nat (remaining (gumball_header ready))) with 4 by by vm_compute.
    replace (length (indices_of ready)) with 4 by by vm_compute. simpl. lia.
  - exists drawn. split; [exact Hlen|].
    replace 4 with (N.to_nat (remaining (gumball_header ready))) by by vm_compute.
    apply Hall. by vm_compute.
Defined.

Lemma sale_mints_what_it_charges_witness :
  payments (run_toy (SellSol buyer 2) ready).2 = [SolTransfer bob treasury 20].
Proof.
  destruct (sale_mints_what_it_charges gumball bubblegum gummyroll wrapper system slot_hashes instructions_id
    native (SellSol buyer 2) buyer 2 ready tt (run_toy (SellSol buyer 2) ready).2)
    as (_ & _ & _ & _ & _ & _ & (amount & p & Ha & Hp & Hpay) & _).
  - apply ready_inv.
  - done.
  - by vm_compute.
  - rewrite Hpay. injection Hp as <-. assert (amount = 20%N) as -> by (vm_compute in Ha; congruence).
    by vm_compute.
Defined.

Lemma machine_invariant_kept_witness : machine_inv (run_toy (SellSol buyer 2) ready).2.
Proof.
  apply (machine_invariant_kept gumball bubblegum gummyroll wrapper system slot_hashes instructions_id native
    (SellSol buyer 2) ready tt).
  - apply ready_inv.
  - done.
  - by vm_compute.
Defined.

Lemma configuration_needs_authority_witness : key (au_authority authority_accs) = authority (gumball_header ready).
Proof.
  destruct (configuration_needs_authority gumball bubblegum gummyroll wrapper system slot_hashes instructions_id
    native (UpdateLines authority_accs 1 [x7a; x7a]) ready tt
    (run_toy (UpdateLines authority_accs 1 [x7a; x7a]) ready).2 (au_authority authority_accs)) as [_ Hkey].
  - done.
  - by vm_compute.
  - exact Hkey.
Defined.

Lemma update_config_lines_writes_witness :
  config_line (update_config_lines authority_accs 1 [x7a; x7a] ready).2 1 = [x7a; x7a].
Proof.
  destruct (update_config_lines_writes authority_accs 1 [x7a; x7a] ready tt
    (update_config_lines authority_accs 1 [x7a; x7a] ready).2) as (_ & _ & Hline).
  - apply ready_inv.
  - done.
  - done.
  - by vm_compute.
  - rewrite Hline. by vm_compute.
Defined.

Lemma add_config_lines_places_witness :
  let s := (run_all [InitIndices authority_accs; AddLines authority_accs [x61; x61]] (machine 4 2)).2 in
  lines_of (add_config_lines authority_accs [x62; x62] s).2 !! 1 = Some x62.
Proof.
  intros s.
  destruct (add_config_lines_places authority_accs [x62; x62] s tt
    (add_config_lines authority_accs [x62; x62] s).2) as (_ & _ & Hplace).
  - apply (run_all_inv [InitIndices authority_accs; AddLines authority_accs [x61; x61]] (machine 4 2) tt).
    + by apply (machine_inv_toy 4 2 tt); [lia|lia|vm_compute].
    + by repeat constructor.
    + by vm_compute.
  - done.
  - by vm_compute.
  - apply (Hplace ltac:(by vm_compute) ltac:(by vm_compute) x62 eq_refl).
Defined.

Lemma numbered_items_not_utf8_witness :
  nft_metadata_of system (gumball_header (machine 4 0)) 0 [] 127 = Panic.
Proof.
  apply (numbered_items_not_utf8 system (gumball_header (machine 4 0)) 127).
  - by vm_compute.
  - done.
  - by vm_compute.
  - by vm_compute.
Defined.

Lemma initialize_establishes_invariant_witness : machine_inv (machine 4 2).
Proof.
  destruct (initialize_establishes_invariant gumball bubblegum gummyroll wrapper init_accs 3 8 (init_args 4 2)
    (blank 4 2) tt (machine 4 2)) as [HI _].
  - done.
  - done.
  - by vm_compute.
  - exact HI.
Defined.
