(* ===== verification/SugarShack.v ===== *)
(** * The marketplace: [contracts/programs/sugar-shack/src]

    A listing is a delegation: the owner of an NFT makes the address derived from
    the price its delegate.  A purchase pays the marketplace, the creators and
    the owner, and transfers the NFT with the signature of that address.

    The program keeps one account of properties.  The calls to the
    compressed-NFT program run its handlers ([Bubblegum]); the checked arithmetic
    (crate [solana_safe_math]), the transfers of the system program and the rent
    are parameters. *)

From S2P Require Import Prelude Hashing MerkleSpec Solana Gummyroll LeafSchema Bubblegum.

Definition MARKETPLACE_PROPERTIES_PREFIX : string := "mymarketplace".

(** ** [state/mod.rs] *)
Record MarketplaceProperties := mk_MarketplaceProperties {
  mp_authority : Pubkey;
  mp_share : N;
  mp_bump : N;
}.

Definition MARKETPLACE_PROPERTIES_SIZE : N := (8 + 32 + 2 + 1)%N.

Record lamport_transfer := mk_lamport_transfer { from : Pubkey; to : Pubkey; amount : N }.

Record sstate := mk_sstate {
  marketplace_props : option MarketplaceProperties;
  props_lamports : N;
  market_tree : bstate;
  transfers : list lamport_transfer;
}.

Abbreviation s_method := (method sstate b_error).

Definition set_props (p : MarketplaceProperties) (s : sstate) : sstate :=
  mk_sstate (Some p) (props_lamports s) (market_tree s) (transfers s).
Definition set_props_lamports (n : N) (s : sstate) : sstate :=
  mk_sstate (marketplace_props s) n (market_tree s) (transfers s).
Definition set_market_tree (t : bstate) (s : sstate) : sstate :=
  mk_sstate (marketplace_props s) (props_lamports s) t (transfers s).
Definition add_transfer (t : lamport_transfer) (s : sstate) : sstate :=
  mk_sstate (marketplace_props s) (props_lamports s) (market_tree s) (transfers s ++ [t]).

(** [solana_safe_math]: arithmetic on [u64] that returns an error on overflow. *)
Class SafeMath := {
  safe_add : N → N → b_outcome N;
  safe_sub : N → N → b_outcome N;
  safe_mul : N → N → b_outcome N;
  safe_div : N → N → b_outcome N;
}.

Class SafeMathSpec `{SafeMath} := {
  safe_add_spec a b c : safe_add a b = Ok c ↔ (c = a + b)%N ∧ (a + b < 2 ^ 64)%N;
  safe_sub_spec a b c : safe_sub a b = Ok c ↔ (c = a - b)%N ∧ (b ≤ a)%N;
  safe_mul_spec a b c : safe_mul a b = Ok c ↔ (c = a * b)%N ∧ (a * b < 2 ^ 64)%N;
  safe_div_spec a b c : safe_div a b = Ok c ↔ (c = a / b)%N ∧ b ≠ 0%N;
}.

(** The system program's transfers, and [Rent::is_exempt]. *)
Class SystemProgram := {
  can_transfer : lamport_transfer → bool;
  is_exempt : N → N → b_outcome bool;
}.

(** ** Accounts *)

Record InitMarketplaceProperties := mk_InitMarketplaceProperties {
  im_payer : AccountInfo;
  im_marketplace_props : AccountInfo;
}.

Record UpdateMarketplaceProperties := mk_UpdateMarketplaceProperties {
  um_authority : AccountInfo;
  um_marketplace_props : AccountInfo;
}.

(** [CreateModifyListing] and [RemoveListing]. *)
Record ListingAccounts := mk_ListingAccounts {
  li_owner : AccountInfo;
  li_former_delegate : AccountInfo;
  li_new_delegate : AccountInfo;
  li_bubblegum_authority : AccountInfo;
  li_gummyroll : AccountInfo;
  li_merkle_slab : AccountInfo;
  li_bubblegum : AccountInfo;
  li_candy_wrapper : AccountInfo;
  li_remaining : list Pubkey;
}.

Record Purchase := mk_Purchase {
  pu_former_owner : AccountInfo;
  pu_purchaser : AccountInfo;
  pu_listing_delegate : AccountInfo;
  pu_bubblegum_authority : AccountInfo;
  pu_gummyroll : AccountInfo;
  pu_merkle_slab : AccountInfo;
  pu_bubblegum : AccountInfo;
  pu_marketplace_props : AccountInfo;
  pu_candy_wrapper : AccountInfo;
  pu_remaining : list Pubkey;
}.

Record WithdrawFees := mk_WithdrawFees {
  wf_fee_payout_recipient : AccountInfo;
  wf_authority : AccountInfo;
  wf_marketplace_props : AccountInfo;
}.

Section defs.
Context `{Keccak} `{BuildProfile} `{EventCodec} `{Pda} `{BubblegumCodec} `{SafeMath} `{SystemProgram}.
Context (sugar_id bubblegum_id gummyroll_id candy_wrapper_id : Pubkey).

(** The addresses derived by the program. *)
Definition props_address : Pubkey * N :=
  find_program_address [string_bytes MARKETPLACE_PROPERTIES_PREFIX] sugar_id.

Definition listing_seeds (price : N) : list bytes := [to_le_bytes 8 price].

Definition listing_address (price : N) : Pubkey :=
  (find_program_address (listing_seeds price) sugar_id).1.

(** [Account<'info, MarketplaceProperties>] at the derived address, with the bump
    that it holds. *)
Definition props_ok (props : MarketplaceProperties) (acc : AccountInfo) : bool :=
  bool_decide (key acc = props_address.1) && (mp_bump props =? props_address.2)%N && is_writable acc.

Definition load_props (self : sstate) : b_outcome MarketplaceProperties :=
  ok_or (marketplace_props self) Constraint.

Definition InitMarketplaceProperties_ok (self : sstate) (accs : InitMarketplaceProperties) : b_outcome unit :=
  constraint (is_signer (im_payer accs) && is_writable (im_payer accs) &&
              bool_decide (key (im_marketplace_props accs) = props_address.1) &&
              is_writable (im_marketplace_props accs) &&
              match marketplace_props self with None => true | Some _ => false end).

Definition UpdateMarketplaceProperties_ok (props : MarketplaceProperties)
    (accs : UpdateMarketplaceProperties) : b_outcome unit :=
  constraint (is_signer (um_authority accs) && props_ok props (um_marketplace_props accs)).

Definition RemoveListing_ok (accs : ListingAccounts) : b_outcome unit :=
  constraint (is_signer (li_owner accs) && is_writable (li_owner accs) &&
              program_is (li_gummyroll accs) gummyroll_id && is_writable (li_merkle_slab accs) &&
              program_is (li_bubblegum accs) bubblegum_id &&
              program_is (li_candy_wrapper accs) candy_wrapper_id).

Definition CreateModifyListing_ok (accs : ListingAccounts) (price : N) : b_outcome unit :=
  RemoveListing_ok accs;;
  constraint (bool_decide (key (li_new_delegate accs) = listing_address price)).

Definition Purchase_ok (props : MarketplaceProperties) (accs : Purchase) (price : N) : b_outcome unit :=
  constraint (is_writable (pu_former_owner accs) && is_signer (pu_purchaser accs) &&
              is_writable (pu_purchaser accs) &&
              bool_decide (key (pu_listing_delegate accs) = listing_address price) &&
              program_is (pu_gummyroll accs) gummyroll_id && is_writable (pu_merkle_slab accs) &&
              program_is (pu_bubblegum accs) bubblegum_id && props_ok props (pu_marketplace_props accs) &&
              program_is (pu_candy_wrapper accs) candy_wrapper_id).

Definition WithdrawFees_ok (props : MarketplaceProperties) (accs : WithdrawFees) : b_outcome unit :=
  constraint (is_writable (wf_fee_payout_recipient accs) && is_signer (wf_authority accs) &&
              props_ok props (wf_marketplace_props accs)).

(** ** Instructions *)

Definition call_market_bubblegum (m : b_method unit) : s_method unit := λ s,
  let '(r, t) := m (market_tree s) in (r, set_market_tree t s).

Definition listing_delegation (accs : ListingAccounts) : Delegate :=
  mk_Delegate (mk_LeafAccounts (li_bubblegum_authority accs) (li_candy_wrapper accs) (li_gummyroll accs)
                 (li_owner accs) (li_former_delegate accs) (li_merkle_slab accs) (li_remaining accs))
    (li_new_delegate accs).

Definition modify_compressed_nft_delegate (accs : ListingAccounts) (data_hash creator_hash : bytes32)
    (nonce index : N) (root : Node) : s_method unit :=
  call_market_bubblegum (delegate bubblegum_id gummyroll_id candy_wrapper_id (listing_delegation accs)
    root data_hash creator_hash nonce index).

Definition initialize_marketplace (accs : InitMarketplaceProperties) (royalty_share : N) (authority : Pubkey) :
    s_method unit :=
  self ← get;
  lift (InitMarketplaceProperties_ok self accs);;
  lift (rust_assert (royalty_share <=? 10000)%N);;
  modify (set_props (mk_MarketplaceProperties authority royalty_share props_address.2)).

Definition update_marketplace_properties (accs : UpdateMarketplaceProperties) (authority : option Pubkey)
    (share : option N) : s_method unit :=
  self ← get;
  props ← lift (load_props self);
  lift (UpdateMarketplaceProperties_ok props accs);;
  lift (rust_assert (bool_decide (key (um_authority accs) = mp_authority props)));;
  modify (set_props (mk_MarketplaceProperties (default (mp_authority props) authority)
                       (default (mp_share props) share) (mp_bump props))).

Definition create_or_modify_listing (accs : ListingAccounts) (price : N) (data_hash creator_hash : bytes32)
    (nonce index : N) (root : Node) : s_method unit :=
  lift (CreateModifyListing_ok accs price);;
  modify_compressed_nft_delegate accs data_hash creator_hash nonce index root.

Definition remove_listing (accs : ListingAccounts) (data_hash creator_hash : bytes32) (nonce index : N)
    (root : Node) : s_method unit :=
  lift (RemoveListing_ok accs);;
  modify_compressed_nft_delegate accs data_hash creator_hash nonce index root.

(** [invoke] of [system_instruction::transfer]. *)
Definition invoke_transfer (t : lamport_transfer) : s_method unit :=
  lift (require_that (can_transfer t) Runtime);;
  modify (add_transfer t).

(** The loop over the creators: the total that is paid, and the creators' bytes. *)
Fixpoint pay_creators (purchaser : Pubkey) (basis_point : N) (shares : list N) (accounts : list Pubkey)
    (paid : N) (creator_data : list bytes) : s_method (N * list bytes) :=
  match shares with
  | [] => mret (paid, creator_data)
  | share :: shares =>
      match accounts with
      | [] => lift (Err Runtime)
      | creator :: accounts =>
          percent ← lift (safe_mul share 100);
          amount_to_pay_creator ← lift (safe_mul basis_point percent);
          invoke_transfer (mk_lamport_transfer purchaser creator amount_to_pay_creator);;
          paid' ← lift (safe_add paid amount_to_pay_creator);
          pay_creators purchaser basis_point shares accounts paid'
            (creator_data ++ [vec_to_list creator ++ [byte_of_N share]])
      end
  end.

(** The signer flag of an account of the [transfer] call: only the listing delegate
    has it. *)
Definition transfer_meta (accs : Purchase) (acc : AccountInfo) : AccountInfo :=
  mk_AccountInfo (key acc) (bool_decide (key acc = key (pu_listing_delegate accs))) (is_writable acc)
    (owner acc) (lamports acc).

Definition transfer_accounts (accs : Purchase) (proof_accounts : list Pubkey) : Transfer :=
  let meta := transfer_meta accs in
  mk_Transfer (mk_LeafAccounts (meta (pu_bubblegum_authority accs)) (meta (pu_candy_wrapper accs))
                 (meta (pu_gummyroll accs)) (meta (pu_former_owner accs)) (meta (pu_listing_delegate accs))
                 (meta (pu_merkle_slab accs)) proof_accounts)
    (meta (pu_purchaser accs)).

Definition purchase (accs : Purchase) (price : N) (data_hash : bytes32) (nonce index : N) (root : Node)
    (creator_shares : list N) : s_method unit :=
  self ← get;
  props ← lift (load_props self);
  lift (Purchase_ok props accs price);;
  let purchaser := key (pu_purchaser accs) in
  basis_point_of_price ← lift (safe_div price 10000);
  amount_to_pay_marketplace ← lift (safe_mul basis_point_of_price (mp_share props));
  invoke_transfer (mk_lamport_transfer purchaser (key (pu_marketplace_props accs)) amount_to_pay_marketplace);;
  total_remaining_price_allocation ← lift (safe_sub price amount_to_pay_marketplace);
  basis_point_of_remaining_price_allocation ← lift (safe_div total_remaining_price_allocation 10000);
  '(creator_accounts, proof_accounts) ←
    lift (split_at (pu_remaining accs) (N.of_nat (length creator_shares)));
  '(amount_paid_out_to_creators, creator_data) ←
    pay_creators purchaser basis_point_of_remaining_price_allocation creator_shares creator_accounts 0 [];
  remainder ← lift (safe_sub total_remaining_price_allocation amount_paid_out_to_creators);
  invoke_transfer (mk_lamport_transfer purchaser (key (pu_former_owner accs)) remainder);;
  let creator_hash := hashv creator_data in
  call_market_bubblegum (transfer bubblegum_id gummyroll_id candy_wrapper_id
    (transfer_accounts accs proof_accounts) root data_hash creator_hash nonce index).

(** The lamports of the recipient after the withdrawal, which may be the account of
    the properties itself. *)
Definition withdraw_fees (accs : WithdrawFees) (lamports_to_withdraw : N) : s_method N :=
  self ← get;
  props ← lift (load_props self);
  lift (WithdrawFees_ok props accs);;
  lift (rust_assert (bool_decide (key (wf_authority accs) = mp_authority props)));;
  after ← lift (safe_sub (props_lamports self) lamports_to_withdraw);
  exempt ← lift (is_exempt after MARKETPLACE_PROPERTIES_SIZE);
  lift (rust_assert exempt);;
  modify (set_props_lamports after);;
  let recipient := wf_fee_payout_recipient accs in
  if decide (key recipient = key (wf_marketplace_props accs)) then
    balance ← lift (safe_add after lamports_to_withdraw);
    modify (set_props_lamports balance);;
    mret balance
  else lift (safe_add (lamports recipient) lamports_to_withdraw).
End defs.
