(* ===== verification/SugarTheorems.v ===== *)
(** * What the marketplace guarantees

    A purchase splits the price exactly, and takes only an NFT that its owner
    listed at that price; fees are bounded and withdrawn by the authority. *)

From S2P Require Import Prelude Hashing MerkleSpec ChangeLog MerkleRoll MerkleRollSpec MerkleRollInit.
From S2P Require Import Solana Gummyroll GummyrollCanopy GummyrollTheorems GummyrollLimits LeafSchema Bubblegum.
From S2P Require Import BubblegumLedger BubblegumTheorems BubblegumWitnesses SugarShack.

Fixpoint total (l : list lamport_transfer) : N :=
  match l with [] => 0 | t :: l => amount t + total l end.

Lemma total_app l k : total (l ++ k) = (total l + total k)%N.
Proof. induction l as [|x l IH]; simpl; [done|]. rewrite IH. lia. Qed.

(** What each creator is paid, and the bytes that identify the creators. *)
Definition creator_payment (purchaser : Pubkey) (basis_point share : N) (creator : Pubkey) : lamport_transfer :=
  mk_lamport_transfer purchaser creator (basis_point * (share * 100))%N.
Definition creator_entry (share : N) (creator : Pubkey) : bytes := vec_to_list creator ++ [byte_of_N share].

Section sugar.
Context `{Keccak} `{BuildProfile} `{EventCodec} `{Pda} `{BubblegumCodec} `{SafeMathSpec} `{SystemProgram}.
Context (sugar_id bubblegum_id gummyroll_id candy_wrapper_id : Pubkey).
Implicit Types (s : sstate).

(** The accounts of the marketplace, apart from the transfers. *)
Definition same_market s s' : Prop :=
  marketplace_props s' = marketplace_props s ∧ props_lamports s' = props_lamports s ∧
  market_tree s' = market_tree s.

Lemma invoke_transfer_Ok t s u s' :
  invoke_transfer t s = (Ok u, s') → same_market s s' ∧ transfers s' = transfers s ++ [t].
Proof. unfold invoke_transfer. intros Hrun. inv_method. done. Qed.

Lemma pay_creators_Ok purchaser bp shares : ∀ accounts paid data s r s',
  length accounts = length shares →
  pay_creators purchaser bp shares accounts paid data s = (Ok r, s') →
  let l := zip_with (creator_payment purchaser bp) shares accounts in
  r = ((paid + total l)%N, data ++ zip_with creator_entry shares accounts) ∧
  same_market s s' ∧ transfers s' = transfers s ++ l.
Proof.
  induction shares as [|share shares IH]; intros accounts paid data s r s' Hlen Hrun.
  - destruct accounts; [|done]. injection Hrun as <- <-. simpl.
    rewrite N.add_0_r, !app_nil_r. done.
  - destruct accounts as [|creator accounts]; [done|]. cbn [pay_creators] in Hrun. inv_method.
    repeat match goal with
    | H : safe_mul _ _ = Ok _ |- _ => apply safe_mul_spec in H as [-> _]
    | H : safe_add _ _ = Ok _ |- _ => apply safe_add_spec in H as [-> _]
    | H : invoke_transfer _ _ = (Ok _, _) |- _ => apply invoke_transfer_Ok in H as [(? & ? & ?) ?]
    end.
    apply IH in Hrun as (-> & (? & ? & ?) & Ht); [|by injection Hlen]. cbn [zip_with].
    split; [|split; [split_and!; congruence|]].
    + f_equal; [cbn; lia|by rewrite <-app_assoc].
    + rewrite Ht. match goal with H : transfers _ = transfers s ++ _ |- _ => rewrite H end.
      by rewrite <-app_assoc.
Qed.

(** A purchase that succeeds. *)
Lemma purchase_Ok accs price dh nonce index root shares s u s' :
  purchase sugar_id bubblegum_id gummyroll_id candy_wrapper_id accs price dh nonce index root shares s = (Ok u, s') →
  ∃ props, marketplace_props s = Some props ∧
  let creators := take (length shares) (pu_remaining accs) in
  let proof := drop (length shares) (pu_remaining accs) in
  let buyer := key (pu_purchaser accs) in
  let fee := (price / 10000 * mp_share props)%N in
  let bp := ((price - fee) / 10000)%N in
  let paid := zip_with (creator_payment buyer bp) shares creators in
  is_signer (pu_purchaser accs) = true ∧ (fee + total paid ≤ price)%N ∧ length creators = length shares ∧
  key (pu_listing_delegate accs) = listing_address sugar_id price ∧
  transfers s' = transfers s ++ [mk_lamport_transfer buyer (key (pu_marketplace_props accs)) fee] ++ paid ++
                   [mk_lamport_transfer buyer (key (pu_former_owner accs)) (price - fee - total paid)] ∧
  marketplace_props s' = marketplace_props s ∧ props_lamports s' = props_lamports s ∧
  transfer bubblegum_id gummyroll_id candy_wrapper_id (transfer_accounts accs proof) root dh
    (hashv (zip_with creator_entry shares creators)) nonce index (market_tree s) = (Ok tt, market_tree s').
Proof.
  intros Hrun. unfold purchase, load_props, Purchase_ok in Hrun. inv_method.
  match goal with H : constraint _ = Ok _ |- _ => apply constraint_inv in H; inv_method end.
  match goal with H : ok_or ?o _ = Ok ?p |- _ => destruct o as [props|] eqn:Hprops; [injection H as ->|done] end.
  match goal with H : split_at _ _ = Ok (?a, ?b) |- _ => rename a into creators, b into proof;
    apply split_at_Ok_inv in H as [Hcat Hlen] end.
  match goal with H : pay_creators _ _ _ _ _ _ _ = (Ok _, _) |- _ => rename H into Hpay;
    apply pay_creators_Ok in Hpay as (Heq & (? & ? & ?) & Hcreators); [|lia]; injection Heq as -> -> end.
  repeat match goal with
  | H : safe_mul _ _ = Ok _ |- _ => apply safe_mul_spec in H as [-> _]
  | H : safe_div _ _ = Ok _ |- _ => apply safe_div_spec in H as [-> _]
  | H : safe_sub _ _ = Ok _ |- _ => apply safe_sub_spec in H as [-> ?]
  | H : invoke_transfer _ _ = (Ok _, _) |- _ => apply invoke_transfer_Ok in H as [(? & ? & ?) ?]
  end.
  rewrite Nat2N.id in Hlen.
  assert (take (length shares) (pu_remaining accs) = creators) as Htake by (by rewrite Hcat, take_app_length').
  assert (drop (length shares) (pu_remaining accs) = proof) as Hdrop by (by rewrite Hcat, drop_app_length').
  eexists. split; [reflexivity|]. cbv zeta. rewrite Htake, Hdrop. rewrite ?app_nil_l, ?N.add_0_l in *.
  unfold call_market_bubblegum in Hrun.
  match type of Hrun with (let '(_, _) := ?m in _) = _ => destruct m as [[[]| | |] t] eqn:Hcall; try done end.
  injection Hrun as _ <-. cbn [transfers marketplace_props props_lamports market_tree set_market_tree].
  match type of Hcall with transfer _ _ _ _ _ _ _ _ _ ?t0 = _ => replace t0 with (market_tree s) in Hcall by congruence end.
  split; [done|]. split; [lia|]. split; [done|]. split; [done|].
  split; [|split; [congruence|split; [congruence|exact Hcall]]].
  repeat match goal with H : transfers _ = _ |- _ => rewrite H; clear H end. by rewrite <-!app_assoc.
Qed.

(** C27: a purchase charges the price, exactly.  The purchaser signed, and pays the
    marketplace its share in basis points of the price, each creator its percents
    of the rest, and the former owner what remains: the amounts sum to the price,
    none is negative, and nothing else of the marketplace changes.  Below 10,000
    lamports the shares are zero and the former owner gets the whole price: the NFT
    is not free, as a comment of the source fears. *)
Theorem purchase_splits_price accs price dh nonce index root shares s u s' :
  purchase sugar_id bubblegum_id gummyroll_id candy_wrapper_id accs price dh nonce index root shares s = (Ok u, s') →
  ∃ props, marketplace_props s = Some props ∧ is_signer (pu_purchaser accs) = true ∧
  let creators := take (length shares) (pu_remaining accs) in
  let buyer := key (pu_purchaser accs) in
  let fee := (price / 10000 * mp_share props)%N in
  let paid := zip_with (creator_payment buyer ((price - fee) / 10000)%N) shares creators in
  let rest := (price - fee - total paid)%N in
  let all := [mk_lamport_transfer buyer (key (pu_marketplace_props accs)) fee] ++ paid ++
             [mk_lamport_transfer buyer (key (pu_former_owner accs)) rest] in
  transfers s' = transfers s ++ all ∧ total all = price ∧ length paid = length shares ∧
  marketplace_props s' = marketplace_props s ∧ props_lamports s' = props_lamports s.
Proof.
  intros Hrun. apply purchase_Ok in Hrun as (props & Hp & Hs & Hle & Hlen & _ & Ht & Hmp & Hpl & _).
  exists props. split; [done|]. split; [done|]. cbv zeta. split; [exact Ht|].
  split; [|split; [by rewrite length_zip_with, Hlen, Nat.min_id|by split]].
  rewrite !total_app. simpl. lia.
Qed.

(** C26: an NFT is sold only at the price that its owner listed, and to the benefit
    of its creators.  When the accounts represent a ledger and the replacement
    meets no accident of the hash, a purchase that succeeds moves the NFT of the
    leaf from the former owner to the purchaser; its delegate was the address of
    this price, and its creator hash is that of the accounts and shares that were
    paid. *)
Theorem listed_price_is_paid d B p a L accs price dh nonce index root shares s u s' :
  let creators := take (length shares) (pu_remaining accs) in
  let proof := drop (length shares) (pu_remaining accs) in
  let creator_hash := hashv (zip_with creator_entry shares creators) in
  b_rep d B p (market_tree s) a L →
  no_accident bubblegum_id d (market_tree s) a L
    (OpTransfer (transfer_accounts accs proof) root dh creator_hash nonce index) →
  purchase sugar_id bubblegum_id gummyroll_id candy_wrapper_id accs price dh nonce index root shares s = (Ok u, s') →
  ∃ leaf a', l_leaves L !! index = Some leaf ∧
    ls_owner leaf = key (pu_former_owner accs) ∧ ls_delegate leaf = listing_address sugar_id price ∧
    ls_creator_hash leaf = creator_hash ∧
    b_rep d B p (market_tree s') a'
      (mk_ledger (<[index:=set_owner (key (pu_purchaser accs)) (key (pu_purchaser accs)) leaf]> (l_leaves L))
         (l_vouchers L) (l_next L)).
Proof.
  intros creators proof ch HR Hfair Hrun.
  apply purchase_Ok in Hrun as (props & _ & _ & _ & _ & Hlist & _ & _ & _ & Htr).
  destruct (transfer_Ok bubblegum_id gummyroll_id candy_wrapper_id d B p _ _ _ _ _ _ _ _ _ _ _
    HR Hfair Htr) as (Hl & _ & _ & _ & a' & _ & HR').
  eexists _, a'. split; [exact Hl|]. split; [done|]. split; [exact Hlist|]. split; [done|exact HR'].
Qed.

(** A listing is made by the owner: the leaf held an NFT of the account that
    signed, and now has the address of the price as its delegate. *)
Theorem listing_delegates_to_price d B p a L accs price dh ch nonce index root s u s' :
  let op := OpDelegate (listing_delegation accs) root dh ch nonce index in
  b_rep d B p (market_tree s) a L → no_accident bubblegum_id d (market_tree s) a L op →
  create_or_modify_listing sugar_id bubblegum_id gummyroll_id candy_wrapper_id accs price dh ch nonce index root s =
    (Ok u, s') →
  is_signer (li_owner accs) = true ∧
  ∃ leaf a', l_leaves L !! index = Some leaf ∧ ls_owner leaf = key (li_owner accs) ∧
    b_rep d B p (market_tree s') a'
      (mk_ledger (<[index:=set_owner (key (li_owner accs)) (listing_address sugar_id price) leaf]> (l_leaves L))
         (l_vouchers L) (l_next L)).
Proof.
  intros op HR Hfair Hrun. unfold create_or_modify_listing, CreateModifyListing_ok, RemoveListing_ok in Hrun.
  inv_method.
  repeat match goal with H : constraint _ = Ok _ |- _ => apply constraint_inv in H; inv_method end. inv_bool.
  unfold modify_compressed_nft_delegate, call_market_bubblegum in Hrun.
  match type of Hrun with (let '(_, _) := ?m in _) = _ => destruct m as [[[]| | |] t] eqn:Hcall; try done end.
  injection Hrun as _ <-. split; [done|].
  destruct (delegate_Ok bubblegum_id gummyroll_id candy_wrapper_id d B p _ _ _ _ _ _ _ _ _ _ _
    HR Hfair Hcall) as (Hl & _ & _ & _ & a' & _ & HR').
  eexists _, a'. split; [exact Hl|]. split; [done|].
  match goal with H : key (li_new_delegate accs) = _ |- _ => rewrite <-H end. exact HR'.
Qed.

(** The share of the marketplace is at most 10000 basis points when it is
    initialised, but an update accepts any: with 20000 or more, no purchase at a
    price of 10000 lamports or more succeeds. *)
Theorem unchecked_share_blocks_purchases :
  (∀ accs share auth s u s',
    initialize_marketplace sugar_id accs share auth s = (Ok u, s') →
    ∃ props, marketplace_props s' = Some props ∧ mp_share props = share ∧ (share ≤ 10000)%N) ∧
  (∀ accs share s props, marketplace_props s = Some props →
    UpdateMarketplaceProperties_ok sugar_id props accs = Ok tt → key (um_authority accs) = mp_authority props →
    ∃ s' props', update_marketplace_properties sugar_id accs None (Some share) s = (Ok tt, s') ∧
      marketplace_props s' = Some props' ∧ mp_share props' = share) ∧
  (∀ accs price dh nonce index root shares s props s' u, marketplace_props s = Some props →
    (20000 ≤ mp_share props)%N → (10000 ≤ price)%N →
    purchase sugar_id bubblegum_id gummyroll_id candy_wrapper_id accs price dh nonce index root shares s ≠ (Ok u, s')).
Proof.
  split; [|split].
  - intros accs share auth s u s' Hrun. unfold initialize_marketplace in Hrun. inv_method. inv_bool.
    eexists. split; [done|]. by split.
  - intros accs share s props Hp Hok Hau. unfold update_marketplace_properties, load_props. run_method.
    rewrite Hp. cbn [ok_or]. cbn beta iota. rewrite Hok. cbn beta iota. rewrite bool_decide_true by done.
    eexists _, _. split; [done|]. by split.
  - intros accs price dh nonce index root shares s props s' u Hp Hshare Hprice Hrun.
    apply purchase_Ok in Hrun as (props' & Hp' & _ & Hle & _). assert (props' = props) as -> by congruence.
    pose proof (N.div_mod price 10000 ltac:(done)). pose proof (N.mod_lt price 10000 ltac:(done)).
    assert (1 ≤ price / 10000)%N by (apply N.div_le_lower_bound; lia). nia.
Qed.

(** Fees are withdrawn by the authority of the marketplace, no more than the
    account holds, and what is left keeps the account exempt of rent; the
    recipient gets what the account loses. *)
Theorem withdraw_is_authorized accs n s r s' :
  withdraw_fees sugar_id accs n s = (Ok r, s') →
  ∃ props, marketplace_props s = Some props ∧
    is_signer (wf_authority accs) = true ∧ key (wf_authority accs) = mp_authority props ∧
    (n ≤ props_lamports s)%N ∧
    is_exempt (props_lamports s - n)%N MARKETPLACE_PROPERTIES_SIZE = Ok true ∧
    if decide (key (wf_fee_payout_recipient accs) = key (wf_marketplace_props accs))
    then s' = s ∧ r = props_lamports s
    else props_lamports s' = (props_lamports s - n)%N ∧ r = (lamports (wf_fee_payout_recipient accs) + n)%N ∧
      transfers s' = transfers s ∧ market_tree s' = market_tree s.
Proof.
  intros Hrun. unfold withdraw_fees, load_props, WithdrawFees_ok in Hrun. inv_method. inv_bool.
  match goal with H : constraint _ = Ok _ |- _ => apply constraint_inv in H; inv_method end.
  match goal with H : ok_or ?o _ = Ok ?p |- _ => destruct o as [props|] eqn:Hprops; [injection H as ->|done] end.
  match goal with H : safe_sub _ _ = Ok _ |- _ => apply safe_sub_spec in H as [-> ?] end.
  eexists. split; [done|]. repeat (split; [done|]). case_decide; inv_method.
  - match goal with H : safe_add _ _ = Ok _ |- _ => apply safe_add_spec in H as [-> _] end.
    rewrite N.sub_add by done. split; [|done]. destruct s. cbn in *. by subst.
  - match goal with H : safe_add _ _ = Ok _ |- _ => apply safe_add_spec in H as [-> _] end. done.
Qed.
End sugar.
