(* ===== verification/SugarWitnesses.v ===== *)
(** * A listing and a purchase on the marketplace *)

From S2P Require Import Prelude Hashing MerkleSpec ChangeLog MerkleRoll MerkleRollSpec MerkleRollInit.
From S2P Require Import MerkleRollWitnesses Solana Gummyroll GummyrollCanopy GummyrollTheorems GummyrollSound.
From S2P Require Import GummyrollLimits LeafSchema Bubblegum BubblegumLedger BubblegumTheorems.
From S2P Require Import BubblegumWitnesses SugarShack SugarTheorems.

Module SToy.
Import Toy GToy BToy.

(** Checked arithmetic on [u64]. *)
Definition checked (b : bool) (n : N) : b_outcome N := if b then Ok n else Err Runtime.

#[export] Instance toy_math : SafeMath := {
  safe_add a b := checked (bool_decide (a + b < 2 ^ 64)%N) (a + b);
  safe_sub a b := checked (bool_decide (b ≤ a)%N) (a - b);
  safe_mul a b := checked (bool_decide (a * b < 2 ^ 64)%N) (a * b);
  safe_div a b := checked (bool_decide (b ≠ 0%N)) (a / b);
}.

Lemma checked_Ok P `{Decision P} n c : checked (bool_decide P) n = Ok c ↔ c = n ∧ P.
Proof.
  unfold checked. destruct (bool_decide_reflect P) as [HP|HP].
  - split; [by intros [= <-]|by intros [-> _]].
  - split; [done|by intros [_ ?]].
Qed.

#[export] Instance toy_math_spec : SafeMathSpec.
Proof. split; intros; apply checked_Ok. Qed.

#[export] Instance toy_system : SystemProgram := {
  can_transfer _ := true;
  is_exempt n _ := Ok (bool_decide (1000 ≤ n)%N);
}.

Definition sugar : Pubkey := toy_node 6000.
Definition props_key : Pubkey := (toy_pda [string_bytes MARKETPLACE_PROPERTIES_PREFIX] sugar).1.
Definition price : N := 1000000.
Definition listing : Pubkey := listing_address sugar price.

Definition props (share : N) : MarketplaceProperties := mk_MarketplaceProperties admin share 255.

(** The NFT of [BToy], minted with the listing address as its delegate. *)
Definition listed_mint : MintV1 :=
  mk_MintV1 (info admin) (quiet (authority_address bubblegum slab_key)) (quiet wrapper) (quiet gummyroll)
    (quiet alice) (quiet listing) (quiet slab_key).

Definition listed : bstate := (mint_v1 bubblegum gummyroll wrapper listed_mint metadata created).2.
Definition listed_leaf : LeafSchema := minted_leaf bubblegum listed_mint metadata 0.
Definition listed_ledger : ledger := mk_ledger {[0%N := listed_leaf]} ∅ 1.
Definition listed_tree : aroll := a_write 8 (a_start ∅ 0 0 0) 0 (to_node listed_leaf).

Lemma listed_rep : b_rep 3 8 1 listed listed_tree listed_ledger.
Proof.
  destruct (mint_Ok bubblegum gummyroll wrapper token_metadata 3 8 1 created listed _ _ listed_mint metadata tt
    created_rep) as (_ & _ & _ & _ & _ & _ & HR).
  - split; [split; [done|by vm_compute]|].
    intros l Hl. assert (l = 1 ∨ l = 2) as [-> | ->] by lia; by vm_compute.
  - by vm_compute.
  - exact HR.
Qed.

Definition market (share : N) (t : bstate) : sstate := mk_sstate (Some (props share)) 5000 t [].

Definition purchase_accs : Purchase :=
  mk_Purchase (quiet alice) (info bob) (quiet listing) (quiet (authority_address bubblegum slab_key))
    (quiet gummyroll) (quiet slab_key) (quiet bubblegum) (quiet props_key) (quiet wrapper)
    (alice :: client_proof (a_tree listed_tree) 3 1 0).

Definition buy (s : sstate) : outcome b_error unit * sstate :=
  purchase sugar bubblegum gummyroll wrapper purchase_accs price (ls_data_hash listed_leaf) 0 0
    (troot (a_tree listed_tree) 3) [100%N] s.

Definition listing_accs : ListingAccounts :=
  mk_ListingAccounts (info alice) (quiet alice) (quiet listing) (quiet (authority_address bubblegum slab_key))
    (quiet gummyroll) (quiet slab_key) (quiet bubblegum) (quiet wrapper)
    (client_proof (a_tree minted_tree) 3 1 0).

Definition list_it (s : sstate) : outcome b_error unit * sstate :=
  create_or_modify_listing sugar bubblegum gummyroll wrapper listing_accs price (ls_data_hash leaf0)
    (ls_creator_hash leaf0) 0 0 (troot (a_tree minted_tree) 3) s.

Definition withdraw_accs : WithdrawFees := mk_WithdrawFees (quiet admin) (info admin) (quiet props_key).
End SToy.

Import Toy GToy BToy SToy.
#[local] Opaque toy_hashv.

Lemma purchase_splits_price_witness :
  total (transfers (buy (market 200 listed)).2) = price.
Proof.
  destruct (purchase_splits_price sugar bubblegum gummyroll wrapper purchase_accs price
    (ls_data_hash listed_leaf) 0 0 (troot (a_tree listed_tree) 3) [100%N] (market 200 listed) tt
    (buy (market 200 listed)).2) as (p & _ & _ & Ht & Htotal & _).
  - by vm_compute.
  - rewrite Ht. exact Htotal.
Defined.

Lemma listed_price_is_paid_witness :
  ∃ leaf, l_leaves listed_ledger !! 0%N = Some leaf ∧ ls_delegate leaf = listing_address sugar price.
Proof.
  destruct (listed_price_is_paid sugar bubblegum gummyroll wrapper 3 8 1 listed_tree listed_ledger
    purchase_accs price (ls_data_hash listed_leaf) 0 0 (troot (a_tree listed_tree) 3) [100%N]
    (market 200 listed) tt (buy (market 200 listed)).2) as (leaf & a' & Hl & _ & Hd & _).
  - apply listed_rep.
  - split; [done|]. split; [by vm_compute|]. split.
    { intros l Hl. assert (l = 1 ∨ l = 2) as [-> | ->] by lia; by vm_compute. }
    split; [|split; [done|by vm_compute]]. split; [split; [done|by vm_compute]|].
    intros l Hl [Hne _]. cbn [listed_ledger l_leaves] in Hl. rewrite lookup_singleton_eq in Hl.
    injection Hl as <-. apply Hne. by vm_compute.
  - by vm_compute.
  - exists leaf. by split.
Defined.

Lemma listing_delegates_to_price_witness :
  ∃ leaf, l_leaves minted_ledger !! 0%N = Some leaf ∧ ls_owner leaf = key (li_owner listing_accs).
Proof.
  destruct (listing_delegates_to_price sugar bubblegum gummyroll wrapper 3 8 1 minted_tree minted_ledger
    listing_accs price (ls_data_hash leaf0) (ls_creator_hash leaf0) 0 0 (troot (a_tree minted_tree) 3)
    (market 200 minted) tt (list_it (market 200 minted)).2) as (_ & leaf & a' & Hl & Ho & _).
  - apply minted_rep.
  - apply replace_fair.
    + by vm_compute.
    + by vm_compute.
    + intros l Hl. assert (l = 1 ∨ l = 2) as [-> | ->] by lia; by vm_compute.
    + split; [done|by vm_compute].
  - by vm_compute.
  - exists leaf. by split.
Defined.

Lemma unchecked_share_blocks_purchases_witness :
  (buy (market 20000 listed)).1 ≠ Ok tt.
Proof.
  destruct (unchecked_share_blocks_purchases sugar bubblegum gummyroll wrapper) as (_ & _ & Hno).
  destruct (buy (market 20000 listed)) as [r s'] eqn:Hbuy. unfold buy in Hbuy. intros Hr. cbn [fst] in Hr. subst r.
  eapply (Hno _ _ _ _ _ _ _ _ (props 20000) _ _ _ _ _ Hbuy).
  Unshelve.
  - reflexivity.
  - done.
  - done.
Defined.

Lemma withdraw_is_authorized_witness :
  props_lamports (withdraw_fees sugar withdraw_accs 3000 (market 200 minted)).2 = 2000%N.
Proof.
  destruct (withdraw_is_authorized sugar withdraw_accs 3000 (market 200 minted) 3000
    (withdraw_fees sugar withdraw_accs 3000 (market 200 minted)).2) as (p & _ & _ & _ & _ & _ & Hrest).
  - by vm_compute.
  - assert (key (wf_fee_payout_recipient withdraw_accs) ≠ key (wf_marketplace_props withdraw_accs)) as Hne
      by by vm_compute.
    rewrite (decide_False _ _ Hne) in Hrest. destruct Hrest as [Hl _]. exact Hl.
Defined.
