(* ===== verification/ReferenceTree.v ===== *)
(** * The off-chain tree: [lib/merkle-tree-reference/src/lib.rs]

    The tree that the tests and the tools keep beside the on-chain one: every node
    is a cell shared by its parent, its children and the list of leaves
    ([Rc<RefCell<TreeNode>>]).  The cells are a heap, pointers are indices of it, and
    [borrow_mut] changes the cell that every holder of the pointer sees.

    The loops climb parents or consume a queue; the fuel is the size of the heap,
    or twice the number of leaves, and is proved to be enough. *)

From S2P Require Import Prelude Hashing MerkleSpec.

Record TreeNode := mk_TreeNode {
  tn_node : Node;
  tn_left : option nat;
  tn_right : option nat;
  tn_parent : option nat;
  tn_level : N;
  tn_id : N;
}.

Abbreviation cells := (list TreeNode).

Record MerkleTree := mk_MerkleTree {
  mt_cells : cells;
  leaf_nodes : list nat;
  mt_root : Node;
}.

Definition set_tn_node (n : Node) (t : TreeNode) : TreeNode :=
  mk_TreeNode n (tn_left t) (tn_right t) (tn_parent t) (tn_level t) (tn_id t).

Definition assign_parent (parent : nat) (t : TreeNode) : TreeNode :=
  mk_TreeNode (tn_node t) (tn_left t) (tn_right t) (Some parent) (tn_level t) (tn_id t).

Section defs.
Context `{Keccak} `{BuildProfile} {E : Type}.

(** The crate's own [empty_node] and [recompute]. *)
Fixpoint reference_empty_node (level : nat) : Node :=
  match level with
  | O => EMPTY
  | S level =>
      let lower_empty := reference_empty_node level in
      hashv [vec_to_list lower_empty; vec_to_list lower_empty]
  end.

Fixpoint reference_recompute (i : nat) (leaf : Node) (proof : list Node) (index : N) : outcome E Node :=
  match proof with
  | [] => Ok leaf
  | s :: proof =>
      sh ← wshr 32 index (N.of_nat i);
      reference_recompute (S i)
        (if (N.land sh 1 =? 0)%N then hashv [vec_to_list leaf; vec_to_list s]
         else hashv [vec_to_list s; vec_to_list leaf]) proof index
  end.

(** [TreeNode::new] and [TreeNode::new_empty]. *)
Definition TreeNode_new (node : Node) (left right : nat) (level id : N) : TreeNode :=
  mk_TreeNode node (Some left) (Some right) None level id.

Definition new_empty (level id : N) : TreeNode :=
  mk_TreeNode (reference_empty_node (N.to_nat level)) None None None level id.

(** The cell of a pointer, and a mutation of it. *)
Definition borrow (h : cells) (p : nat) : outcome E TreeNode := unwrap (h !! p).

Definition borrow_mut (h : cells) (p : nat) (f : TreeNode → TreeNode) : outcome E cells :=
  t ← borrow h p; Ok (<[p := f t]> h).

(** The second half of a turn of [build_root]: the parent of two nodes is pushed. *)
Definition push_parent (h : cells) (left' right' : nat) (tree : list nat) (seq_num : N) :
    outcome E (cells * list nat * N) :=
  l ← borrow h left';
  r ← borrow h right';
  let hashed_parent := hashv [vec_to_list (tn_node l); vec_to_list (tn_node r)] in
  level' ← wadd 32 (tn_level l) 1;
  let parent := length h in
  h ← borrow_mut (h ++ [TreeNode_new hashed_parent left' right' level' seq_num]) left' (assign_parent parent);
  h ← borrow_mut h right' (assign_parent parent);
  seq_num ← wadd 128 seq_num 1;
  Ok (h, tree ++ [parent], seq_num).

(** A turn: the first node of the queue with the second one, or with an empty node
    when the second is of another level. *)
Definition build_step (h : cells) (left' next : nat) (tree : list nat) (seq_num : N) :
    outcome E (cells * list nat * N) :=
  l ← borrow h left';
  n ← borrow h next;
  if decide (tn_level l ≠ tn_level n) then
    seq_num' ← wadd 128 seq_num 1;
    push_parent (h ++ [new_empty (tn_level l) seq_num]) left' (length h) (next :: tree) seq_num'
  else push_parent h left' next tree seq_num.

(** [while tree.len() > 1]. *)
Fixpoint build_loop (fuel : nat) (h : cells) (tree : list nat) (seq_num : N) : outcome E (cells * list nat) :=
  match fuel with
  | O => OutOfFuel
  | S fuel =>
      match tree with
      | left' :: next :: tree =>
          '(h, tree, seq_num) ← build_step h left' next tree seq_num;
          build_loop fuel h tree seq_num
      | _ => Ok (h, tree)
      end
  end.

Definition build_root (h : cells) (leaves : list nat) : outcome E (cells * Node) :=
  '(h, tree) ← build_loop (S (2 * length leaves)) h leaves (N.of_nat (length leaves));
  root ← Prelude.index tree 0;
  t ← borrow h root;
  Ok (h, tn_node t).

(** [MerkleTree::new]. *)
Definition leaf_cell (i : nat) (node : Node) : TreeNode := set_tn_node node (new_empty 0 (N.of_nat i)).

Definition MerkleTree_new (leaves : list Node) : outcome E MerkleTree :=
  let leaf_nodes := seq 0 (length leaves) in
  '(h, root) ← build_root (imap leaf_cell leaves) leaf_nodes;
  Ok (mk_MerkleTree h leaf_nodes root).

(** The loop of [get_proof_of_leaf]. *)
Fixpoint get_proof_loop (fuel : nat) (h : cells) (node : nat) (proof : list Node) : outcome E (list Node) :=
  match fuel with
  | O => OutOfFuel
  | S fuel =>
      ref_node ← borrow h node;
      match tn_parent ref_node with
      | None => Ok proof
      | Some parent =>
          p ← borrow h parent;
          left ← unwrap (tn_left p);
          l ← borrow h left;
          sibling ← (if (tn_id l =? tn_id ref_node)%N
                     then right ← unwrap (tn_right p); r ← borrow h right; Ok (tn_node r)
                     else Ok (tn_node l));
          get_proof_loop fuel h parent (proof ++ [sibling])
      end
  end.

Definition get_proof_of_leaf (self : MerkleTree) (idx : N) : outcome E (list Node) :=
  node ← Prelude.index (leaf_nodes self) idx;
  get_proof_loop (S (length (mt_cells self))) (mt_cells self) node [].

(** The loop of [update_root_from_leaf]; it ends with the new root. *)
Fixpoint update_root_loop (fuel : nat) (h : cells) (node : nat) : outcome E (cells * Node) :=
  match fuel with
  | O => OutOfFuel
  | S fuel =>
      ref_node ← borrow h node;
      match tn_parent ref_node with
      | None => Ok (h, tn_node ref_node)
      | Some parent =>
          p ← borrow h parent;
          left ← unwrap (tn_left p);
          l ← borrow h left;
          hash ← (if (tn_id l =? tn_id ref_node)%N
                  then right ← unwrap (tn_right p); r ← borrow h right;
                       Ok (hashv [vec_to_list (tn_node ref_node); vec_to_list (tn_node r)])
                  else Ok (hashv [vec_to_list (tn_node l); vec_to_list (tn_node ref_node)]));
          h ← borrow_mut h parent (set_tn_node hash);
          update_root_loop fuel h parent
      end
  end.

Definition update_root_from_leaf (self : MerkleTree) (leaf_idx : N) : outcome E MerkleTree :=
  node ← Prelude.index (leaf_nodes self) leaf_idx;
  '(h, root) ← update_root_loop (S (length (mt_cells self))) (mt_cells self) node;
  Ok (mk_MerkleTree h (leaf_nodes self) root).

Definition get_node (self : MerkleTree) (idx : N) : outcome E Node :=
  p ← Prelude.index (leaf_nodes self) idx; t ← borrow (mt_cells self) p; Ok (tn_node t).

Definition reference_get_root (self : MerkleTree) : Node := mt_root self.

Definition add_leaf (self : MerkleTree) (leaf : Node) (leaf_idx : N) : outcome E MerkleTree :=
  p ← Prelude.index (leaf_nodes self) leaf_idx;
  h ← borrow_mut (mt_cells self) p (set_tn_node leaf);
  update_root_from_leaf (mk_MerkleTree h (leaf_nodes self) (mt_root self)) leaf_idx.

Definition remove_leaf (self : MerkleTree) (leaf_idx : N) : outcome E MerkleTree :=
  p ← Prelude.index (leaf_nodes self) leaf_idx;
  h ← borrow_mut (mt_cells self) p (set_tn_node EMPTY);
  update_root_from_leaf (mk_MerkleTree h (leaf_nodes self) (mt_root self)) leaf_idx.

Definition get_leaf (self : MerkleTree) (leaf_idx : N) : outcome E Node := get_node self leaf_idx.
End defs.
