(* ===== verification/ReferenceTreeTheorems.v ===== *)
(** * The off-chain tree holds the abstract tree

    [graph] says that the cells of a heap are the nodes of a tree: a finite map gives
    the pointer of each position (level, index) that has a cell, and the fields of a
    cell are the node of its position and the pointers of its neighbours.  Building
    a tree of any number of leaves leads to such a graph, level by level; climbing
    it reads proofs, and rewrites paths. *)

From S2P Require Import Prelude Hashing MerkleSpec ReferenceTree.

Abbreviation pointers := (gmap (nat * N) nat).

Definition child (pm : pointers) (l : nat) (j : N) : option nat :=
  match l with O => None | S l => pm !! (l, j) end.

Definition cell_at (pm : pointers) (val : nat → N → Node) (l : nat) (j : N) (p : nat) : TreeNode :=
  mk_TreeNode (val l j) (child pm l (2 * j)) (child pm l (2 * j + 1)) (pm !! (S l, N.div2 j))
    (N.of_nat l) (N.of_nat p).

Record graph (h : cells) (pm : pointers) (val : nat → N → Node) : Prop := mk_graph {
  gr_cell : ∀ l j p, pm !! (l, j) = Some p → h !! p = Some (cell_at pm val l j p);
  gr_inj : ∀ x y p, pm !! x = Some p → pm !! y = Some p → x = y;
}.

Lemma gr_lt h pm val x p : graph h pm val → pm !! x = Some p → p < length h.
Proof. destruct x as [l j]. intros Hg Hp. apply (gr_cell _ _ _ Hg) in Hp. by eapply lookup_lt_Some. Qed.

Lemma div2_double k : N.div2 (2 * k) = k.
Proof. apply N.div2_double. Qed.

Lemma div2_succ_double k : N.div2 (2 * k + 1) = k.
Proof. by destruct k. Qed.

Lemma div2_cases j k : N.div2 j = k → j = (2 * k)%N ∨ j = (2 * k + 1)%N.
Proof. intros <-. destruct j as [|[?|?|]]; simpl; auto. Qed.

(** A new cell without neighbours. *)
Lemma graph_alloc h pm val l j :
  graph h pm val → pm !! (l, j) = None → pm !! (S l, N.div2 j) = None →
  child pm l (2 * j) = None → child pm l (2 * j + 1) = None →
  graph (h ++ [mk_TreeNode (val l j) None None None (N.of_nat l) (N.of_nat (length h))])
    (<[(l, j) := length h]> pm) val.
Proof.
  intros Hg Hnone Hpar Hl Hr.
  assert (∀ x p, pm !! x = Some p → p ≠ length h) as Hlt.
  { intros x p Hp ->. apply (gr_lt _ _ _ _ _ Hg) in Hp. lia. }
  split.
  - intros l' j' p Hp. apply lookup_insert_Some in Hp as [[[= <- <-] <-]|[Hne Hp]].
    + rewrite lookup_app_r, Nat.sub_diag by done. cbn. f_equal. unfold cell_at.
      rewrite lookup_insert_ne by (intros [=]; lia). rewrite Hpar. f_equal.
      * destruct l; [done|]. cbn in *. by rewrite lookup_insert_ne by (intros [=]; lia).
      * destruct l; [done|]. cbn in *. by rewrite lookup_insert_ne by (intros [=]; lia).
    + pose proof (gr_cell _ _ _ Hg _ _ _ Hp) as Hc. rewrite lookup_app_l by (by eapply lookup_lt_Some).
      rewrite Hc. f_equal. unfold cell_at. f_equal.
      * destruct l' as [|l']; [done|]. cbn. rewrite lookup_insert_ne; [done|]. intros [= -> ->].
        rewrite div2_double in Hpar. congruence.
      * destruct l' as [|l']; [done|]. cbn. rewrite lookup_insert_ne; [done|]. intros [= -> ->].
        rewrite div2_succ_double in Hpar. congruence.
      * rewrite lookup_insert_ne; [done|]. intros [= -> ->]. cbn [child] in *.
        destruct (div2_cases j' _ eq_refl) as [Hj|Hj]; rewrite <-Hj in *; congruence.
  - intros x y p Hx Hy. apply lookup_insert_Some in Hx as [[<- <-]|[Hnx Hx]];
      apply lookup_insert_Some in Hy as [[<- Hy]|[Hny Hy]].
    + done.
    + by apply Hlt in Hy.
    + subst p. by apply Hlt in Hx.
    + by eapply (gr_inj _ _ _ Hg).
Qed.

(** A new cell above two cells that have no parent yet. *)
Lemma graph_parent h pm val l k pl pr :
  graph h pm val → pm !! (l, 2 * k)%N = Some pl → pm !! (l, 2 * k + 1)%N = Some pr →
  pm !! (S l, k) = None → pm !! (S (S l), N.div2 k) = None →
  graph (<[pr := assign_parent (length h) (cell_at pm val l (2 * k + 1) pr)]>
          (<[pl := assign_parent (length h) (cell_at pm val l (2 * k) pl)]>
            (h ++ [TreeNode_new (val (S l) k) pl pr (N.of_nat (S l)) (N.of_nat (length h))])))
    (<[(S l, k) := length h]> pm) val.
Proof.
  intros Hg Hl Hr Hnone Hpar.
  assert (∀ x p, pm !! x = Some p → p < length h) as Hlt by (intros; by eapply gr_lt).
  pose proof (Hlt _ _ Hl) as Hll. pose proof (Hlt _ _ Hr) as Hlr.
  assert (pl ≠ pr) as Hne by (intros ->; pose proof (gr_inj _ _ _ Hg _ _ _ Hl Hr) as [=]; lia).
  split.
  - intros l' j' p Hp. apply lookup_insert_Some in Hp as [[[= <- <-] <-]|[Hnp Hp]].
    { rewrite !list_lookup_insert_ne by lia. rewrite lookup_app_r, Nat.sub_diag by done. cbn. f_equal.
      unfold cell_at, TreeNode_new. cbn [child]. rewrite !lookup_insert_ne by (intros [=]; lia).
      by rewrite Hl, Hr, Hpar. }
    assert (child (<[(S l, k) := length h]> pm) l' (2 * j') = child pm l' (2 * j') ∧
            child (<[(S l, k) := length h]> pm) l' (2 * j' + 1) = child pm l' (2 * j' + 1)) as [Hcl Hcr].
    { destruct l' as [|l']; [done|]. cbn. split.
      - rewrite lookup_insert_ne; [done|]. intros [= <- ->]. rewrite div2_double in Hpar. congruence.
      - rewrite lookup_insert_ne; [done|]. intros [= <- ->]. rewrite div2_succ_double in Hpar. congruence. }
    destruct (decide ((l', j') = (l, 2 * k)%N)) as [[= -> ->]|Hnl].
    { assert (p = pl) as -> by congruence. rewrite list_lookup_insert_ne by done.
      rewrite list_lookup_insert_eq by (rewrite length_app; simpl; lia). f_equal.
      unfold assign_parent, cell_at. cbn. rewrite Hcl, Hcr, div2_double. by rewrite lookup_insert_eq. }
    destruct (decide ((l', j') = (l, 2 * k + 1)%N)) as [[= -> ->]|Hnr].
    { assert (p = pr) as -> by congruence.
      rewrite list_lookup_insert_eq by (rewrite length_insert, length_app; simpl; lia). f_equal.
      unfold assign_parent, cell_at. cbn. rewrite Hcl, Hcr, div2_succ_double. by rewrite lookup_insert_eq. }
    rewrite list_lookup_insert_ne by (intros ->; apply Hnr; by eapply (gr_inj _ _ _ Hg)).
    rewrite list_lookup_insert_ne by (intros ->; apply Hnl; by eapply (gr_inj _ _ _ Hg)).
    rewrite lookup_app_l by (by eapply Hlt). rewrite (gr_cell _ _ _ Hg _ _ _ Hp). f_equal.
    unfold cell_at. rewrite Hcl, Hcr. f_equal. rewrite lookup_insert_ne; [done|]. intros [= -> ->].
    destruct (div2_cases j' _ eq_refl) as [Hj|Hj]; rewrite <-Hj in *; congruence.
  - intros x y p Hx Hy. apply lookup_insert_Some in Hx as [[<- <-]|[Hnx Hx]];
      apply lookup_insert_Some in Hy as [[<- Hy]|[Hny Hy]].
    + done.
    + apply Hlt in Hy. lia.
    + subst p. apply Hlt in Hx. lia.
    + by eapply (gr_inj _ _ _ Hg).
Qed.

(** Changing the node of one position. *)
Definition with_val (val : nat → N → Node) (l : nat) (j : N) (v : Node) : nat → N → Node :=
  λ l' j', if decide ((l', j') = (l, j)) then v else val l' j'.

Lemma graph_set h pm val l j p v :
  graph h pm val → pm !! (l, j) = Some p →
  graph (<[p := set_tn_node v (cell_at pm val l j p)]> h) pm (with_val val l j v).
Proof.
  intros Hg Hp. split; [|by apply (gr_inj _ _ _ Hg)].
  intros l' j' p' Hp'. unfold cell_at, with_val. case_decide as Heq.
  - injection Heq as -> ->. assert (p' = p) as -> by congruence.
    rewrite list_lookup_insert_eq by (by eapply gr_lt). done.
  - rewrite list_lookup_insert_ne by (intros ->; apply Heq; by eapply (gr_inj _ _ _ Hg)).
    by apply (gr_cell _ _ _ Hg).
Qed.

Lemma graph_ext h pm val1 val2 : (∀ l j, val1 l j = val2 l j) → graph h pm val1 → graph h pm val2.
Proof.
  intros Heq [Hc Hi]. split; [|done]. intros l j p Hp. rewrite (Hc _ _ _ Hp). unfold cell_at. by rewrite Heq.
Qed.

(** ** Building a tree *)

(** How many nodes a level has for [n] leaves, not counting the empty node that an
    odd level is completed with. *)
Fixpoint cnt (n l : nat) : nat :=
  match l with O => n | S l => Nat.div2 (S (cnt n l)) end.

Lemma div2_bounds m : 2 * Nat.div2 (S m) ≤ S m ∧ m ≤ 2 * Nat.div2 (S m).
Proof. pose proof (Nat.div2_odd (S m)) as Hd. destruct (Nat.odd (S m)); simpl Nat.b2n in Hd; lia. Qed.

(** The positions that have a cell when [k] parents of the level [l] were made. *)
Definition made (n l k l' : nat) (j : N) : Prop :=
  (l' < l ∧ (j < N.of_nat (2 * cnt n (S l')))%N) ∨
  (l' = l ∧ (j < N.of_nat (Nat.max (cnt n l) (2 * k)))%N) ∨
  (l' = S l ∧ (j < N.of_nat k)%N).

(** The queue at that point: what is left of the level, then the parents. *)
Definition queued_positions (n l k : nat) : list (nat * N) :=
  ((λ j, (l, N.of_nat j)) <$> seq (2 * k) (cnt n l - 2 * k)) ++ ((λ j, (S l, N.of_nat j)) <$> seq 0 k).

Record stage (val : nat → N → Node) (n l k : nat) (h : cells) (q : list nat) (pm : pointers) : Prop := mk_stage {
  st_graph : graph h pm val;
  st_made : ∀ l' j, is_Some (pm !! (l', j)) ↔ made n l k l' j;
  st_queue : Forall2 (λ x p, pm !! x = Some p) (queued_positions n l k) q;
  st_leaves : ∀ j, j < n → pm !! (0, N.of_nat j) = Some j;
}.

Lemma stage_next val n l h q pm :
  stage val n l (cnt n (S l)) h q pm → stage val n (S l) 0 h q pm.
Proof.
  intros [Hg Hm Hq Hlv]. pose proof (div2_bounds (cnt n l)) as Hb. cbn [cnt] in *. split; [done| | |done].
  - intros l' j. rewrite Hm. unfold made. cbn [cnt] in *. split.
    + intros [[??]|[[-> ?]|[-> ?]]]; [left|left|right; left]; split; try done; lia.
    + intros [[Hl ?]|[[-> ?]|[-> ?]]]; [|right; right; split; [done|lia]|lia].
      destruct (decide (l' = l)) as [->|]; [right; left|left]; split; try done; lia.
  - revert Hq. unfold queued_positions. cbn [cnt].
    replace (cnt n l - 2 * Nat.div2 (S (cnt n l))) with 0 by lia. cbn [seq fmap list_fmap app Nat.mul].
    rewrite Nat.sub_0_r, app_nil_r. done.
Qed.

Lemma made_step n l k l' j :
  k < cnt n (S l) →
  made n l (S k) l' j ↔
    made n l k l' j ∨ (l', j) = (l, N.of_nat (2 * k + 1)) ∨ (l', j) = (S l, N.of_nat k).
Proof.
  intros Hk. pose proof (div2_bounds (cnt n l)) as Hb. cbn [cnt] in *. unfold made. split.
  - intros [[??]|[[-> ?]|[-> ?]]]; [left; by left| |].
    + destruct (decide (j = N.of_nat (2 * k + 1))) as [->|]; [right; by left|].
      left; right; left; split; [done|lia].
    + destruct (decide (j = N.of_nat k)) as [->|]; [right; by right|].
      left; right; right; split; [done|lia].
  - intros [[[??]|[[-> ?]|[-> ?]]]|[[= -> ->]|[= -> ->]]];
      [by left|right; left; split; [done|lia]|right; right; split; [done|lia]
      |right; left; split; [done|lia]|right; right; split; [done|lia]].
Qed.

Section build.
Context `{Keccak} `{BuildProfile} {E : Type}.
Implicit Types (val : nat → N → Node) (h : cells) (pm : pointers).

Lemma reference_empty_node_eq l : reference_empty_node l = empty_node l.
Proof. induction l as [|l IH]; simpl; [done|]. by rewrite IH. Qed.

(** [val] is a tree whose leaves from [n] on are empty. *)
Definition tree_values val n : Prop :=
  (∀ l j, val (S l) j = hashv [vec_to_list (val l (2 * j)%N); vec_to_list (val l (2 * j + 1)%N)]) ∧
  (∀ l j, (N.of_nat (cnt n l) ≤ j)%N → val l j = empty_node l).

Lemma borrow_ok h pm val l j p :
  graph h pm val → pm !! (l, j) = Some p → borrow (E:=E) h p = Ok (cell_at pm val l j p).
Proof. intros Hg Hp. unfold borrow. by rewrite (gr_cell _ _ _ Hg _ _ _ Hp). Qed.

Lemma borrow_mut_ok h p t f : h !! p = Some t → borrow_mut (E:=E) h p f = Ok (<[p := f t]> h).
Proof. intros Hp. unfold borrow_mut, borrow. by rewrite Hp. Qed.

(** A parent is pushed above two cells that have none. *)
Lemma push_parent_ok h pm val n l k pl pr (tree : list nat) :
  graph h pm val → tree_values val n → pm !! (l, 2 * k)%N = Some pl → pm !! (l, 2 * k + 1)%N = Some pr →
  pm !! (S l, k) = None → pm !! (S (S l), N.div2 k) = None → l < 64 → (N.of_nat (length h) + 1 < 2 ^ 128)%N →
  ∃ h', push_parent (E:=E) h pl pr tree (N.of_nat (length h)) = Ok (h', tree ++ [length h], N.of_nat (length h')) ∧
    graph h' (<[(S l, k) := length h]> pm) val ∧ length h' = S (length h).
Proof.
  intros Hg [Hval _] Hl Hr Hnone Hpar H64 Hlen. unfold push_parent.
  pose proof (graph_parent _ _ _ _ _ _ _ Hg Hl Hr Hnone Hpar) as Hg'.
  pose proof (gr_lt _ _ _ _ _ Hg Hl) as Hll. pose proof (gr_lt _ _ _ _ _ Hg Hr) as Hlr.
  assert (pl ≠ pr) as Hne by (intros ->; pose proof (gr_inj _ _ _ Hg _ _ _ Hl Hr) as [=]; lia).
  rewrite (borrow_ok _ _ _ _ _ _ Hg Hl), (borrow_ok _ _ _ _ _ _ Hg Hr). cbn [mbind outcome_bind tn_level tn_node cell_at].
  rewrite (wadd_ok 32) by (change (2 ^ 32)%N with 4294967296%N; lia). cbn [mbind outcome_bind].
  replace (N.of_nat l + 1)%N with (N.of_nat (S l)) by lia. rewrite <-Hval.
  rewrite (borrow_mut_ok _ _ (cell_at pm val l (2 * k) pl))
    by (rewrite lookup_app_l by done; by apply (gr_cell _ _ _ Hg)). cbn [mbind outcome_bind].
  rewrite (borrow_mut_ok _ _ (cell_at pm val l (2 * k + 1) pr))
    by (rewrite list_lookup_insert_ne by done; rewrite lookup_app_l by done; by apply (gr_cell _ _ _ Hg)).
  cbn [mbind outcome_bind]. rewrite wadd_ok by lia. cbn [mbind outcome_bind].
  eexists. split; [|split; [exact Hg'|rewrite !length_insert, length_app; simpl; lia]].
  do 2 f_equal. rewrite !length_insert, length_app. simpl. lia.
Qed.

(** One turn of the loop makes the next parent of the level. *)
Lemma build_step_ok val n l k h q pm :
  stage val n l k h q pm → tree_values val n → 1 < cnt n l → k < cnt n (S l) → l < 64 →
  (N.of_nat (length h) + 2 < 2 ^ 128)%N →
  ∃ pl next tree h' q' pm', q = pl :: next :: tree ∧
    build_step (E:=E) h pl next tree (N.of_nat (length h)) = Ok (h', q', N.of_nat (length h')) ∧
    stage val n l (S k) h' q' pm' ∧ length h < length h' ≤ length h + 2.
Proof.
  intros [Hg Hm Hq Hlv] Hval H1 Hk H64 Hlen. pose proof (div2_bounds (cnt n l)) as Hb.
  pose proof Hk as Hk'. cbn [cnt] in Hk'.
  assert (∀ l' j, ¬ made n l k l' j → pm !! (l', j) = None) as Hnone.
  { intros l' j Hnot. apply eq_None_not_Some. by rewrite Hm. }
  assert (pm !! (S l, N.of_nat k) = None) as Hpar by (apply Hnone; unfold made; lia).
  assert (pm !! (S (S l), N.div2 (N.of_nat k)) = None) as Hgrand by (apply Hnone; unfold made; lia).
  assert (N.of_nat (2 * k) = 2 * N.of_nat k ∧ N.of_nat (2 * k + 1) = 2 * N.of_nat k + 1)%N as [Heven Hodd] by lia.
  destruct (decide (2 * k + 1 < cnt n l)) as [Hpair|Hlast].
  - unfold queued_positions in Hq. replace (cnt n l - 2 * k) with (S (S (cnt n l - 2 * S k))) in Hq by lia.
    cbn [seq fmap list_fmap app] in Hq.
    apply Forall2_cons_inv_l in Hq as (pl & q1 & Hl & Hq & ->).
    apply Forall2_cons_inv_l in Hq as (pr & tree & Hr & Hq & ->).
    replace (S (2 * k)) with (2 * k + 1) in Hr by lia. rewrite Heven in Hl. rewrite Hodd in Hr.
    destruct (push_parent_ok h pm val n l (N.of_nat k) pl pr tree) as (h' & Hrun & Hg' & Hlen'); [done..|lia|].
    exists pl, pr, tree, h', (tree ++ [length h]), (<[(S l, N.of_nat k) := length h]> pm).
    split; [done|]. split; [|split; [split; [done| | |]|lia]].
    + unfold build_step. rewrite (borrow_ok _ _ _ _ _ _ Hg Hl), (borrow_ok _ _ _ _ _ _ Hg Hr).
      cbn [mbind outcome_bind tn_level cell_at]. by rewrite decide_False by auto.
    + intros l' j. rewrite made_step by done. rewrite lookup_insert_is_Some, Hm. split.
      * intros [[= <- <-]|[_ ?]]; [right; by right|by left].
      * intros [?|[[= -> ->]|[= -> ->]]]; [|right|by left].
        -- destruct (decide ((S l, N.of_nat k) = (l', j))); [by left|by right].
        -- split; [intros [=]; lia|]. right; left. split; [done|lia].
    + unfold queued_positions. replace (S (S (2 * k))) with (2 * S k) in Hq by lia.
      rewrite seq_S, fmap_app, app_assoc. apply Forall2_app.
      * eapply Forall2_impl; [exact Hq|]. intros [l' j] p Hp. rewrite lookup_insert_ne; [done|].
        intros [= <- <-]. congruence.
      * repeat constructor. apply lookup_insert_eq.
    + intros j Hj. rewrite lookup_insert_ne by (intros [=]). by apply Hlv.
  - assert (cnt n l = 2 * k + 1) as Heq by lia.
    unfold queued_positions in Hq. replace (cnt n l - 2 * k) with 1 in Hq by lia.
    cbn [seq fmap list_fmap app] in Hq. apply Forall2_cons_inv_l in Hq as (pl & q1 & Hl & Hq & ->).
    rewrite Heven in Hl. destruct k as [|k]; [lia|]. pose proof Hq as Hq0. cbn [seq fmap list_fmap] in Hq.
    apply Forall2_cons_inv_l in Hq as (next & tree & Hnext & Hq & ->).
    assert (pm !! (l, 2 * N.of_nat (S k) + 1)%N = None) as Hpad by (apply Hnone; unfold made; lia).
    assert (graph (h ++ [new_empty (N.of_nat l) (N.of_nat (length h))])
              (<[(l, 2 * N.of_nat (S k) + 1)%N := length h]> pm) val) as Hg1.
    { replace (new_empty (N.of_nat l) (N.of_nat (length h))) with
        (mk_TreeNode (val l (2 * N.of_nat (S k) + 1)%N) None None None (N.of_nat l) (N.of_nat (length h))).
      2: { unfold new_empty. rewrite Nat2N.id, reference_empty_node_eq. f_equal. apply Hval. lia. }
      apply graph_alloc; [done|done|by rewrite div2_succ_double| |].
      - destruct l as [|l]; [done|]. apply Hnone. unfold made. lia.
      - destruct l as [|l]; [done|]. apply Hnone. unfold made. lia. }
    destruct (push_parent_ok _ _ val n l (N.of_nat (S k)) pl (length h) (next :: tree) Hg1 Hval)
      as (h' & Hrun & Hg' & Hlen').
    + rewrite lookup_insert_ne by (intros [=]; lia). done.
    + by rewrite lookup_insert_eq.
    + rewrite lookup_insert_ne by (intros [=]; lia). done.
    + rewrite lookup_insert_ne by (intros [=]; lia). done.
    + done.
    + rewrite length_app. simpl. lia.
    + rewrite length_app in Hrun, Hlen', Hg'. cbn [length] in Hrun, Hlen', Hg'.
      exists pl, next, tree, h', ((next :: tree) ++ [length h + 1]),
        (<[(S l, N.of_nat (S k)) := length h + 1]> (<[(l, 2 * N.of_nat (S k) + 1)%N := length h]> pm)).
      split; [done|]. split; [|split; [split; [done| | |]|lia]].
      * unfold build_step. rewrite (borrow_ok _ _ _ _ _ _ Hg Hl), (borrow_ok _ _ _ _ _ _ Hg Hnext).
        cbn [mbind outcome_bind tn_level cell_at]. rewrite decide_True by lia. rewrite wadd_ok by lia.
        cbn [mbind outcome_bind]. by replace (N.of_nat (length h) + 1)%N with (N.of_nat (length h + 1)) by lia.
      * intros l' j. rewrite made_step by done. rewrite !lookup_insert_is_Some, Hm, Hodd. split.
        -- intros [[= <- <-]|[_ [[= <- <-]|[_ ?]]]]; [right; by right|right; by left|by left].
        -- intros [?|[[= -> ->]|[= -> ->]]]; [|right|by left].
           ++ destruct (decide ((S l, N.of_nat (S k)) = (l', j))); [by left|right; split; [done|]].
              destruct (decide ((l, 2 * N.of_nat (S k) + 1)%N = (l', j))); [by left|by right].
           ++ split; [intros [=]; lia|]. by left.
      * unfold queued_positions. replace (cnt n l - 2 * S (S k)) with 0 by lia.
        rewrite (seq_S (S k) 0), fmap_app.
        change (((λ j, (l, N.of_nat j)) <$> seq (2 * S (S k)) 0) ++ ?r) with r. apply Forall2_app.
        -- eapply Forall2_impl; [exact Hq0|]. intros [l' j] p Hp.
           rewrite !lookup_insert_ne; [done|..]; intros [= <- <-]; congruence.
        -- repeat constructor. apply lookup_insert_eq.
      * intros j Hj. rewrite lookup_insert_ne by (intros [=]). rewrite lookup_insert_ne; [by apply Hlv|].
        intros [= -> ?]. cbn [cnt] in Hlast. lia.
Qed.

(** The turns of a level. *)
Lemma build_level_ok val n l m k h q pm fuel :
  stage val n l k h q pm → tree_values val n → 1 < cnt n l → k + m = cnt n (S l) → l < 64 →
  (N.of_nat (length h + 2 * m) < 2 ^ 128)%N →
  ∃ h' q' pm', build_loop (E:=E) (m + fuel) h q (N.of_nat (length h)) =
      build_loop fuel h' q' (N.of_nat (length h')) ∧
    stage val n l (cnt n (S l)) h' q' pm' ∧ length h + m ≤ length h' ≤ length h + 2 * m.
Proof.
  revert k h q pm. induction m as [|m IH]; intros k h q pm Hst Hval H1 Hk H64 Hlen.
  { exists h, q, pm. replace (cnt n (S l)) with k by lia. split; [done|split; [done|lia]]. }
  destruct (build_step_ok val n l k h q pm) as (pl & next & tree & h1 & q1 & pm1 & -> & Hstep & Hst1 & Hlen1);
    [done|done|done|lia|done|lia|].
  destruct (IH (S k) h1 q1 pm1) as (h' & q' & pm' & Hrun & Hst' & Hlen'); [done|done|done|lia|done|lia|].
  exists h', q', pm'. split; [|split; [done|lia]].
  cbn [Nat.add build_loop]. rewrite Hstep. exact Hrun.
Qed.

(** How many levels are made. *)
Definition levels (n : nat) : nat := N.to_nat (N.log2_up (N.of_nat n)).

Lemma cnt_lt n l c : (N.of_nat c * 2 ^ N.of_nat l < N.of_nat n)%N ↔ c < cnt n l.
Proof.
  revert c. induction l as [|l IH]; intros c.
  - change (2 ^ N.of_nat 0)%N with 1%N. cbn [cnt]. lia.
  - replace (N.of_nat c * 2 ^ N.of_nat (S l))%N with (N.of_nat (2 * c) * 2 ^ N.of_nat l)%N
      by (rewrite Nat2N.inj_succ, N.pow_succ_r', Nat2N.inj_mul; change (N.of_nat 2) with 2%N; ring).
    rewrite IH. cbn [cnt]. pose proof (div2_bounds (cnt n l)). lia.
Qed.

Lemma cnt_levels n l : 0 < n → (1 < cnt n l ↔ l < levels n) ∧ 0 < cnt n l.
Proof.
  intros Hn. rewrite <-!cnt_lt. split; [|lia]. rewrite N.mul_1_l. unfold levels.
  rewrite N.log2_up_lt_pow2 by lia. lia.
Qed.

Lemma build_levels_ok val n k l h q pm fuel :
  0 < n → (N.of_nat n < 2 ^ 64)%N → tree_values val n → l + k = levels n → stage val n l 0 h q pm → l < length h →
  2 * cnt n l ≤ S fuel → (N.of_nat (length h + 4 * cnt n l) < 2 ^ 128)%N →
  ∃ h' p pm', build_loop (E:=E) fuel h q (N.of_nat (length h)) = Ok (h', [p]) ∧
    stage val n (levels n) 0 h' [p] pm' ∧ levels n < length h'.
Proof.
  intros Hn H64 Hval. revert l h q pm fuel. induction k as [|k IH]; intros l h q pm fuel Hl Hst Hlt Hfuel Hlen;
    pose proof (cnt_levels n l Hn) as [Hc Hpos].
  - assert (l = levels n) as -> by lia. assert (cnt n (levels n) = 1) as H1 by lia.
    pose proof (st_queue _ _ _ _ _ _ _ Hst) as Hq. unfold queued_positions in Hq. rewrite H1 in Hq.
    cbn in Hq. apply Forall2_cons_inv_l in Hq as (p & q' & Hp & Hq & ->). apply Forall2_nil_inv_l in Hq as ->.
    exists h, p, pm. destruct fuel as [|fuel]; [lia|]. done.
  - assert (1 < cnt n l) as H1 by (apply Hc; lia). pose proof (div2_bounds (cnt n l)) as Hb.
    assert (l < 64) as Hl64.
    { assert (N.log2_up (N.of_nat n) ≤ 64)%N by (apply N.log2_up_le_pow2; lia). unfold levels in Hl. lia. }
    destruct (build_level_ok val n l (cnt n (S l)) 0 h q pm (fuel - cnt n (S l)))
      as (h1 & q1 & pm1 & Hrun & Hst1 & Hlen1); [done..|cbn [cnt]; lia|].
    replace (cnt n (S l) + (fuel - cnt n (S l))) with fuel in Hrun by (cbn [cnt]; lia). rewrite Hrun.
    pose proof (cnt_levels n (S l) Hn) as [_ Hpos1].
    apply stage_next in Hst1. eapply (IH (S l)); [lia|done|cbn [cnt] in *; lia..].
Qed.

(** ** The tree that a heap holds *)

(** [t] holds the tree [T]: the cells are the nodes of its first levels, for [n]
    leaves, completed with empty nodes. *)
Record mirrors (t : MerkleTree) (T : tree) (n : nat) (pm : pointers) : Prop := mk_mirrors {
  mi_graph : graph (mt_cells t) pm (tnode T);
  mi_cells : ∀ l j, is_Some (pm !! (l, j)) ↔ made n (levels n) 0 l j;
  mi_leaves : ∀ i, leaf_nodes t !! N.to_nat i = (if decide (i < N.of_nat n)%N then pm !! (0, i) else None);
  mi_root : mt_root t = troot T (levels n);
  mi_length : levels n < length (mt_cells t);
  mi_pos : 0 < n;
}.

Definition tree_of_leaves (leaves : list Node) : tree := kmap N.of_nat (map_seq (M:=gmap nat Node) 0 leaves).

Lemma lookup_tree_of_leaves leaves i : tree_of_leaves leaves !! i = leaves !! N.to_nat i.
Proof.
  unfold tree_of_leaves. rewrite <-(N2Nat.id i) at 1. by rewrite lookup_kmap, lookup_map_seq_0 by apply _.
Qed.

Lemma tree_values_leaves leaves : tree_values (tnode (tree_of_leaves leaves)) (length leaves).
Proof.
  split; [done|]. intros l j Hj. apply tnode_empty. intros i Hi.
  unfold leaf_at. rewrite lookup_tree_of_leaves. rewrite (proj2 (lookup_ge_None _ _)); [done|].
  destruct (decide (length leaves ≤ N.to_nat i)) as [|Hlt]; [done|]. exfalso.
  assert (¬ N.to_nat j < cnt (length leaves) l) as Hnot by lia. apply Hnot, cnt_lt. rewrite N2Nat.id, <-Hi.
  rewrite N.shiftr_div_pow2. pose proof (N.Div0.mul_div_le i (2 ^ N.of_nat l)). lia.
Qed.
End build.
