(* ===== verification/ReferenceTreeClimb.v ===== *)
(** * Climbing the off-chain tree

    [MerkleTree::new] leads to a heap that mirrors the tree of its leaves;
    [get_proof_of_leaf] reads the proof of a leaf off it, and [add_leaf] and
    [remove_leaf] rewrite the path of a leaf, so that the heap mirrors the tree
    with the leaf written. *)

From S2P Require Import Prelude Hashing MerkleSpec ReferenceTree ReferenceTreeTheorems.

Section climb.
Context `{Keccak} `{BuildProfile} {E : Type}.
Implicit Types (t : MerkleTree) (T : tree) (n l : nat) (i : N) (h : cells) (pm : pointers).

(** ** [MerkleTree::new] *)

Definition leaf_pointers n : pointers :=
  kmap (λ k : nat, (0, N.of_nat k)) (map_seq (M:=gmap nat nat) 0 (seq 0 n)).

Lemma leaf_pointers_Some n l j p :
  leaf_pointers n !! (l, j) = Some p ↔ l = 0 ∧ j = N.of_nat p ∧ p < n.
Proof.
  assert (Inj (=) (=) (λ k : nat, (0, N.of_nat k))) by (intros ? ? [=]; lia).
  unfold leaf_pointers. rewrite lookup_kmap_Some by done. setoid_rewrite lookup_map_seq_0. split.
  - intros (i & [= -> ->] & Hi). apply lookup_seq in Hi as [-> ?]. done.
  - intros (-> & -> & Hp). exists p. split; [done|]. by apply lookup_seq.
Qed.

Lemma new_stage leaves :
  let n := length leaves in
  stage (tnode (tree_of_leaves leaves)) n 0 0 (imap leaf_cell leaves) (seq 0 n) (leaf_pointers n).
Proof.
  intros n. split; [split| | |].
  - intros l j p Hp. apply leaf_pointers_Some in Hp as (-> & -> & Hp).
    rewrite list_lookup_imap. destruct (lookup_lt_is_Some_2 leaves p Hp) as [v Hv]. rewrite Hv. cbn. f_equal.
    unfold leaf_cell, set_tn_node, cell_at. cbn. f_equal.
    + unfold leaf_at. by rewrite lookup_tree_of_leaves, Nat2N.id, Hv.
    + symmetry. apply eq_None_not_Some. intros [q Hq]. by apply leaf_pointers_Some in Hq as [??].
  - intros [l1 j1] [l2 j2] p (-> & -> & _)%leaf_pointers_Some (-> & -> & _)%leaf_pointers_Some. done.
  - intros l j. unfold made. cbn [cnt]. split.
    + intros [p (-> & -> & Hp)%leaf_pointers_Some]. right; left. split; [done|lia].
    + intros [[??]|[[-> Hj]|[_ ?]]]; [lia| |lia]. exists (N.to_nat j). apply leaf_pointers_Some. lia.
  - unfold queued_positions. cbn [cnt Nat.mul seq fmap list_fmap]. rewrite Nat.sub_0_r, app_nil_r.
    apply Forall2_fmap_l, Forall_Forall2_diag, Forall_forall. intros i Hi.
    apply elem_of_seq in Hi. apply leaf_pointers_Some. split; [done|split; [done|lia]].
  - intros j Hj. by apply leaf_pointers_Some.
Qed.

Lemma MerkleTree_new_ok leaves :
  0 < length leaves → (N.of_nat (length leaves) < 2 ^ 64)%N →
  ∃ t pm, MerkleTree_new (E:=E) leaves = Ok t ∧ mirrors t (tree_of_leaves leaves) (length leaves) pm.
Proof.
  intros Hpos H64. pose proof (new_stage leaves) as Hst. cbn zeta in Hst.
  assert (length (imap leaf_cell leaves) = length leaves) as Hlen by apply length_imap.
  destruct (build_levels_ok (E:=E) _ _ (levels (length leaves)) 0 _ _ _ (S (2 * length leaves)) Hpos H64
    (tree_values_leaves leaves) eq_refl Hst) as (h & p & pm & Hrun & Hst' & Hlv).
  { lia. } { cbn [cnt]. lia. } { rewrite Hlen. cbn [cnt]. change (2 ^ 128)%N with (2 ^ 64 * 2 ^ 64)%N. lia. }
  pose proof (cnt_levels (length leaves) (levels (length leaves)) Hpos) as [Hc Hcpos].
  assert (pm !! (levels (length leaves), 0%N) = Some p) as Hp.
  { pose proof (st_queue _ _ _ _ _ _ _ Hst') as Hq. unfold queued_positions in Hq.
    destruct (cnt _ _) as [|[|?]]; [lia| |lia]. by inversion Hq. }
  unfold MerkleTree_new, build_root. rewrite length_seq. rewrite Hlen in Hrun. rewrite Hrun.
  cbn [mbind outcome_bind]. rewrite (index_lookup [p] 0 p) by done. cbn [mbind outcome_bind].
  rewrite (borrow_ok _ _ _ _ _ _ (st_graph _ _ _ _ _ _ _ Hst') Hp). cbn [mbind outcome_bind].
  eexists _, pm. split; [done|]. split; [apply Hst'|apply Hst'| |done|done|done].
  intros i. cbn [leaf_nodes]. case_decide as Hi.
  - rewrite lookup_seq_lt by lia. pose proof (st_leaves _ _ _ _ _ _ _ Hst' (N.to_nat i) ltac:(lia)) as Hlf.
    rewrite N2Nat.id in Hlf. by rewrite Hlf.
  - apply lookup_ge_None. rewrite length_seq. lia.
Qed.

(** ** Climbing *)

(** The cells around a position of the path of leaf [i] below the root. *)
Lemma climb_step T n pm i l :
  (∀ l j, is_Some (pm !! (l, j)) ↔ made n (levels n) 0 l j) → (i < N.of_nat n)%N → l < levels n →
  ∃ p pl pr pp, pm !! (l, ix i l) = Some p ∧ pm !! (S l, ix i (S l)) = Some pp ∧
    pm !! (l, 2 * ix i (S l))%N = Some pl ∧ pm !! (l, 2 * ix i (S l) + 1)%N = Some pr ∧
    p = (if N.testbit i (N.of_nat l) then pr else pl).
Proof.
  intros Hcells Hi Hl. pose proof (cnt_levels n (levels n) ltac:(lia)) as [Hc Hpos].
  assert (∀ k, N.to_nat (ix i k) < cnt n k) as Hix.
  { intros k. apply cnt_lt. rewrite N2Nat.id, N.shiftr_div_pow2.
    pose proof (N.Div0.mul_div_le i (2 ^ N.of_nat k)). lia. }
  pose proof (Hix (S l)) as HS.
  destruct (proj2 (Hcells l (2 * ix i (S l))%N)) as [pl Hpl]; [left; split; [done|lia]|].
  destruct (proj2 (Hcells l (2 * ix i (S l) + 1)%N)) as [pr Hpr]; [left; split; [done|lia]|].
  destruct (proj2 (Hcells (S l) (ix i (S l)))) as [pp Hpp].
  { unfold made. destruct (decide (S l = levels n)) as [Hlv|]; [right; left; rewrite Hlv in *; split; [done|lia]|].
    left. pose proof (div2_bounds (cnt n (S l))). split; [lia|]. cbn [cnt] in *. lia. }
  exists (if N.testbit i (N.of_nat l) then pr else pl), pl, pr, pp. split; [|done].
  destruct (ix_children i l) as [-> _]. by destruct (N.testbit _ _).
Qed.

(** What the two loops read of the cell under the cursor. *)
Lemma climb_reads val n pm i l h :
  graph h pm val → (∀ l j, is_Some (pm !! (l, j)) ↔ made n (levels n) 0 l j) →
  (i < N.of_nat n)%N → l < levels n →
  ∃ p pl pr pp, pm !! (l, ix i l) = Some p ∧ pm !! (S l, ix i (S l)) = Some pp ∧
    borrow (E:=E) h p = Ok (cell_at pm val l (ix i l) p) ∧
    tn_parent (cell_at pm val l (ix i l) p) = Some pp ∧
    borrow (E:=E) h pp = Ok (cell_at pm val (S l) (ix i (S l)) pp) ∧
    tn_left (cell_at pm val (S l) (ix i (S l)) pp) = Some pl ∧
    tn_right (cell_at pm val (S l) (ix i (S l)) pp) = Some pr ∧
    borrow (E:=E) h pl = Ok (cell_at pm val l (2 * ix i (S l)) pl) ∧
    borrow (E:=E) h pr = Ok (cell_at pm val l (2 * ix i (S l) + 1) pr) ∧
    (N.of_nat pl =? N.of_nat p)%N = negb (N.testbit i (N.of_nat l)).
Proof.
  intros Hg Hcells Hi Hl.
  destruct (climb_step ∅ n pm i l Hcells Hi Hl) as (p & pl & pr & pp & Hp & Hpp & Hpl & Hpr & Heq).
  exists p, pl, pr, pp. split; [done|]. split; [done|]. split; [by eapply borrow_ok|].
  split. { cbn [cell_at tn_parent]. replace (N.div2 (ix i l)) with (ix i (S l)); [done|]. by rewrite ix_S, N.div2_spec. }
  split; [by eapply borrow_ok|]. split; [done|]. split; [done|]. split; [by eapply borrow_ok|].
  split; [by eapply borrow_ok|]. destruct (N.testbit i (N.of_nat l)); subst p; simpl.
  - apply N.eqb_neq. intros Hid. assert (pl = pr) as -> by lia.
    pose proof (gr_inj _ _ _ Hg _ _ _ Hpl Hpr) as [=]. lia.
  - apply N.eqb_refl.
Qed.

(** The cell at the top. *)
Lemma climb_top val n pm i h :
  graph h pm val → (∀ l j, is_Some (pm !! (l, j)) ↔ made n (levels n) 0 l j) → (i < N.of_nat n)%N →
  ∃ p, pm !! (levels n, ix i (levels n)) = Some p ∧ ix i (levels n) = 0%N ∧
    borrow (E:=E) h p = Ok (cell_at pm val (levels n) 0 p) ∧ tn_parent (cell_at pm val (levels n) 0 p) = None.
Proof.
  intros Hg Hcells Hi. pose proof (cnt_levels n (levels n) ltac:(lia)) as [Hc Hpos].
  assert (ix i (levels n) = 0%N) as Hix.
  { apply ix_eq_0. assert (N.of_nat n ≤ 2 ^ N.of_nat (levels n))%N; [|lia].
    unfold levels. rewrite N2Nat.id. apply N.log2_up_le_pow2; lia. }
  rewrite Hix. destruct (proj2 (Hcells (levels n) 0%N)) as [p Hp]; [right; left; split; [done|lia]|].
  exists p. split; [done|]. split; [done|]. split; [by eapply borrow_ok|].
  cbn [cell_at tn_parent]. apply eq_None_not_Some. intros Hs. apply Hcells in Hs.
  destruct Hs as [[? _]|[[? _]|[_ Hj]]]; [lia|lia|]. by apply N.nlt_0_r in Hj.
Qed.

(** [get_proof_of_leaf] from the cell of level [l]. *)
Lemma get_proof_loop_ok T n pm i h k l p proof fuel :
  graph h pm (tnode T) → (∀ l j, is_Some (pm !! (l, j)) ↔ made n (levels n) 0 l j) → (i < N.of_nat n)%N →
  l + k = levels n → pm !! (l, ix i l) = Some p → k < fuel →
  get_proof_loop (E:=E) fuel h p proof = Ok (proof ++ ((λ l, tnode T l (sibling_ix i l)) <$> seq l k)).
Proof.
  intros Hg Hcells Hi. revert l p proof fuel.
  induction k as [|k IH]; intros l p proof fuel Hl Hp Hfuel; (destruct fuel as [|fuel]; [lia|]); cbn [get_proof_loop].
  - assert (l = levels n) as -> by lia.
    destruct (climb_top (tnode T) n pm i h Hg Hcells Hi) as (p' & Hp' & _ & Hb & Hparent).
    assert (p' = p) as -> by congruence. rewrite Hb. cbn [mbind outcome_bind]. rewrite Hparent.
    by rewrite app_nil_r.
  - destruct (climb_reads (tnode T) n pm i l h Hg Hcells Hi ltac:(lia))
      as (p' & pl & pr & pp & Hp' & Hpp & Hb & Hparent & Hbp & Hleft & Hright & Hbl & Hbr & Hid).
    assert (p' = p) as -> by congruence. rewrite Hb. cbn [mbind outcome_bind]. rewrite Hparent, Hbp.
    cbn [mbind outcome_bind]. rewrite Hleft. cbn [unwrap mbind outcome_bind]. rewrite Hbl.
    cbn [mbind outcome_bind]. cbn [tn_id cell_at]. rewrite Hid. rewrite Hright.
    destruct (ix_children i l) as [_ Hsib]. cbn [seq fmap list_fmap].
    destruct (N.testbit i (N.of_nat l)); cbn [negb unwrap mbind outcome_bind]; rewrite ?Hbr; cbn [mbind outcome_bind];
      rewrite (IH (S l) pp) by (first [lia|done]); rewrite <-app_assoc, Hsib; done.
Qed.

(** [update_root_from_leaf]: the levels up to [l] hold the tree with the leaf
    written, those above still the tree before it. *)
Definition climbing T i (v : Node) l : nat → N → Node :=
  λ l' j, if decide (l' ≤ l) then tnode (<[i:=v]> T) l' j else tnode T l' j.

Lemma climbing_next T i v l :
  ∀ l' j, with_val (climbing T i v l) (S l) (ix i (S l)) (tnode (<[i:=v]> T) (S l) (ix i (S l))) l' j =
          climbing T i v (S l) l' j.
Proof.
  intros l' j. unfold with_val, climbing. case_decide as Heq.
  - injection Heq as -> ->. by rewrite decide_True.
  - repeat case_decide; try done; try lia. assert (l' = S l) as -> by lia.
    symmetry. apply tnode_insert_ne. congruence.
Qed.

Lemma update_root_loop_ok T i v n pm h k l p fuel :
  graph h pm (climbing T i v l) → (∀ l j, is_Some (pm !! (l, j)) ↔ made n (levels n) 0 l j) →
  (i < N.of_nat n)%N → l + k = levels n → pm !! (l, ix i l) = Some p → k < fuel →
  ∃ h', update_root_loop (E:=E) fuel h p = Ok (h', troot (<[i:=v]> T) (levels n)) ∧
    graph h' pm (climbing T i v (levels n)) ∧ length h' = length h.
Proof.
  intros Hg Hcells Hi. revert l p h fuel Hg.
  induction k as [|k IH]; intros l p h fuel Hg Hl Hp Hfuel; (destruct fuel as [|fuel]; [lia|]); cbn [update_root_loop].
  - assert (l = levels n) as -> by lia.
    destruct (climb_top _ n pm i h Hg Hcells Hi) as (p' & Hp' & _ & Hb & Hparent).
    assert (p' = p) as -> by congruence. rewrite Hb. cbn [mbind outcome_bind]. rewrite Hparent.
    exists h. split; [|done]. do 2 f_equal. cbn [tn_node cell_at]. unfold climbing. by rewrite decide_True.
  - destruct (climb_reads _ n pm i l h Hg Hcells Hi ltac:(lia))
      as (p' & pl & pr & pp & Hp' & Hpp & Hb & Hparent & Hbp & Hleft & Hright & Hbl & Hbr & Hid).
    assert (p' = p) as -> by congruence. rewrite Hb. cbn [mbind outcome_bind]. rewrite Hparent, Hbp.
    cbn [mbind outcome_bind]. rewrite Hleft. cbn [unwrap mbind outcome_bind]. rewrite Hbl.
    cbn [mbind outcome_bind]. cbn [tn_id cell_at]. rewrite Hid, Hright.
    assert (∀ j, climbing T i v l l j = tnode (<[i:=v]> T) l j) as Hcur
      by (intros j; unfold climbing; by rewrite decide_True).
    pose proof (graph_set _ _ _ _ _ _ (tnode (<[i:=v]> T) (S l) (ix i (S l))) Hg Hpp) as Hg'.
    apply (graph_ext _ _ _ _ (climbing_next T i v l)) in Hg'.
    assert (h !! pp = Some (cell_at pm (climbing T i v l) (S l) (ix i (S l)) pp)) as Hlook
      by by apply (gr_cell _ _ _ Hg).
    destruct (IH (S l) pp _ fuel Hg') as (h' & Hrun & Hgh & Hlen); [lia|done|lia|].
    exists h'. rewrite length_insert in Hlen. split; [|done]. destruct (ix_children i l) as [Hix _].
    destruct (N.testbit i (N.of_nat l)); cbn [negb unwrap mbind outcome_bind]; rewrite ?Hbr; cbn [mbind outcome_bind];
      rewrite (borrow_mut_ok _ _ _ _ Hlook); cbn [mbind outcome_bind tn_node cell_at];
      rewrite !Hcur, Hix; exact Hrun.
Qed.
End climb.
