(* ===== verification/ReferenceTreeProperties.v ===== *)
(** * The off-chain tree keeps up with the on-chain one

    [holds] is what a client knows of the [MerkleTree] it keeps; the theorems say
    that its operations refine writes to the abstract tree, that updating it is
    the same as building it again, and that a client who sends the proofs it
    reads off it, and writes to it what the program accepted, has the root of the
    program after every call. *)

From S2P Require Import Prelude Hashing MerkleSpec ChangeLog MerkleRoll MerkleRollSpec.
From S2P Require Import MerkleRollLemmas MerkleRollWrite MerkleRollTotal MerkleRollAppend.
From S2P Require Import MerkleRollInit MerkleRollTheorems.
From S2P Require Import ReferenceTree ReferenceTreeTheorems ReferenceTreeClimb.

(** What a client of the on-chain tree sends, with the tree it keeps, and what it
    then does with its own tree; both roots are returned. *)
Inductive client_op :=
  | ClientAppend (leaf : Node)
  | ClientReplace (index : N) (leaf : Node).

Section client.
Context (d : nat) (B : N) `{Keccak} `{BuildProfile}.

Definition client_step (op : client_op) (t : MerkleTree) (s : MerkleRoll) :
    outcome CMTError (Node * MerkleTree) * MerkleRoll :=
  match op with
  | ClientAppend v =>
      let '(r, s') := append d B v s in
      (r ← r; t ← add_leaf t v (rm_index (rightmost_proof s)); Ok (r, t), s')
  | ClientReplace i v =>
      match (lf ← get_leaf t i; p ← get_proof_of_leaf t i; Ok (lf, p)) with
      | Ok (lf, p) =>
          let '(r, s') := set_leaf d B (reference_get_root t) lf v p i s in
          (r ← r; t ← add_leaf t v i; Ok (r, t), s')
      | Err e => (Err e, s)
      | Panic => (Panic, s)
      | OutOfFuel => (OutOfFuel, s)
      end
  end.

Fixpoint client_run (ops : list client_op) (t : MerkleTree) (s : MerkleRoll) :
    outcome CMTError (list (Node * Node) * MerkleTree) * MerkleRoll :=
  match ops with
  | [] => (Ok ([], t), s)
  | op :: ops =>
      match client_step op t s with
      | (Ok (r, t'), s') =>
          let '(rs, s'') := client_run ops t' s' in
          ('(rs, t'') ← rs; Ok ((r, reference_get_root t') :: rs, t''), s'')
      | (Err e, s') => (Err e, s')
      | (Panic, s') => (Panic, s')
      | (OutOfFuel, s') => (OutOfFuel, s')
      end
  end.

(** Calls the program accepts: no empty leaf is appended, no leaf beyond the next
    free one is replaced, no index is beyond the tree. *)
Fixpoint allowed (n : nat) (count : N) (ops : list client_op) : Prop :=
  match ops with
  | [] => True
  | ClientAppend v :: ops => v ≠ EMPTY ∧ (count < N.of_nat n)%N ∧ allowed n (count + 1) ops
  | ClientReplace i v :: ops => (i < N.of_nat n)%N ∧ (i ≤ count)%N ∧ allowed n (N.max count (i + 1)) ops
  end.

Definition op_write (op : client_op) (a : aroll) : aroll :=
  match op with
  | ClientAppend v => a_write B a (a_count a) v
  | ClientReplace i v => a_write B a i v
  end.

(** [t] has the [n] leaves of [T], and its cells are the nodes above them. *)
Definition holds (t : MerkleTree) (T : tree) (n : nat) : Prop :=
  ∃ T' pm, mirrors t T' n pm ∧ ∀ i, leaf_at T' i = leaf_at T i.
End client.

Section off_chain.
Context `{Keccak} `{BuildProfile} {E : Type}.
Implicit Types (t : MerkleTree) (T : tree) (n : nat) (i : N) (v : Node).

Lemma tnode_leaves T1 T2 : (∀ i, leaf_at T1 i = leaf_at T2 i) → ∀ l j, tnode T1 l j = tnode T2 l j.
Proof. intros Heq l j. apply tnode_ext. auto. Qed.

Lemma holds_root t T n : holds t T n → reference_get_root t = troot T (levels n).
Proof. intros (T' & pm & Hm & Heq). unfold reference_get_root. rewrite (mi_root _ _ _ _ Hm). by apply tnode_leaves. Qed.

Lemma leaf_pointer t T n pm i :
  mirrors t T n pm → (i < N.of_nat n)%N →
  ∃ p, pm !! (0, i) = Some p ∧ Prelude.index (E:=E) (leaf_nodes t) i = Ok p ∧
    mt_cells t !! p = Some (cell_at pm (tnode T) 0 i p).
Proof.
  intros Hm Hi. pose proof (mi_leaves _ _ _ _ Hm i) as Hlf. rewrite decide_True in Hlf by done.
  assert (is_Some (pm !! (0, i))) as [p Hp].
  { apply (mi_cells _ _ _ _ Hm). pose proof (cnt_levels n 0 (mi_pos _ _ _ _ Hm)) as [Hc _]. unfold made.
    destruct (levels n) as [|l] eqn:Hl; [right; left; split; [done|cbn [cnt] in *; lia]|].
    left. split; [lia|]. pose proof (div2_bounds (cnt n 0)). cbn [cnt] in *. lia. }
  exists p. split; [done|]. split; [apply index_lookup; congruence|]. by apply (gr_cell _ _ _ (mi_graph _ _ _ _ Hm)).
Qed.

Lemma leaf_beyond t T n i {A} (f : nat → outcome E A) :
  holds t T n → (N.of_nat n ≤ i)%N → (p ← Prelude.index (leaf_nodes t) i; f p) = Panic.
Proof.
  intros (T' & pm & Hm & _) Hi. rewrite index_ge; [done|].
  pose proof (mi_leaves _ _ _ _ Hm i) as Hlf. rewrite decide_False in Hlf by lia.
  apply lookup_ge_None in Hlf. lia.
Qed.

Lemma get_leaf_holds t T n i :
  holds t T n → (i < N.of_nat n)%N → get_leaf (E:=E) t i = Ok (leaf_at T i).
Proof.
  intros (T' & pm & Hm & Heq) Hi. destruct (leaf_pointer t T' n pm i Hm Hi) as (p & Hp & Hidx & Hcell).
  unfold get_leaf, get_node. rewrite Hidx. cbn [mbind outcome_bind]. unfold borrow. rewrite Hcell.
  cbn [unwrap mbind outcome_bind]. by rewrite <-Heq.
Qed.

Lemma get_proof_holds t T n i :
  holds t T n → (i < N.of_nat n)%N → get_proof_of_leaf (E:=E) t i = Ok (tproof T (levels n) i).
Proof.
  intros (T' & pm & Hm & Heq) Hi. destruct (leaf_pointer t T' n pm i Hm Hi) as (p & Hp & Hidx & _).
  unfold get_proof_of_leaf. rewrite Hidx. cbn [mbind outcome_bind].
  pose proof (mi_length _ _ _ _ Hm).
  rewrite (get_proof_loop_ok T' n pm i _ (levels n) 0 p [] _ (mi_graph _ _ _ _ Hm) (mi_cells _ _ _ _ Hm) Hi)
    by (rewrite ?ix_0; first [done|lia]).
  f_equal. apply list_fmap_ext. intros k l Hl. by apply tnode_leaves.
Qed.

Lemma write_holds t T n i v p :
  holds t T n → (i < N.of_nat n)%N → Prelude.index (E:=E) (leaf_nodes t) i = Ok p →
  ∃ t', (h ← borrow_mut (E:=E) (mt_cells t) p (set_tn_node v);
         update_root_from_leaf (mk_MerkleTree h (leaf_nodes t) (mt_root t)) i) = Ok t' ∧ holds t' (<[i:=v]> T) n.
Proof.
  intros (T' & pm & Hm & Heq) Hi Hidx.
  destruct (leaf_pointer t T' n pm i Hm Hi) as (p' & Hp & Hidx' & Hcell).
  assert (p' = p) as -> by congruence. rewrite (borrow_mut_ok _ _ _ _ Hcell). cbn [mbind outcome_bind].
  unfold update_root_from_leaf. cbn [leaf_nodes mt_cells]. rewrite Hidx. cbn [mbind outcome_bind].
  pose proof (graph_set _ _ _ _ _ _ v (mi_graph _ _ _ _ Hm) Hp) as Hg.
  assert (∀ l j, with_val (tnode T') 0 i v l j = climbing T' i v 0 l j) as Hstart.
  { intros l j. unfold with_val, climbing. destruct l as [|l].
    - rewrite (decide_True (P:=0 ≤ 0)) by done. cbn [tnode]. case_decide as Hij; [injection Hij as ->; by rewrite leaf_at_insert|].
      rewrite leaf_at_insert_ne; [done|congruence].
    - rewrite decide_False by (intros [=]). by rewrite decide_False by lia. }
  apply (graph_ext _ _ _ _ Hstart) in Hg. pose proof (mi_length _ _ _ _ Hm) as Hlen.
  destruct (update_root_loop_ok (E:=E) T' i v n pm _ (levels n) 0 p
    (S (length (<[p:=set_tn_node v (cell_at pm (tnode T') 0 i p)]> (mt_cells t)))) Hg (mi_cells _ _ _ _ Hm) Hi)
    as (h' & Hrun & Hg' & Hlen'); [done|by rewrite ix_0|rewrite length_insert; lia|].
  rewrite Hrun. cbn [mbind outcome_bind]. eexists. split; [done|]. exists (<[i:=v]> T'), pm. split.
  - split; [|apply Hm|apply Hm|done| |apply Hm].
    + destruct Hg' as [Hc Hinj]. split; [|done]. intros l j q Hq. cbn [mt_cells]. rewrite (Hc _ _ _ Hq). f_equal.
      unfold cell_at. f_equal. unfold climbing. rewrite decide_True; [done|].
      assert (is_Some (pm !! (l, j))) as Hs by eauto. apply (mi_cells _ _ _ _ Hm) in Hs. unfold made in Hs. lia.
    + cbn [mt_cells]. rewrite Hlen', length_insert. exact Hlen.
  - intros j. destruct (decide (i = j)) as [->|]; [by rewrite !leaf_at_insert|by rewrite !leaf_at_insert_ne].
Qed.

Lemma add_leaf_holds t T n i v :
  holds t T n → (i < N.of_nat n)%N → ∃ t', add_leaf (E:=E) t v i = Ok t' ∧ holds t' (<[i:=v]> T) n.
Proof.
  intros Hh Hi. pose proof Hh as (T' & pm & Hm & _).
  destruct (leaf_pointer t T' n pm i Hm Hi) as (p & _ & Hidx & _).
  unfold add_leaf. rewrite Hidx. cbn [mbind outcome_bind]. by apply write_holds.
Qed.

Lemma new_holds leaves :
  0 < length leaves → (N.of_nat (length leaves) < 2 ^ 64)%N →
  ∃ t, MerkleTree_new (E:=E) leaves = Ok t ∧ holds t (tree_of_leaves leaves) (length leaves).
Proof.
  intros Hpos H64. destruct (MerkleTree_new_ok (E:=E) leaves Hpos H64) as (t & pm & Hrun & Hm).
  exists t. split; [done|]. by exists (tree_of_leaves leaves), pm.
Qed.

Lemma holds_ext t T1 T2 n : (∀ i, leaf_at T1 i = leaf_at T2 i) → holds t T1 n → holds t T2 n.
Proof. intros Heq (T' & pm & Hm & HT). exists T', pm. split; [done|]. intros i. by rewrite HT. Qed.

Lemma tree_of_leaves_insert leaves i v j :
  N.to_nat i < length leaves →
  leaf_at (<[i:=v]> (tree_of_leaves leaves)) j = leaf_at (tree_of_leaves (<[N.to_nat i:=v]> leaves)) j.
Proof.
  intros Hi. unfold leaf_at. destruct (decide (i = j)) as [->|Hne].
  - by rewrite lookup_insert_eq, lookup_tree_of_leaves, list_lookup_insert_eq.
  - by rewrite lookup_insert_ne, !lookup_tree_of_leaves, list_lookup_insert_ne by (first [done|lia]).
Qed.

Lemma updates_hold t leaves (ws : list (N * Node)) :
  holds t (tree_of_leaves leaves) (length leaves) →
  Forall (λ w, (w.1 < N.of_nat (length leaves))%N) ws →
  let leaves' := foldl (λ l w, <[N.to_nat w.1 := w.2]> l) leaves ws in
  ∃ t', foldM (E:=E) (λ t w, add_leaf t w.2 w.1) t ws = Ok t' ∧
    holds t' (tree_of_leaves leaves') (length leaves) ∧ length leaves' = length leaves.
Proof.
  revert t leaves. induction ws as [|[i v] ws IH]; intros t leaves Hh Hws; cbn [foldM foldl fst snd].
  { by exists t. }
  inversion Hws as [|?? Hi Hws']; subst. cbn [fst] in Hi.
  destruct (add_leaf_holds t _ _ i v Hh Hi) as (t1 & -> & Hh1). cbn [mbind outcome_bind].
  destruct (IH t1 (<[N.to_nat i:=v]> leaves)) as (t' & Hrun & Hh' & Hlen).
  - rewrite length_insert. eapply holds_ext; [|exact Hh1]. intros j. apply tree_of_leaves_insert. lia.
  - by rewrite length_insert.
  - rewrite length_insert in *. by exists t'.
Qed.

(** C22: the off-chain tree ([merkle-tree-reference]) is a tree.  Built from any
    number of leaves but none, it holds them, completed with empty leaves up to a
    power of two; its root and the proofs it gives are those of the abstract tree;
    [add_leaf] and [remove_leaf] write a leaf, and the root is again that of the
    tree with the leaf written; an index beyond the leaves panics, and so does
    building from no leaf.  The loops never run out of fuel. *)
Theorem reference_tree_refines :
  MerkleTree_new (E:=E) [] = Panic ∧
  (∀ leaves, 0 < length leaves → (N.of_nat (length leaves) < 2 ^ 64)%N →
     ∃ t, MerkleTree_new (E:=E) leaves = Ok t ∧ holds t (tree_of_leaves leaves) (length leaves)) ∧
  ∀ t T n i v, holds t T n →
    reference_get_root t = troot T (levels n) ∧
    if decide (i < N.of_nat n)%N then
      get_leaf (E:=E) t i = Ok (leaf_at T i) ∧
      get_proof_of_leaf (E:=E) t i = Ok (tproof T (levels n) i) ∧
      (∃ t', add_leaf (E:=E) t v i = Ok t' ∧ holds t' (<[i:=v]> T) n) ∧
      (∃ t', remove_leaf (E:=E) t i = Ok t' ∧ holds t' (<[i:=EMPTY]> T) n)
    else get_leaf (E:=E) t i = Panic ∧ get_proof_of_leaf (E:=E) t i = Panic ∧
      add_leaf (E:=E) t v i = Panic ∧ remove_leaf (E:=E) t i = Panic.
Proof.
  split; [done|]. split; [exact new_holds|].
  intros t T n i v Hh. split; [by apply holds_root|]. case_decide as Hi.
  - split; [by apply (get_leaf_holds t T n)|]. split; [by apply get_proof_holds|].
    split; [by apply add_leaf_holds|by apply (add_leaf_holds t T n i EMPTY)].
  - split; [|split; [|split]]; (eapply leaf_beyond; [exact Hh|lia]).
Qed.

(** Updating the off-chain tree is the same as building it again.  After any
    sequence of [add_leaf]s at indices of the tree, the root, every leaf and every
    proof are those of a tree built from the leaves with these updates. *)
Theorem update_equals_rebuild leaves (ws : list (N * Node)) :
  0 < length leaves → (N.of_nat (length leaves) < 2 ^ 64)%N →
  Forall (λ w, (w.1 < N.of_nat (length leaves))%N) ws →
  ∃ t t' t'', MerkleTree_new (E:=E) leaves = Ok t ∧
    foldM (E:=E) (λ t w, add_leaf t w.2 w.1) t ws = Ok t' ∧
    MerkleTree_new (E:=E) (foldl (λ l w, <[N.to_nat w.1 := w.2]> l) leaves ws) = Ok t'' ∧
    reference_get_root t' = reference_get_root t'' ∧
    ∀ i, get_leaf (E:=E) t' i = get_leaf t'' i ∧ get_proof_of_leaf (E:=E) t' i = get_proof_of_leaf t'' i.
Proof.
  intros Hpos H64 Hws. destruct (new_holds leaves Hpos H64) as (t & Hnew & Hh).
  destruct (updates_hold t leaves ws Hh Hws) as (t' & Hrun & Hh' & Hlen).
  destruct (new_holds (foldl (λ l w, <[N.to_nat w.1 := w.2]> l) leaves ws)) as (t'' & Hnew' & Hh'');
    [by rewrite Hlen|by rewrite Hlen|]. rewrite Hlen in Hh''.
  exists t, t', t''. split; [done|]. split; [done|]. split; [done|].
  split; [by rewrite (holds_root _ _ _ Hh'), (holds_root _ _ _ Hh'')|]. intros i.
  destruct (decide (i < N.of_nat (length leaves))%N) as [Hi|Hi].
  - by rewrite (get_leaf_holds _ _ _ i Hh'), (get_leaf_holds _ _ _ i Hh''),
      (get_proof_holds _ _ _ i Hh'), (get_proof_holds _ _ _ i Hh'') by done.
  - assert ((N.of_nat (length leaves) ≤ i)%N) as Hge by lia. unfold get_leaf, get_node, get_proof_of_leaf.
    by rewrite !(leaf_beyond _ _ _ i _ Hh' Hge), !(leaf_beyond _ _ _ i _ Hh'' Hge).
Qed.
End off_chain.

Section keeps_up.
Context (d : nat) (B : N) `{Keccak} `{BuildProfile} (Hsizes : sizes_ok d B).
Implicit Types (s : MerkleRoll) (a : aroll) (t : MerkleTree) (T : tree) (n : nat) (i : N) (v : Node).

(** A proof taken from the newest tree is accepted. *)
Lemma set_leaf_fresh s a i v :
  Rep d B s a → (i < 2 ^ N.of_nat d)%N → (i ≤ a_count a)%N →
  ∃ s', set_leaf d B (troot (a_tree a) d) (leaf_at (a_tree a) i) v (tproof (a_tree a) d i) i s =
      (Ok (troot (<[i:=v]> (a_tree a)) d), s') ∧ Rep d B s' (a_write B a i v).
Proof.
  intros HR Hi Hcount. destruct (a_hist_0 d B s a HR) as [i0 H0'].
  unfold set_leaf. run_method. rewrite (check_bounds_ok d B Hsizes). cbn beta iota.
  rewrite (rep_count _ _ _ _ HR), (proj2 (N.ltb_ge _ _) Hcount).
  rewrite (fill_truncated d (tproof (a_tree a) d i) (tproof (a_tree a) d i)).
  2: { split; rewrite length_tproof; [done|]. by rewrite Nat.sub_diag, app_nil_r. }
  cbn beta iota.
  pose proof (try_apply_replay d B Hsizes s a (troot (a_tree a) d) i v true 0 (a_tree a) i0 (tproof (a_tree a) d i)
    HR Hi Hcount H0' (mixed_tproof d _ _ i) (or_introl (find_root_head d a _ _ H0'))) as Htry.
  by rewrite decide_True in Htry.
Qed.

(** One call. *)
Lemma client_step_ok s a t n op :
  Rep d B s a → holds t (a_tree a) n → levels n = d → allowed n (a_count a) [op] →
  ∃ t' s', client_step d B op t s = (Ok (reference_get_root t', t'), s') ∧
    Rep d B s' (op_write B op a) ∧ holds t' (a_tree (op_write B op a)) n.
Proof.
  intros HR Hh Hn Hop.
  assert (∀ i, (i < N.of_nat n)%N → (i < 2 ^ N.of_nat d)%N) as Hlt.
  { intros i Hi. subst d. unfold levels. rewrite N2Nat.id.
    pose proof (N.log2_up_le_pow2 (N.of_nat n) (N.log2_up (N.of_nat n))). lia. }
  destruct op as [v|i v]; cbn [allowed] in Hop; cbn [client_step op_write].
  - destruct Hop as (Hv & Hcount & _). rewrite (a_tree_write d B Hsizes). rewrite (rep_count _ _ _ _ HR).
    destruct (append_ok d B Hsizes s a v) as (s' & -> & HR'); [done..|by apply Hlt|].
    destruct (add_leaf_holds (E:=CMTError) t _ n (a_count a) v Hh Hcount) as (t' & -> & Hh').
    exists t', s'. split; [|done]. cbn [mbind outcome_bind]. by rewrite (holds_root _ _ _ Hh'), Hn.
  - destruct Hop as (Hi & Hcount & _). rewrite (a_tree_write d B Hsizes).
    rewrite (get_leaf_holds t _ n i Hh Hi). cbn [mbind outcome_bind].
    rewrite (get_proof_holds t _ n i Hh Hi). cbn [mbind outcome_bind]. rewrite (holds_root _ _ _ Hh), Hn.
    destruct (set_leaf_fresh s a i v HR (Hlt i Hi) Hcount) as (s' & -> & HR').
    destruct (add_leaf_holds (E:=CMTError) t _ n i v Hh Hi) as (t' & -> & Hh').
    exists t', s'. split; [|done]. cbn [mbind outcome_bind]. by rewrite (holds_root _ _ _ Hh'), Hn.
Qed.

Lemma client_run_ok ops s a t n :
  Rep d B s a → holds t (a_tree a) n → levels n = d → allowed n (a_count a) ops →
  ∃ rs t' s', client_run d B ops t s = (Ok (rs, t'), s') ∧ length rs = length ops ∧
    Forall (λ p, p.1 = p.2) rs ∧
    Rep d B s' (foldl (λ a op, op_write B op a) a ops) ∧
    holds t' (a_tree (foldl (λ a op, op_write B op a) a ops)) n.
Proof.
  intros HR Hh Hn. revert s a t HR Hh. induction ops as [|op ops IH]; intros s a t HR Hh Hops.
  { by exists [], t, s. }
  destruct (client_step_ok s a t n op) as (t1 & s1 & Hstep & HR1 & Hh1); [done..|by destruct op; cbn in *; naive_solver|].
  destruct (IH s1 (op_write B op a) t1 HR1 Hh1) as (rs & t' & s' & Hrun & Hlen & Hrs & HR' & Hh').
  { destruct op as [v|i v]; cbn in Hops |- *; [|apply Hops]. rewrite N.max_r by lia. apply Hops. }
  cbn [client_run foldl]. rewrite Hstep, Hrun. eexists _, t', s'. split; [done|].
  split; [cbn; lia|]. by split; [constructor|].
Qed.

(** C9: a client who keeps the off-chain tree and sends what it reads off it is
    never out of step with the program.  From a fresh account and a tree of empty
    leaves, any sequence of appends and of replacements with the client's own
    root, leaf and proof is accepted, and after every call the root that the
    program returns is the client's. *)
Theorem client_keeps_up s n ops :
  blank d B s → 0 < n → levels n = d → allowed n 0 ops →
  ∃ t s1 rs t' s', MerkleTree_new (E:=CMTError) (replicate n EMPTY) = Ok t ∧
    initialize d B s = (Ok (reference_get_root t), s1) ∧
    client_run d B ops t s1 = (Ok (rs, t'), s') ∧ length rs = length ops ∧
    Forall (λ p, p.1 = p.2) rs ∧
    let a := foldl (λ a op, op_write B op a) (a_start ∅ 0 0 0) ops in
    Rep d B s' a ∧ holds t' (a_tree a) n ∧ reference_get_root t' = troot (a_tree a) d.
Proof.
  intros Hblank Hpos Hn Hops. destruct (initialize_ok d B Hsizes s Hblank) as (s1 & Hinit & HR).
  destruct (new_holds (E:=CMTError) (replicate n EMPTY)) as (t & Hnew & Hh); rewrite ?length_replicate in *; [done| |].
  { destruct Hsizes as [Hd _]. assert (N.log2_up (N.of_nat n) ≤ 30)%N as Hle by (unfold levels in Hn; lia).
    apply N.log2_up_le_pow2 in Hle; [|lia]. apply (N.le_lt_trans _ _ _ Hle). done. }
  assert (holds t (a_tree (a_start ∅ 0 0 0)) n) as Hh0.
  { eapply holds_ext; [|exact Hh]. intros i. unfold leaf_at at 1. rewrite lookup_tree_of_leaves.
    destruct (replicate n EMPTY !! N.to_nat i) as [x|] eqn:Hx; [|done]. by apply lookup_replicate in Hx as [-> _]. }
  destruct (client_run_ok ops s1 _ t n HR Hh0 Hn Hops) as (rs & t' & s' & Hrun & Hlen & Hrs & HR' & Hh').
  exists t, s1, rs, t', s'. split; [done|].
  split. { rewrite Hinit, (holds_root _ _ _ Hh0), Hn. do 2 f_equal. symmetry. by apply tnode_empty. }
  split; [done|]. split; [done|]. split; [done|]. cbv zeta. split; [done|]. split; [done|].
  by rewrite (holds_root _ _ _ Hh'), Hn.
Qed.
End keeps_up.

(** ** Witnesses *)
Module RTToy.
Import Toy.
#[local] Opaque toy_hashv.

Lemma update_equals_rebuild_witness :
  let leaves := toy_node <$> [1; 2; 3; 4; 5]%N in
  ∃ t t' t'', MerkleTree_new (E:=CMTError) leaves = Ok t ∧
    foldM (E:=CMTError) (λ t w, add_leaf t w.2 w.1) t [(4%N, toy_node 9); (0%N, EMPTY)] = Ok t' ∧
    MerkleTree_new (E:=CMTError) [EMPTY; toy_node 2; toy_node 3; toy_node 4; toy_node 9] = Ok t'' ∧
    reference_get_root t' = reference_get_root t'' ∧
    ∀ i, get_leaf (E:=CMTError) t' i = get_leaf t'' i ∧ get_proof_of_leaf (E:=CMTError) t' i = get_proof_of_leaf t'' i.
Proof.
  intros leaves. apply (update_equals_rebuild leaves [(4%N, toy_node 9); (0%N, EMPTY)]).
  - cbn. lia.
  - done.
  - repeat constructor.
Defined.

Lemma client_keeps_up_witness :
  let ops := [ClientAppend (toy_node 1); ClientReplace 1 (toy_node 2); ClientReplace 0 EMPTY;
              ClientAppend (toy_node 3)] in
  ∃ t s1 rs t' s', MerkleTree_new (E:=CMTError) (replicate 8 EMPTY) = Ok t ∧
    initialize 3 8 (new 3 8) = (Ok (reference_get_root t), s1) ∧
    client_run 3 8 ops t s1 = (Ok (rs, t'), s') ∧ length rs = length ops ∧
    Forall (λ p, p.1 = p.2) rs ∧
    let a := foldl (λ a op, op_write 8 op a) (a_start ∅ 0 0 0) ops in
    Rep 3 8 s' a ∧ holds t' (a_tree a) 8 ∧ reference_get_root t' = troot (a_tree a) 3.
Proof.
  intros ops. apply (client_keeps_up 3 8 sizes (new 3 8) 8 ops).
  - apply new_blank.
  - lia.
  - reflexivity.
  - subst ops. cbn [allowed].
    split; [apply (toy_node_neq 1); lia|split; [done|]]. split; [done|split; [done|]]. split; [done|split; [done|]].
    split; [apply (toy_node_neq 3); lia|split; done].
Defined.
End RTToy.
